(* ===== verification/_CoqProject ===== *)
-Q . S2P
Prelude.v
Capacity.v
NumExt.v
Rational.v
Difficulty.v
Types.v
Molecule.v
BlockCodec.v
Errors.v
Epoch.v
Cell.v
Consensus.v
Hashes.v
Store.v
Dao.v
Reward.v
ProposalTable.v
CellTwins.v
HeaderVerifier.v
BlockVerifier.v
UnclesVerifier.v
TransactionVerifier.v
ContextualVerifier.v
ChainCell.v
Chain.v
Reorg.v
ChainIndex.v
NodeStart.v
ChainSafety.v
PoolEntry.v
SortedTxMap.v
ProposedPool.v
CommitScanner.v
PendingQueue.v
OrphanPool.v
CandidateUncles.v
TxPool.v
PoolService.v
BlockAssembler.v
TemplateBlock.v
SkipList.v
OrphanBlockPool.v
InflightBlocks.v
SyncState.v
SyncShared.v
ActiveChain.v
Synchronizer.v
SyncInvariant.v
SyncBlocks.v
SyncNode.v
SyncSafety.v
SyncProperties.v
