(* ===== verification/Prelude.v ===== *)
(** * Verification of the Nervos CKB node

    The node (src/) validates and stores a proof-of-work block chain whose state is
    a set of cells, the unspent outputs of transactions.  A block that arrives is
    checked on its own (header and block verifiers), stored, and, when it makes
    the chain of the greatest total difficulty, becomes the new tip: the chain
    service finds the fork, detaches the blocks of the old branch, and resolves,
    verifies in context and attaches those of the new one, in one database
    transaction.  The transaction pool keeps what may enter the next block and
    builds templates for miners; the synchronizer asks the peers for headers and
    blocks and hands the blocks to the chain service.  This development is a
    shallow embedding of these parts, from the messages of a peer and the bytes of
    a block to the main chain, with the theorems that make them correct.

    ** How the code is modelled

    A Rust function is a Rocq function of the same name; one that can fail
    returns [outcome E A], which is [Ok], [Err] or [Panic] (this file).  Integers
    are [Z] kept within their width by [fit] and the checked operations: the
    release profile has overflow checks, so an overflow is a [Panic].  Bytes,
    hashes and short ids are lists of [Z].  Code that mutates takes and returns
    its state.  Code that is not under src/ is a type class with its laws in a
    second class, and a concrete instance shows that the laws can hold: the
    256-bit integers ([NumExt]), blake2b, eaglesong and the Merkle tree ([Hasher]),
    the LRU cache ([LruCache]).  Running the scripts of a transaction on ckb-vm is
    an argument [script_verify]; the clock is an argument [now].

    ** The files

    - Prelude: outcomes, machine integers, loops that can fail, shared lemmas,
      the tactics [inv_ok], [step], [zlia], [reflect_bools] and the hints.
    - Capacity (util/occupied-capacity), NumExt, Rational (util/rational),
      Difficulty (util/types/src/utilities/difficulty.rs): arithmetic.
    - Types (util/types: views.rs, shortcuts.rs, capacity.rs): the data.
    - Molecule, BlockCodec (util/types/src/generated): encoding and decoding.
    - Errors (verification/src/error.rs and the other error types).
    - Epoch (core/extras.rs), Consensus (spec/src/consensus.rs): epochs, the
      adjustment of length and difficulty, the rewards of an epoch.
    - Cell (core/cell.rs): cell providers, the resolution of transactions.
    - Hashes (calc_hash.rs, merkle_tree.rs, pow/): hashes, proof of work.
    - Store (store/src/store.rs, transaction.rs): the columns of the database as
      finite maps, in the record [Store]; a database transaction is a value of it.
    - Dao (util/dao), Reward (util/reward-calculator), ProposalTable
      (util/proposal-table).
    - HeaderVerifier, BlockVerifier (with the genesis verifier), UnclesVerifier,
      TransactionVerifier, ContextualVerifier (verification/src).
    - ChainCell (chain/src/cell.rs), Chain (chain/src/chain.rs, switch.rs,
      util/snapshot), Reorg: the chain service; its state is the record
      [ChainService], its only transition [ChainService_insert_block].
    - PoolEntry, SortedTxMap, ProposedPool, CommitScanner, PendingQueue,
      OrphanPool (tx-pool/src/component): the entries of the transaction pool with
      their order, the map of entries and links, the proposed pool with its edges,
      the choice of the transactions of a block, the pending queue and the orphans.
      What the standard library leaves open, the order of a HashSet and the result
      of an unstable sort, is a class with its law ([HashOrder], [UnstableSort],
      [EntryOrder]).
    - TxPool (tx-pool/src/pool.rs), PoolService (tx-pool/src/process.rs): the pool
      of these pools, in the record [TxPool] and the monad [PoolM], and its service:
      submission and the update after a change of the chain.
    - CandidateUncles, BlockAssembler (tx-pool/src/block_assembler, the templates of
      process.rs, jsonrpc-types/src/block_template.rs): the templates of miners.
    - CellTwins, TemplateBlock: the composition of the assembler with the verifiers.
    - ChainIndex: the index of the main chain along runs of the chain service.
    - SkipList, OrphanBlockPool, InflightBlocks, SyncState, SyncShared (sync/src:
      types.rs, orphan_block_pool.rs, block_status.rs): headers with skip links, the
      blocks that wait for their parent, the blocks that are requested, the state
      of the peers, and the record [SyncShared] of the chain and this state.  What
      the synchronizer needs of the chain service is the class [ChainPort] with
      the laws [ChainPortSpec]; [chain_port_spec] proves them of the model in Chain.
    - ActiveChain: the ancestors, locators and common ancestors of known headers.
    - Synchronizer (sync/src/synchronizer, status.rs, check_data.rs): the handlers
      of the messages, connections, the timers and the fetching of blocks.  A
      handler takes and returns the state and lists the messages it sends
      ([SyncAction]); whether sending succeeds is an argument.
    - SyncInvariant, SyncBlocks, SyncNode, SyncSafety: the invariant [node_ok] of the
      synchronizer, each handler against it, and its runs ([sync_step],
      [sync_reached]); SyncProperties: what holds in every state of a run.

    ** What is proved

    - Chain service: [insert_block_replays] (after any insertion the main chain
      columns and the cell set are those of replaying the best chain from the
      empty one), [find_fork_spec], [rollback_restores], [insert_block_best_chain],
      [insert_block_atomic], [attach_keeps_cells], [never_marked_invalid],
      [index_is_chain] (after any run the index is one chain from the genesis
      block to the tip, in both directions).
    - Resolution: [resolve_transactions_no_double_spend], [resolve_block_spends],
      [BlockCellProvider_new_ordered].
    - Verifiers: each verifier is equivalent to a declarative condition
      ([header_verifier_spec], [block_verifier_spec], [uncles_verifier_spec],
      [since_verifier_spec], [maturity_verifier_spec], [capacity_verifier_spec],
      [transaction_verifier_spec], [two_phase_commit_spec], [reward_verifier_spec],
      [contextual_verifier_spec]); the cache and the parallel order do not matter
      ([block_txs_cache_transparent]); the proposal table and the two-phase commit
      check agree ([proposal_table_agrees]).
    - Economics: [next_epoch_ext_formula], [next_epoch_ext_bounds],
      [primary_reward_schedule], [epoch_rewards_exhausted], [dao_field_spec],
      [maximum_withdraw_spec], [fees_split_exactly].
    - Data: [block_codec_canonical], [molecule_canonical], [block_hash_binds],
      [compact_target_roundtrip], [difficulty_compact_never_easier],
      [rational_refines_Q], [epoch_fraction_roundtrip], [epoch_cmp_is_rational_order].
    - Transaction pool: [sorted_tx_map_invariant], [relative_ids_closure],
      [remove_descendants_exact], [sorted_by_relation_topological],
      [sort_key_order]; [proposed_no_double_spend], [proposed_cell_no_panic];
      [txs_to_commit_spec], [fill_proposals_spec]; [orphans_released_exactly],
      [orphan_add_ok]; [reorg_keeps_window], [submit_keeps_window]: the proposed
      pool stays within the commit window.
    - Templates: [template_accepted] and [template_header_accepted] (the block of a
      template is accepted by the verifiers of the node that built it),
      [candidate_uncles_typed].
    - Synchronization: [synchronizer_safe] (no sequence of messages, connections,
      timers and fetches makes the synchronizer fail or panic, and its invariant
      holds after each), [sync_round] (a locator is answered with the headers that
      follow a common block), [new_block_spec], [ancestor_is_linear] (skip links
      are sound), [get_locator_spec], [last_common_ancestor_spec],
      [remove_blocks_by_parent_spec], [inflight_invariant], [prune_spec],
      [blocks_asked_again].  They assume of the peers that the fields of a header
      are within their widths, that no two headers have one hash and that the work
      of all headers fits in 256 bits ([message_ok]), and of the clock that it
      does not go back and stays below 2^62 milliseconds.
    - Deviations the model shows: [since_timestamp_overflow],
      [maximum_withdraw_truncates], [check_valid_accepts_fork_header],
      [epoch_cmp_malformed_disagrees], [ancestors_counted_per_path],
      [remove_descendants_stale_link], [txs_to_commit_panics],
      [failed_add_poisons_pool], [removed_child_hides_output],
      [readded_parent_frees_output], [submit_stale_status], [gap_descendant_lost],
      [template_out_of_order], [prune_strands_block], [adjust_clock_back].

    ** Bounds and fuel

    Loops are structural, or recurse on the exact number of their rounds (the
    search of the fork on the height).  The search of the proposer in Reward has
    fuel; [Ok None] is running out, and [proposal_reward_terminates] shows that
    the height of the parent is enough.  The work lists of the pools have fuel:
    the number of links for the searches and removals of SortedTxMap
    ([relative_ids_closure] and [remove_descendants_exact] give their results
    without a condition on it), the number of edges for the orphans
    ([orphans_released_exactly]), and the number of keys for the choice of the
    transactions of a block ([txs_to_commit_spec]).  In the synchronizer, the walk
    to an ancestor has the distance as fuel, a locator the height of its first
    header, the walk to a fork point and to a common ancestor the height they
    start from, the release of orphans the number of orphans, and a fetch the
    number of heights it looks at; running out is a [Panic], or would leave
    orphans behind, so that [synchronizer_safe], [sync_round] and
    [remove_blocks_by_parent_spec] show that it does not happen.

    ** What is not modelled

    RocksDB and its failures, the caches in front of the store, ckb-vm, the
    sessions of the network, the relay of compact blocks and transactions, the
    channels around the transaction pool, the fee estimator, RPC, the indexer, the
    miner and process control.  The handlers of the synchronizer run one at a
    time: the thread that fetches blocks is a step of its own, and its channel is
    not modelled, so that it may fetch for any peers at any time.  Assertions that
    only debug builds check, logging and metrics have no effect in the model. *)

From Stdlib Require Export ZArith Lia.
From stdpp Require Export prelude gmap sets countable list.

#[global] Open Scope Z_scope.
#[global] Set Default Goal Selector "!".

(** ** Results of Rust code

    A Rust function that returns [Result<T, E>] has three observable endings:
    [Ok], [Err], and a panic.  The node is built with [overflow-checks = true]
    (src/Cargo.toml, profile.release), so an arithmetic overflow of a primitive
    integer is a panic as well, like a failing [expect], [unwrap] or index. *)
Inductive outcome (E A : Type) : Type :=
| Ok (a : A)
| Err (e : E)
| Panic.
Arguments Ok {E A} a.
Arguments Err {E A} e.
Arguments Panic {E A}.

#[export] Instance outcome_ret {E} : MRet (outcome E) := fun A a => Ok a.
#[export] Instance outcome_bind {E} : MBind (outcome E) := fun A B f m =>
  match m with
  | Ok a => f a
  | Err e => Err e
  | Panic => Panic
  end.
#[export] Instance outcome_fmap {E} : FMap (outcome E) := fun A B f m =>
  match m with
  | Ok a => Ok (f a)
  | Err e => Err e
  | Panic => Panic
  end.

(** [Result::map_err]. *)
Definition map_err {E F A} (f : E -> F) (m : outcome E A) : outcome F A :=
  match m with
  | Ok a => Ok a
  | Err e => Err (f e)
  | Panic => Panic
  end.

(** [Option::ok_or]. *)
Definition ok_or {E A} (e : E) (o : option A) : outcome E A :=
  match o with
  | Some a => Ok a
  | None => Err e
  end.

(** [Option::expect] and [Option::unwrap]. *)
Definition expect {E A} (o : option A) : outcome E A :=
  match o with
  | Some a => Ok a
  | None => Panic
  end.

(** [if cond { return Err(e) }]: the early return of a guard. *)
Definition guard_err {E} (cond : bool) (e : E) : outcome E unit :=
  if cond then Err e else Ok tt.

(** [Iterator::try_fold]. *)
Fixpoint try_fold {E A B} (f : B -> A -> outcome E B) (b : B) (l : list A) : outcome E B :=
  match l with
  | [] => Ok b
  | a :: l' => b' ← f b a; try_fold f b' l'
  end.

(** A [for] loop whose body may return early with an error. *)
Fixpoint try_for_each {E A} (f : A -> outcome E unit) (l : list A) : outcome E unit :=
  match l with
  | [] => Ok tt
  | a :: l' => _ ← f a; try_for_each f l'
  end.

(** [iter.map(f).collect::<Result<Vec<_>, _>>()], run in order. *)
Fixpoint try_map {E A B} (f : A -> outcome E B) (l : list A) : outcome E (list B) :=
  match l with
  | [] => Ok []
  | a :: l' => b ← f a; bs ← try_map f l'; Ok (b :: bs)
  end.

Definition is_empty {A} (l : list A) : bool := match l with [] => true | _ => false end.

(** [iter.any(f)] with an [f] that may panic. *)
Fixpoint try_any {E A} (f : A -> outcome E bool) (l : list A) : outcome E bool :=
  match l with
  | [] => Ok false
  | a :: l' => b ← f a; if (b : bool) then Ok true else try_any f l'
  end.

(** [iter.enumerate()]. *)
Fixpoint enumerate_from {A} (i : nat) (l : list A) : list (nat * A) :=
  match l with
  | [] => []
  | a :: l' => (i, a) :: enumerate_from (S i) l'
  end.
Definition enumerate {A} (l : list A) : list (nat * A) := enumerate_from 0 l.

(** [iter.all(|x| seen.insert(x))] over a fresh [HashSet]: the idiom by which
    the code tests for duplicates. *)
Fixpoint all_insert {A} `{Countable A} (seen : gset A) (l : list A) : bool :=
  match l with
  | [] => true
  | a :: l' => if decide (a ∈ seen) then false else all_insert ({[a]} ∪ seen) l'
  end.

(** ** Machine integers

    A [w]-bit unsigned integer is a [Z] in [0, 2^w).  [fit w x] is the result of
    an overflow-checked primitive operation whose mathematical value is [x];
    [checked w x] is the result of a [checked_*] method. *)
Definition in_range (w z : Z) : Prop := 0 <= z < 2 ^ w.
Definition in_rangeb (w z : Z) : bool := (0 <=? z) && (z <? 2 ^ w).
Abbreviation is_u8 := (in_range 8).
Abbreviation is_u32 := (in_range 32).
Abbreviation is_u64 := (in_range 64).
Abbreviation is_u256 := (in_range 256).

Definition fit {E} (w x : Z) : outcome E Z :=
  if in_rangeb w x then Ok x else Panic.
Definition checked (w x : Z) : option Z :=
  if in_rangeb w x then Some x else None.

Definition u64_add {E} (a b : Z) : outcome E Z := fit 64 (a + b).
Definition u64_sub {E} (a b : Z) : outcome E Z := fit 64 (a - b).
Definition u64_mul {E} (a b : Z) : outcome E Z := fit 64 (a * b).
Definition u64_div {E} (a b : Z) : outcome E Z :=
  if b =? 0 then Panic else Ok (a / b).
Definition u64_rem {E} (a b : Z) : outcome E Z :=
  if b =? 0 then Panic else Ok (a mod b).
Definition u128_mul {E} (a b : Z) : outcome E Z := fit 128 (a * b).
Definition saturating_sub (a b : Z) : Z := Z.max 0 (a - b).

(** ** Byte strings

    Bytes are integers in [0, 256); a [Byte32] is a list of 32 of them.  The
    little-endian codec is the one of [LittleEndian::write_u64/read_u64]. *)
Abbreviation bytes := (list Z).
Abbreviation Byte32 := (list Z).

Fixpoint le_encode (n : nat) (z : Z) : bytes :=
  match n with
  | O => []
  | S n' => z mod 256 :: le_encode n' (z / 256)
  end.
Fixpoint le_decode (bs : bytes) : Z :=
  match bs with
  | [] => 0
  | b :: bs' => b + 256 * le_decode bs'
  end.
Definition write_u64 (z : Z) : bytes := le_encode 8 z.
Definition read_u64 (bs : bytes) : Z := le_decode (take 8 bs).
Definition zero32 : Byte32 := repeat 0 32.

(** ** Lemmas on results *)

Lemma bind_Ok {E A B} (f : A -> outcome E B) (m : outcome E A) b :
  (m ≫= f) = Ok b <-> exists a, m = Ok a /\ f a = Ok b.
Proof. destruct m; naive_solver. Qed.

Lemma bind_Err {E A B} (f : A -> outcome E B) (m : outcome E A) e :
  (m ≫= f) = Err e <-> m = Err e \/ exists a, m = Ok a /\ f a = Err e.
Proof. destruct m; naive_solver. Qed.

Lemma fmap_Ok {E A B} (f : A -> B) (m : outcome E A) b :
  (f <$> m) = Ok b <-> exists a, m = Ok a /\ b = f a.
Proof. destruct m; naive_solver. Qed.

Lemma map_err_Ok {E F A} (f : E -> F) (m : outcome E A) a :
  map_err f m = Ok a <-> m = Ok a.
Proof. destruct m; naive_solver. Qed.

Lemma ok_or_Ok {E A} (e : E) (o : option A) a : ok_or e o = Ok a <-> o = Some a.
Proof. destruct o; naive_solver. Qed.

Lemma expect_Ok {E A} (o : option A) a : expect (E:=E) o = Ok a <-> o = Some a.
Proof. destruct o; naive_solver. Qed.

Lemma guard_err_Ok {E} (c : bool) (e : E) u : guard_err c e = Ok u <-> c = false.
Proof. destruct c, u; naive_solver. Qed.

Lemma in_rangeb_spec w z : reflect (in_range w z) (in_rangeb w z).
Proof.
  apply iff_reflect. unfold in_rangeb, in_range.
  rewrite andb_true_iff, Z.leb_le, Z.ltb_lt. lia.
Qed.

(** Decides that concrete bytes are bytes. *)
Lemma bytes_by_compute w s : forallb (in_rangeb w) s = true -> Forall (in_range w) s.
Proof.
  induction s as [|b s IH]; simpl; [constructor|]. intros [Hb Hs]%andb_prop.
  constructor; [|by apply IH]. by destruct (in_rangeb_spec w b).
Qed.

Lemma fit_Ok {E} w x y : fit (E:=E) w x = Ok y <-> y = x /\ in_range w x.
Proof. unfold fit. destruct (in_rangeb_spec w x); naive_solver. Qed.

Lemma fit_in_range {E} w x : in_range w x -> fit (E:=E) w x = Ok x.
Proof. intros. by apply fit_Ok. Qed.

Lemma checked_Some w x y : checked w x = Some y <-> y = x /\ in_range w x.
Proof. unfold checked. destruct (in_rangeb_spec w x); naive_solver. Qed.

Lemma checked_None w x : checked w x = None <-> ~ in_range w x.
Proof. unfold checked. destruct (in_rangeb_spec w x); naive_solver. Qed.

Lemma u64_div_Ok {E} a b y : u64_div (E:=E) a b = Ok y <-> b <> 0 /\ y = a / b.
Proof. unfold u64_div. destruct (Z.eqb_spec b 0); naive_solver. Qed.

Lemma u64_rem_Ok {E} a b y : u64_rem (E:=E) a b = Ok y <-> b <> 0 /\ y = a mod b.
Proof. unfold u64_rem. destruct (Z.eqb_spec b 0); naive_solver. Qed.

(** [inv_ok] decomposes every hypothesis that says that a computation ended in
    [Ok] into the steps it is made of. *)
Ltac inv_ok_step :=
  match goal with
  | H : mbind _ _ = Ok _ |- _ => apply bind_Ok in H as (? & ? & ?)
  | H : fmap _ _ = Ok _ |- _ => apply fmap_Ok in H as (? & ? & ?)
  | H : map_err _ _ = Ok _ |- _ => apply map_err_Ok in H
  | H : ok_or _ _ = Ok _ |- _ => apply ok_or_Ok in H
  | H : expect _ = Ok _ |- _ => apply expect_Ok in H
  | H : guard_err _ _ = Ok _ |- _ => apply guard_err_Ok in H
  | H : u64_add _ _ = Ok _ |- _ => unfold u64_add in H
  | H : u64_sub _ _ = Ok _ |- _ => unfold u64_sub in H
  | H : u64_mul _ _ = Ok _ |- _ => unfold u64_mul in H
  | H : u128_mul _ _ = Ok _ |- _ => unfold u128_mul in H
  | H : u64_div _ _ = Ok _ |- _ => apply u64_div_Ok in H as [? ?]
  | H : u64_rem _ _ = Ok _ |- _ => apply u64_rem_Ok in H as [? ?]
  | H : fit _ _ = Ok _ |- _ => apply fit_Ok in H as [? ?]
  | H : Ok _ = Ok _ |- _ => injection H as H
  | H : Err _ = Ok _ |- _ => discriminate H
  | H : Panic = Ok _ |- _ => discriminate H
  | H : mret _ = Ok _ |- _ => injection H as H
  end.
Ltac inv_ok := repeat (inv_ok_step; try subst).

(** Reduces the binds whose first computation is a result, and nothing else. *)
Ltac step := cbn [mbind outcome_bind fmap outcome_fmap expect ok_or fst snd].

(** [run_ok] replays the steps of a computation whose results are known. *)
Ltac run_ok :=
  repeat match goal with
  | H : ?m = Ok _ |- context [?m] => rewrite H; simpl
  end.

(** Arithmetic on bounded integers: unfold the range predicate and call [lia]. *)
Ltac zlia := unfold in_range, saturating_sub in *; lia.

(** Linear arithmetic with division and remainder by constants. *)
Ltac divlia := Z.div_mod_to_equations; lia.

(** Reflects the boolean comparisons of the code's guards into propositions. *)
Ltac reflect_bools :=
  repeat match goal with
  | H : (_ && _)%bool = true |- _ => apply andb_prop in H as [? ?]
  | H : (_ && _)%bool = false |- _ => apply andb_false_iff in H
  | H : (_ || _)%bool = false |- _ => apply orb_false_elim in H as [? ?]
  | H : (_ || _)%bool = true |- _ => apply orb_prop in H
  | H : negb _ = true |- _ => apply negb_true_iff in H
  | H : negb _ = false |- _ => apply negb_false_iff in H
  | H : (_ =? _) = true |- _ => apply Z.eqb_eq in H
  | H : (_ =? _) = false |- _ => apply Z.eqb_neq in H
  | H : (_ <? _) = true |- _ => apply Z.ltb_lt in H
  | H : (_ <? _) = false |- _ => apply Z.ltb_ge in H
  | H : (_ <=? _) = true |- _ => apply Z.leb_le in H
  | H : (_ <=? _) = false |- _ => apply Z.leb_gt in H
  | H : bool_decide _ = true |- _ => apply bool_decide_eq_true in H
  | H : bool_decide _ = false |- _ => apply bool_decide_eq_false in H
  end.

Create HintDb ckb.
#[export] Hint Resolve fit_in_range : ckb.
#[export] Hint Unfold in_range : ckb.
#[export] Hint Extern 1 (in_range _ _) => zlia : ckb.

(** ** Folds *)

Lemma try_fold_app {E A B} (f : B -> A -> outcome E B) b l1 l2 :
  try_fold f b (l1 ++ l2) = (b' ← try_fold f b l1; try_fold f b' l2).
Proof.
  revert b. induction l1 as [|a l1 IH]; intros b; simpl; [done|].
  destruct (f b a); simpl; [apply IH|done|done].
Qed.

(** Two folds in step: related states, and related items of two lists, lead to
    related results. *)
Lemma try_fold_sim {E A A' B B'} (R : B -> B' -> Prop) (S : A -> A' -> Prop)
    (f : B -> A -> outcome E B) (g : B' -> A' -> outcome E B') b b' l l' r :
  R b b' -> Forall2 S l l' ->
  (forall x x' a a' y, R x x' -> S a a' -> f x a = Ok y -> exists y', g x' a' = Ok y' /\ R y y') ->
  try_fold f b l = Ok r -> exists r', try_fold g b' l' = Ok r' /\ R r r'.
Proof.
  intros Hb Hl Hstep. revert b b' Hb. induction Hl as [|a a' l l' Ha Hl IH]; intros b b' Hb; simpl.
  - intros [= <-]. by exists b'.
  - intros (y & Hy & Hr)%bind_Ok. destruct (Hstep _ _ _ _ _ Hb Ha Hy) as (y' & -> & Hy'). simpl. by apply (IH y).
Qed.
(** Two folds with the same results. *)
Lemma try_fold_mono {E A A' B} (f : B -> A -> outcome E B) (g : B -> A' -> outcome E B) b l l' r :
  Forall2 (fun a a' => forall x y, f x a = Ok y -> g x a' = Ok y) l l' ->
  try_fold f b l = Ok r -> try_fold g b l' = Ok r.
Proof.
  intros Hl Hr. destruct (try_fold_sim eq _ f g b b l l' r eq_refl Hl) as (? & ? & <-); [|done|done].
  intros x ? a a' y <- Hs Hy. exists y. split; [by apply Hs|done].
Qed.

(** Rule for a fold that ends in [Ok]: an invariant that every successful
    iteration preserves holds at the end. *)
Lemma try_fold_inv {E A B} (P : B -> list A -> Prop) (f : B -> A -> outcome E B) b l b' :
  try_fold f b l = Ok b' ->
  P b l ->
  (forall x a l' y, P x (a :: l') -> f x a = Ok y -> P y l') ->
  P b' [].
Proof.
  intros Hf HP Hstep. revert b Hf HP.
  induction l as [|a l IH]; simpl; intros b Hf HP; inv_ok; [done|].
  eauto.
Qed.

Lemma try_for_each_Ok {E A} (f : A -> outcome E unit) l u :
  try_for_each f l = Ok u <-> Forall (fun a => f a = Ok tt) l.
Proof.
  destruct u. induction l as [|a l IH]; simpl; [by split|].
  rewrite Forall_cons, bind_Ok, <- IH. split.
  - by intros ([] & ? & ?).
  - intros [? ?]. by exists tt.
Qed.

Lemma try_map_Ok {E A B} (f : A -> outcome E B) l bs :
  try_map f l = Ok bs <-> Forall2 (fun a b => f a = Ok b) l bs.
Proof.
  revert bs. induction l as [|a l IH]; intros bs; simpl.
  - split; [intros [= <-]; constructor | by inversion 1].
  - rewrite bind_Ok. setoid_rewrite bind_Ok. split.
    + intros (b & ? & bs' & ?%IH & [= <-]). by constructor.
    + inversion 1; subst. eexists _; split; [done|].
      eexists; split; [by apply IH | done].
Qed.

Lemma try_any_Ok {E A} (f : A -> outcome E bool) (g : A -> Prop) l :
  (forall a, a ∈ l -> exists b, f a = Ok b /\ (b = true <-> g a)) ->
  exists b, try_any f l = Ok b /\ (b = false <-> Forall (fun a => ~ g a) l).
Proof.
  induction l as [|a l IH]; intros Hf; simpl; [by exists false|].
  destruct (Hf a) as (b & -> & Hb); [set_solver|]. destruct IH as (b' & Hl & Hb').
  { intros a' Ha'. apply Hf. set_solver. }
  simpl. destruct b.
  - exists true. split; [done|]. split; [done|]. rewrite Forall_cons. naive_solver.
  - exists b'. split; [done|]. rewrite Hb', Forall_cons. naive_solver.
Qed.

Lemma all_insert_spec {A} `{Countable A} (seen : gset A) (l : list A) :
  all_insert seen l = true <-> NoDup l /\ (forall a, a ∈ l -> a ∉ seen).
Proof.
  revert seen. induction l as [|a l IH]; intros seen; simpl.
  - split; [intros _; split; [constructor | set_solver] | done].
  - case_decide as Hin.
    + split; [done|]. intros [_ Hn]. set_solver.
    + rewrite IH, NoDup_cons. set_solver.
Qed.

Lemma all_insert_NoDup {A} `{Countable A} (l : list A) :
  all_insert (∅ : gset A) l = true <-> NoDup l.
Proof. rewrite all_insert_spec. set_solver. Qed.

Lemma enumerate_from_lookup {A} (l : list A) n i :
  enumerate_from n l !! i = (fun a => ((n + i)%nat, a)) <$> l !! i.
Proof.
  revert n i. induction l as [|a l IH]; intros n [|i]; simpl; try done.
  - by rewrite Nat.add_0_r.
  - rewrite IH. destruct (l !! i); simpl; [|done]. do 2 f_equal. lia.
Qed.

Lemma enumerate_lookup {A} (l : list A) i :
  enumerate l !! i = (fun a => (i, a)) <$> l !! i.
Proof. apply enumerate_from_lookup. Qed.
Lemma length_enumerate {A} (l : list A) : length (enumerate l) = length l.
Proof.
  unfold enumerate. generalize 0%nat. induction l as [|a l IH]; intros n; [done|].
  cbn [enumerate_from length]. by rewrite IH.
Qed.

Lemma Forall2_enumerate {A B} (P : A -> B -> Prop) l k :
  Forall2 P l k -> Forall2 (fun a b => a.1 = b.1 /\ P a.2 b.2) (enumerate l) (enumerate k).
Proof.
  unfold enumerate. generalize 0%nat. intros n Hl. revert n.
  induction Hl; intros n; cbn; constructor; [done|auto].
Qed.

(** ** Bit fields *)

Lemma lor_shiftl_disjoint h l n :
  0 <= n -> 0 <= l < 2 ^ n -> Z.lor (Z.shiftl h n) l = h * 2 ^ n + l.
Proof.
  intros Hn Hl.
  assert (Z.land (Z.shiftl h n) l = 0) as Hland.
  { apply Z.bits_inj'. intros i Hi. rewrite Z.land_spec, Z.bits_0.
    destruct (Z.lt_ge_cases i n).
    - by rewrite Z.shiftl_spec_low.
    - destruct (Z.eq_dec l 0) as [->|]; [by rewrite Z.bits_0, andb_false_r|].
      rewrite (Z.bits_above_log2 l), andb_false_r; [done|lia|].
      apply Z.log2_lt_pow2; [lia|].
      apply Z.lt_le_trans with (2 ^ n); [lia|]. apply Z.pow_le_mono_r; lia. }
  rewrite <- Z.lxor_lor by done. rewrite <- Z.add_nocarry_lxor by done.
  by rewrite Z.shiftl_mul_pow2.
Qed.

Lemma land_mask x n : 0 <= n -> Z.land x (2 ^ n - 1) = x mod 2 ^ n.
Proof. intros. by rewrite <- Z.land_ones, Z.ones_equiv, Z.sub_1_r. Qed.

(** The field of [k] bits at position [n], selected by its mask. *)
Lemma land_field x n k :
  0 <= n -> 0 <= k -> Z.land x (Z.shiftl (2 ^ k - 1) n) = (x / 2 ^ n mod 2 ^ k) * 2 ^ n.
Proof.
  intros Hn Hk. rewrite <- land_mask, <- Z.shiftr_div_pow2, <- Z.shiftl_mul_pow2 by done.
  apply Z.bits_inj'. intros i Hi. rewrite Z.land_spec.
  destruct (Z.lt_ge_cases i n); [rewrite !Z.shiftl_spec_low by done; apply andb_false_r|].
  rewrite !Z.shiftl_spec, Z.land_spec, Z.shiftr_spec by lia. do 2 f_equal. lia.
Qed.

Lemma shiftr_div x n : 0 <= n -> Z.shiftr x n = x / 2 ^ n.
Proof. apply Z.shiftr_div_pow2. Qed.

Lemma div_split a b n : 0 < n -> 0 <= b < n -> (a * n + b) / n = a.
Proof. intros. rewrite Z.div_add_l by lia. rewrite Z.div_small; lia. Qed.

Lemma mod_split a b n : 0 < n -> 0 <= b < n -> (a * n + b) mod n = b.
Proof. intros. rewrite Z.add_comm, Z.mod_add by lia. by apply Z.mod_small. Qed.

(** ** The little-endian codec *)

Lemma length_le_encode n z : length (le_encode n z) = n.
Proof. revert z. induction n; intros; simpl; auto. Qed.

Lemma le_encode_bytes n z : Forall is_u8 (le_encode n z).
Proof.
  revert z. induction n; intros z; simpl; constructor; [|done].
  unfold in_range. change (2 ^ 8) with 256. by apply Z.mod_pos_bound.
Qed.

Lemma le_decode_encode n z :
  le_decode (le_encode n z) = z mod 256 ^ Z.of_nat n.
Proof.
  revert z. induction n as [|n IH]; intros z; simpl le_decode.
  - by rewrite Z.mod_1_r.
  - rewrite IH, Nat2Z.inj_succ, Z.pow_succ_r by lia.
    rewrite (Z.rem_mul_r z 256) by (try apply Z.pow_pos_nonneg; lia). lia.
Qed.

Lemma le_encode_decode bs :
  Forall is_u8 bs -> le_encode (length bs) (le_decode bs) = bs.
Proof.
  induction 1 as [|b bs Hb _ IH]; simpl; [done|].
  assert (0 <= b < 256) by zlia.
  rewrite Z.mul_comm, Z.mod_add, Z.mod_small, Z.div_add, Z.div_small, Z.add_0_l by lia.
  by rewrite IH.
Qed.

Lemma read_write_u64 z rest : is_u64 z -> read_u64 (write_u64 z ++ rest) = z.
Proof.
  intros Hz. unfold read_u64, write_u64.
  rewrite take_app_le, take_ge by (rewrite length_le_encode; lia).
  rewrite le_decode_encode. by apply Z.mod_small.
Qed.

(** ** Sums *)

Definition sumZ (l : list Z) : Z := foldr Z.add 0 l.

Lemma sumZ_app l1 l2 : sumZ (l1 ++ l2) = sumZ l1 + sumZ l2.
Proof. induction l1; simpl; lia. Qed.

Lemma sumZ_nonneg l : Forall (fun z => 0 <= z) l -> 0 <= sumZ l.
Proof. induction 1; simpl; lia. Qed.

Lemma sumZ_elem l z : Forall (fun z => 0 <= z) l -> z ∈ l -> z <= sumZ l.
Proof.
  induction 1 as [|a l Ha Hl IH]; [by intros ?%not_elem_of_nil|].
  intros [->|Hz]%elem_of_cons; simpl; [|specialize (IH Hz)]; pose proof (sumZ_nonneg l Hl); lia.
Qed.

#[global] Instance sumZ_proper : Proper ((≡ₚ) ==> (=)) sumZ.
Proof. induction 1; simpl; lia. Qed.

Lemma sumZ_const {A} (f : A -> Z) l c :
  (forall x, x ∈ l -> f x = c) -> sumZ (f <$> l) = c * Z.of_nat (length l).
Proof.
  induction l as [|a l IH]; intros Hf; csimpl; [lia|].
  rewrite IH by set_solver. rewrite (Hf a) by set_solver. lia.
Qed.

(** A total split into [len] equal shares of [q] and one more for each of the
    first [r] positions. *)
Lemma sumZ_shares q r start len :
  0 <= r <= len ->
  sumZ ((fun n => if n <? start + r then q + 1 else q) <$> seqZ start len) = q * len + r.
Proof.
  intros Hr. replace len with (r + (len - r)) at 1 by lia.
  rewrite seqZ_app, fmap_app, sumZ_app by lia.
  rewrite (sumZ_const _ (seqZ start r) (q + 1)).
  2: { intros n [? ?]%elem_of_seqZ. by destruct (Z.ltb_spec n (start + r)); [|lia]. }
  rewrite (sumZ_const _ (seqZ (start + r) (len - r)) q).
  2: { intros n [? ?]%elem_of_seqZ. by destruct (Z.ltb_spec n (start + r)); [lia|]. }
  rewrite !length_seqZ, !Z2Nat.id by lia. ring.
Qed.

Lemma try_map_fmap {E A B} (f : A -> outcome E B) (g : A -> B) l :
  (forall x, x ∈ l -> f x = Ok (g x)) -> try_map f l = Ok (g <$> l).
Proof.
  induction l as [|a l IH]; intros Hf; simpl; [done|].
  rewrite (Hf a) by set_solver. simpl. by rewrite IH by set_solver.
Qed.

Lemma filter_all {A} (P : A -> Prop) `{!forall x, Decision (P x)} (l : list A) :
  (forall x, x ∈ l -> P x) -> filter P l = l.
Proof.
  induction l as [|a l IH]; intros HP; [done|]. rewrite filter_cons_True by (apply HP; set_solver).
  f_equal. apply IH. set_solver.
Qed.
