(* ===== verification/Capacity.v ===== *)
(** * Capacities: src/util/occupied-capacity/core/src/units.rs

    A [Capacity] is an amount of shannons held in a [u64]; every operation on it
    is checked and reports [Overflow] as an error, never as a panic.  The trait
    [AsCapacity] only widens an unsigned integer, so both operands are [Z]. *)

From S2P Require Import Prelude.

Abbreviation Capacity := Z (only parsing).

Inductive CapacityError := CapacityOverflow.

Abbreviation CapacityResult := (outcome CapacityError).

Record Ratio := mkRatio { Ratio_numer : Z; Ratio_denom : Z }.

Definition BYTE_SHANNONS : Z := 100000000.

Definition Capacity_zero : Capacity := 0.
Definition Capacity_one : Capacity := 1.
Definition Capacity_shannons (val : Z) : Capacity := val.
Definition Capacity_as_u64 (c : Capacity) : Z := c.

Definition Capacity_bytes (val : Z) : CapacityResult Capacity :=
  ok_or CapacityOverflow (Capacity_shannons <$> checked 64 (val * BYTE_SHANNONS)).

Definition Capacity_safe_add (self rhs : Capacity) : CapacityResult Capacity :=
  ok_or CapacityOverflow (Capacity_shannons <$> checked 64 (self + rhs)).

Definition Capacity_safe_sub (self rhs : Capacity) : CapacityResult Capacity :=
  ok_or CapacityOverflow (Capacity_shannons <$> checked 64 (self - rhs)).

Definition Capacity_safe_mul (self rhs : Capacity) : CapacityResult Capacity :=
  ok_or CapacityOverflow (Capacity_shannons <$> checked 64 (self * rhs)).

(** [u64::checked_div] is [None] on a zero divisor. *)
Definition checked_div (a b : Z) : option Z := if b =? 0 then None else Some (a / b).

Definition Capacity_safe_mul_ratio (self : Capacity) (ratio : Ratio) : CapacityResult Capacity :=
  ok_or CapacityOverflow
    (Capacity_shannons <$>
       (ret ← checked 64 (self * Ratio_numer ratio); checked_div ret (Ratio_denom ratio))).

(** ** Lemmas *)

Section lemmas.
Implicit Types a b c : Z.

Lemma ok_or_checked_Ok (e : CapacityError) w x c :
  ok_or e (Capacity_shannons <$> checked w x) = Ok c <-> c = x /\ in_range w x.
Proof.
  unfold Capacity_shannons, checked. destruct (in_rangeb_spec w x); naive_solver.
Qed.

Lemma safe_add_Ok a b c : Capacity_safe_add a b = Ok c <-> c = a + b /\ is_u64 (a + b).
Proof. apply ok_or_checked_Ok. Qed.

Lemma safe_sub_Ok a b c : Capacity_safe_sub a b = Ok c <-> c = a - b /\ is_u64 (a - b).
Proof. apply ok_or_checked_Ok. Qed.

Lemma safe_mul_Ok a b c : Capacity_safe_mul a b = Ok c <-> c = a * b /\ is_u64 (a * b).
Proof. apply ok_or_checked_Ok. Qed.

Lemma bytes_Ok a c :
  Capacity_bytes a = Ok c <-> c = a * BYTE_SHANNONS /\ is_u64 (a * BYTE_SHANNONS).
Proof. apply ok_or_checked_Ok. Qed.

Lemma safe_mul_ratio_Ok a r c :
  Capacity_safe_mul_ratio a r = Ok c <->
  is_u64 (a * Ratio_numer r) /\ Ratio_denom r <> 0 /\ c = a * Ratio_numer r / Ratio_denom r.
Proof.
  unfold Capacity_safe_mul_ratio, checked, checked_div, Capacity_shannons.
  destruct (in_rangeb_spec 64 (a * Ratio_numer r)); simpl; [|naive_solver].
  destruct (Z.eqb_spec (Ratio_denom r) 0); naive_solver.
Qed.

(** No capacity operation panics: each ends in [Ok] or in [Overflow]. *)
Lemma ok_or_no_panic {E A} (e : E) (o : option A) : ok_or e o <> Panic.
Proof. by destruct o. Qed.

(** [iter.try_fold(Capacity::zero(), Capacity::safe_add)]: the sum, when it and
    every prefix of it fit. *)
Lemma try_fold_safe_add_Ok a l c :
  is_u64 a -> Forall is_u64 l ->
  try_fold Capacity_safe_add a l = Ok c <-> c = a + sumZ l /\ is_u64 (a + sumZ l).
Proof.
  intros Ha Hl. revert a Ha. induction Hl as [|x l Hx Hl IH]; intros a Ha; simpl.
  - split; [intros [= ->]; split; [lia | by rewrite Z.add_0_r] | intros [-> ?]; f_equal; lia].
  - assert (0 <= sumZ l) by (apply sumZ_nonneg; eapply Forall_impl; [done | zlia]).
    rewrite bind_Ok. setoid_rewrite safe_add_Ok. split.
    + intros (y & [-> Hy] & [-> ?]%IH); [|done]. rewrite Z.add_assoc. done.
    + intros [-> ?]. exists (a + x). split; [split; [done | zlia] |].
      apply IH; [zlia|]. rewrite <- Z.add_assoc. split; [lia | done].
Qed.

End lemmas.

#[export] Hint Rewrite safe_add_Ok safe_sub_Ok safe_mul_Ok bytes_Ok safe_mul_ratio_Ok : ckb.

(** Extends [inv_ok] with the inversion of the capacity operations. *)
Ltac inv_cap_step :=
  match goal with
  | H : Capacity_safe_add _ _ = Ok _ |- _ => apply safe_add_Ok in H as [? ?]
  | H : Capacity_safe_sub _ _ = Ok _ |- _ => apply safe_sub_Ok in H as [? ?]
  | H : Capacity_safe_mul _ _ = Ok _ |- _ => apply safe_mul_Ok in H as [? ?]
  | H : Capacity_bytes _ = Ok _ |- _ => apply bytes_Ok in H as [? ?]
  | H : Capacity_safe_mul_ratio _ _ = Ok _ |- _ => apply safe_mul_ratio_Ok in H as (? & ? & ?)
  end.
Ltac inv_cap := repeat ((inv_ok_step || inv_cap_step); try subst).
