(* ===== verification/NumExt.v ===== *)
(** * Fixed-width big integers

    The node computes difficulties with [U256] and [U512] of the third-party
    crate [numext-fixed-uint].  Its values are modelled by the integers they
    represent; its operations are a parameter, the class [NumExt], with the
    documented behaviour of each as the law class [NumExtSpec]: an operation
    whose mathematical result fits returns it.  What the crate does on overflow
    is left open, so no theorem relies on it.  [None] stands for a panic.

    [numext_ref] is one implementation of the interface. *)

From S2P Require Import Prelude.

Class NumExt := {
  num_add : Z -> Z -> option Z;
  num_sub : Z -> Z -> option Z;
  num_mul : Z -> Z -> option Z;
  num_div : Z -> Z -> option Z;
  num_overflowing_sub : Z -> Z -> Z * bool;
  num_gcd : Z -> Z -> Z;
  num_shl : Z -> Z -> Z;
  num_shr : Z -> Z -> Z;
  num_leading_zeros : Z -> Z;
  num512_div : Z -> Z -> option Z;
  num512_to_256 : Z -> Z * bool;
}.

Class NumExtSpec (N : NumExt) : Prop := {
  num_add_spec a b :
    is_u256 a -> is_u256 b -> is_u256 (a + b) -> num_add a b = Some (a + b);
  num_sub_spec a b :
    is_u256 a -> is_u256 b -> is_u256 (a - b) -> num_sub a b = Some (a - b);
  num_mul_spec a b :
    is_u256 a -> is_u256 b -> is_u256 (a * b) -> num_mul a b = Some (a * b);
  num_div_spec a b :
    is_u256 a -> is_u256 b -> b <> 0 -> num_div a b = Some (a / b);
  num_overflowing_sub_spec a b :
    is_u256 a -> is_u256 b ->
    snd (num_overflowing_sub a b) = (a <? b) /\
    (b <= a -> fst (num_overflowing_sub a b) = a - b);
  num_gcd_spec a b : is_u256 a -> is_u256 b -> num_gcd a b = Z.gcd a b;
  num_shl_spec a n :
    is_u256 a -> 0 <= n -> is_u256 (a * 2 ^ n) -> num_shl a n = a * 2 ^ n;
  num_shr_spec a n : is_u256 a -> 0 <= n -> num_shr a n = a / 2 ^ n;
  num_leading_zeros_spec a :
    is_u256 a -> num_leading_zeros a = if a =? 0 then 256 else 255 - Z.log2 a;
  num512_div_spec a b :
    in_range 512 a -> in_range 512 b -> b <> 0 -> num512_div a b = Some (a / b);
  num512_to_256_spec a : is_u256 a -> num512_to_256 a = (a, false);
}.

(** The operators as the code calls them: a panic is a panic of the caller. *)
Definition u256_add `{NumExt} {E} (a b : Z) : outcome E Z := expect (num_add a b).
Definition u256_sub `{NumExt} {E} (a b : Z) : outcome E Z := expect (num_sub a b).
Definition u256_mul `{NumExt} {E} (a b : Z) : outcome E Z := expect (num_mul a b).
Definition u256_div `{NumExt} {E} (a b : Z) : outcome E Z := expect (num_div a b).

(** An implementation that panics on overflow. *)
#[local] Instance numext_ref : NumExt := {
  num_add a b := checked 256 (a + b);
  num_sub a b := checked 256 (a - b);
  num_mul a b := checked 256 (a * b);
  num_div a b := if b =? 0 then None else Some (a / b);
  num_overflowing_sub a b := ((a - b) mod 2 ^ 256, a <? b);
  num_gcd := Z.gcd;
  num_shl a n := (a * 2 ^ n) mod 2 ^ 256;
  num_shr a n := a / 2 ^ n;
  num_leading_zeros a := if a =? 0 then 256 else 255 - Z.log2 a;
  num512_div a b := if b =? 0 then None else Some (a / b);
  num512_to_256 a := (a mod 2 ^ 256, 2 ^ 256 <=? a);
}.

#[local] Instance numext_ref_spec : NumExtSpec numext_ref.
Proof.
  split; simpl; unfold checked.
  - intros a b ? ? ?. by destruct (in_rangeb_spec 256 (a + b)).
  - intros a b ? ? ?. by destruct (in_rangeb_spec 256 (a - b)).
  - intros a b ? ? ?. by destruct (in_rangeb_spec 256 (a * b)).
  - intros a b ? ? ?. by destruct (Z.eqb_spec b 0).
  - intros a b ? ?. split; [done|]. intros. apply Z.mod_small. zlia.
  - done.
  - intros a n ? ? ?. by apply Z.mod_small.
  - done.
  - done.
  - intros a b ? ? ?. by destruct (Z.eqb_spec b 0).
  - intros a Ha. rewrite Z.mod_small by done. f_equal.
    apply Z.leb_gt. zlia.
Qed.

Section ops.
Context {N : NumExt} `{!NumExtSpec N} {E : Type}.

Lemma u256_add_Ok a b :
  0 <= a -> 0 <= b -> a + b < 2 ^ 256 -> u256_add (E:=E) a b = Ok (a + b).
Proof. intros. unfold u256_add. by rewrite num_add_spec by zlia. Qed.

Lemma u256_sub_Ok a b :
  0 <= b <= a -> a < 2 ^ 256 -> u256_sub (E:=E) a b = Ok (a - b).
Proof. intros. unfold u256_sub. by rewrite num_sub_spec by zlia. Qed.

Lemma u256_mul_Ok a b :
  is_u256 a -> is_u256 b -> a * b < 2 ^ 256 -> u256_mul (E:=E) a b = Ok (a * b).
Proof.
  intros Ha Hb Hm. unfold u256_mul. rewrite num_mul_spec; [done..|].
  assert (0 <= a * b) by (apply Z.mul_nonneg_nonneg; zlia). zlia.
Qed.

Lemma u256_div_Ok a b :
  is_u256 a -> 0 < b < 2 ^ 256 -> u256_div (E:=E) a b = Ok (a / b).
Proof. intros. unfold u256_div. by rewrite num_div_spec by zlia. Qed.

End ops.
