(* ===== verification/Rational.v ===== *)
(** * Rationals: src/util/rational/src/lib.rs

    [RationalU256] is a pair of [U256]; the arithmetic cancels common factors
    before it multiplies.  The operator overloads on references and values all
    delegate to the one on references, which is the one modelled.  The theorems
    show that, where the products fit, every operation computes the exact
    rational, i.e. refines the field operation of [Q]. *)

From Stdlib Require Import QArith.
From S2P Require Import Prelude NumExt.
#[local] Open Scope Z_scope.

Record RationalU256 := mkRational { numer : Z; denom : Z }.

Section ops.
Context `{NumExt} {E : Type}.
Implicit Types self rhs : RationalU256.

Definition Rational_new_raw (numer denom : Z) : RationalU256 := mkRational numer denom.

(** Puts self into lowest terms. *)
Definition Rational_reduce self : outcome E RationalU256 :=
  let g := num_gcd (numer self) (denom self) in
  n ← u256_div (numer self) g;
  d ← u256_div (denom self) g;
  Ok (mkRational n d).

Definition Rational_new (n d : Z) : outcome E RationalU256 :=
  if d =? 0 then Panic else Rational_reduce (Rational_new_raw n d).

Definition Rational_from_u256 (t : Z) : RationalU256 := Rational_new_raw t 1.
Definition Rational_is_zero self : bool := numer self =? 0.
Definition Rational_zero : RationalU256 := Rational_new_raw 0 1.
Definition Rational_one : RationalU256 := Rational_new_raw 1 1.

Definition Rational_into_u256 self : outcome E Z := u256_div (numer self) (denom self).

Definition Rational_saturating_sub self rhs : outcome E RationalU256 :=
  if denom self =? denom rhs then
    let '(n, overflowing) := num_overflowing_sub (numer self) (numer rhs) in
    if overflowing : bool then Ok Rational_zero else Rational_new n (denom self)
  else
    let gcd := num_gcd (denom self) (denom rhs) in
    q ← u256_div (denom rhs) gcd;
    lcm ← u256_mul (denom self) q;
    l ← u256_div lcm (denom self);
    lhs_numer ← u256_mul (numer self) l;
    r ← u256_div lcm (denom rhs);
    rhs_numer ← u256_mul (numer rhs) r;
    let '(n, overflowing) := num_overflowing_sub lhs_numer rhs_numer in
    if overflowing : bool then Ok Rational_zero else Rational_new n lcm.

Definition Rational_saturating_sub_u256 self (rhs : Z) : outcome E RationalU256 :=
  p ← u256_mul (denom self) rhs;
  let '(n, overflowing) := num_overflowing_sub (numer self) p in
  if overflowing : bool then Ok Rational_zero
  else Ok (Rational_new_raw n (denom self)).

(** a/b * c/d = (a/gcd_ad)*(c/gcd_bc) / ((d/gcd_ad)*(b/gcd_bc)) *)
Definition Rational_mul self rhs : outcome E RationalU256 :=
  let gcd_ad := num_gcd (numer self) (denom rhs) in
  let gcd_bc := num_gcd (denom self) (numer rhs) in
  a ← u256_div (numer self) gcd_ad;
  c ← u256_div (numer rhs) gcd_bc;
  n ← u256_mul a c;
  b ← u256_div (denom self) gcd_bc;
  d ← u256_div (denom rhs) gcd_ad;
  m ← u256_mul b d;
  Ok (Rational_new_raw n m).

(** a/b * c/1 = (a*c) / b *)
Definition Rational_mul_u256 self (rhs : Z) : outcome E RationalU256 :=
  let gcd := num_gcd (denom self) rhs in
  c ← u256_div rhs gcd;
  n ← u256_mul (numer self) c;
  d ← u256_div (denom self) gcd;
  Ok (Rational_new_raw n d).

(** (a/b) / (c/d) = (a/gcd_ac)*(d/gcd_bd) / ((c/gcd_ac)*(b/gcd_bd)) *)
Definition Rational_div self rhs : outcome E RationalU256 :=
  let gcd_ac := num_gcd (numer self) (numer rhs) in
  let gcd_bd := num_gcd (denom self) (denom rhs) in
  a ← u256_div (numer self) gcd_ac;
  d ← u256_div (denom rhs) gcd_bd;
  n ← u256_mul a d;
  b ← u256_div (denom self) gcd_bd;
  c ← u256_div (numer rhs) gcd_ac;
  m ← u256_mul b c;
  Ok (Rational_new_raw n m).

(** (a/b) / (c/1) = a / (b*c) *)
Definition Rational_div_u256 self (rhs : Z) : outcome E RationalU256 :=
  let gcd := num_gcd (numer self) rhs in
  n ← u256_div (numer self) gcd;
  c ← u256_div rhs gcd;
  m ← u256_mul (denom self) c;
  Ok (Rational_new_raw n m).

Definition Rational_add self rhs : outcome E RationalU256 :=
  if denom self =? denom rhs then
    n ← u256_add (numer self) (numer rhs);
    Rational_new n (denom self)
  else
    let gcd := num_gcd (denom self) (denom rhs) in
    q ← u256_div (denom rhs) gcd;
    lcm ← u256_mul (denom self) q;
    l ← u256_div lcm (denom self);
    lhs_numer ← u256_mul (numer self) l;
    r ← u256_div lcm (denom rhs);
    rhs_numer ← u256_mul (numer rhs) r;
    n ← u256_add lhs_numer rhs_numer;
    Rational_new n lcm.

Definition Rational_add_u256 self (rhs : Z) : outcome E RationalU256 :=
  p ← u256_mul (denom self) rhs;
  n ← u256_add (numer self) p;
  Ok (Rational_new_raw n (denom self)).

Definition Rational_sub self rhs : outcome E RationalU256 :=
  if denom self =? denom rhs then
    n ← u256_sub (numer self) (numer rhs);
    Rational_new n (denom self)
  else
    let gcd := num_gcd (denom self) (denom rhs) in
    q ← u256_div (denom rhs) gcd;
    lcm ← u256_mul (denom self) q;
    l ← u256_div lcm (denom self);
    lhs_numer ← u256_mul (numer self) l;
    r ← u256_div lcm (denom rhs);
    rhs_numer ← u256_mul (numer rhs) r;
    n ← u256_sub lhs_numer rhs_numer;
    Rational_new n lcm.

Definition Rational_sub_u256 self (rhs : Z) : outcome E RationalU256 :=
  p ← u256_mul (denom self) rhs;
  n ← u256_sub (numer self) p;
  Ok (Rational_new_raw n (denom self)).

Definition Rational_cmp self other : outcome E comparison :=
  let gcd := num_gcd (denom self) (denom other) in
  q ← u256_div (denom other) gcd;
  lhs ← u256_mul (numer self) q;
  r ← u256_div (denom self) gcd;
  rhs ← u256_mul (numer other) r;
  Ok (lhs ?= rhs).

End ops.

(** ** Correctness *)

Definition rational_wf (r : RationalU256) : Prop := is_u256 (numer r) /\ 0 < denom r < 2 ^ 256.

(** The rational number a pair stands for. *)
Definition toQ (r : RationalU256) : Q := numer r # Z.to_pos (denom r).

(** [returns m x]: the operation [m] ends in [Ok] of a well-formed pair of value [x]. *)
Definition returns {E} (m : outcome E RationalU256) (x : Q) : Prop :=
  exists r, m = Ok r /\ rational_wf r /\ (toQ r == x)%Q.

(** [frac r n d]: the pair [r] is the fraction [n / d], up to common factors. *)
Definition frac (r : RationalU256) (n d : Z) : Prop :=
  0 <= numer r <= n /\ 0 < denom r <= d /\ numer r * d = n * denom r.

(** [gives m n d]: the operation [m] ends in [Ok] of the fraction [n / d]. *)
Definition gives {E} (m : outcome E RationalU256) (n d : Z) : Prop :=
  exists r, m = Ok r /\ frac r n d.

Lemma gcd_split a b :
  0 <= a -> 0 < b ->
  exists g x y, Z.gcd a b = g /\ 0 < g /\ 0 <= x /\ 0 < y /\ a = g * x /\ b = g * y.
Proof.
  intros Ha Hb.
  assert (0 < Z.gcd a b) as Hg.
  { pose proof (Z.gcd_nonneg a b).
    assert (Z.gcd a b <> 0) by (intros [? ?]%Z.gcd_eq_0; lia). lia. }
  destruct (Z.gcd_divide_l a b) as [x Hx], (Z.gcd_divide_r a b) as [y Hy].
  exists (Z.gcd a b), x, y. split_and!; [done|done| |..]; try nia.
Qed.

Lemma div_mul_exact g x : 0 < g -> g * x / g = x.
Proof. intros. rewrite Z.mul_comm. apply Z.div_mul. lia. Qed.

Lemma toQ_eq n d n' d' :
  0 < d -> 0 < d' -> n * d' = n' * d -> (toQ (mkRational n d) == n' # Z.to_pos d')%Q.
Proof. intros ? ? He. unfold toQ, Qeq; simpl. rewrite !Z2Pos.id by done. done. Qed.

Lemma toQ_plus a b :
  0 < denom a -> 0 < denom b ->
  (toQ a + toQ b == (numer a * denom b + numer b * denom a) # Z.to_pos (denom a * denom b))%Q.
Proof.
  intros. unfold toQ, Qeq, Qplus; simpl.
  rewrite !Pos2Z.inj_mul, !Z2Pos.id by nia. ring.
Qed.

Lemma toQ_minus a b :
  0 < denom a -> 0 < denom b ->
  (toQ a - toQ b == (numer a * denom b - numer b * denom a) # Z.to_pos (denom a * denom b))%Q.
Proof.
  intros. unfold toQ, Qeq, Qminus, Qplus, Qopp; simpl.
  rewrite !Pos2Z.inj_mul, !Z2Pos.id by nia. ring.
Qed.

Lemma toQ_mult a b :
  0 < denom a -> 0 < denom b ->
  (toQ a * toQ b == (numer a * numer b) # Z.to_pos (denom a * denom b))%Q.
Proof.
  intros. unfold toQ, Qeq, Qmult; simpl.
  rewrite !Pos2Z.inj_mul, !Z2Pos.id by nia. ring.
Qed.

Lemma toQ_div a b :
  0 < denom a -> 0 < denom b -> 0 < numer b ->
  (toQ a / toQ b == (numer a * denom b) # Z.to_pos (denom a * numer b))%Q.
Proof.
  intros ? ? Hb. unfold toQ, Qeq, Qdiv, Qmult, Qinv; simpl.
  destruct (numer b) as [|p|p] eqn:Ep; [lia| |lia]. simpl.
  rewrite !Pos2Z.inj_mul, !Z2Pos.id by nia. ring.
Qed.

Lemma toQ_int n : (toQ (mkRational n 1) == inject_Z n)%Q.
Proof. done. Qed.

Lemma toQ_le a b :
  0 < denom a -> 0 < denom b ->
  (toQ a <= toQ b)%Q <-> numer a * denom b <= numer b * denom a.
Proof. intros. unfold toQ, Qle; simpl. by rewrite !Z2Pos.id by done. Qed.

#[export] Instance returns_proper {E} (m : outcome E RationalU256) :
  Proper (Qeq ==> iff) (returns m).
Proof. intros x y Hxy. unfold returns. by setoid_rewrite Hxy. Qed.

Lemma frac_self r : rational_wf r -> frac r (numer r) (denom r).
Proof. intros [[? ?] ?]. unfold frac. lia. Qed.

Lemma frac_toQ r n d : frac r n d -> (toQ r == n # Z.to_pos d)%Q.
Proof. destruct r as [a b]. intros (? & ? & ?). simpl in *. apply toQ_eq; lia. Qed.

Lemma gives_returns {E} (m : outcome E RationalU256) n d x :
  gives m n d -> n < 2 ^ 256 -> d < 2 ^ 256 -> (n # Z.to_pos d == x)%Q -> returns m x.
Proof.
  intros (r & -> & Hr) Hn Hd <-. exists r. split; [done|]. split; [|by apply frac_toQ].
  destruct Hr as (? & ? & ?). unfold rational_wf, in_range. lia.
Qed.

Lemma frac_div r n d : frac r n d -> numer r / denom r = n / d.
Proof.
  intros (? & ? & Hx). rewrite <- (Z.div_mul_cancel_r (numer r) (denom r) d) by lia.
  rewrite Hx. rewrite (Z.mul_comm (denom r) d). by rewrite Z.div_mul_cancel_r by lia.
Qed.

Lemma frac_zero r n d : frac r n d -> numer r = 0 <-> n = 0.
Proof. intros (? & ? & ?). nia. Qed.

Section correct.
Context {N : NumExt} `{!NumExtSpec N} {E : Type}.
Implicit Types a b r : RationalU256.

Lemma gcd_split_num n d :
  is_u256 n -> 0 < d < 2 ^ 256 ->
  exists g x y, num_gcd n d = g /\ 0 < g /\ 0 <= x /\ 0 < y /\ n = g * x /\ d = g * y.
Proof.
  intros Ha Hb. rewrite num_gcd_spec by zlia. apply gcd_split; zlia.
Qed.

(** [new] reduces: neither part grows. *)
Lemma Rational_new_reduced n d :
  is_u256 n -> 0 < d < 2 ^ 256 ->
  exists r, Rational_new (E:=E) n d = Ok r /\ rational_wf r /\
    (toQ r == n # Z.to_pos d)%Q /\ numer r <= n /\ denom r <= d.
Proof.
  intros Hn Hd. unfold Rational_new. destruct (Z.eqb_spec d 0); [lia|].
  unfold Rational_reduce, Rational_new_raw; simpl.
  destruct (gcd_split_num n d) as (g & x & y & -> & Hg & Hx & Hy & -> & ->); [done..|].
  rewrite !u256_div_Ok by (unfold in_range in *; nia). simpl.
  rewrite !div_mul_exact by done.
  eexists; split; [done|]. split; [unfold rational_wf, in_range in *; simpl; nia|].
  split; [apply toQ_eq; nia | simpl; nia].
Qed.

Lemma Rational_new_ok n d :
  is_u256 n -> 0 < d < 2 ^ 256 ->
  returns (E:=E) (Rational_new n d) (n # Z.to_pos d)%Q.
Proof. intros. destruct (Rational_new_reduced n d) as (r & ? & ? & ? & _); [done..|]. by exists r. Qed.

(** The two numerators over the least common denominator. *)
Lemma common_denominator a b :
  rational_wf a -> rational_wf b ->
  numer a * denom b < 2 ^ 256 -> numer b * denom a < 2 ^ 256 ->
  denom a * denom b < 2 ^ 256 ->
  exists g x y, num_gcd (denom a) (denom b) = g /\ 0 < g /\ 0 < x /\ 0 < y /\
    denom a = g * x /\ denom b = g * y /\
    u256_div (E:=E) (denom b) g = Ok y /\
    u256_div (E:=E) (denom a) g = Ok x /\
    u256_mul (E:=E) (denom a) y = Ok (g * x * y) /\
    u256_div (E:=E) (g * x * y) (denom a) = Ok y /\
    u256_div (E:=E) (g * x * y) (denom b) = Ok x /\
    u256_mul (E:=E) (numer a) y = Ok (numer a * y) /\
    u256_mul (E:=E) (numer b) x = Ok (numer b * x).
Proof.
  intros [Hna Hda] [Hnb Hdb] H1 H2 H3.
  destruct (gcd_split_num (denom a) (denom b)) as (g & x & y & -> & Hg & Hx & Hy & Ea & Eb);
    [zlia|done|].
  assert (0 < x) by nia. unfold in_range in *.
  exists g, x, y. rewrite Ea, Eb in *.
  assert (y <= g * y) by nia. assert (x <= g * x) by nia.
  assert (g * x * y <= g * x * (g * y)) by nia.
  assert (numer a * y <= numer a * (g * y)) by nia.
  assert (numer b * x <= numer b * (g * x)) by nia.
  split_and!; try done.
  - rewrite u256_div_Ok by (unfold in_range; nia). by rewrite div_mul_exact.
  - rewrite u256_div_Ok by (unfold in_range; nia). by rewrite div_mul_exact.
  - apply u256_mul_Ok; unfold in_range; nia.
  - rewrite u256_div_Ok by (unfold in_range; nia). by rewrite div_mul_exact by nia.
  - rewrite u256_div_Ok by (unfold in_range; nia).
    replace (g * x * y) with (g * y * x) by ring. by rewrite div_mul_exact by nia.
  - apply u256_mul_Ok; unfold in_range; nia.
  - apply u256_mul_Ok; unfold in_range; nia.
Qed.

Lemma Rational_add_reduced a b :
  rational_wf a -> rational_wf b ->
  numer a * denom b + numer b * denom a < 2 ^ 256 -> denom a * denom b < 2 ^ 256 ->
  exists r, Rational_add (E:=E) a b = Ok r /\ rational_wf r /\ (toQ r == toQ a + toQ b)%Q /\
    numer r <= numer a * denom b + numer b * denom a /\ denom r <= denom a * denom b.
Proof.
  intros Ha Hb H1 H2. pose proof Ha as [Hna Hda]. pose proof Hb as [Hnb Hdb].
  unfold in_range in *. unfold Rational_add.
  destruct (Z.eqb_spec (denom a) (denom b)) as [Hd|Hd].
  - rewrite u256_add_Ok by nia. simpl.
    destruct (Rational_new_reduced (numer a + numer b) (denom a)) as (r & -> & Hw & Hr & ? & ?);
      [unfold in_range; nia|lia|].
    exists r. split_and!; [done|done| |nia|nia]. rewrite Hr, toQ_plus by lia. rewrite Hd.
    unfold Qeq; simpl. rewrite !Z2Pos.id by nia. ring.
  - destruct (common_denominator a b) as (g & x & y & Hg & ? & ? & ? & Ea & Eb & ?);
      [done|done|nia..|]. destruct_and!.
    rewrite Hg. run_ok.
    rewrite Ea, Eb in *.
    assert ((numer a * y + numer b * x) * g = numer a * (g * y) + numer b * (g * x)) as Hs by ring.
    assert (numer a * y + numer b * x <= (numer a * y + numer b * x) * g) by nia.
    assert (g * x * y <= g * x * (g * y)) by nia.
    rewrite u256_add_Ok by nia. simpl.
    destruct (Rational_new_reduced (numer a * y + numer b * x) (g * x * y))
      as (r & -> & Hw & Hq & ? & ?); [unfold in_range; nia..|].
    exists r. split_and!; [done|done| |lia|lia]. rewrite Hq, toQ_plus by lia. rewrite Ea, Eb.
    unfold Qeq; simpl. rewrite !Z2Pos.id by nia. ring.
Qed.

Lemma Rational_add_ok a b :
  rational_wf a -> rational_wf b ->
  numer a * denom b + numer b * denom a < 2 ^ 256 -> denom a * denom b < 2 ^ 256 ->
  returns (E:=E) (Rational_add a b) (toQ a + toQ b)%Q.
Proof.
  intros. destruct (Rational_add_reduced a b) as (r & ? & ? & ? & _); [done..|]. by exists r.
Qed.

Lemma Rational_sub_ok a b :
  rational_wf a -> rational_wf b ->
  numer b * denom a <= numer a * denom b ->
  numer a * denom b < 2 ^ 256 -> denom a * denom b < 2 ^ 256 ->
  returns (E:=E) (Rational_sub a b) (toQ a - toQ b)%Q.
Proof.
  intros Ha Hb Hle H1 H2. pose proof Ha as [Hna Hda]. pose proof Hb as [Hnb Hdb].
  unfold in_range in *. rewrite toQ_minus by lia. unfold Rational_sub.
  destruct (Z.eqb_spec (denom a) (denom b)) as [Hd|Hd].
  - rewrite Hd in *. rewrite u256_sub_Ok by nia. simpl.
    destruct (Rational_new_ok (numer a - numer b) (denom b)) as (r & -> & Hw & Hr);
      [unfold in_range; nia|lia|].
    exists r. split_and!; [done|done|]. rewrite Hr.
    unfold Qeq; simpl. rewrite !Z2Pos.id by nia. ring.
  - destruct (common_denominator a b) as (g & x & y & Hg & ? & ? & ? & Ea & Eb & ?);
      [done|done|nia..|]. destruct_and!.
    rewrite Hg. run_ok. rewrite Ea, Eb in *.
    assert (numer b * x <= numer a * y) by nia.
    assert (numer a * y <= numer a * (g * y)) by nia.
    assert (g * x * y <= g * x * (g * y)) by nia.
    rewrite u256_sub_Ok by nia. simpl.
    destruct (Rational_new_ok (numer a * y - numer b * x) (g * x * y)) as (r & -> & Hw & Hq);
      [unfold in_range; nia..|].
    exists r. split_and!; [done|done|]. rewrite Hq.
    unfold Qeq; simpl. rewrite !Z2Pos.id by nia. ring.
Qed.

Lemma Rational_mul_gives a b :
  rational_wf a -> rational_wf b ->
  numer a * numer b < 2 ^ 256 -> denom a * denom b < 2 ^ 256 ->
  gives (E:=E) (Rational_mul a b) (numer a * numer b) (denom a * denom b).
Proof.
  intros [Hna Hda] [Hnb Hdb] H1 H2. unfold in_range in *.
  unfold Rational_mul.
  destruct (gcd_split_num (numer a) (denom b)) as (g & x & y & -> & Hg & Hx & Hy & Ex & Ey);
    [done..|].
  rewrite (num_gcd_spec (denom a) (numer b)) by zlia. rewrite Z.gcd_comm.
  destruct (gcd_split (numer b) (denom a)) as (h & u & v & -> & Hh & Hu & Hv & Eu & Ev);
    [lia..|].
  rewrite Ex, Ey, Eu, Ev in *.
  assert (x * u <= g * x * (h * u)) by nia.
  assert (v * y <= h * v * (g * y)) by nia.
  rewrite !u256_div_Ok by (unfold in_range; nia). simpl. rewrite !div_mul_exact by done.
  rewrite !u256_mul_Ok by (unfold in_range; nia). simpl.
  eexists; split; [done|]. unfold Rational_new_raw.
  unfold frac; simpl. split_and!; nia.
Qed.

Lemma Rational_mul_ok a b :
  rational_wf a -> rational_wf b ->
  numer a * numer b < 2 ^ 256 -> denom a * denom b < 2 ^ 256 ->
  returns (E:=E) (Rational_mul a b) (toQ a * toQ b)%Q.
Proof.
  intros Ha Hb H1 H2. pose proof Ha as [? ?]. pose proof Hb as [? ?].
  eapply gives_returns; [by apply Rational_mul_gives|done|done|]. by rewrite toQ_mult by lia.
Qed.

Lemma Rational_div_gives a b :
  rational_wf a -> rational_wf b -> numer b <> 0 ->
  numer a * denom b < 2 ^ 256 -> denom a * numer b < 2 ^ 256 ->
  gives (E:=E) (Rational_div a b) (numer a * denom b) (denom a * numer b).
Proof.
  intros [Hna Hda] [Hnb Hdb] Hz H1 H2. unfold in_range in *.
  unfold Rational_div.
  destruct (gcd_split_num (numer a) (numer b)) as (g & x & y & -> & Hg & Hx & Hy & Ex & Ey);
    [done|lia|].
  destruct (gcd_split_num (denom a) (denom b)) as (h & u & v & -> & Hh & Hu & Hv & Eu & Ev);
    [unfold in_range; lia|lia|].
  rewrite Ex, Ey, Eu, Ev in *.
  assert (0 < u) by nia.
  assert (x * v <= g * x * (h * v)) by nia.
  assert (u * y <= h * u * (g * y)) by nia.
  rewrite !u256_div_Ok by (unfold in_range; nia). simpl. rewrite !div_mul_exact by done.
  rewrite !u256_mul_Ok by (unfold in_range; nia). simpl.
  eexists; split; [done|]. unfold Rational_new_raw.
  unfold frac; simpl. split_and!; nia.
Qed.

Lemma Rational_div_ok a b :
  rational_wf a -> rational_wf b -> numer b <> 0 ->
  numer a * denom b < 2 ^ 256 -> denom a * numer b < 2 ^ 256 ->
  returns (E:=E) (Rational_div a b) (toQ a / toQ b)%Q.
Proof.
  intros Ha Hb Hz H1 H2. pose proof Ha as [? ?]. pose proof Hb as [? ?]. unfold in_range in *.
  eapply gives_returns; [by apply Rational_div_gives|done|done|]. by rewrite toQ_div by lia.
Qed.

Lemma Rational_cmp_ok a b :
  rational_wf a -> rational_wf b ->
  numer a * denom b < 2 ^ 256 -> numer b * denom a < 2 ^ 256 ->
  denom a * denom b < 2 ^ 256 ->
  Rational_cmp (E:=E) a b = Ok (toQ a ?= toQ b)%Q.
Proof.
  intros Ha Hb H1 H2 H3. pose proof Ha as [Hna Hda]. pose proof Hb as [Hnb Hdb].
  unfold Rational_cmp.
  destruct (common_denominator a b) as (g & x & y & Hg & ? & ? & ? & Ea & Eb & ?); [done..|].
  destruct_and!. rewrite Hg. run_ok. f_equal.
  unfold toQ, Qcompare; simpl. rewrite !Z2Pos.id by lia. rewrite Ea, Eb.
  replace (numer a * (g * y)) with (g * (numer a * y)) by ring.
  replace (numer b * (g * x)) with (g * (numer b * x)) by ring.
  apply Zmult_compare_compat_l. lia.
Qed.

Lemma Rational_mul_u256_gives a n :
  rational_wf a -> is_u256 n -> numer a * n < 2 ^ 256 ->
  gives (E:=E) (Rational_mul_u256 a n) (numer a * n) (denom a).
Proof.
  intros [Hna Hda] Hn H1. unfold in_range in *.
  unfold Rational_mul_u256; simpl.
  rewrite (num_gcd_spec (denom a) n) by zlia. rewrite Z.gcd_comm.
  destruct (gcd_split n (denom a)) as (h & u & v & -> & Hh & Hu & Hv & Eu & Ev); [lia..|].
  rewrite Eu, Ev in *. assert (numer a * u <= numer a * (h * u)) by nia.
  rewrite !u256_div_Ok by (unfold in_range; nia). simpl. rewrite !div_mul_exact by done.
  rewrite !u256_mul_Ok by (unfold in_range; nia). simpl.
  eexists; split; [done|]. unfold Rational_new_raw.
  unfold frac; simpl. split_and!; nia.
Qed.

Lemma Rational_mul_u256_ok a n :
  rational_wf a -> is_u256 n -> numer a * n < 2 ^ 256 ->
  returns (E:=E) (Rational_mul_u256 a n) (toQ a * inject_Z n)%Q.
Proof.
  intros Ha Hn H1. pose proof Ha as [? ?].
  eapply gives_returns; [by apply Rational_mul_u256_gives|done|lia|].
  rewrite <- toQ_int, toQ_mult by (simpl; lia). simpl. by rewrite Z.mul_1_r.
Qed.

Lemma Rational_div_u256_ok a n :
  rational_wf a -> 0 < n < 2 ^ 256 -> denom a * n < 2 ^ 256 ->
  returns (E:=E) (Rational_div_u256 a n) (toQ a / inject_Z n)%Q.
Proof.
  intros [Hna Hda] Hn H1. unfold in_range in *.
  rewrite <- toQ_int, toQ_div by (simpl; lia). unfold Rational_div_u256; simpl.
  destruct (gcd_split_num (numer a) n) as (g & x & y & -> & Hg & Hx & Hy & Ex & Ey); [done..|].
  rewrite Ex, Ey in *. assert (denom a * y <= denom a * (g * y)) by nia.
  rewrite !u256_div_Ok by (unfold in_range; nia). simpl. rewrite !div_mul_exact by done.
  rewrite !u256_mul_Ok by (unfold in_range; nia). simpl.
  eexists; split; [done|]. unfold Rational_new_raw.
  split; [unfold rational_wf, in_range; simpl; nia|]. apply toQ_eq; nia.
Qed.

Lemma Rational_add_u256_ok a n :
  rational_wf a -> is_u256 n -> numer a + denom a * n < 2 ^ 256 ->
  Rational_add_u256 (E:=E) a n = Ok (mkRational (numer a + denom a * n) (denom a)).
Proof.
  intros [Hna Hda] Hn H1. unfold in_range in *. unfold Rational_add_u256.
  rewrite u256_mul_Ok by (unfold in_range; nia). simpl.
  by rewrite u256_add_Ok by nia.
Qed.

Lemma Rational_sub_u256_ok a n :
  rational_wf a -> is_u256 n -> denom a * n <= numer a ->
  Rational_sub_u256 (E:=E) a n = Ok (mkRational (numer a - denom a * n) (denom a)).
Proof.
  intros [Hna Hda] Hn H1. unfold in_range in *. unfold Rational_sub_u256.
  rewrite u256_mul_Ok by (unfold in_range; nia). simpl.
  by rewrite u256_sub_Ok by nia.
Qed.

(** Subtraction of an integer that stops at zero. *)
Lemma Rational_saturating_sub_u256_ok a n :
  rational_wf a -> is_u256 n -> denom a * n < 2 ^ 256 ->
  Rational_saturating_sub_u256 (E:=E) a n =
    Ok (if numer a <? denom a * n then Rational_zero
        else mkRational (numer a - denom a * n) (denom a)).
Proof.
  intros [Hna Hda] Hn H1. unfold Rational_saturating_sub_u256. unfold in_range in *.
  rewrite u256_mul_Ok by (unfold in_range; nia). simpl.
  destruct (num_overflowing_sub_spec (numer a) (denom a * n)) as [Ho Hv];
    [unfold in_range; nia..|].
  destruct (num_overflowing_sub (numer a) (denom a * n)) as [v o]; simpl in *. subst o.
  destruct (Z.ltb_spec (numer a) (denom a * n)); [done|]. by rewrite Hv by lia.
Qed.

(** [into_u256] rounds towards zero. *)
Lemma Rational_into_u256_ok a :
  rational_wf a -> Rational_into_u256 (E:=E) a = Ok (numer a / denom a).
Proof. intros [Hna Hda]. apply u256_div_Ok; [done|lia]. Qed.

Lemma Rational_saturating_sub_ok a b :
  rational_wf a -> rational_wf b ->
  numer a * denom b < 2 ^ 256 -> numer b * denom a < 2 ^ 256 ->
  denom a * denom b < 2 ^ 256 ->
  returns (E:=E) (Rational_saturating_sub a b)
    (if Qle_bool (toQ b) (toQ a) then toQ a - toQ b else 0)%Q.
Proof.
  intros Ha Hb H1 H2 H3. pose proof Ha as [Hna Hda]. pose proof Hb as [Hnb Hdb].
  unfold in_range in *.
  assert (Qle_bool (toQ b) (toQ a) = (numer b * denom a <=? numer a * denom b)) as ->.
  { unfold Qle_bool, toQ; simpl. by rewrite !Z2Pos.id by lia. }
  assert (returns (E:=E) (Ok Rational_zero) 0) as Hzero.
  { exists Rational_zero. split_and!; [done| |done].
    unfold rational_wf, in_range; simpl. lia. }
  unfold Rational_saturating_sub.
  destruct (Z.eqb_spec (denom a) (denom b)) as [Hd|Hd].
  - destruct (num_overflowing_sub_spec (numer a) (numer b)) as [Ho Hv]; [unfold in_range; lia..|].
    destruct (num_overflowing_sub (numer a) (numer b)) as [v o]; simpl in *. subst o.
    rewrite Hd in *. destruct (Z.ltb_spec (numer a) (numer b)).
    { destruct (Z.leb_spec (numer b * denom b) (numer a * denom b)); [nia|done]. }
    destruct (Z.leb_spec (numer b * denom b) (numer a * denom b)); [|nia].
    rewrite Hv by lia. rewrite toQ_minus by lia.
    destruct (Rational_new_ok (numer a - numer b) (denom b)) as (r & -> & Hw & Hr);
      [unfold in_range; nia|lia|].
    exists r. split_and!; [done|done|]. rewrite Hr.
    unfold Qeq; simpl. rewrite Hd, !Z2Pos.id by nia. ring.
  - destruct (common_denominator a b) as (g & x & y & Hg & ? & ? & ? & Ea & Eb & ?);
      [done|done|nia..|]. destruct_and!.
    rewrite Hg. run_ok. rewrite Ea, Eb in *.
    assert (numer a * y <= numer a * (g * y)) by nia.
    assert (numer b * x <= numer b * (g * x)) by nia.
    assert (g * x * y <= g * x * (g * y)) by nia.
    destruct (num_overflowing_sub_spec (numer a * y) (numer b * x)) as [Ho Hv];
      [unfold in_range; nia..|].
    destruct (num_overflowing_sub (numer a * y) (numer b * x)) as [v o]; simpl in *. subst o.
    destruct (Z.ltb_spec (numer a * y) (numer b * x)).
    { destruct (Z.leb_spec (numer b * (g * x)) (numer a * (g * y))); [nia|done]. }
    destruct (Z.leb_spec (numer b * (g * x)) (numer a * (g * y))); [|nia].
    rewrite Hv by lia. rewrite toQ_minus by lia.
    destruct (Rational_new_ok (numer a * y - numer b * x) (g * x * y)) as (r & -> & Hw & Hq);
      [unfold in_range; nia..|].
    exists r. split_and!; [done|done|]. rewrite Hq.
    unfold Qeq; simpl. rewrite Ea, Eb, !Z2Pos.id by nia. ring.
Qed.

(** *** Fractions through the operations *)

Lemma frac_wf r n d : frac r n d -> n < 2 ^ 256 -> d < 2 ^ 256 -> rational_wf r.
Proof. intros (? & ? & ?). unfold rational_wf, in_range. lia. Qed.

Lemma cross_mul (p q n1 d1 n2 d2 x y : Z) :
  p * d1 = n1 * q -> x * d2 = n2 * y -> (p * x) * (d1 * d2) = (n1 * n2) * (q * y).
Proof.
  intros H1 H2. replace (p * x * (d1 * d2)) with ((p * d1) * (x * d2)) by ring.
  rewrite H1, H2. ring.
Qed.

Lemma gives_le (m : outcome E RationalU256) n d n' d' :
  gives m n d -> 0 <= n <= n' -> 0 < d <= d' -> n * d' = n' * d -> gives m n' d'.
Proof.
  intros (r & -> & ? & ? & Hr) ? ? Hx. exists r. split; [done|]. unfold frac.
  split_and!; try lia. assert (numer r * d' * d = n' * denom r * d) by (transitivity (n * denom r * d'); nia).
  nia.
Qed.

Lemma frac_new n d :
  is_u256 n -> 0 < d < 2 ^ 256 -> gives (E:=E) (Rational_new n d) n d.
Proof.
  intros Hn Hd. destruct (Rational_new_reduced n d) as (r & ? & [[? ?] ?] & Hq & ? & ?); [done..|].
  exists r. split; [done|]. unfold frac. split_and!; try lia.
  revert Hq. unfold toQ, Qeq; simpl. rewrite !Z2Pos.id by lia. done.
Qed.

Lemma frac_mul a b n1 d1 n2 d2 :
  frac a n1 d1 -> frac b n2 d2 -> n1 < 2 ^ 256 -> d1 < 2 ^ 256 -> n2 < 2 ^ 256 -> d2 < 2 ^ 256 ->
  n1 * n2 < 2 ^ 256 -> d1 * d2 < 2 ^ 256 ->
  gives (E:=E) (Rational_mul a b) (n1 * n2) (d1 * d2).
Proof.
  intros Ha Hb ? ? ? ? Hn Hd. pose proof Ha as (? & ? & Ea). pose proof Hb as (? & ? & Eb).
  assert (numer a * numer b <= n1 * n2) by nia. assert (denom a * denom b <= d1 * d2) by nia.
  eapply gives_le; [apply Rational_mul_gives; [by eapply frac_wf..|lia|lia]|nia|nia|].
  by apply cross_mul.
Qed.

Lemma frac_div_op a b n1 d1 n2 d2 :
  frac a n1 d1 -> frac b n2 d2 -> n1 < 2 ^ 256 -> d1 < 2 ^ 256 -> n2 < 2 ^ 256 -> d2 < 2 ^ 256 ->
  n2 <> 0 -> n1 * d2 < 2 ^ 256 -> d1 * n2 < 2 ^ 256 ->
  gives (E:=E) (Rational_div a b) (n1 * d2) (d1 * n2).
Proof.
  intros Ha Hb ? ? ? ? Hz Hn Hd. pose proof (frac_zero _ _ _ Hb) as Hz'.
  pose proof Ha as (? & ? & Ea). pose proof Hb as (? & ? & Eb).
  assert (numer a * denom b <= n1 * d2) by nia. assert (denom a * numer b <= d1 * n2) by nia.
  eapply gives_le; [apply Rational_div_gives; [by eapply frac_wf..|naive_solver|lia|lia]|nia|nia|].
  apply cross_mul; [done|lia].
Qed.

Lemma frac_mul_int a n d k :
  frac a n d -> n < 2 ^ 256 -> d < 2 ^ 256 -> is_u256 k -> n * k < 2 ^ 256 ->
  gives (E:=E) (Rational_mul_u256 a k) (n * k) d.
Proof.
  intros Ha ? ? [? ?] Hn. pose proof Ha as (? & ? & Ea).
  assert (numer a * k <= n * k) by nia.
  eapply gives_le; [apply Rational_mul_u256_gives; [by eapply frac_wf|done|lia]|nia|lia|].
  nia.
Qed.

Lemma frac_add_int a n d k :
  frac a n d -> n < 2 ^ 256 -> d < 2 ^ 256 -> is_u256 k -> n + d * k < 2 ^ 256 ->
  gives (E:=E) (Rational_add_u256 a k) (n + d * k) d.
Proof.
  intros Ha ? ? [? ?] Hn. pose proof Ha as (? & ? & Ea).
  assert (denom a * k <= d * k) by nia.
  eexists. split; [apply Rational_add_u256_ok; [by eapply frac_wf|done|lia]|].
  unfold frac; simpl. split_and!; nia.
Qed.

Lemma frac_saturating_sub_int a n d k :
  frac a n d -> n < 2 ^ 256 -> d < 2 ^ 256 -> is_u256 k -> d * k < 2 ^ 256 ->
  gives (E:=E) (Rational_saturating_sub_u256 a k) (Z.max 0 (n - d * k)) d.
Proof.
  intros Ha ? ? [? ?] Hn. pose proof Ha as (? & ? & Ea).
  assert (denom a * k <= d * k) by nia.
  eexists. split; [apply Rational_saturating_sub_u256_ok; [by eapply frac_wf|done|lia]|].
  assert ((numer a - denom a * k) * d = (n - d * k) * denom a) by nia.
  destruct (Z.ltb_spec (numer a) (denom a * k)); unfold frac; simpl.
  - assert (n - d * k < 0) by nia. rewrite Z.max_l by lia. lia.
  - assert (0 <= n - d * k) by nia. rewrite Z.max_r by lia. split_and!; nia.
Qed.

Lemma frac_cmp a b n1 d1 n2 d2 :
  frac a n1 d1 -> frac b n2 d2 -> n1 < 2 ^ 256 -> d1 < 2 ^ 256 -> n2 < 2 ^ 256 -> d2 < 2 ^ 256 ->
  n1 * d2 < 2 ^ 256 -> n2 * d1 < 2 ^ 256 -> d1 * d2 < 2 ^ 256 ->
  Rational_cmp (E:=E) a b = Ok (n1 * d2 ?= n2 * d1).
Proof.
  intros Ha Hb ? ? ? ? ? ? ?. pose proof Ha as (? & ? & _). pose proof Hb as (? & ? & _).
  rewrite Rational_cmp_ok; [|by eapply frac_wf|by eapply frac_wf|nia|nia|nia].
  rewrite (frac_toQ _ _ _ Ha), (frac_toQ _ _ _ Hb). unfold Qcompare; simpl.
  by rewrite !Z2Pos.id by lia.
Qed.

Lemma frac_into_u256 a n d :
  frac a n d -> n < 2 ^ 256 -> d < 2 ^ 256 -> Rational_into_u256 (E:=E) a = Ok (n / d).
Proof.
  intros Ha ? ?. rewrite Rational_into_u256_ok by by eapply frac_wf. f_equal. by apply frac_div.
Qed.

(** C28: within the range of [U256], the arithmetic of [RationalU256] is that of
    the rational numbers: addition, multiplication, subtraction, division and
    comparison of well-formed pairs whose cross products fit end in [Ok] of a
    well-formed pair whose value is the exact result, without a panic. *)
Theorem rational_refines_Q a b :
  rational_wf a -> rational_wf b ->
  numer a * denom b + numer b * denom a < 2 ^ 256 ->
  denom a * denom b < 2 ^ 256 -> numer a * numer b < 2 ^ 256 ->
  returns (E:=E) (Rational_add a b) (toQ a + toQ b)%Q /\
  returns (E:=E) (Rational_mul a b) (toQ a * toQ b)%Q /\
  ((toQ b <= toQ a)%Q -> returns (E:=E) (Rational_sub a b) (toQ a - toQ b)%Q) /\
  (~ (toQ b == 0)%Q -> returns (E:=E) (Rational_div a b) (toQ a / toQ b)%Q) /\
  returns (E:=E) (Rational_saturating_sub a b)
    (if Qle_bool (toQ b) (toQ a) then toQ a - toQ b else 0)%Q /\
  Rational_cmp (E:=E) a b = Ok (toQ a ?= toQ b)%Q.
Proof.
  intros Ha Hb H1 H2 H3. pose proof Ha as [Hna Hda]. pose proof Hb as [Hnb Hdb].
  unfold in_range in *.
  split_and!.
  - by apply Rational_add_ok.
  - by apply Rational_mul_ok.
  - rewrite toQ_le by lia. intros. apply Rational_sub_ok; [done..|nia|done].
  - intros Hz. apply Rational_div_ok; [done| done | | nia | nia].
    intros Hz'. apply Hz. unfold toQ. by rewrite Hz'.
  - apply Rational_saturating_sub_ok; [done..|nia|nia|done].
  - apply Rational_cmp_ok; [done..|nia|nia|done].
Qed.

End correct.

Lemma rational_refines_Q_witness :
  let a := mkRational 3 4 in let b := mkRational 1 6 in
  rational_wf a /\ rational_wf b /\
  returns (E:=unit) (@Rational_add numext_ref unit a b) (toQ a + toQ b)%Q.
Proof.
  intros a b.
  assert (rational_wf a) by (unfold rational_wf, in_range, a; simpl; lia).
  assert (rational_wf b) by (unfold rational_wf, in_range, b; simpl; lia).
  split_and!; [done..|].
  refine (proj1 (@rational_refines_Q numext_ref numext_ref_spec unit a b _ _ _ _ _));
    first [done | simpl; lia].
Defined.
