(* ===== verification/Difficulty.v ===== *)
(** * Compact targets and difficulties: src/util/types/src/utilities/difficulty.rs

    A proof-of-work target is a 256-bit number, stored in a header in the
    "compact" format: 8 bits of exponent (base 256) and 24 bits of mantissa.
    The theorems show what the format keeps of a target, that the encoding is
    idempotent, and that going through it never lowers a difficulty. *)

From S2P Require Import Prelude NumExt.

(** [ONE << 256], a [U512]. *)
Definition HSPACE : Z := 2 ^ 256.
Definition U256_max : Z := 2 ^ 256 - 1.
Definition DIFF_TWO : Z := 0x20800000.

Section ops.
Context `{NumExt} {E : Type}.

Definition target_to_difficulty (target : Z) : outcome E Z :=
  if target =? 1 then Ok U256_max
  else
    q ← expect (num512_div HSPACE target);
    Ok (fst (num512_to_256 q)).

Definition difficulty_to_target (difficulty : Z) : outcome E Z :=
  if difficulty =? 1 then Ok U256_max
  else
    q ← expect (num512_div HSPACE difficulty);
    Ok (fst (num512_to_256 q)).

(** The lowest of the four 64-bit limbs. *)
Definition get_low64 (target : Z) : Z := target mod 2 ^ 64.

Definition target_to_compact (target : Z) : Z :=
  let bits := 256 - num_leading_zeros target in
  let exponent := (bits + 7) / 8 in
  let compact :=
    if exponent <=? 3 then
      Z.shiftl (get_low64 target) (8 * (3 - exponent)) mod 2 ^ 64
    else get_low64 (num_shr target (8 * (exponent - 3))) in
  let compact := Z.lor compact (Z.shiftl exponent 24 mod 2 ^ 64) in
  compact mod 2 ^ 32.

Definition compact_to_target (compact : Z) : Z * bool :=
  let exponent := Z.shiftr compact 24 in
  let mantissa := Z.land compact 0x00ffffff in
  let '(mantissa, ret) :=
    if exponent <=? 3 then
      let mantissa := num_shr mantissa (8 * (3 - exponent)) in (mantissa, mantissa)
    else (mantissa, num_shl mantissa (8 * (exponent - 3))) in
  let overflow := negb (mantissa =? 0) && (32 <? exponent) in
  (ret, overflow).

Definition compact_to_difficulty (compact : Z) : outcome E Z :=
  let '(target, overflow) := compact_to_target compact in
  if (target =? 0) || overflow then Ok 0 else target_to_difficulty target.

Definition difficulty_to_compact (difficulty : Z) : outcome E Z :=
  target ← difficulty_to_target difficulty;
  Ok (target_to_compact target).

End ops.

(** ** What the compact format keeps *)

(** The low bytes a target loses: all but the three most significant ones. *)
Definition dropped_bits (target : Z) : Z :=
  8 * Z.max 0 ((Z.log2 target + 8) / 8 - 3).
Definition truncate_target (target : Z) : Z :=
  target / 2 ^ dropped_bits target * 2 ^ dropped_bits target.

Section facts.
Implicit Types t e m : Z.

(** The number of bytes of a positive target. *)
Lemma byte_length t :
  0 < t < 2 ^ 256 ->
  let e := (Z.log2 t + 8) / 8 in 1 <= e <= 32 /\ 2 ^ (8 * (e - 1)) <= t < 2 ^ (8 * e).
Proof.
  intros Ht e. pose proof (Z.log2_nonneg t).
  assert (Z.log2 t < 256) by (apply Z.log2_lt_pow2; lia).
  pose proof (Z.log2_spec t ltac:(lia)) as [Hl Hu].
  assert (8 * (e - 1) <= Z.log2 t < 8 * e) by (unfold e; divlia).
  split; [lia|]. split.
  - eapply Z.le_trans; [apply Z.pow_le_mono_r|done]; lia.
  - eapply Z.lt_le_trans; [done|]. apply Z.pow_le_mono_r; lia.
Qed.

Lemma byte_length_unique t e :
  1 <= e -> 2 ^ (8 * (e - 1)) <= t < 2 ^ (8 * e) -> (Z.log2 t + 8) / 8 = e.
Proof.
  intros He [Hl Hu].
  assert (0 < 2 ^ (8 * (e - 1))) by (apply Z.pow_pos_nonneg; lia).
  assert (8 * (e - 1) <= Z.log2 t) by (apply Z.log2_le_pow2; lia).
  assert (Z.log2 t < 8 * e) by (apply Z.log2_lt_pow2; lia). divlia.
Qed.

(** The 24-bit mantissa of a target of [e] bytes. *)
Definition mantissa_of t e : Z :=
  if e <=? 3 then t * 2 ^ (8 * (3 - e)) else t / 2 ^ (8 * (e - 3)).

Lemma mantissa_bounds t e :
  1 <= e -> 2 ^ (8 * (e - 1)) <= t < 2 ^ (8 * e) -> 2 ^ 16 <= mantissa_of t e < 2 ^ 24.
Proof.
  intros He [Hl Hu]. unfold mantissa_of. destruct (Z.leb_spec e 3).
  - assert (0 < 2 ^ (8 * (3 - e))) by (apply Z.pow_pos_nonneg; lia).
    replace (2 ^ 16) with (2 ^ (8 * (e - 1)) * 2 ^ (8 * (3 - e)))
      by (rewrite <- Z.pow_add_r by lia; f_equal; lia).
    replace (2 ^ 24) with (2 ^ (8 * e) * 2 ^ (8 * (3 - e)))
      by (rewrite <- Z.pow_add_r by lia; f_equal; lia).
    nia.
  - assert (0 < 2 ^ (8 * (e - 3))) by (apply Z.pow_pos_nonneg; lia).
    replace (2 ^ (8 * (e - 1))) with (2 ^ 16 * 2 ^ (8 * (e - 3))) in Hl
      by (rewrite <- Z.pow_add_r by lia; f_equal; lia).
    replace (2 ^ (8 * e)) with (2 ^ 24 * 2 ^ (8 * (e - 3))) in Hu
      by (rewrite <- Z.pow_add_r by lia; f_equal; lia).
    split; [apply Z.div_le_lower_bound | apply Z.div_lt_upper_bound]; lia.
Qed.

Context {N : NumExt} `{!NumExtSpec N}.

Lemma target_to_compact_eq t e :
  0 < t < 2 ^ 256 -> e = (Z.log2 t + 8) / 8 ->
  target_to_compact t = e * 2 ^ 24 + mantissa_of t e.
Proof.
  intros Ht ->. destruct (byte_length t Ht) as [He Hb].
  set (e := (Z.log2 t + 8) / 8) in *. pose proof (mantissa_bounds t e ltac:(lia) Hb) as Hm.
  unfold target_to_compact. rewrite num_leading_zeros_spec by zlia.
  destruct (Z.eqb_spec t 0); [lia|].
  replace ((256 - (255 - Z.log2 t) + 7) / 8) with e by (unfold e; f_equal; lia).
  unfold mantissa_of in *. unfold get_low64.
  assert (Z.shiftl e 24 mod 2 ^ 64 = Z.shiftl e 24) as ->.
  { rewrite Z.shiftl_mul_pow2 by lia. apply Z.mod_small. lia. }
  set (m := if e <=? 3 then t * 2 ^ (8 * (3 - e)) else t / 2 ^ (8 * (e - 3))) in *.
  assert ((if e <=? 3 then Z.shiftl (t mod 2 ^ 64) (8 * (3 - e)) mod 2 ^ 64
           else num_shr t (8 * (e - 3)) mod 2 ^ 64) = m) as ->.
  { subst m. destruct (Z.leb_spec e 3).
    - assert (t < 2 ^ 24).
      { eapply Z.lt_le_trans; [apply Hb|]. apply Z.pow_le_mono_r; lia. }
      rewrite (Z.mod_small t) by lia. rewrite Z.shiftl_mul_pow2 by lia.
      apply Z.mod_small. lia.
    - rewrite num_shr_spec by zlia. apply Z.mod_small. lia. }
  rewrite Z.lor_comm, lor_shiftl_disjoint by lia. apply Z.mod_small. lia.
Qed.

Lemma compact_to_target_eq e m :
  1 <= e <= 32 -> 2 ^ 16 <= m < 2 ^ 24 ->
  compact_to_target (e * 2 ^ 24 + m) =
    (if e <=? 3 then m / 2 ^ (8 * (3 - e)) else m * 2 ^ (8 * (e - 3)), false).
Proof.
  intros He Hm. unfold compact_to_target.
  rewrite shiftr_div, div_split by lia.
  change 0x00ffffff with (2 ^ 24 - 1). rewrite land_mask, mod_split by lia.
  destruct (Z.leb_spec e 3).
  - rewrite num_shr_spec by zlia. f_equal.
    destruct (Z.ltb_spec 32 e); [lia|]. by rewrite andb_false_r.
  - assert (0 < 2 ^ (8 * (e - 3))) by (apply Z.pow_pos_nonneg; lia).
    rewrite num_shl_spec; [..|].
    + f_equal. destruct (Z.ltb_spec 32 e); [lia|]. by rewrite andb_false_r.
    + zlia.
    + lia.
    + split; [nia|]. apply Z.lt_le_trans with (2 ^ 24 * 2 ^ (8 * (e - 3))); [nia|].
      rewrite <- Z.pow_add_r by lia. apply Z.pow_le_mono_r; lia.
Qed.

Lemma truncate_target_eq t e :
  0 < t < 2 ^ 256 -> e = (Z.log2 t + 8) / 8 ->
  truncate_target t =
    if e <=? 3 then mantissa_of t e / 2 ^ (8 * (3 - e)) else mantissa_of t e * 2 ^ (8 * (e - 3)).
Proof.
  intros Ht ->. destruct (byte_length t Ht) as [He Hb].
  unfold truncate_target, dropped_bits, mantissa_of.
  set (e := (Z.log2 t + 8) / 8) in *. destruct (Z.leb_spec e 3).
  - rewrite (Z.max_l 0) by lia. rewrite Z.div_1_r, Z.mul_1_r.
    rewrite Z.div_mul; [done|]. apply Z.pow_nonzero; lia.
  - by rewrite (Z.max_r 0) by lia.
Qed.

(** Truncation keeps the byte length and the mantissa. *)
Lemma truncate_target_spec t :
  0 < t < 2 ^ 256 ->
  0 < truncate_target t <= t /\ (t - truncate_target t) * 2 ^ 16 < t /\
  truncate_target t < 2 ^ 256 /\ target_to_compact (truncate_target t) = target_to_compact t.
Proof.
  intros Ht. destruct (byte_length t Ht) as [He Hb].
  rewrite (target_to_compact_eq t _ Ht eq_refl). rewrite (truncate_target_eq t _ Ht eq_refl).
  set (e := (Z.log2 t + 8) / 8) in *. pose proof (mantissa_bounds t e ltac:(lia) Hb) as Hm.
  unfold mantissa_of in *. destruct (Z.leb_spec e 3) as [Hle|Hgt].
  - assert (0 < 2 ^ (8 * (3 - e))) by (apply Z.pow_pos_nonneg; lia).
    rewrite Z.div_mul by lia. split_and!; [lia|lia|lia|lia|].
    rewrite (target_to_compact_eq t e Ht eq_refl). unfold mantissa_of.
    by destruct (Z.leb_spec e 3); [|lia].
  - set (k := 2 ^ (8 * (e - 3))) in *. assert (0 < k) by (apply Z.pow_pos_nonneg; lia).
    set (m := t / k) in *.
    assert (m * k <= t < m * k + k).
    { pose proof (Z.div_mod t k ltac:(lia)). pose proof (Z.mod_pos_bound t k ltac:(lia)).
      fold m in H0. lia. }
    assert (2 ^ (8 * (e - 1)) <= m * k < 2 ^ (8 * e)) as Hmk.
    { replace (8 * (e - 1)) with (16 + 8 * (e - 3)) by lia.
      replace (8 * e) with (24 + 8 * (e - 3)) by lia.
      rewrite !Z.pow_add_r by lia. fold k. nia. }
    split_and!; [nia|nia|nia|nia|].
    rewrite (target_to_compact_eq (m * k) e); [|nia|symmetry; apply byte_length_unique; lia].
    unfold mantissa_of. destruct (Z.leb_spec e 3); [lia|]. fold k.
    by rewrite Z.div_mul by lia.
Qed.

Lemma compact_roundtrip t :
  0 < t < 2 ^ 256 -> compact_to_target (target_to_compact t) = (truncate_target t, false).
Proof.
  intros Ht. destruct (byte_length t Ht) as [He Hb].
  rewrite (target_to_compact_eq t _ Ht eq_refl), (truncate_target_eq t _ Ht eq_refl).
  apply compact_to_target_eq; [done|]. apply mantissa_bounds; [lia|done].
Qed.

Lemma target_to_compact_u32 t : 0 < t < 2 ^ 256 -> is_u32 (target_to_compact t).
Proof.
  intros Ht. rewrite (target_to_compact_eq t _ Ht eq_refl).
  destruct (byte_length t Ht) as [He Hb].
  pose proof (mantissa_bounds t _ (proj1 He) Hb). zlia.
Qed.

(** C29: encoding a target in the compact format and decoding it never reports an
    overflow and gives back the target with all but its three leading bytes
    cleared: at most the target, below it by less than one part in 2^16, and
    encoded to the same compact value again. *)
Theorem compact_target_roundtrip t :
  0 < t < 2 ^ 256 ->
  exists t', compact_to_target (target_to_compact t) = (t', false) /\
    is_u32 (target_to_compact t) /\
    t' = truncate_target t /\ 0 < t' <= t /\ (t - t') * 2 ^ 16 < t /\
    target_to_compact t' = target_to_compact t.
Proof.
  intros Ht. exists (truncate_target t).
  destruct (truncate_target_spec t Ht) as (? & ? & ? & ?).
  split; [by apply compact_roundtrip|]. split; [by apply target_to_compact_u32|].
  done.
Qed.

Lemma target_to_difficulty_Ok {E} t :
  0 < t < 2 ^ 256 ->
  target_to_difficulty (E:=E) t = Ok (if t =? 1 then U256_max else HSPACE / t).
Proof.
  intros Ht. unfold target_to_difficulty, HSPACE. destruct (Z.eqb_spec t 1); [done|].
  rewrite num512_div_spec by zlia. simpl.
  rewrite num512_to_256_spec; [done|]. split; [apply Z.div_pos; lia|].
  apply Z.div_lt_upper_bound; lia.
Qed.

Lemma difficulty_to_target_Ok {E} d :
  0 < d < 2 ^ 256 ->
  difficulty_to_target (E:=E) d = Ok (if d =? 1 then U256_max else HSPACE / d).
Proof. apply (target_to_difficulty_Ok d). Qed.

Lemma compact_to_target_fits c t :
  is_u32 c -> compact_to_target c = (t, false) -> is_u256 t.
Proof.
  intros Hc. unfold compact_to_target. rewrite shiftr_div by lia.
  change 0x00ffffff with (2 ^ 24 - 1). rewrite land_mask by lia.
  pose proof (Z.mod_pos_bound c (2 ^ 24) ltac:(lia)) as Hm.
  assert (0 <= c / 2 ^ 24 < 256) as He by (destruct Hc; divlia).
  set (m := c mod 2 ^ 24) in *. set (e := c / 2 ^ 24) in *. destruct (Z.leb_spec e 3).
  - intros [= <- _]. rewrite num_shr_spec by zlia. split; [apply Z.div_pos; lia|].
    assert (0 < 2 ^ (8 * (3 - e))) by (apply Z.pow_pos_nonneg; lia).
    apply Z.le_lt_trans with m; [apply Z.div_le_upper_bound; nia|lia].
  - assert (0 < 2 ^ (8 * (e - 3))) by (apply Z.pow_pos_nonneg; lia).
    intros [= <- Ho]. destruct (Z.eqb_spec m 0) as [->|Hm0].
    { rewrite num_shl_spec by zlia. zlia. }
    cbn in Ho. reflect_bools.
    assert (is_u256 (m * 2 ^ (8 * (e - 3)))) as Hfit; [|by rewrite num_shl_spec by zlia].
    split; [nia|]. apply Z.lt_le_trans with (2 ^ 24 * 2 ^ (8 * (e - 3))); [nia|].
    rewrite <- Z.pow_add_r by lia. apply Z.pow_le_mono_r; lia.
Qed.

(** Every 32-bit word stands for a difficulty. *)
Lemma compact_to_difficulty_Ok {E} c :
  is_u32 c -> exists d, compact_to_difficulty (E:=E) c = Ok d /\ 0 <= d < 2 ^ 256.
Proof.
  intros Hc. unfold compact_to_difficulty. destruct (compact_to_target c) as [t o] eqn:Ht.
  destruct (((t =? 0) || o)%bool) eqn:Hz; [by exists 0|]. reflect_bools. subst o.
  apply compact_to_target_fits in Ht as [Ht0 Ht1]; [|done].
  rewrite target_to_difficulty_Ok by lia. eexists. split; [done|]. unfold U256_max, HSPACE.
  destruct (Z.eqb_spec t 1); [lia|]. split; [apply Z.div_pos; lia|apply Z.div_lt_upper_bound; lia].
Qed.

Lemma difficulty_to_compact_sound {E} d :
  0 < d < 2 ^ 256 ->
  exists c d', difficulty_to_compact (E:=E) d = Ok c /\ is_u32 c /\
    compact_to_difficulty (E:=E) c = Ok d' /\ d <= d' < 2 ^ 256.
Proof.
  intros Hd. unfold difficulty_to_compact. rewrite difficulty_to_target_Ok by done. simpl.
  set (t := if d =? 1 then U256_max else HSPACE / d).
  assert (0 < t < 2 ^ 256 /\ d * t <= HSPACE) as [Ht Hdt].
  { subst t. unfold U256_max, HSPACE. destruct (Z.eqb_spec d 1); [lia|].
    split; [|apply Z.mul_div_le; lia].
    split; [apply Z.div_str_pos; lia | apply Z.div_lt_upper_bound; lia]. }
  exists (target_to_compact t).
  destruct (truncate_target_spec t Ht) as (? & _ & ? & _).
  assert (is_u32 (target_to_compact t)) by by apply target_to_compact_u32.
  unfold compact_to_difficulty. rewrite compact_roundtrip by done.
  destruct (Z.eqb_spec (truncate_target t) 0); [lia|]. simpl.
  rewrite target_to_difficulty_Ok by lia. eexists. split_and!; [done|done|done|..].
  all: destruct (Z.eqb_spec (truncate_target t) 1); unfold U256_max, HSPACE in *; [lia|].
  - apply Z.div_le_lower_bound; nia.
  - apply Z.div_lt_upper_bound; lia.
Qed.

(** A positive difficulty has a compact encoding, and the difficulty a header
    with that encoding carries is never below the one asked for: rounding in the
    compact format cannot make a block easier to mine than the consensus
    computed. *)
Theorem difficulty_compact_never_easier d :
  0 < d < 2 ^ 256 ->
  exists c d', difficulty_to_compact (E:=unit) d = Ok c /\ is_u32 c /\
    compact_to_difficulty (E:=unit) c = Ok d' /\ d <= d' < 2 ^ 256.
Proof. apply difficulty_to_compact_sound. Qed.

End facts.

Lemma compact_target_roundtrip_witness :
  exists t', @compact_to_target numext_ref (@target_to_compact numext_ref 0x92345678) = (t', false) /\
    t' = 0x92345600.
Proof.
  destruct (@compact_target_roundtrip numext_ref numext_ref_spec 0x92345678)
    as (t' & H1 & _ & H2 & _); [lia|].
  exists t'. split; [exact H1 | rewrite H2; vm_compute; reflexivity].
Defined.

Lemma difficulty_compact_never_easier_witness :
  exists c d', @difficulty_to_compact numext_ref unit 1000003 = Ok c /\
    @compact_to_difficulty numext_ref unit c = Ok d' /\ 1000003 <= d'.
Proof.
  destruct (@difficulty_compact_never_easier numext_ref numext_ref_spec 1000003)
    as (c & d' & ? & _ & ? & [? _]); [lia|]. eauto.
Defined.
