(* ===== verification/Types.v ===== *)
(** * Chain data: src/util/types/schemas/blockchain.mol, core/views.rs, extension/shortcuts.rs,
    extension/capacity.rs

    The packed entities are records with the fields of the molecule schema; a
    fixed-width integer field is the integer it holds.  A view pairs an entity
    with its hashes, which the node computes once with blake2b and caches, so
    no hash function occurs here. *)

From S2P Require Import Prelude Capacity NumExt Difficulty.

(** ** Packed entities *)

Abbreviation ProposalShortId := bytes (only parsing).

Record Script := mkScript {
  code_hash : Byte32;
  hash_type : Z;
  args : bytes;
}.

Record OutPoint := mkOutPoint { op_tx_hash : Byte32; op_index : Z }.

Record CellInput := mkCellInput { since : Z; previous_output : OutPoint }.

Record CellOutput := mkCellOutput {
  capacity : Z;
  lock : Script;
  type_ : option Script;
}.

Record CellDep := mkCellDep { dep_out_point : OutPoint; dep_type : Z }.

Record RawTransaction := mkRawTransaction {
  tx_version : Z;
  cell_deps : list CellDep;
  header_deps : list Byte32;
  inputs : list CellInput;
  outputs : list CellOutput;
  outputs_data : list bytes;
}.

Record Transaction := mkTransaction {
  tx_raw : RawTransaction;
  witnesses : list bytes;
}.

Record RawHeader := mkRawHeader {
  version : Z;
  compact_target : Z;
  timestamp : Z;
  number : Z;
  epoch : Z;
  parent_hash : Byte32;
  transactions_root : Byte32;
  proposals_hash : Byte32;
  uncles_hash : Byte32;
  dao : Byte32;
}.

Record Header := mkHeader { header_raw : RawHeader; nonce : Z }.

Record UncleBlock := mkUncleBlock {
  uncle_header : Header;
  uncle_proposals : list ProposalShortId;
}.

Record Block := mkBlock {
  block_header : Header;
  block_uncles : list UncleBlock;
  block_transactions : list Transaction;
  block_proposals : list ProposalShortId;
}.

Inductive ScriptHashType := ScriptHashType_Data | ScriptHashType_Type.
Definition ScriptHashType_into (t : ScriptHashType) : Z :=
  match t with ScriptHashType_Data => 0 | ScriptHashType_Type => 1 end.
Inductive DepType := DepType_Code | DepType_DepGroup.
Definition DepType_into (t : DepType) : Z :=
  match t with DepType_Code => 0 | DepType_DepGroup => 1 end.

#[export] Instance Script_eq_dec : EqDecision Script.
Proof. solve_decision. Defined.
#[export] Instance OutPoint_eq_dec : EqDecision OutPoint.
Proof. solve_decision. Defined.
#[export] Instance CellInput_eq_dec : EqDecision CellInput.
Proof. solve_decision. Defined.
#[export] Instance CellOutput_eq_dec : EqDecision CellOutput.
Proof. solve_decision. Defined.
#[export] Instance CellDep_eq_dec : EqDecision CellDep.
Proof. solve_decision. Defined.
#[export] Instance RawTransaction_eq_dec : EqDecision RawTransaction.
Proof. solve_decision. Defined.
#[export] Instance Transaction_eq_dec : EqDecision Transaction.
Proof. solve_decision. Defined.
#[export] Instance RawHeader_eq_dec : EqDecision RawHeader.
Proof. solve_decision. Defined.
#[export] Instance Header_eq_dec : EqDecision Header.
Proof. solve_decision. Defined.

#[export] Program Instance OutPoint_countable : Countable OutPoint :=
  inj_countable' (fun o => (op_tx_hash o, op_index o)) (fun p => mkOutPoint p.1 p.2) _.
Next Obligation. by intros []. Qed.
#[export] Program Instance CellDep_countable : Countable CellDep :=
  inj_countable' (fun d => (dep_out_point d, dep_type d)) (fun p => mkCellDep p.1 p.2) _.
Next Obligation. by intros []. Qed.

(** ** Views *)

Record TransactionView := mkTransactionView {
  tx_data : Transaction;
  tx_hash : Byte32;
  tx_witness_hash : Byte32;
}.

Record HeaderView := mkHeaderView { header_data : Header; header_hash : Byte32 }.

Record UncleBlockView := mkUncleBlockView { uncle_data : UncleBlock; uncle_hash : Byte32 }.

Record UncleBlockVecView := mkUncleBlockVecView {
  uncles_data : list UncleBlock;
  uncles_hashes : list Byte32;
}.

Record BlockView := mkBlockView {
  block_data : Block;
  block_hash : Byte32;
  block_uncle_hashes : list Byte32;
  block_tx_hashes : list Byte32;
  block_tx_witness_hashes : list Byte32;
}.

(** *** Getters of [TransactionView] *)
Definition TransactionView_version (tx : TransactionView) : Z := tx_version (tx_raw (tx_data tx)).
Definition TransactionView_cell_deps (tx : TransactionView) : list CellDep :=
  cell_deps (tx_raw (tx_data tx)).
Definition TransactionView_header_deps (tx : TransactionView) : list Byte32 :=
  header_deps (tx_raw (tx_data tx)).
Definition TransactionView_inputs (tx : TransactionView) : list CellInput :=
  inputs (tx_raw (tx_data tx)).
Definition TransactionView_outputs (tx : TransactionView) : list CellOutput :=
  outputs (tx_raw (tx_data tx)).
Definition TransactionView_outputs_data (tx : TransactionView) : list bytes :=
  outputs_data (tx_raw (tx_data tx)).
Definition TransactionView_witnesses (tx : TransactionView) : list bytes :=
  witnesses (tx_data tx).
Definition TransactionView_input_pts_iter (tx : TransactionView) : list OutPoint :=
  previous_output <$> TransactionView_inputs tx.
Definition TransactionView_output_pts (tx : TransactionView) : list OutPoint :=
  (fun x => mkOutPoint (tx_hash tx) (Z.of_nat x mod 2 ^ 32)) <$>
    seq 0 (length (TransactionView_outputs tx)).
Definition TransactionView_outputs_with_data_iter (tx : TransactionView) :
    list (CellOutput * bytes) :=
  zip (TransactionView_outputs tx) (TransactionView_outputs_data tx).

(** *** Getters of [HeaderView] *)
Definition HeaderView_raw (h : HeaderView) : RawHeader := header_raw (header_data h).
Definition HeaderView_number (h : HeaderView) : Z := number (HeaderView_raw h).
Definition HeaderView_timestamp (h : HeaderView) : Z := timestamp (HeaderView_raw h).
Definition HeaderView_parent_hash (h : HeaderView) : Byte32 := parent_hash (HeaderView_raw h).
Definition HeaderView_is_genesis (h : HeaderView) : bool := HeaderView_number h =? 0.
Definition HeaderView_difficulty `{NumExt} {E} (h : HeaderView) : outcome E Z :=
  compact_to_difficulty (compact_target (HeaderView_raw h)).

(** *** Getters of [UncleBlockView] and [UncleBlockVecView] *)
Definition UncleBlockView_header (u : UncleBlockView) : HeaderView :=
  mkHeaderView (uncle_header (uncle_data u)) (uncle_hash u).
Definition UncleBlockView_raw (u : UncleBlockView) : RawHeader :=
  header_raw (uncle_header (uncle_data u)).
(** [UncleBlockVecView::into_iter]; the index of the hash is [should_be_ok]. *)
Definition UncleBlockVecView_into_iter {E} (us : UncleBlockVecView) :
    outcome E (list UncleBlockView) :=
  try_map (fun '(index, data) =>
    hash ← expect (uncles_hashes us !! index);
    Ok (mkUncleBlockView data hash)) (enumerate (uncles_data us)).

(** *** Getters of [BlockView] *)
Definition BlockView_header (b : BlockView) : HeaderView :=
  mkHeaderView (block_header (block_data b)) (block_hash b).
Definition BlockView_raw (b : BlockView) : RawHeader := header_raw (block_header (block_data b)).
Definition BlockView_number (b : BlockView) : Z := number (BlockView_raw b).
Definition BlockView_is_genesis (b : BlockView) : bool := BlockView_number b =? 0.
Definition BlockView_uncles (b : BlockView) : UncleBlockVecView :=
  mkUncleBlockVecView (block_uncles (block_data b)) (block_uncle_hashes b).
Definition Block_as_uncle (b : Block) : UncleBlock :=
  mkUncleBlock (block_header b) (block_proposals b).
Definition BlockView_as_uncle (b : BlockView) : UncleBlockView :=
  mkUncleBlockView (Block_as_uncle (block_data b)) (block_hash b).
Definition BlockView_transactions (b : BlockView) : list TransactionView :=
  (fun '((data, hash), witness_hash) => mkTransactionView data hash witness_hash) <$>
    zip (zip (block_transactions (block_data b)) (block_tx_hashes b)) (block_tx_witness_hashes b).
Definition BlockView_union_proposal_ids_iter (b : BlockView) : list ProposalShortId :=
  block_proposals (block_data b) ++ (block_uncles (block_data b) ≫= uncle_proposals).
Definition BlockView_union_proposal_ids (b : BlockView) : gset bytes :=
  list_to_set (BlockView_union_proposal_ids_iter b).
Definition BlockView_transaction {E} (b : BlockView) (index : nat) :
    outcome E (option TransactionView) :=
  match block_transactions (block_data b) !! index with
  | None => Ok None
  | Some data =>
      hash ← expect (block_tx_hashes b !! index);
      witness_hash ← expect (block_tx_witness_hashes b !! index);
      Ok (Some (mkTransactionView data hash witness_hash))
  end.
Definition BlockView_output (b : BlockView) (tx_index index : nat) : option CellOutput :=
  tx ← block_transactions (block_data b) !! tx_index;
  outputs (tx_raw tx) !! index.

(** [BlockView::new_unchecked]. *)
Definition BlockView_new_unchecked (header : HeaderView) (uncles : UncleBlockVecView)
    (body : list TransactionView) (proposals : list ProposalShortId) : BlockView :=
  mkBlockView
    (mkBlock (header_data header) (uncles_data uncles) (tx_data <$> body) proposals)
    (header_hash header) (uncles_hashes uncles) (tx_hash <$> body) (tx_witness_hash <$> body).

(** ** Shortcuts *)

Definition Byte32_zero : Byte32 := zero32.
Definition Byte32_is_zero (h : Byte32) : bool := forallb (fun x => x =? 0) h.

(** The first ten bytes of the transaction hash. *)
Definition ProposalShortId_from_tx_hash (h : Byte32) : ProposalShortId := take 10 h.

Definition OutPoint_null : OutPoint := mkOutPoint Byte32_zero (2 ^ 32 - 1).
Definition OutPoint_is_null (o : OutPoint) : bool :=
  Byte32_is_zero (op_tx_hash o) && (op_index o =? 2 ^ 32 - 1).

Definition CellInput_new (previous_output : OutPoint) (block_number : Z) : CellInput :=
  mkCellInput block_number previous_output.
Definition CellInput_new_cellbase_input (block_number : Z) : CellInput :=
  CellInput_new OutPoint_null block_number.

Definition Transaction_is_cellbase (tx : Transaction) : bool :=
  match inputs (tx_raw tx), witnesses tx with
  | [input], [_] => OutPoint_is_null (previous_output input)
  | _, _ => false
  end.
Definition TransactionView_is_cellbase (tx : TransactionView) : bool :=
  Transaction_is_cellbase (tx_data tx).
Definition TransactionView_proposal_short_id (tx : TransactionView) : ProposalShortId :=
  ProposalShortId_from_tx_hash (tx_hash tx).

(** ** Occupied capacities *)

Definition Script_occupied_capacity (s : Script) : CapacityResult Capacity :=
  Capacity_bytes (Z.of_nat (length (args s)) + 32 + 1).

Definition CellOutput_occupied_capacity (self : CellOutput) (data_capacity : Capacity) :
    CapacityResult Capacity :=
  x ← Capacity_bytes 8;
  x ← Capacity_safe_add x data_capacity;
  y ← Script_occupied_capacity (lock self);
  x ← Capacity_safe_add y x;
  y ← match type_ self with
      | None => Ok Capacity_zero
      | Some t => Script_occupied_capacity t
      end;
  Capacity_safe_add y x.

Definition CellOutput_is_lack_of_capacity (self : CellOutput) (data_capacity : Capacity) :
    CapacityResult bool :=
  (fun cap => capacity self <? cap) <$> CellOutput_occupied_capacity self data_capacity.

Definition CellOutputVec_total_capacity (os : list CellOutput) : CapacityResult Capacity :=
  try_fold Capacity_safe_add Capacity_zero (capacity <$> os).

Definition TransactionView_outputs_capacity (tx : TransactionView) : CapacityResult Capacity :=
  CellOutputVec_total_capacity (TransactionView_outputs tx).

(** ** Lemmas *)

(** The bytes a cell occupies on chain: 8 for its capacity, its data, and its
    scripts (32 of code hash, 1 of hash type, and the arguments). *)
Definition script_bytes (s : Script) : Z := Z.of_nat (length (args s)) + 33.
Definition cell_bytes (o : CellOutput) : Z :=
  8 + script_bytes (lock o) + match type_ o with None => 0 | Some t => script_bytes t end.

Lemma script_bytes_pos s : 33 <= script_bytes s.
Proof. unfold script_bytes. lia. Qed.

Lemma cell_bytes_pos o : 41 <= cell_bytes o.
Proof.
  unfold cell_bytes. pose proof (script_bytes_pos (lock o)).
  destruct (type_ o) as [t|]; [pose proof (script_bytes_pos t)|]; lia.
Qed.

Lemma Script_occupied_capacity_Ok s c :
  Script_occupied_capacity s = Ok c <->
  c = script_bytes s * BYTE_SHANNONS /\ is_u64 (script_bytes s * BYTE_SHANNONS).
Proof.
  unfold Script_occupied_capacity. rewrite bytes_Ok. unfold script_bytes.
  by replace (Z.of_nat (length (args s)) + 32 + 1) with (Z.of_nat (length (args s)) + 33) by lia.
Qed.

(** Occupied capacity, as the protocol defines it, when it fits. *)
Lemma CellOutput_occupied_capacity_Ok o d c :
  is_u64 d ->
  CellOutput_occupied_capacity o d = Ok c <->
  c = cell_bytes o * BYTE_SHANNONS + d /\ is_u64 (cell_bytes o * BYTE_SHANNONS + d).
Proof.
  intros Hd. unfold CellOutput_occupied_capacity, cell_bytes.
  pose proof (script_bytes_pos (lock o)). unfold BYTE_SHANNONS in *. split.
  - intros Hc. destruct (type_ o) as [t|]; inv_cap;
      repeat match goal with
      | H : Script_occupied_capacity _ = Ok _ |- _ =>
          apply Script_occupied_capacity_Ok in H as [-> ?]
      end; unfold BYTE_SHANNONS, Capacity_zero in *; (split; [lia | zlia]).
  - intros [-> Hc].
    assert (0 <= match type_ o with None => 0 | Some t => script_bytes t end).
    { destruct (type_ o) as [t|]; [pose proof (script_bytes_pos t)|]; lia. }
    apply bind_Ok. eexists. split; [apply bytes_Ok; unfold BYTE_SHANNONS; split; [done|zlia]|].
    apply bind_Ok. eexists. split; [apply safe_add_Ok; unfold BYTE_SHANNONS; split; [done|zlia]|].
    apply bind_Ok. eexists.
    split; [apply Script_occupied_capacity_Ok; unfold BYTE_SHANNONS; split; [done|zlia]|].
    apply bind_Ok. eexists. split; [apply safe_add_Ok; unfold BYTE_SHANNONS; split; [done|zlia]|].
    apply bind_Ok.
    exists (match type_ o with None => 0 | Some t => script_bytes t end * 100000000).
    split; [|apply safe_add_Ok; unfold BYTE_SHANNONS; split; [lia|zlia]].
    destruct (type_ o) as [t|]; [|done].
    apply Script_occupied_capacity_Ok. unfold BYTE_SHANNONS. split; [done|zlia].
Qed.

Lemma total_capacity_Ok os c :
  Forall is_u64 (capacity <$> os) ->
  CellOutputVec_total_capacity os = Ok c <->
  c = sumZ (capacity <$> os) /\ is_u64 (sumZ (capacity <$> os)).
Proof.
  intros. unfold CellOutputVec_total_capacity.
  by rewrite try_fold_safe_add_Ok by (done || unfold Capacity_zero; zlia).
Qed.
