(* ===== verification/Molecule.v ===== *)
(** * The molecule encoding: src/util/types/src/generated (readers' [verify], getters, builders)

    The generated readers and builders follow four schemes: fixed arrays and
    structs, vectors of fixed-size items, options, and tables with an offset
    header.  [Codec] is the interface of a generated type and [CodecSpec] what
    it promises: decoding inverts encoding, and a byte string that passes
    [verify] is the encoding of what it decodes to, so that encodings are
    unique.  The numbers of the format are little-endian u32. *)

From S2P Require Import Prelude Capacity NumExt Difficulty Types.

Definition NUMBER_SIZE : Z := 4.
Definition pack_number (z : Z) : bytes := le_encode 4 z.
Definition unpack_number (s : bytes) : Z := le_decode (take 4 s).
Abbreviation zlen s := (Z.of_nat (length s)).

Class Codec (A : Type) := {
  as_slice : A -> bytes;
  verify : bytes -> bool;
  new_unchecked : bytes -> A;
}.

(** [Entity::from_slice]. *)
Definition from_slice {A} `{Codec A} (s : bytes) : option A :=
  if verify (A:=A) s then Some (new_unchecked s) else None.

Class CodecSpec (A : Type) `{Codec A} (valid : A -> Prop) := {
  codec_verify a : valid a -> verify (A:=A) (as_slice a) = true;
  codec_decode a : valid a -> new_unchecked (as_slice a) = a;
  codec_bytes a : valid a -> Forall is_u8 (as_slice a);
  codec_canonical s :
    Forall is_u8 s -> verify (A:=A) s = true ->
    valid (new_unchecked s) /\ as_slice (new_unchecked (A:=A) s) = s;
}.

(** ** Arrays and structs *)

(** [array Byte32 [byte; 32]]. *)
Definition array_verify (size : nat) (s : bytes) : bool := (length s =? size)%nat.

Definition OutPoint_as_slice (o : OutPoint) : bytes := op_tx_hash o ++ le_encode 4 (op_index o).
Definition OutPointReader_verify (s : bytes) : bool := zlen s =? 36.
Definition OutPointReader_read (s : bytes) : OutPoint :=
  mkOutPoint (take 32 s) (le_decode (take 4 (drop 32 s))).
#[export] Instance OutPoint_codec : Codec OutPoint := {|
  as_slice := OutPoint_as_slice; verify := OutPointReader_verify;
  new_unchecked := OutPointReader_read |}.

(** ** Vectors of fixed-size items *)

Definition fixvec_verify (item_size : Z) (s : bytes) : bool :=
  let slice_len := zlen s in
  if slice_len <? NUMBER_SIZE then false
  else
    let item_count := unpack_number s in
    if item_count =? 0 then slice_len =? NUMBER_SIZE
    else
      let total_size := NUMBER_SIZE + item_size * item_count in
      slice_len =? total_size.

(** [Bytes]: the items are the bytes. *)
Definition BytesReader_verify (s : bytes) : bool := fixvec_verify 1 s.
Definition Bytes_as_slice (b : bytes) : bytes := pack_number (zlen b) ++ b.
Definition Bytes_raw_data (s : bytes) : bytes := drop 4 s.

(** Reads [n] items of [size] bytes. *)
Fixpoint read_items {A} (read : bytes -> A) (size n : nat) (s : bytes) : list A :=
  match n with
  | O => []
  | S n' => read (take size s) :: read_items read size n' (drop size s)
  end.
Definition OutPointVecReader_verify (s : bytes) : bool := fixvec_verify 36 s.
Definition OutPointVec_as_slice (os : list OutPoint) : bytes :=
  pack_number (zlen os) ++ (os ≫= OutPoint_as_slice).
Definition OutPointVec_read (s : bytes) : list OutPoint :=
  read_items OutPointReader_read 36 (Z.to_nat (unpack_number s)) (drop 4 s).
#[export] Instance OutPointVec_codec : Codec (list OutPoint) := {|
  as_slice := OutPointVec_as_slice; verify := OutPointVecReader_verify;
  new_unchecked := OutPointVec_read |}.

(** ** Options *)
Definition BytesOptReader_verify (s : bytes) : bool :=
  match s with [] => true | _ => BytesReader_verify s end.
Definition BytesOpt_as_slice (o : option bytes) : bytes :=
  match o with None => [] | Some b => Bytes_as_slice b end.
Definition BytesOpt_read (s : bytes) : option bytes :=
  match s with [] => None | _ => Some (Bytes_raw_data s) end.

(** ** Tables *)

Fixpoint read_numbers (n : nat) (s : bytes) : list Z :=
  match n with
  | O => []
  | S n' => unpack_number s :: read_numbers n' (drop 4 s)
  end.

(** [offsets.windows(2).any(|i| i[0] > i[1])], negated. *)
Fixpoint monotone (os : list Z) : bool :=
  match os with
  | a :: ((b :: _) as os') => (a <=? b) && monotone os'
  | _ => true
  end.

(** The slices between consecutive offsets. *)
Fixpoint slices (s : bytes) (os : list Z) : list bytes :=
  match os with
  | a :: ((b :: _) as os') =>
      take (Z.to_nat (b - a)) (drop (Z.to_nat a) s) :: slices s os'
  | _ => []
  end.

(** The checks of a table reader's [verify] that do not depend on the types of
    its fields, with [compatible = false]; the result is the fields' slices. *)
Definition table_fields (FIELD_COUNT : nat) (s : bytes) : option (list bytes) :=
  let slice_len := zlen s in
  if slice_len <? NUMBER_SIZE then None
  else
    let total_size := unpack_number s in
    if negb (slice_len =? total_size) then None
    else if (slice_len =? NUMBER_SIZE) && (FIELD_COUNT =? 0)%nat then Some []
    else if slice_len <? NUMBER_SIZE * 2 then None
    else
      let offset_first := unpack_number (drop 4 s) in
      if negb (offset_first mod 4 =? 0) || (offset_first <? NUMBER_SIZE * 2) then None
      else
        let field_count := offset_first / 4 - 1 in
        if field_count <? Z.of_nat FIELD_COUNT then None
        else if Z.of_nat FIELD_COUNT <? field_count then None
        else
          let header_size := NUMBER_SIZE * (field_count + 1) in
          if slice_len <? header_size then None
          else
            let offsets := read_numbers (Z.to_nat field_count) (drop 4 s) ++ [total_size] in
            if negb (monotone offsets) then None else Some (slices s offsets).

(** A table builder's [write]. *)
Fixpoint table_offsets (start : Z) (fs : list bytes) : list Z :=
  match fs with
  | [] => []
  | f :: fs' => start :: table_offsets (start + zlen f) fs'
  end.
Definition table_write (fs : list bytes) : bytes :=
  let header_size := NUMBER_SIZE * (zlen fs + 1) in
  let total_size := header_size + zlen (concat fs) in
  pack_number total_size ++ (table_offsets header_size fs ≫= pack_number) ++ concat fs.

(** [Script]. *)
Definition Script_as_slice (x : Script) : bytes :=
  table_write [code_hash x; [hash_type x]; Bytes_as_slice (args x)].
Definition ScriptReader_verify (s : bytes) : bool :=
  match table_fields 3 s with
  | Some [c; h; a] => array_verify 32 c && array_verify 1 h && BytesReader_verify a
  | _ => false
  end.
Definition ScriptReader_read (s : bytes) : Script :=
  match table_fields 3 s with
  | Some [c; [h]; a] => mkScript c h (Bytes_raw_data a)
  | _ => mkScript [] 0 []
  end.
#[export] Instance Script_codec : Codec Script := {|
  as_slice := Script_as_slice; verify := ScriptReader_verify;
  new_unchecked := ScriptReader_read |}.

(** [CellbaseWitness]. *)
Record CellbaseWitness := mkCellbaseWitness { cw_lock : Script; cw_message : bytes }.
Definition CellbaseWitness_as_slice (w : CellbaseWitness) : bytes :=
  table_write [Script_as_slice (cw_lock w); Bytes_as_slice (cw_message w)].
Definition CellbaseWitnessReader_verify (s : bytes) : bool :=
  match table_fields 2 s with
  | Some [l; m] => ScriptReader_verify l && BytesReader_verify m
  | _ => false
  end.
Definition CellbaseWitnessReader_read (s : bytes) : CellbaseWitness :=
  match table_fields 2 s with
  | Some [l; m] => mkCellbaseWitness (ScriptReader_read l) (Bytes_raw_data m)
  | _ => mkCellbaseWitness (mkScript [] 0 []) []
  end.
#[export] Instance CellbaseWitness_codec : Codec CellbaseWitness := {|
  as_slice := CellbaseWitness_as_slice; verify := CellbaseWitnessReader_verify;
  new_unchecked := CellbaseWitnessReader_read |}.

(** [WitnessArgs]. *)
Record WitnessArgs := mkWitnessArgs {
  wa_lock : option bytes; wa_input_type : option bytes; wa_output_type : option bytes }.
Definition WitnessArgs_as_slice (w : WitnessArgs) : bytes :=
  table_write [BytesOpt_as_slice (wa_lock w); BytesOpt_as_slice (wa_input_type w);
               BytesOpt_as_slice (wa_output_type w)].
Definition WitnessArgsReader_verify (s : bytes) : bool :=
  match table_fields 3 s with
  | Some [l; i; o] =>
      BytesOptReader_verify l && BytesOptReader_verify i && BytesOptReader_verify o
  | _ => false
  end.
Definition WitnessArgsReader_read (s : bytes) : WitnessArgs :=
  match table_fields 3 s with
  | Some [l; i; o] => mkWitnessArgs (BytesOpt_read l) (BytesOpt_read i) (BytesOpt_read o)
  | _ => mkWitnessArgs None None None
  end.
#[export] Instance WitnessArgs_codec : Codec WitnessArgs := {|
  as_slice := WitnessArgs_as_slice; verify := WitnessArgsReader_verify;
  new_unchecked := WitnessArgsReader_read |}.

(** [Script::into_witness] and [Script::from_witness]. *)
Definition Script_into_witness (s : Script) : bytes := as_slice (mkCellbaseWitness s []).
Definition Script_from_witness (witness : bytes) : option Script :=
  cw_lock <$> from_slice (A:=CellbaseWitness) witness.

(** ** Numbers *)

Lemma length_pack_number z : length (pack_number z) = 4%nat.
Proof. apply length_le_encode. Qed.

Lemma pack_number_bytes z : Forall is_u8 (pack_number z).
Proof. apply le_encode_bytes. Qed.

Lemma unpack_pack_number z rest : is_u32 z -> unpack_number (pack_number z ++ rest) = z.
Proof.
  intros Hz. unfold unpack_number, pack_number.
  rewrite take_app_le, take_ge by (rewrite length_le_encode; lia).
  rewrite le_decode_encode. by apply Z.mod_small.
Qed.

Lemma pack_unpack_number s :
  Forall is_u8 s -> (4 <= length s)%nat -> pack_number (unpack_number s) = take 4 s.
Proof.
  intros Hs Hl. unfold pack_number, unpack_number.
  rewrite <- (length_take_le s 4) at 1 by lia. apply le_encode_decode. by apply Forall_take.
Qed.

Lemma le_decode_range bs : Forall is_u8 bs -> 0 <= le_decode bs < 256 ^ zlen bs.
Proof.
  induction 1 as [|b bs Hb _ IH]; cbn [le_decode length]; [done|].
  rewrite Nat2Z.inj_succ, Z.pow_succ_r by lia. unfold in_range in Hb. lia.
Qed.

Lemma unpack_number_u32 s : Forall is_u8 s -> is_u32 (unpack_number s).
Proof.
  intros Hs. unfold unpack_number.
  destruct (le_decode_range (take 4 s)) as [? Hu]; [by apply Forall_take|]. split; [done|].
  eapply Z.lt_le_trans; [exact Hu|]. change (2 ^ 32) with (256 ^ 4).
  apply Z.pow_le_mono_r; [lia|]. rewrite length_take. lia.
Qed.

Lemma drop_pack_number z s : drop 4 (pack_number z ++ s) = s.
Proof. by rewrite drop_app_length' by by rewrite length_pack_number. Qed.

(** ** Byte vectors *)

Definition valid_bytes (b : bytes) : Prop := Forall is_u8 b /\ zlen b < 2 ^ 32.

Lemma Bytes_verify b : valid_bytes b -> BytesReader_verify (Bytes_as_slice b) = true.
Proof.
  intros [Hb Hl]. unfold BytesReader_verify, fixvec_verify, Bytes_as_slice, NUMBER_SIZE.
  rewrite unpack_pack_number by zlia. rewrite length_app, length_pack_number.
  destruct (Z.ltb_spec (Z.of_nat (4 + length b)) 4); [lia|].
  destruct (Z.eqb_spec (zlen b) 0); apply Z.eqb_eq; lia.
Qed.

Lemma Bytes_canonical s :
  Forall is_u8 s -> BytesReader_verify s = true ->
  valid_bytes (Bytes_raw_data s) /\ Bytes_as_slice (Bytes_raw_data s) = s /\ s <> [].
Proof.
  intros Hs. unfold BytesReader_verify, fixvec_verify, NUMBER_SIZE, Bytes_raw_data,
    Bytes_as_slice. destruct (Z.ltb_spec (zlen s) 4); [done|]. intros Hv.
  pose proof (unpack_number_u32 s Hs) as Hu.
  assert (zlen s = 4 + unpack_number s) as Hlen.
  { destruct (Z.eqb_spec (unpack_number s) 0); reflect_bools; lia. }
  assert (zlen (drop 4 s) = unpack_number s) as Hd by (rewrite length_drop; lia).
  split_and!.
  - split; [by apply Forall_drop|]. rewrite Hd. zlia.
  - rewrite Hd, pack_unpack_number by (done || lia). apply take_drop.
  - intros ->. simpl in *. lia.
Qed.

Lemma Bytes_raw_data_as_slice b : Bytes_raw_data (Bytes_as_slice b) = b.
Proof. apply drop_pack_number. Qed.

Lemma Bytes_as_slice_bytes b : valid_bytes b -> Forall is_u8 (Bytes_as_slice b).
Proof. intros [? ?]. apply Forall_app. split; [apply pack_number_bytes|done]. Qed.

(** ** Tables *)

Lemma length_table_offsets a fs : length (table_offsets a fs) = length fs.
Proof. revert a. induction fs; intros; simpl; auto. Qed.

Lemma length_pack_numbers os : length (os ≫= pack_number) = (4 * length os)%nat.
Proof.
  induction os as [|o os IH]; [done|].
  rewrite bind_cons, length_app, length_pack_number, IH. simpl. lia.
Qed.

Lemma read_pack_numbers os rest :
  Forall is_u32 os -> read_numbers (length os) ((os ≫= pack_number) ++ rest) = os.
Proof.
  induction 1 as [|o os Ho _ IH]; [done|]. cbn [length read_numbers].
  rewrite bind_cons, <- app_assoc, unpack_pack_number by done. by rewrite drop_pack_number, IH.
Qed.

Lemma pack_read_numbers n s :
  Forall is_u8 s -> (4 * n <= length s)%nat ->
  (read_numbers n s ≫= pack_number) = take (4 * n) s.
Proof.
  revert s. induction n as [|n IH]; intros s Hs Hl; [done|]. cbn [read_numbers].
  rewrite bind_cons, pack_unpack_number by (done || lia).
  rewrite IH by (try apply Forall_drop; try done; rewrite length_drop; lia).
  rewrite take_take_drop. f_equal. lia.
Qed.

Lemma length_read_numbers n s : length (read_numbers n s) = n.
Proof. revert s. induction n; intros; simpl; auto. Qed.

Lemma table_offsets_range a fs :
  0 <= a -> Forall (fun o => a <= o <= a + zlen (concat fs)) (table_offsets a fs).
Proof.
  revert a. induction fs as [|f fs IH]; intros a Ha; csimpl; [constructor|].
  rewrite length_app. constructor; [lia|].
  eapply Forall_impl; [apply IH; lia|]. simpl. lia.
Qed.

Lemma monotone_table_offsets a fs :
  monotone (table_offsets a fs ++ [a + zlen (concat fs)]) = true.
Proof.
  revert a. induction fs as [|f fs IH]; intros a; [done|].
  specialize (IH (a + zlen f)). cbn [table_offsets concat app] in *. rewrite length_app.
  replace (a + Z.of_nat (length f + length (concat fs))) with (a + zlen f + zlen (concat fs))
    by lia.
  destruct fs as [|g fs]; cbn [table_offsets app monotone] in *.
  - simpl. rewrite andb_true_r. apply Z.leb_le. lia.
  - rewrite IH, andb_true_r. apply Z.leb_le. lia.
Qed.

Lemma slices_table_offsets pre fs :
  slices (pre ++ concat fs) (table_offsets (zlen pre) fs ++ [zlen pre + zlen (concat fs)]) = fs.
Proof.
  revert pre. induction fs as [|f fs IH]; intros pre; [done|].
  specialize (IH (pre ++ f)). rewrite length_app in IH. cbn [concat] in *.
  rewrite <- app_assoc in IH. rewrite length_app.
  replace (Z.of_nat (length pre + length f)) with (zlen pre + zlen f) in IH by lia.
  replace (zlen pre + Z.of_nat (length f + length (concat fs)))
    with (zlen pre + zlen f + zlen (concat fs)) by lia.
  assert (take (Z.to_nat (zlen pre + zlen f - zlen pre))
    (drop (Z.to_nat (zlen pre)) (pre ++ f ++ concat fs)) = f) as Hf.
  { rewrite Nat2Z.id, drop_app_length. replace (Z.to_nat _) with (length f) by lia.
    apply take_app_length. }
  destruct fs as [|g fs]; cbn [table_offsets app slices] in *.
  - simpl in *. rewrite Z.add_0_r. by rewrite Hf.
  - by rewrite Hf, IH.
Qed.

Lemma length_table_write fs :
  zlen (table_write fs) = 4 * (zlen fs + 1) + zlen (concat fs).
Proof.
  unfold table_write. rewrite !length_app, length_pack_number, length_pack_numbers,
    length_table_offsets. lia.
Qed.

(** A table of at least one field reads back the fields it was written from. *)
Lemma table_fields_write fs :
  (0 < length fs)%nat -> zlen (table_write fs) < 2 ^ 32 ->
  table_fields (length fs) (table_write fs) = Some fs.
Proof.
  intros Hn Hlt. pose proof (length_table_write fs) as Hlen. unfold table_fields, NUMBER_SIZE.
  set (hs := 4 * (zlen fs + 1)) in *.
  assert (table_write fs = pack_number (hs + zlen (concat fs)) ++
    (table_offsets hs fs ≫= pack_number) ++ concat fs) as Hw by done.
  assert (Forall is_u32 (table_offsets hs fs)) as Hos.
  { eapply Forall_impl; [apply table_offsets_range; lia|]. intros ? ?. zlia. }
  assert (unpack_number (table_write fs) = hs + zlen (concat fs)) as ->
    by (rewrite Hw; apply unpack_pack_number; zlia).
  assert (drop 4 (table_write fs) = (table_offsets hs fs ≫= pack_number) ++ concat fs) as ->
    by (rewrite Hw; apply drop_pack_number).
  assert (unpack_number ((table_offsets hs fs ≫= pack_number) ++ concat fs) = hs) as ->.
  { destruct fs as [|f fs]; [simpl in Hn; lia|]. cbn [table_offsets]. rewrite bind_cons, <- app_assoc.
    apply unpack_pack_number. zlia. }
  rewrite Hlen, Z.eqb_refl. cbn [negb].
  destruct (Z.ltb_spec (hs + zlen (concat fs)) 4); [lia|].
  destruct (Z.eqb_spec (hs + zlen (concat fs)) 4); [lia|]. cbn [andb].
  destruct (Z.ltb_spec (hs + zlen (concat fs)) (4 * 2)); [lia|].
  assert (hs mod 4 = 0) as -> by (subst hs; rewrite Z.mul_comm; apply Z.mod_mul; lia).
  destruct (Z.ltb_spec hs (4 * 2)); [lia|]. cbn [negb orb Z.eqb].
  assert (hs / 4 - 1 = zlen fs) as -> by (subst hs; rewrite Z.mul_comm, Z.div_mul; lia).
  rewrite Z.ltb_irrefl. destruct (Z.ltb_spec (hs + zlen (concat fs)) (4 * (zlen fs + 1))); [lia|].
  rewrite Nat2Z.id. rewrite <- (length_table_offsets hs fs), read_pack_numbers by done.
  rewrite monotone_table_offsets. cbn [negb]. f_equal.
  assert (zlen (pack_number (hs + zlen (concat fs)) ++ (table_offsets hs fs ≫= pack_number)) = hs)
    as Hpre by (rewrite length_app, length_pack_number, length_pack_numbers,
      length_table_offsets; lia).
  rewrite Hw, app_assoc. rewrite <- Hpre at 3 4. apply slices_table_offsets.
Qed.

Lemma monotone_ge a os o : monotone (a :: os) = true -> o ∈ a :: os -> a <= o.
Proof.
  revert a. induction os as [|b os IH]; intros a Hm Ho.
  - apply list_elem_of_singleton in Ho. lia.
  - cbn [monotone] in Hm. reflect_bools. apply elem_of_cons in Ho as [->|Ho]; [lia|].
    specialize (IH b). etrans; [eassumption|]. by apply IH.
Qed.

Lemma slices_cons s a b os :
  slices s (a :: b :: os) =
    take (Z.to_nat (b - a)) (drop (Z.to_nat a) s) :: slices s (b :: os).
Proof. done. Qed.

(** The slices between increasing offsets that end at the end of [s]. *)
Lemma slices_spec s a os :
  0 <= a -> monotone ((a :: os) ++ [zlen s]) = true ->
  table_offsets a (slices s ((a :: os) ++ [zlen s])) = a :: os /\
  concat (slices s ((a :: os) ++ [zlen s])) = drop (Z.to_nat a) s /\
  length (slices s ((a :: os) ++ [zlen s])) = S (length os).
Proof.
  revert a. induction os as [|b os IH]; intros a Ha Hm.
  - cbn [app monotone slices table_offsets concat length] in *. reflect_bools.
    split_and!; [done| |done]. rewrite app_nil_r, take_ge; [done|]. rewrite length_drop. lia.
  - pose proof (monotone_ge b (os ++ [zlen s]) (zlen s)) as Hle.
    cbn [app monotone] in Hm. cbn [app] in IH. reflect_bools.
    assert (b <= zlen s) by (apply Hle; [done|set_solver]).
    destruct (IH b) as (IH1 & IH2 & IH3); [lia|done|].
    cbn [app]. rewrite slices_cons. cbn [table_offsets concat length].
    assert (zlen (take (Z.to_nat (b - a)) (drop (Z.to_nat a) s)) = b - a) as ->
      by (rewrite length_take, length_drop; lia).
    replace (a + (b - a)) with b by lia. rewrite IH1, IH3. split_and!; [done| |done].
    rewrite IH2. replace (Z.to_nat b) with (Z.to_nat a + Z.to_nat (b - a))%nat by lia.
    by rewrite <- drop_drop, take_drop.
Qed.

(** A byte string whose table checks pass is the table written from its fields. *)
Lemma table_write_fields n s fs :
  (0 < n)%nat -> Forall is_u8 s -> table_fields n s = Some fs ->
  table_write fs = s /\ length fs = n /\ zlen s < 2 ^ 32 /\ Forall (Forall is_u8) fs.
Proof.
  intros Hn Hs Hf. unfold table_fields, NUMBER_SIZE in Hf.
  destruct (Z.ltb_spec (zlen s) 4); [done|].
  destruct (Z.eqb_spec (zlen s) (unpack_number s)) as [Htot|]; [|done]. cbn [negb] in Hf.
  pose proof (unpack_number_u32 s Hs) as Hu.
  destruct n as [|n]; [lia|]. rewrite andb_false_r in Hf.
  destruct (Z.ltb_spec (zlen s) (4 * 2)); [done|].
  set (o := unpack_number (drop 4 s)) in *.
  destruct (negb (o mod 4 =? 0) || (o <? 4 * 2)) eqn:Ho; [done|]. reflect_bools.
  destruct (Z.ltb_spec (o / 4 - 1) (Z.of_nat (S n))); [done|].
  destruct (Z.ltb_spec (Z.of_nat (S n)) (o / 4 - 1)); [done|].
  assert (o / 4 - 1 = Z.of_nat (S n)) as Hcount by lia. rewrite Hcount in Hf.
  assert (o = 4 * (Z.of_nat (S n) + 1)) as Hoeq by divlia.
  destruct (Z.ltb_spec (zlen s) (4 * (Z.of_nat (S n) + 1))) as [|Hhdr]; [done|].
  rewrite Nat2Z.id, <- Htot in Hf.
  destruct (monotone (read_numbers (S n) (drop 4 s) ++ [zlen s])) eqn:Hm; [|done].
  apply (inj Some) in Hf. subst fs. cbn [read_numbers] in *. fold o in Hm |- *.
  destruct (slices_spec s o (read_numbers n (drop 4 (drop 4 s)))) as (S1 & S2 & S3); [lia|done|].
  rewrite length_read_numbers in S3. split_and!; [|done|zlia|].
  - unfold table_write, NUMBER_SIZE. rewrite S3, <- Hoeq, S1, S2.
    assert (zlen (drop (Z.to_nat o) s) = zlen s - o) as -> by (rewrite length_drop; lia).
    replace (o + (zlen s - o)) with (unpack_number s) by lia.
    rewrite pack_unpack_number by (done || lia).
    change (o :: read_numbers n (drop 4 (drop 4 s))) with (read_numbers (S n) (drop 4 s)).
    rewrite pack_read_numbers by (try (by apply Forall_drop); rewrite length_drop; lia).
    rewrite app_assoc, take_take_drop. replace (4 + 4 * S n)%nat with (Z.to_nat o) by lia.
    apply take_drop.
  - clear -Hs. generalize ((o :: read_numbers n (drop 4 (drop 4 s))) ++ [zlen s]). intros os.
    induction os as [|x [|y os] IH]; [constructor..|]. constructor; [|apply IH].
    by apply Forall_take, Forall_drop.
Qed.

(** ** The generated types keep the promise of [CodecSpec] *)

Definition valid_Script (x : Script) : Prop :=
  length (code_hash x) = 32%nat /\ Forall is_u8 (code_hash x) /\ is_u8 (hash_type x) /\
  valid_bytes (args x) /\ zlen (Script_as_slice x) < 2 ^ 32.
Definition valid_CellbaseWitness (w : CellbaseWitness) : Prop :=
  valid_Script (cw_lock w) /\ valid_bytes (cw_message w) /\
  zlen (CellbaseWitness_as_slice w) < 2 ^ 32.
Definition valid_bytes_opt (o : option bytes) : Prop :=
  match o with None => True | Some b => valid_bytes b end.
Definition valid_WitnessArgs (w : WitnessArgs) : Prop :=
  valid_bytes_opt (wa_lock w) /\ valid_bytes_opt (wa_input_type w) /\
  valid_bytes_opt (wa_output_type w) /\ zlen (WitnessArgs_as_slice w) < 2 ^ 32.
Definition valid_OutPoint (o : OutPoint) : Prop :=
  length (op_tx_hash o) = 32%nat /\ Forall is_u8 (op_tx_hash o) /\ is_u32 (op_index o).
Definition valid_OutPointVec (os : list OutPoint) : Prop :=
  Forall valid_OutPoint os /\ zlen os < 2 ^ 32.

Lemma table_write_bytes fs : Forall (Forall is_u8) fs -> Forall is_u8 (table_write fs).
Proof.
  intros Hfs. unfold table_write. rewrite !Forall_app. split_and!; [apply pack_number_bytes| |].
  - generalize (table_offsets (NUMBER_SIZE * (zlen fs + 1)) fs). intros os.
    induction os as [|o os IH]; [constructor|]. rewrite bind_cons. apply Forall_app.
    split; [apply pack_number_bytes|done].
  - by apply Forall_concat.
Qed.

Lemma array_verify_true n s : array_verify n s = true <-> length s = n.
Proof. apply Nat.eqb_eq. Qed.

Lemma BytesOpt_verify o :
  valid_bytes_opt o -> BytesOptReader_verify (BytesOpt_as_slice o) = true.
Proof.
  destruct o as [b|]; [|done]. intros Hb. unfold BytesOptReader_verify, BytesOpt_as_slice.
  destruct (Bytes_as_slice b) eqn:E; [done|]. rewrite <- E. by apply Bytes_verify.
Qed.

Lemma BytesOpt_read_as_slice o : BytesOpt_read (BytesOpt_as_slice o) = o.
Proof.
  destruct o as [b|]; [|done]. unfold BytesOpt_read, BytesOpt_as_slice.
  pose proof (Bytes_raw_data_as_slice b) as Hb. destruct (Bytes_as_slice b) eqn:E; [|by rewrite Hb].
  unfold Bytes_as_slice in E. apply (f_equal length) in E.
  rewrite length_app, length_pack_number in E. done.
Qed.

Lemma BytesOpt_as_slice_bytes o : valid_bytes_opt o -> Forall is_u8 (BytesOpt_as_slice o).
Proof. destruct o; [apply Bytes_as_slice_bytes|constructor]. Qed.

Lemma BytesOpt_canonical s :
  Forall is_u8 s -> BytesOptReader_verify s = true ->
  valid_bytes_opt (BytesOpt_read s) /\ BytesOpt_as_slice (BytesOpt_read s) = s.
Proof.
  intros Hs. destruct s as [|b s]; [done|]. intros Hv.
  destruct (Bytes_canonical (b :: s)) as (? & ? & _); [done..|]. done.
Qed.

#[export] Instance Script_spec : CodecSpec Script valid_Script.
Proof.
  assert (forall x, valid_Script x -> table_fields 3 (Script_as_slice x) =
    Some [code_hash x; [hash_type x]; Bytes_as_slice (args x)]) as Hf.
  { intros x (? & ? & ? & ? & ?). by apply (table_fields_write [_; _; _]); [simpl; lia|]. }
  split; cbn [as_slice verify new_unchecked Script_codec].
  - intros x Hx. unfold ScriptReader_verify. rewrite (Hf x Hx).
    destruct Hx as (Hc & _ & _ & Ha & _). rewrite (proj2 (array_verify_true _ _) Hc).
    by rewrite Bytes_verify.
  - intros x Hx. unfold ScriptReader_read. rewrite (Hf x Hx), Bytes_raw_data_as_slice.
    by destruct x.
  - intros x (? & ? & ? & ? & ?). apply table_write_bytes. rewrite !Forall_cons, !Forall_nil.
    split_and!; try done. by apply Bytes_as_slice_bytes.
  - intros s Hs. unfold ScriptReader_verify, ScriptReader_read.
    destruct (table_fields 3 s) as [[|c [|h [|a [|]]]]|] eqn:E; try done.
    intros Hv. reflect_bools. apply array_verify_true in H, H1.
    destruct (table_write_fields 3 s _ ltac:(lia) Hs E) as (Hw & _ & Hl & Hfs).
    rewrite !Forall_cons in Hfs. destruct Hfs as (? & Hh & ? & _).
    destruct (Bytes_canonical a) as (Va & Ea & _); [done..|].
    destruct h as [|h [|]]; [done| |done]. apply Forall_cons in Hh as [Hh _].
    assert (Script_as_slice (mkScript c h (Bytes_raw_data a)) = s) as Hsl.
    { unfold Script_as_slice; cbn [code_hash hash_type args]. by rewrite Ea. }
    split; [|done]. unfold valid_Script. rewrite Hsl. done.
Qed.

#[export] Instance CellbaseWitness_spec : CodecSpec CellbaseWitness valid_CellbaseWitness.
Proof.
  assert (forall x, valid_CellbaseWitness x -> table_fields 2 (CellbaseWitness_as_slice x) =
    Some [Script_as_slice (cw_lock x); Bytes_as_slice (cw_message x)]) as Hf.
  { intros x (? & ? & ?). by apply (table_fields_write [_; _]); [simpl; lia|]. }
  split; cbn [as_slice verify new_unchecked CellbaseWitness_codec].
  - intros x Hx. unfold CellbaseWitnessReader_verify. rewrite (Hf x Hx).
    destruct Hx as (Hl & Hm & _). rewrite Bytes_verify by done.
    pose proof (codec_verify (CodecSpec:=Script_spec) _ Hl) as Hv.
    cbn [as_slice verify Script_codec] in Hv. by rewrite Hv.
  - intros x Hx. unfold CellbaseWitnessReader_read. rewrite (Hf x Hx), Bytes_raw_data_as_slice.
    pose proof (codec_decode (CodecSpec:=Script_spec) _ (proj1 Hx)) as Hd.
    cbn [as_slice new_unchecked Script_codec] in Hd. rewrite Hd. by destruct x.
  - intros x (Hl & ? & ?). apply table_write_bytes. rewrite !Forall_cons, Forall_nil.
    split_and!; [|by apply Bytes_as_slice_bytes|done].
    exact (codec_bytes (CodecSpec:=Script_spec) _ Hl).
  - intros s Hs. unfold CellbaseWitnessReader_verify, CellbaseWitnessReader_read.
    destruct (table_fields 2 s) as [[|l [|m [|]]]|] eqn:E; try done.
    intros Hv. reflect_bools.
    destruct (table_write_fields 2 s _ ltac:(lia) Hs E) as (Hw & _ & Hl & Hfs).
    rewrite !Forall_cons in Hfs. destruct Hfs as (? & ? & _).
    destruct (Bytes_canonical m) as (Vm & Em & _); [done..|].
    destruct (codec_canonical (CodecSpec:=Script_spec) l) as [Vl El]; [done..|].
    cbn [as_slice new_unchecked Script_codec] in Vl, El.
    assert (CellbaseWitness_as_slice (mkCellbaseWitness (ScriptReader_read l) (Bytes_raw_data m))
      = s) as Hsl.
    { unfold CellbaseWitness_as_slice; cbn [cw_lock cw_message]. by rewrite El, Em. }
    split; [|done]. unfold valid_CellbaseWitness. rewrite Hsl. done.
Qed.

#[export] Instance WitnessArgs_spec : CodecSpec WitnessArgs valid_WitnessArgs.
Proof.
  assert (forall x, valid_WitnessArgs x -> table_fields 3 (WitnessArgs_as_slice x) =
    Some [BytesOpt_as_slice (wa_lock x); BytesOpt_as_slice (wa_input_type x);
          BytesOpt_as_slice (wa_output_type x)]) as Hf.
  { intros x (? & ? & ? & ?). by apply (table_fields_write [_; _; _]); [simpl; lia|]. }
  split; cbn [as_slice verify new_unchecked WitnessArgs_codec].
  - intros x Hx. unfold WitnessArgsReader_verify. rewrite (Hf x Hx).
    destruct Hx as (? & ? & ? & _). by rewrite !BytesOpt_verify.
  - intros x Hx. unfold WitnessArgsReader_read. rewrite (Hf x Hx), !BytesOpt_read_as_slice.
    by destruct x.
  - intros x (? & ? & ? & ?). apply table_write_bytes. rewrite !Forall_cons, Forall_nil.
    split_and!; try done; by apply BytesOpt_as_slice_bytes.
  - intros s Hs. unfold WitnessArgsReader_verify, WitnessArgsReader_read.
    destruct (table_fields 3 s) as [[|l [|i [|o [|]]]]|] eqn:E; try done.
    intros Hv. reflect_bools.
    destruct (table_write_fields 3 s _ ltac:(lia) Hs E) as (Hw & _ & Hl & Hfs).
    rewrite !Forall_cons in Hfs. destruct Hfs as (? & ? & ? & _).
    destruct (BytesOpt_canonical l) as [? El], (BytesOpt_canonical i) as [? Ei],
      (BytesOpt_canonical o) as [? Eo]; try done.
    assert (WitnessArgs_as_slice (mkWitnessArgs (BytesOpt_read l) (BytesOpt_read i)
      (BytesOpt_read o)) = s) as Hsl.
    { unfold WitnessArgs_as_slice; cbn [wa_lock wa_input_type wa_output_type].
      by rewrite El, Ei, Eo. }
    split; [|done]. unfold valid_WitnessArgs. rewrite Hsl. done.
Qed.

Lemma OutPoint_read_as_slice o rest :
  valid_OutPoint o -> OutPointReader_read (take 36 (OutPoint_as_slice o ++ rest)) = o /\
  drop 36 (OutPoint_as_slice o ++ rest) = rest /\ length (OutPoint_as_slice o) = 36%nat.
Proof.
  intros (Hh & _ & Hi). assert (length (OutPoint_as_slice o) = 36%nat) as Hl
    by (unfold OutPoint_as_slice; rewrite length_app, Hh, length_le_encode; lia).
  rewrite take_app_length', drop_app_length' by done. split_and!; [|done|done].
  unfold OutPointReader_read, OutPoint_as_slice.
  rewrite take_app_length', drop_app_length' by done.
  rewrite take_ge by (rewrite length_le_encode; lia). rewrite le_decode_encode, Z.mod_small by done.
  by destruct o.
Qed.

Lemma read_items_as_slice os rest :
  Forall valid_OutPoint os ->
  read_items OutPointReader_read 36 (length os) ((os ≫= OutPoint_as_slice) ++ rest) = os /\
  length (os ≫= OutPoint_as_slice) = (36 * length os)%nat.
Proof.
  induction 1 as [|o os Ho _ [IH1 IH2]]; [done|]. rewrite bind_cons, <- app_assoc.
  cbn [length read_items].
  destruct (OutPoint_read_as_slice o ((os ≫= OutPoint_as_slice) ++ rest) Ho) as (-> & -> & Hl).
  rewrite IH1, length_app, IH2, Hl. split; [done|lia].
Qed.

Lemma OutPoint_canonical s :
  Forall is_u8 s -> length s = 36%nat ->
  OutPoint_as_slice (OutPointReader_read s) = s /\ valid_OutPoint (OutPointReader_read s).
Proof.
  intros Hs Hl. unfold OutPointReader_read, OutPoint_as_slice, valid_OutPoint.
  cbn [op_tx_hash op_index]. rewrite (take_ge (drop 32 s)) by (rewrite length_drop; lia).
  assert (Forall is_u8 (drop 32 s)) as Hb by by apply Forall_drop.
  assert (length (drop 32 s) = 4%nat) as Hd by (rewrite length_drop; lia).
  pose proof (le_encode_decode (drop 32 s) Hb) as Hle. rewrite Hd in Hle.
  rewrite Hle, take_drop.
  destruct (le_decode_range (drop 32 s)) as [? Hr]; [done|]. rewrite Hd in Hr.
  split_and!; [done|rewrite length_take; lia|by apply Forall_take|by split].
Qed.

Lemma read_items_canonical n s :
  Forall is_u8 s -> length s = (36 * n)%nat ->
  (read_items OutPointReader_read 36 n s ≫= OutPoint_as_slice) = s /\
  Forall valid_OutPoint (read_items OutPointReader_read 36 n s) /\
  length (read_items OutPointReader_read 36 n s) = n.
Proof.
  revert s. induction n as [|n IH]; intros s Hs Hl.
  - destruct s; [|done]. by split_and!.
  - destruct (IH (drop 36 s)) as (H1 & H2 & H3); [by apply Forall_drop|rewrite length_drop; lia|].
    destruct (OutPoint_canonical (take 36 s)) as [Ho Vo]; [by apply Forall_take|
      rewrite length_take; lia|].
    cbn [read_items length]. rewrite bind_cons, H1, H3, Ho, take_drop. by split_and!; [|constructor|].
Qed.

#[export] Instance OutPointVec_spec : CodecSpec (list OutPoint) valid_OutPointVec.
Proof.
  split; cbn [as_slice verify new_unchecked OutPointVec_codec].
  - intros os [Hos Hl]. unfold OutPointVecReader_verify, fixvec_verify, OutPointVec_as_slice,
      NUMBER_SIZE. destruct (read_items_as_slice os [] Hos) as [_ Hlen].
    rewrite unpack_pack_number by zlia. rewrite length_app, length_pack_number, Hlen.
    destruct (Z.ltb_spec (Z.of_nat (4 + 36 * length os)) 4); [lia|].
    destruct (Z.eqb_spec (zlen os) 0); apply Z.eqb_eq; lia.
  - intros os [Hos Hl]. unfold OutPointVec_read, OutPointVec_as_slice.
    rewrite unpack_pack_number by zlia. rewrite drop_pack_number, Nat2Z.id.
    rewrite <- (app_nil_r (os ≫= OutPoint_as_slice)). by apply read_items_as_slice.
  - intros os [Hos Hl]. unfold OutPointVec_as_slice. apply Forall_app.
    split; [apply pack_number_bytes|]. clear Hl. induction Hos as [|o os (? & ? & ?) _ IH];
      [constructor|]. rewrite bind_cons. apply Forall_app. split; [|done].
    apply Forall_app. split; [done|apply le_encode_bytes].
  - intros s Hs. unfold OutPointVecReader_verify, fixvec_verify, NUMBER_SIZE, OutPointVec_read,
      OutPointVec_as_slice. destruct (Z.ltb_spec (zlen s) 4); [done|]. intros Hv.
    pose proof (unpack_number_u32 s Hs) as Hu.
    assert (zlen s = 4 + 36 * unpack_number s) as Hlen.
    { destruct (Z.eqb_spec (unpack_number s) 0); reflect_bools; lia. }
    destruct (read_items_canonical (Z.to_nat (unpack_number s)) (drop 4 s)) as (H1 & H2 & H3);
      [by apply Forall_drop|rewrite length_drop; zlia|].
    unfold valid_OutPointVec. rewrite H1, H3, Z2Nat.id by zlia. split; [split; [done|zlia]|].
    rewrite pack_unpack_number by (done || lia). apply take_drop.
Qed.

(** What a client of a codec relies on. *)
Section client.
Context {A : Type} `{HC : Codec A} {valid : A -> Prop} `{!CodecSpec A valid}.

Lemma from_slice_as_slice a : valid a -> from_slice (as_slice a) = Some a.
Proof. intros Ha. unfold from_slice. by rewrite codec_verify, codec_decode. Qed.

Lemma from_slice_canonical s a :
  Forall is_u8 s -> from_slice s = Some a -> valid a /\ as_slice a = s.
Proof.
  intros Hs. unfold from_slice. destruct (verify s) eqn:Ev; [|done].
  intros Ha%(inj Some). subst a. by apply codec_canonical.
Qed.
End client.

(** Decoding inverts encoding, for the witnesses and dep groups the node
    parses: [from_slice] of an encoded value is that value. *)
Theorem molecule_decode_encode x w a os :
  valid_Script x -> valid_CellbaseWitness w -> valid_WitnessArgs a -> valid_OutPointVec os ->
  from_slice (as_slice x) = Some x /\ from_slice (as_slice w) = Some w /\
  from_slice (as_slice a) = Some a /\ from_slice (as_slice os) = Some os.
Proof.
  intros. split_and!; by apply from_slice_as_slice.
Qed.

(** Encodings are unique: bytes that [from_slice] accepts are exactly the
    encoding of the value it returns.  No padding, reordered offsets or trailing
    bytes of a witness or dep group are accepted. *)
Theorem molecule_canonical s :
  Forall is_u8 s ->
  (forall x : Script, from_slice s = Some x -> valid_Script x /\ as_slice x = s) /\
  (forall w : CellbaseWitness, from_slice s = Some w -> valid_CellbaseWitness w /\ as_slice w = s) /\
  (forall a : WitnessArgs, from_slice s = Some a -> valid_WitnessArgs a /\ as_slice a = s) /\
  (forall os : list OutPoint, from_slice s = Some os -> valid_OutPointVec os /\ as_slice os = s).
Proof.
  intros Hs. split_and!; intros v; by apply from_slice_canonical.
Qed.

Definition sample_script : Script := mkScript (repeat 7 32) 1 [1; 2; 3].

Lemma sample_script_valid : valid_Script sample_script.
Proof.
  unfold valid_Script, valid_bytes. simpl. split_and!; try done.
  all: repeat constructor; unfold in_range; by vm_compute.
Qed.

Lemma molecule_decode_encode_witness :
  from_slice (as_slice (mkCellbaseWitness sample_script [9])) =
    Some (mkCellbaseWitness sample_script [9]).
Proof.
  refine (proj1 (proj2 (molecule_decode_encode sample_script
    (mkCellbaseWitness sample_script [9]) (mkWitnessArgs None (Some [1]) None) [] _ _ _ _))).
  all: pose proof sample_script_valid.
  all: unfold valid_CellbaseWitness, valid_WitnessArgs, valid_OutPointVec, valid_bytes_opt,
    valid_bytes; split_and?; try done; repeat constructor; unfold in_range; by vm_compute.
Defined.

Lemma molecule_canonical_witness :
  as_slice (mkCellbaseWitness sample_script [9]) = CellbaseWitness_as_slice
    (mkCellbaseWitness sample_script [9]) /\
  from_slice (A:=Script) (as_slice sample_script ++ [0]) = None.
Proof.
  split.
  - refine (proj2 (proj1 (proj2 (molecule_canonical
      (CellbaseWitness_as_slice (mkCellbaseWitness sample_script [9])) _)) _ _)).
    + by apply bytes_by_compute; vm_compute.
    + by vm_compute.
  - by vm_compute.
Defined.
