(* ===== verification/BlockCodec.v ===== *)
(** * The molecule encoding of the chain data: src/util/types/src/generated/blockchain.rs,
    extension/serialized_size.rs

    One combinator per scheme of the generated code (arrays, structs, vectors
    of fixed-size items, vectors with an offset header, options, tables), each
    with the lemma that it keeps the promise of [CodecSpec] when its parts do,
    and the readers and builders of transactions, headers, uncles and blocks
    put together from them with the fields of the schema. *)

From S2P Require Import Prelude Capacity NumExt Difficulty Types Molecule.

(** ** The schemes *)

(** [array UintN [byte; n]] read as a little-endian integer, and raw arrays. *)
Definition uint_codec (n : nat) : Codec Z := {|
  as_slice := le_encode n; verify := array_verify n; new_unchecked := le_decode |}.
Definition array_codec (n : nat) : Codec bytes := {|
  as_slice s := s; verify := array_verify n; new_unchecked s := s |}.
Definition Bytes_codec : Codec bytes := {|
  as_slice := Bytes_as_slice; verify := BytesReader_verify; new_unchecked := Bytes_raw_data |}.

(** [option T]: no bytes, or the bytes of [T]. *)
Definition option_codec {A} (C : Codec A) : Codec (option A) := {|
  as_slice o := match o with None => [] | Some a => as_slice a end;
  verify s := match s with [] => true | _ => verify (A:=A) s end;
  new_unchecked s := match s with [] => None | _ => Some (new_unchecked s) end |}.

(** [vector T] for a [T] of [size] bytes: the count, then the items. *)
Definition fixvec_codec {A} (C : Codec A) (size : nat) : Codec (list A) := {|
  as_slice l := pack_number (zlen l) ++ (l ≫= as_slice);
  verify := fixvec_verify (Z.of_nat size);
  new_unchecked s := read_items new_unchecked size (Z.to_nat (unpack_number s)) (drop 4 s) |}.

(** [vector T] for a [T] of varying size: the total size, an offset per item,
    the items. *)
Definition dynvec_write (items : list bytes) : bytes :=
  match items with
  | [] => pack_number NUMBER_SIZE
  | _ => table_write items
  end.
Definition dynvec_items (s : bytes) : option (list bytes) :=
  let slice_len := zlen s in
  if slice_len <? NUMBER_SIZE then None
  else
    let total_size := unpack_number s in
    if negb (slice_len =? total_size) then None
    else if slice_len =? NUMBER_SIZE then Some []
    else if slice_len <? NUMBER_SIZE * 2 then None
    else
      let offset_first := unpack_number (drop 4 s) in
      if negb (offset_first mod 4 =? 0) || (offset_first <? NUMBER_SIZE * 2) then None
      else
        let item_count := offset_first / 4 - 1 in
        let header_size := NUMBER_SIZE * (item_count + 1) in
        if slice_len <? header_size then None
        else
          let offsets := read_numbers (Z.to_nat item_count) (drop 4 s) ++ [total_size] in
          if negb (monotone offsets) then None else Some (slices s offsets).
Definition dynvec_codec {A} (C : Codec A) : Codec (list A) := {|
  as_slice l := dynvec_write (as_slice <$> l);
  verify s := match dynvec_items s with Some items => forallb verify items | None => false end;
  new_unchecked s :=
    match dynvec_items s with Some items => new_unchecked <$> items | None => [] end |}.

(** The fields of a struct or table, in order. *)
Record Fields (T : Type) := mkFields {
  fcount : nat;
  fwrite : T -> list bytes;
  fcheck : list bytes -> bool;
  fread : list bytes -> T;
}.
Arguments fcount {T}.
Arguments fwrite {T}.
Arguments fcheck {T}.
Arguments fread {T}.

Definition fnil : Fields unit := {|
  fcount := 0; fwrite _ := [];
  fcheck fs := match fs with [] => true | _ => false end; fread _ := tt |}.
Definition fcons {A T} (C : Codec A) (F : Fields T) : Fields (A * T) := {|
  fcount := S (fcount F);
  fwrite '(a, t) := as_slice a :: fwrite F t;
  fcheck fs := match fs with f :: fs' => verify (A:=A) f && fcheck F fs' | [] => false end;
  fread fs := (new_unchecked (default [] (head fs)), fread F (tail fs)) |}.

(** [table T { .. }]; [into]/[from] relate the record and the tuple of its fields. *)
Definition table_codec {A T} (F : Fields T) (into : A -> T) (from : T -> A) : Codec A := {|
  as_slice a := table_write (fwrite F (into a));
  verify s := match table_fields (fcount F) s with Some fs => fcheck F fs | None => false end;
  new_unchecked s :=
    from (fread F (match table_fields (fcount F) s with Some fs => fs | None => [] end)) |}.

(** [struct T { .. }] with fields of the given sizes. *)
Fixpoint cut (sizes : list nat) (s : bytes) : list bytes :=
  match sizes with
  | [] => []
  | n :: sizes' => take n s :: cut sizes' (drop n s)
  end.
Definition struct_codec {A T} (sizes : list nat) (F : Fields T) (into : A -> T) (from : T -> A) :
    Codec A := {|
  as_slice a := concat (fwrite F (into a));
  verify s := array_verify (sum_list sizes) s;
  new_unchecked s := from (fread F (cut sizes s)) |}.

Declare Scope codec_scope.
Delimit Scope codec_scope with codec.
Infix "⊗" := fcons (at level 60, right associativity) : codec_scope.

(** ** The types of blockchain.mol *)

Definition ProposalShortIdVec_codec : Codec (list bytes) := fixvec_codec (array_codec 10) 10.
Definition Byte32Vec_codec : Codec (list bytes) := fixvec_codec (array_codec 32) 32.
Definition BytesVec_codec : Codec (list bytes) := dynvec_codec Bytes_codec.
Definition ScriptOpt_codec : Codec (option Script) := option_codec Script_codec.

Definition CellInput_codec : Codec CellInput :=
  struct_codec [8; 36]%nat (uint_codec 8 ⊗ OutPoint_codec ⊗ fnil)%codec
    (fun i => (since i, (previous_output i, tt))) (fun '(s, (o, _)) => mkCellInput s o).
Definition CellInputVec_codec : Codec (list CellInput) := fixvec_codec CellInput_codec 44.

Definition CellDep_codec : Codec CellDep :=
  struct_codec [36; 1]%nat (OutPoint_codec ⊗ uint_codec 1 ⊗ fnil)%codec
    (fun d => (dep_out_point d, (dep_type d, tt))) (fun '(o, (t, _)) => mkCellDep o t).
Definition CellDepVec_codec : Codec (list CellDep) := fixvec_codec CellDep_codec 37.

Definition CellOutput_codec : Codec CellOutput :=
  table_codec (uint_codec 8 ⊗ Script_codec ⊗ ScriptOpt_codec ⊗ fnil)%codec
    (fun o => (capacity o, (lock o, (type_ o, tt)))) (fun '(c, (l, (t, _))) => mkCellOutput c l t).
Definition CellOutputVec_codec : Codec (list CellOutput) := dynvec_codec CellOutput_codec.

Definition RawTransaction_codec : Codec RawTransaction :=
  table_codec
    (uint_codec 4 ⊗ CellDepVec_codec ⊗ Byte32Vec_codec ⊗ CellInputVec_codec ⊗
     CellOutputVec_codec ⊗ BytesVec_codec ⊗ fnil)%codec
    (fun t => (tx_version t, (cell_deps t, (header_deps t, (inputs t, (outputs t,
               (outputs_data t, tt)))))))
    (fun '(v, (c, (h, (i, (o, (d, _)))))) => mkRawTransaction v c h i o d).
Definition Transaction_codec : Codec Transaction :=
  table_codec (RawTransaction_codec ⊗ BytesVec_codec ⊗ fnil)%codec
    (fun t => (tx_raw t, (witnesses t, tt))) (fun '(r, (w, _)) => mkTransaction r w).
Definition TransactionVec_codec : Codec (list Transaction) := dynvec_codec Transaction_codec.

Definition RawHeader_codec : Codec RawHeader :=
  struct_codec [4; 4; 8; 8; 8; 32; 32; 32; 32; 32]%nat
    (uint_codec 4 ⊗ uint_codec 4 ⊗ uint_codec 8 ⊗ uint_codec 8 ⊗ uint_codec 8 ⊗
     array_codec 32 ⊗ array_codec 32 ⊗ array_codec 32 ⊗ array_codec 32 ⊗ array_codec 32 ⊗
     fnil)%codec
    (fun h => (version h, (compact_target h, (timestamp h, (number h, (epoch h,
               (parent_hash h, (transactions_root h, (proposals_hash h, (uncles_hash h,
               (dao h, tt)))))))))))
    (fun '(v, (c, (t, (n, (e, (p, (r, (q, (u, (d, _)))))))))) => mkRawHeader v c t n e p r q u d).
Definition Header_codec : Codec Header :=
  struct_codec [192; 16]%nat (RawHeader_codec ⊗ uint_codec 16 ⊗ fnil)%codec
    (fun h => (header_raw h, (nonce h, tt))) (fun '(r, (n, _)) => mkHeader r n).

Definition UncleBlock_codec : Codec UncleBlock :=
  table_codec (Header_codec ⊗ ProposalShortIdVec_codec ⊗ fnil)%codec
    (fun u => (uncle_header u, (uncle_proposals u, tt))) (fun '(h, (p, _)) => mkUncleBlock h p).
Definition UncleBlockVec_codec : Codec (list UncleBlock) := dynvec_codec UncleBlock_codec.

Definition Block_codec : Codec Block :=
  table_codec
    (Header_codec ⊗ UncleBlockVec_codec ⊗ TransactionVec_codec ⊗ ProposalShortIdVec_codec ⊗
     fnil)%codec
    (fun b => (block_header b, (block_uncles b, (block_transactions b, (block_proposals b, tt)))))
    (fun '(h, (u, (t, (p, _)))) => mkBlock h u t p).

(** ** Serialized sizes *)

(** [TransactionReader::serialized_size_in_block]: its bytes and its offset in
    the [TransactionVec] header. *)
Definition Transaction_serialized_size_in_block (tx : Transaction) : Z :=
  zlen (@as_slice _ Transaction_codec tx) + NUMBER_SIZE.

(** [BlockReader::serialized_size_without_uncle_proposals], with the checked
    subtraction of usize. *)
Definition Block_serialized_size_without_uncle_proposals {E} (b : Block) : outcome E Z :=
  let block_size := zlen (@as_slice _ Block_codec b) in
  sizes ← try_map (fun x =>
    u64_sub (zlen (@as_slice _ ProposalShortIdVec_codec (uncle_proposals x))) NUMBER_SIZE)
    (block_uncles b);
  u64_sub block_size (sumZ sizes).

(** ** The schemes keep the promise of [CodecSpec] *)

Lemma uint_spec n : CodecSpec Z (H:=uint_codec n) (in_range (8 * Z.of_nat n)).
Proof.
  unfold in_range. rewrite Z.pow_mul_r by lia. change (2 ^ 8) with 256. split; cbn.
  - intros z Hz. apply array_verify_true, length_le_encode.
  - intros z Hz. rewrite le_decode_encode. by apply Z.mod_small.
  - intros z Hz. apply le_encode_bytes.
  - intros s Hs Hv%array_verify_true. subst n. split; [by apply le_decode_range|].
    by apply le_encode_decode.
Qed.

Lemma array_spec n : CodecSpec bytes (H:=array_codec n) (fun s => length s = n /\ Forall is_u8 s).
Proof.
  split; cbn; [|done|by intros s []|by intros s ? ?%array_verify_true].
  intros s [? ?]. by apply array_verify_true.
Qed.

Lemma Bytes_spec : CodecSpec bytes (H:=Bytes_codec) valid_bytes.
Proof.
  split; cbn [as_slice verify new_unchecked Bytes_codec].
  - apply Bytes_verify.
  - intros b _. apply Bytes_raw_data_as_slice.
  - apply Bytes_as_slice_bytes.
  - intros s Hs Hv. by destruct (Bytes_canonical s Hs Hv) as (? & ? & _).
Qed.

Definition valid_option {A} (valid : A -> Prop) (o : option A) : Prop :=
  match o with None => True | Some a => valid a end.

Section schemes.
Context {A : Type} (C : Codec A) {valid : A -> Prop} (HC : CodecSpec A (H:=C) valid).

Lemma option_spec :
  verify (A:=A) [] = false -> CodecSpec (option A) (H:=option_codec C) (valid_option valid).
Proof.
  intros Hnil.
  assert (forall a, valid a -> as_slice a <> []) as Hne.
  { intros a Ha E. pose proof (codec_verify a Ha) as Hv. rewrite E in Hv. congruence. }
  split; cbn [as_slice verify new_unchecked option_codec].
  - intros [a|] Ha; [|done]. specialize (Hne a Ha). pose proof (codec_verify a Ha).
    by destruct (as_slice a).
  - intros [a|] Ha; [|done]. specialize (Hne a Ha). pose proof (codec_decode a Ha).
    destruct (as_slice a); [done|]. by f_equal.
  - intros [a|] Ha; [|constructor]. by apply codec_bytes.
  - intros [|b s] Hs Hv; [done|]. by apply codec_canonical.
Qed.

(** *** Vectors of fixed-size items *)

Context (size : nat).

Definition fixed : Prop := forall s, verify (A:=A) s = array_verify size s.

Lemma fixed_length a : fixed -> valid a -> length (as_slice a) = size.
Proof. intros Hfix Ha. apply array_verify_true. rewrite <- Hfix. by apply codec_verify. Qed.

Lemma read_items_write l rest :
  fixed -> Forall valid l ->
  read_items new_unchecked size (length l) ((l ≫= as_slice) ++ rest) = l /\
  length (l ≫= as_slice) = (size * length l)%nat.
Proof.
  intros Hfix. induction 1 as [|a l Ha _ [IH1 IH2]]; [split; [done|simpl; lia]|].
  rewrite bind_cons, <- app_assoc. cbn [length read_items].
  rewrite take_app_length', drop_app_length' by by rewrite fixed_length.
  rewrite codec_decode, IH1, length_app, IH2, fixed_length by done. split; [done|lia].
Qed.

Lemma write_read_items n s :
  fixed -> Forall is_u8 s -> length s = (size * n)%nat ->
  (read_items new_unchecked size n s ≫= as_slice) = s /\
  Forall valid (read_items new_unchecked size n s) /\
  length (read_items new_unchecked size n s) = n.
Proof.
  intros Hfix. revert s. induction n as [|n IH]; intros s Hs Hl.
  - destruct s; [|simpl in Hl; lia]. by split_and!.
  - destruct (IH (drop size s)) as (H1 & H2 & H3); [by apply Forall_drop|rewrite length_drop; lia|].
    destruct (codec_canonical (take size s)) as [Vo Ho]; [by apply Forall_take| |].
    { rewrite Hfix. apply array_verify_true. rewrite length_take. lia. }
    cbn [read_items length]. rewrite bind_cons, H1, H3, Ho, take_drop. by split_and!; [|constructor|].
Qed.

Lemma fixvec_spec :
  fixed ->
  CodecSpec (list A) (H:=fixvec_codec C size) (fun l => Forall valid l /\ zlen l < 2 ^ 32).
Proof.
  intros Hfix. split; cbn [as_slice verify new_unchecked fixvec_codec].
  - intros l [Hv Hl]. unfold fixvec_verify, NUMBER_SIZE.
    destruct (read_items_write l [] Hfix Hv) as [_ Hlen].
    rewrite unpack_pack_number by zlia. rewrite length_app, length_pack_number, Hlen.
    destruct (Z.ltb_spec (Z.of_nat (4 + size * length l)) 4); [lia|].
    destruct (Z.eqb_spec (zlen l) 0); apply Z.eqb_eq; lia.
  - intros l [Hv Hl]. rewrite unpack_pack_number by zlia. rewrite drop_pack_number, Nat2Z.id.
    rewrite <- (app_nil_r (l ≫= as_slice)). by apply read_items_write.
  - intros l [Hv Hl]. apply Forall_app. split; [apply pack_number_bytes|]. clear Hl.
    induction Hv; [constructor|]. rewrite bind_cons. apply Forall_app.
    split; [by apply codec_bytes|done].
  - intros s Hs. unfold fixvec_verify, NUMBER_SIZE. destruct (Z.ltb_spec (zlen s) 4); [done|].
    intros Hv. pose proof (unpack_number_u32 s Hs) as Hu.
    assert (zlen s = 4 + Z.of_nat size * unpack_number s) as Hlen.
    { destruct (Z.eqb_spec (unpack_number s) 0); reflect_bools; lia. }
    destruct (write_read_items (Z.to_nat (unpack_number s)) (drop 4 s)) as (H1 & H2 & H3);
      [done|by apply Forall_drop|rewrite length_drop; zlia|].
    rewrite H1, H3, Z2Nat.id by zlia. split; [split; [done|zlia]|].
    rewrite pack_unpack_number by (done || lia). apply take_drop.
Qed.
End schemes.

(** *** Vectors with an offset header *)

Lemma dynvec_write_table items : dynvec_write items = table_write items.
Proof. by destruct items. Qed.

(** A non-empty vector has the checks of a table with as many fields. *)
Lemma dynvec_items_table n s :
  (0 < n)%nat -> table_fields n s = dynvec_items s \/ table_fields n s = None.
Proof.
  intros Hn. unfold table_fields, dynvec_items. destruct n as [|n]; [lia|].
  destruct (zlen s <? NUMBER_SIZE); [by left|].
  destruct (negb (zlen s =? unpack_number s)); [by left|].
  rewrite andb_false_r. unfold NUMBER_SIZE.
  destruct (Z.eqb_spec (zlen s) 4) as [E|_].
  { rewrite E. right. done. }
  destruct (zlen s <? 4 * 2); [by left|].
  destruct (_ || _); [by left|].
  destruct (_ <? Z.of_nat (S n)); [by right|]. destruct (Z.of_nat (S n) <? _); [by right|].
  by left.
Qed.

Lemma length_slices s os o : length (slices s (os ++ [o])) = length os.
Proof.
  induction os as [|a [|b os] IH]; [done..|]. cbn [app] in *. rewrite slices_cons.
  cbn [length]. by rewrite IH.
Qed.

Lemma table_dynvec_items s items :
  Forall is_u8 s -> dynvec_items s = Some items ->
  s = pack_number NUMBER_SIZE /\ items = [] \/
  (0 < length items)%nat /\ table_fields (length items) s = Some items.
Proof.
  intros Hs. unfold table_fields, dynvec_items, NUMBER_SIZE.
  destruct (Z.ltb_spec (zlen s) 4); [done|].
  destruct (Z.eqb_spec (zlen s) (unpack_number s)) as [Htot|]; [|done]. cbn [negb].
  destruct (Z.eqb_spec (zlen s) 4) as [E|_].
  { intros Hi%(inj Some). left. split; [|done]. rewrite <- E, Htot, pack_unpack_number by (done || lia).
    by rewrite take_ge by lia. }
  destruct (Z.ltb_spec (zlen s) (4 * 2)); [done|].
  destruct (negb _ || _) eqn:Ho; [done|]. reflect_bools.
  destruct (Z.ltb_spec (zlen s) (4 * (unpack_number (drop 4 s) / 4 - 1 + 1))); [done|].
  destruct (monotone _) eqn:Hm; [|done]. cbn [negb]. intros Hi%(inj Some). right.
  assert (length items = Z.to_nat (unpack_number (drop 4 s) / 4 - 1)) as Hlen.
  { by rewrite <- Hi, length_slices, length_read_numbers. }
  assert (1 <= unpack_number (drop 4 s) / 4 - 1) by divlia.
  split; [lia|]. rewrite Hlen, Z2Nat.id, !Z.ltb_irrefl by lia. cbn [andb]. by rewrite Hi.
Qed.

Section dynvec.
Context {A : Type} (C : Codec A) {valid : A -> Prop} (HC : CodecSpec A (H:=C) valid).

Definition valid_dynvec (l : list A) : Prop :=
  Forall valid l /\ zlen (dynvec_write (as_slice <$> l)) < 2 ^ 32.

Lemma dynvec_items_write items :
  zlen (dynvec_write items) < 2 ^ 32 -> dynvec_items (dynvec_write items) = Some items.
Proof.
  intros Hl. destruct items as [|i items]; [by vm_compute|]. cbn [dynvec_write] in *.
  pose proof (table_fields_write (i :: items) ltac:(simpl; lia) Hl) as Ht.
  destruct (dynvec_items_table (length (i :: items)) (table_write (i :: items))) as [E|E];
    [simpl; lia|congruence|congruence].
Qed.

Lemma dynvec_spec : CodecSpec (list A) (H:=dynvec_codec C) valid_dynvec.
Proof.
  split; cbn [as_slice verify new_unchecked dynvec_codec].
  - intros l [Hv Hl]. rewrite dynvec_items_write by done. apply Is_true_eq_true, forallb_True, Forall_fmap.
    eapply Forall_impl; [exact Hv|]. intros a Ha. cbn. by rewrite codec_verify.
  - intros l [Hv Hl]. rewrite dynvec_items_write by done. rewrite <- list_fmap_compose.
    rewrite <- list_fmap_id. apply list_fmap_ext. intros i a Ha. cbn.
    apply codec_decode. by eapply Forall_lookup_1.
  - intros l [Hv Hl]. rewrite dynvec_write_table. apply table_write_bytes, Forall_fmap.
    eapply Forall_impl; [exact Hv|]. intros a Ha. by apply codec_bytes.
  - intros s Hs. destruct (dynvec_items s) as [items|] eqn:Hi; [|done].
    intros Hall%Is_true_eq_left%forallb_True.
    destruct (table_dynvec_items s items Hs Hi) as [[-> ->]|[Hn Ht]].
    { split; [by split; [constructor|vm_compute]|done]. }
    destruct (table_write_fields _ s items Hn Hs Ht) as (Hw & _ & Hl & Hb).
    assert (Forall (fun i => valid (new_unchecked i) /\ as_slice (new_unchecked (A:=A) i) = i) items)
      as Hc.
    { apply Forall_forall. intros i Hin. rewrite Forall_forall in Hall, Hb.
      apply codec_canonical; [by apply Hb|]. by apply Is_true_eq_true, Hall. }
    assert (as_slice <$> (new_unchecked (A:=A) <$> items) = items) as He.
    { rewrite <- list_fmap_compose. rewrite <- (list_fmap_id items) at 2.
      apply list_fmap_ext. intros k i Hk. cbn. by apply (Forall_lookup_1 _ _ _ _ Hc Hk). }
    unfold valid_dynvec. rewrite He, dynvec_write_table, Hw. split_and!; [|done|done].
    apply Forall_fmap. eapply Forall_impl; [exact Hc|]. by intros i [? _].
Qed.
End dynvec.

(** *** Structs and tables *)

Class FieldsSpec {T} (F : Fields T) (valid : T -> Prop) := {
  fields_count t : length (fwrite F t) = fcount F;
  fields_check t : valid t -> fcheck F (fwrite F t) = true;
  fields_read t : valid t -> fread F (fwrite F t) = t;
  fields_bytes t : valid t -> Forall (Forall is_u8) (fwrite F t);
  fields_canonical fs :
    Forall (Forall is_u8) fs -> fcheck F fs = true ->
    valid (fread F fs) /\ fwrite F (fread F fs) = fs;
}.

Lemma fnil_spec : FieldsSpec fnil (fun _ => True).
Proof. split; cbn; try done. { by intros []. } by intros []. Qed.

Lemma fcons_spec {A T} (C : Codec A) (F : Fields T) P Q :
  CodecSpec A (H:=C) P -> FieldsSpec F Q ->
  FieldsSpec (fcons C F) (fun t => P t.1 /\ Q t.2).
Proof.
  intros HC HF. split; cbn [fcons fcount fwrite fcheck fread].
  - intros [a t]. cbn. f_equal. apply fields_count.
  - intros [a t] [Ha Ht]. by rewrite codec_verify, fields_check.
  - intros [a t] [Ha Ht]. cbn. by rewrite codec_decode, fields_read.
  - intros [a t] [Ha Ht]. constructor; [by apply codec_bytes|by apply fields_bytes].
  - intros [|f fs] Hb Hv; [done|]. apply Forall_cons in Hb as [Hf Hfs]. reflect_bools.
    destruct (codec_canonical f) as [? ?]; [done..|].
    destruct (fields_canonical fs) as [? ?]; [done..|]. cbn. split; [done|]. congruence.
Qed.

(** [check_sizes F sizes]: the fields of [F] are of fixed sizes. *)
Definition check_sizes {T} (F : Fields T) (sizes : list nat) : Prop :=
  forall fs, fcheck F fs = true <-> length <$> fs = sizes.

Lemma fnil_sizes : check_sizes fnil [].
Proof. intros fs. split; [by destruct fs|]. by intros ->%fmap_nil_inv. Qed.

Lemma fcons_sizes {A T} (C : Codec A) (F : Fields T) n sizes :
  fixed C n -> check_sizes F sizes -> check_sizes (fcons C F) (n :: sizes).
Proof.
  intros Hfix HF [|f fs]; cbn; [done|]. pose proof (HF fs) as Hfs.
  rewrite andb_true_iff, Hfix, array_verify_true, Hfs.
  split; [by intros [-> ->]|]. by intros [= -> ->].
Qed.

Lemma concat_cut sizes s : length s = sum_list sizes -> concat (cut sizes s) = s.
Proof.
  revert s. induction sizes as [|n sizes IH]; intros s Hl; cbn in *; [by destruct s|].
  rewrite IH by (rewrite length_drop; lia). apply take_drop.
Qed.

Lemma cut_concat fs rest : cut (length <$> fs) (concat fs ++ rest) = fs.
Proof.
  revert rest. induction fs as [|f fs IH]; intros rest; csimpl; [done|].
  rewrite <- app_assoc, take_app_length, drop_app_length. by rewrite IH.
Qed.

Lemma length_concat_sizes (fs : list bytes) : length (concat fs) = sum_list (length <$> fs).
Proof. induction fs as [|f fs IH]; csimpl; [done|]. by rewrite length_app, IH. Qed.

Lemma cut_sizes sizes s : length s = sum_list sizes -> length <$> cut sizes s = sizes.
Proof.
  revert s. induction sizes as [|n sizes IH]; intros s Hl; cbn in *; [done|].
  f_equal; [rewrite length_take; lia|]. apply IH. rewrite length_drop. lia.
Qed.

Lemma cut_bytes sizes s : Forall is_u8 s -> Forall (Forall is_u8) (cut sizes s).
Proof.
  revert s. induction sizes as [|n sizes IH]; intros s Hs; cbn; constructor;
    [by apply Forall_take|]. by apply IH, Forall_drop.
Qed.

Section records.
Context {A T : Type} (F : Fields T) {P : T -> Prop} (HF : FieldsSpec F P).
Context (into : A -> T) (from : T -> A).
Hypothesis from_into : forall a, from (into a) = a.
Hypothesis into_from : forall t, into (from t) = t.

Lemma struct_spec sizes :
  check_sizes F sizes -> CodecSpec A (H:=struct_codec sizes F into from) (fun a => P (into a)).
Proof.
  intros Hsz. split; cbn [as_slice verify new_unchecked struct_codec].
  - intros a Ha. apply array_verify_true. rewrite length_concat_sizes. f_equal.
    by apply Hsz, fields_check.
  - intros a Ha. pose proof (fields_check (into a) Ha) as Hc%Hsz.
    rewrite <- (app_nil_r (concat _)), <- Hc, cut_concat, fields_read by done. apply from_into.
  - intros a Ha. by apply Forall_concat, fields_bytes.
  - intros s Hs Hv%array_verify_true. rewrite into_from.
    destruct (fields_canonical (cut sizes s)) as [? E]; [by apply cut_bytes| |].
    { by apply Hsz, cut_sizes. }
    rewrite E. split; [done|]. by apply concat_cut.
Qed.

Lemma struct_fixed sizes : fixed (struct_codec sizes F into from) (sum_list sizes).
Proof. done. Qed.

Definition valid_table (a : A) : Prop :=
  P (into a) /\ zlen (table_write (fwrite F (into a))) < 2 ^ 32.

Lemma table_spec :
  (0 < fcount F)%nat -> CodecSpec A (H:=table_codec F into from) valid_table.
Proof.
  intros Hn.
  assert (forall a, valid_table a -> table_fields (fcount F) (table_write (fwrite F (into a))) =
    Some (fwrite F (into a))) as Hf.
  { intros a [Ha Hl]. rewrite <- (fields_count (into a)).
    apply table_fields_write; [by rewrite fields_count|done]. }
  split; cbn [as_slice verify new_unchecked table_codec].
  - intros a Ha. rewrite Hf by done. by apply fields_check, Ha.
  - intros a Ha. rewrite Hf by done. rewrite fields_read by apply Ha. apply from_into.
  - intros a Ha. by apply table_write_bytes, fields_bytes, Ha.
  - intros s Hs. destruct (table_fields (fcount F) s) as [fs|] eqn:E; [|done]. intros Hv.
    destruct (table_write_fields _ s fs Hn Hs E) as (Hw & _ & Hl & Hb).
    destruct (fields_canonical fs Hb Hv) as [HP HW].
    unfold valid_table. rewrite into_from, HW, Hw. done.
Qed.

Lemma table_verify_nil : @verify _ (table_codec F into from) [] = false.
Proof. done. Qed.
End records.

(** ** The types of blockchain.mol keep it *)

Lemma OutPoint_spec : CodecSpec OutPoint valid_OutPoint.
Proof.
  split; cbn [as_slice verify new_unchecked OutPoint_codec]; unfold OutPointReader_verify.
  - intros o Ho. destruct (OutPoint_read_as_slice o [] Ho) as (_ & _ & ->). done.
  - intros o Ho. destruct (OutPoint_read_as_slice o [] Ho) as (E & _ & Hl).
    by rewrite app_nil_r, take_ge in E by lia.
  - intros o (? & ? & ?). apply Forall_app. split; [done|apply le_encode_bytes].
  - intros s Hs Hl%Z.eqb_eq. destruct (OutPoint_canonical s) as [? ?]; [done|lia|done].
Qed.

Lemma OutPoint_fixed : fixed OutPoint_codec 36.
Proof.
  intros s. cbn. unfold OutPointReader_verify, array_verify.
  destruct (Z.eqb_spec (zlen s) 36), (Nat.eqb_spec (length s) 36); (done || lia).
Qed.

(** [solve_fields] and [solve_sizes] assemble the promise of a record from
    those of its fields. *)
Create HintDb codec.
#[export] Hint Resolve uint_spec array_spec Bytes_spec Script_spec OutPoint_spec : codec.
#[export] Hint Resolve OutPoint_fixed : codec.
Ltac solve_fields :=
  repeat first [ apply fnil_spec | apply fcons_spec | solve [eauto with codec] ].
Ltac solve_sizes :=
  repeat first [ apply fnil_sizes | apply fcons_sizes
               | exact (fun s => eq_refl) | solve [eauto with codec] ].

Lemma codec_spec_iff {A} (C : Codec A) (P Q : A -> Prop) :
  CodecSpec A (H:=C) P -> (forall a, P a <-> Q a) -> CodecSpec A (H:=C) Q.
Proof.
  intros HC HPQ. split.
  - intros a Ha%HPQ. by apply codec_verify.
  - intros a Ha%HPQ. by apply codec_decode.
  - intros a Ha%HPQ. by apply codec_bytes.
  - intros s Hs Hv. rewrite <- HPQ. by apply codec_canonical.
Qed.

Definition valid_byte32 (s : bytes) : Prop := length s = 32%nat /\ Forall is_u8 s.
Definition valid_short_id (s : bytes) : Prop := length s = 10%nat /\ Forall is_u8 s.
Definition valid_fixvec {A} (valid : A -> Prop) (l : list A) : Prop :=
  Forall valid l /\ zlen l < 2 ^ 32.
Definition valid_CellInput (i : CellInput) : Prop :=
  is_u64 (since i) /\ valid_OutPoint (previous_output i).
Definition valid_CellDep (d : CellDep) : Prop :=
  valid_OutPoint (dep_out_point d) /\ is_u8 (dep_type d).
Definition valid_CellOutput (o : CellOutput) : Prop :=
  (is_u64 (capacity o) /\ valid_Script (lock o) /\ valid_option valid_Script (type_ o)) /\
  zlen (@as_slice _ CellOutput_codec o) < 2 ^ 32.
Definition valid_RawTransaction (t : RawTransaction) : Prop :=
  (is_u32 (tx_version t) /\ valid_fixvec valid_CellDep (cell_deps t) /\
   valid_fixvec valid_byte32 (header_deps t) /\ valid_fixvec valid_CellInput (inputs t) /\
   valid_dynvec CellOutput_codec (valid:=valid_CellOutput) (outputs t) /\
   valid_dynvec Bytes_codec (valid:=valid_bytes) (outputs_data t)) /\
  zlen (@as_slice _ RawTransaction_codec t) < 2 ^ 32.
Definition valid_Transaction (t : Transaction) : Prop :=
  (valid_RawTransaction (tx_raw t) /\ valid_dynvec Bytes_codec (valid:=valid_bytes) (witnesses t)) /\
  zlen (@as_slice _ Transaction_codec t) < 2 ^ 32.
Definition valid_RawHeader (h : RawHeader) : Prop :=
  is_u32 (version h) /\ is_u32 (compact_target h) /\ is_u64 (timestamp h) /\
  is_u64 (number h) /\ is_u64 (epoch h) /\ valid_byte32 (parent_hash h) /\
  valid_byte32 (transactions_root h) /\ valid_byte32 (proposals_hash h) /\
  valid_byte32 (uncles_hash h) /\ valid_byte32 (dao h).
Definition valid_Header (h : Header) : Prop :=
  valid_RawHeader (header_raw h) /\ in_range 128 (nonce h).
Definition valid_UncleBlock (u : UncleBlock) : Prop :=
  (valid_Header (uncle_header u) /\ valid_fixvec valid_short_id (uncle_proposals u)) /\
  zlen (@as_slice _ UncleBlock_codec u) < 2 ^ 32.
Definition valid_Block (b : Block) : Prop :=
  (valid_Header (block_header b) /\
   valid_dynvec UncleBlock_codec (valid:=valid_UncleBlock) (block_uncles b) /\
   valid_dynvec Transaction_codec (valid:=valid_Transaction) (block_transactions b) /\
   valid_fixvec valid_short_id (block_proposals b)) /\
  zlen (@as_slice _ Block_codec b) < 2 ^ 32.

Ltac solve_struct :=
  eapply codec_spec_iff;
  [ eapply struct_spec; [solve_fields | by intros [] | | solve_sizes];
    intros; repeat match goal with t : (_ * _)%type |- _ => destruct t end;
    repeat match goal with t : unit |- _ => destruct t end; done
  | intros []; cbn; tauto ].
Ltac solve_table :=
  eapply codec_spec_iff;
  [ eapply table_spec; [solve_fields | by intros [] | | cbn; lia];
    intros; repeat match goal with t : (_ * _)%type |- _ => destruct t end;
    repeat match goal with t : unit |- _ => destruct t end; done
  | intros []; unfold valid_table; cbn [fst snd]; tauto ].

Lemma CellInput_spec : CodecSpec CellInput (H:=CellInput_codec) valid_CellInput.
Proof. unfold valid_CellInput. solve_struct. Qed.
Lemma CellDep_spec : CodecSpec CellDep (H:=CellDep_codec) valid_CellDep.
Proof. unfold valid_CellDep. solve_struct. Qed.
Lemma RawHeader_spec : CodecSpec RawHeader (H:=RawHeader_codec) valid_RawHeader.
Proof. unfold valid_RawHeader, valid_byte32. solve_struct. Qed.
#[export] Hint Resolve CellInput_spec CellDep_spec RawHeader_spec : codec.
Lemma Header_spec : CodecSpec Header (H:=Header_codec) valid_Header.
Proof. unfold valid_Header. solve_struct. Qed.

Lemma ProposalShortIdVec_spec :
  CodecSpec (list bytes) (H:=ProposalShortIdVec_codec) (valid_fixvec valid_short_id).
Proof. apply fixvec_spec; [apply array_spec|done]. Qed.
Lemma Byte32Vec_spec : CodecSpec (list bytes) (H:=Byte32Vec_codec) (valid_fixvec valid_byte32).
Proof. apply fixvec_spec; [apply array_spec|done]. Qed.
Lemma CellInputVec_spec :
  CodecSpec (list CellInput) (H:=CellInputVec_codec) (valid_fixvec valid_CellInput).
Proof. apply fixvec_spec; [apply CellInput_spec|apply struct_fixed]. Qed.
Lemma CellDepVec_spec :
  CodecSpec (list CellDep) (H:=CellDepVec_codec) (valid_fixvec valid_CellDep).
Proof. apply fixvec_spec; [apply CellDep_spec|apply struct_fixed]. Qed.
Lemma BytesVec_spec :
  CodecSpec (list bytes) (H:=BytesVec_codec) (valid_dynvec Bytes_codec (valid:=valid_bytes)).
Proof. apply dynvec_spec, Bytes_spec. Qed.
Lemma ScriptOpt_spec :
  CodecSpec (option Script) (H:=ScriptOpt_codec) (valid_option valid_Script).
Proof. apply option_spec; [apply Script_spec|done]. Qed.
#[export] Hint Resolve Header_spec ProposalShortIdVec_spec Byte32Vec_spec CellInputVec_spec
  CellDepVec_spec BytesVec_spec ScriptOpt_spec : codec.

Lemma CellOutput_spec : CodecSpec CellOutput (H:=CellOutput_codec) valid_CellOutput.
Proof. unfold valid_CellOutput. solve_table. Qed.
Lemma CellOutputVec_spec : CodecSpec (list CellOutput) (H:=CellOutputVec_codec)
  (valid_dynvec CellOutput_codec (valid:=valid_CellOutput)).
Proof. apply dynvec_spec, CellOutput_spec. Qed.
#[export] Hint Resolve CellOutputVec_spec : codec.
Lemma RawTransaction_spec :
  CodecSpec RawTransaction (H:=RawTransaction_codec) valid_RawTransaction.
Proof. unfold valid_RawTransaction. solve_table. Qed.
#[export] Hint Resolve RawTransaction_spec : codec.
Lemma Transaction_spec : CodecSpec Transaction (H:=Transaction_codec) valid_Transaction.
Proof. unfold valid_Transaction. solve_table. Qed.
Lemma TransactionVec_spec : CodecSpec (list Transaction) (H:=TransactionVec_codec)
  (valid_dynvec Transaction_codec (valid:=valid_Transaction)).
Proof. apply dynvec_spec, Transaction_spec. Qed.
Lemma UncleBlock_spec : CodecSpec UncleBlock (H:=UncleBlock_codec) valid_UncleBlock.
Proof. unfold valid_UncleBlock. solve_table. Qed.
Lemma UncleBlockVec_spec : CodecSpec (list UncleBlock) (H:=UncleBlockVec_codec)
  (valid_dynvec UncleBlock_codec (valid:=valid_UncleBlock)).
Proof. apply dynvec_spec, UncleBlock_spec. Qed.
#[export] Hint Resolve TransactionVec_spec UncleBlockVec_spec : codec.
Lemma Block_spec : CodecSpec Block (H:=Block_codec) valid_Block.
Proof. unfold valid_Block. solve_table. Qed.

(** C30: the encoding of a block is its only encoding: bytes decode to a block
    exactly when they are the bytes its builder writes, and whatever decodes is
    well formed (field widths, 32-byte hashes, 10-byte short ids). *)
Theorem block_codec_canonical b s :
  valid_Block b -> Forall is_u8 s ->
  (@from_slice _ Block_codec s = Some b <-> s = @as_slice _ Block_codec b) /\
  (forall b', @from_slice _ Block_codec s = Some b' -> valid_Block b').
Proof.
  pose proof Block_spec as HB. intros Hb Hs. split; [split|].
  - by intros [_ <-]%from_slice_canonical.
  - intros ->. by apply from_slice_as_slice.
  - by intros b' [? _]%from_slice_canonical.
Qed.

Definition codec_sample_tx : Transaction :=
  mkTransaction
    (mkRawTransaction 0 [mkCellDep (mkOutPoint (repeat 1 32) 3) 1] [repeat 2 32]
      [mkCellInput 5 (mkOutPoint (repeat 4 32) 0)]
      [mkCellOutput 6100000000 sample_script (Some sample_script)] [[1; 2]])
    [[]; [3]].
Definition codec_sample_header : RawHeader :=
  mkRawHeader 0 0x20010000 1000 7 0 zero32 zero32 zero32 zero32 zero32.
Definition codec_sample_block : Block :=
  mkBlock (mkHeader codec_sample_header 9)
    [mkUncleBlock (mkHeader codec_sample_header 8) [repeat 5 10; repeat 6 10]]
    [codec_sample_tx] [repeat 7 10].

(** Decides [valid_Block] on a concrete block by decoding its encoding. *)
Lemma valid_by_decoding {A} (C : Codec A) P a :
  CodecSpec A (H:=C) P -> forallb (in_rangeb 8) (as_slice a) = true ->
  from_slice (as_slice a) = Some a -> P a.
Proof.
  intros HC Hb%bytes_by_compute Hd. by apply (from_slice_canonical _ _ Hb) in Hd as [? _].
Qed.

Lemma codec_sample_block_valid : valid_Block codec_sample_block.
Proof. by apply (valid_by_decoding Block_codec _ _ Block_spec); vm_compute. Qed.

Lemma block_codec_canonical_witness :
  @from_slice _ Block_codec (@as_slice _ Block_codec codec_sample_block) = Some codec_sample_block /\
  @from_slice _ Block_codec (0 :: @as_slice _ Block_codec codec_sample_block) = None.
Proof.
  split; [|by vm_compute].
  apply (block_codec_canonical codec_sample_block (@as_slice _ Block_codec codec_sample_block));
    [exact codec_sample_block_valid| |reflexivity].
  by apply bytes_by_compute; vm_compute.
Defined.

(** ** Serialized sizes *)

Definition without_proposals (u : UncleBlock) : UncleBlock := mkUncleBlock (uncle_header u) [].
Definition without_uncle_proposals (b : Block) : Block :=
  mkBlock (block_header b) (without_proposals <$> block_uncles b) (block_transactions b)
    (block_proposals b).
Definition proposals_size (u : UncleBlock) : Z :=
  zlen (@as_slice _ ProposalShortIdVec_codec (uncle_proposals u)) - NUMBER_SIZE.

Lemma proposals_size_nonneg u : 0 <= proposals_size u.
Proof.
  unfold proposals_size, NUMBER_SIZE. cbn [as_slice ProposalShortIdVec_codec fixvec_codec].
  rewrite length_app, length_pack_number. lia.
Qed.

Lemma zlen_concat (fs : list bytes) : zlen (concat fs) = sumZ ((fun f => zlen f) <$> fs).
Proof. induction fs as [|f fs IH]; csimpl; [done|]. rewrite length_app. lia. Qed.

Lemma uncle_size u :
  zlen (@as_slice _ UncleBlock_codec u) =
  zlen (@as_slice _ UncleBlock_codec (without_proposals u)) + proposals_size u.
Proof.
  unfold proposals_size, NUMBER_SIZE. cbn [as_slice UncleBlock_codec table_codec].
  rewrite !length_table_write. cbn [fwrite fcons fnil without_proposals uncle_header
    uncle_proposals concat length]. rewrite !length_app.
  change (length (@as_slice _ ProposalShortIdVec_codec [])) with 4%nat. lia.
Qed.

Lemma uncles_size us :
  zlen (@as_slice _ UncleBlockVec_codec us) =
  zlen (@as_slice _ UncleBlockVec_codec (without_proposals <$> us)) + sumZ (proposals_size <$> us).
Proof.
  cbn [as_slice UncleBlockVec_codec dynvec_codec]. rewrite !dynvec_write_table,
    !length_table_write, !zlen_concat, !length_fmap.
  rewrite <- Z.add_assoc. f_equal. induction us as [|u us IH]; [done|].
  rewrite !fmap_cons. cbn [sumZ foldr]. rewrite (uncle_size u). unfold sumZ in IH. lia.
Qed.

Lemma block_size b :
  zlen (@as_slice _ Block_codec b) =
  zlen (@as_slice _ Block_codec (without_uncle_proposals b)) +
  sumZ (proposals_size <$> block_uncles b).
Proof.
  cbn [as_slice Block_codec table_codec]. rewrite !length_table_write.
  cbn [fwrite fcons fnil without_uncle_proposals block_header block_uncles block_transactions
    block_proposals concat length]. rewrite !length_app.
  pose proof (uncles_size (block_uncles b)). lia.
Qed.

(** The size a block is charged is the size of its encoding with the
    uncles' proposals removed, whatever those proposals are; the checked
    subtractions never underflow. *)
Theorem block_size_ignores_uncle_proposals E b :
  valid_Block b ->
  Block_serialized_size_without_uncle_proposals (E:=E) b =
  Ok (zlen (@as_slice _ Block_codec (without_uncle_proposals b))).
Proof.
  intros [_ Hlt]. pose proof (block_size b) as Hsz.
  assert (Forall (fun z => 0 <= z) (proposals_size <$> block_uncles b)) as Hpos.
  { apply Forall_fmap, Forall_true. apply proposals_size_nonneg. }
  unfold Block_serialized_size_without_uncle_proposals, u64_sub.
  rewrite (try_map_fmap _ proposals_size).
  - pose proof (sumZ_nonneg _ Hpos). step. rewrite fit_in_range by zlia. f_equal. lia.
  - intros u Hu. apply fit_in_range. fold (proposals_size u).
    pose proof (sumZ_elem (proposals_size <$> block_uncles b) (proposals_size u) Hpos) as Hle.
    specialize (Hle ltac:(by apply list_elem_of_fmap_2)). pose proof (proposals_size_nonneg u). zlia.
Qed.

Lemma block_size_ignores_uncle_proposals_witness :
  Block_serialized_size_without_uncle_proposals (E:=unit) codec_sample_block = Ok 830.
Proof.
  rewrite block_size_ignores_uncle_proposals by exact codec_sample_block_valid. by vm_compute.
Defined.
