(* ===== verification/Errors.v ===== *)
(** * Errors: src/error/src, src/verification/src/error.rs, src/util/types/src/core/error.rs,
    src/util/dao/utils/src/error.rs, src/script/src/error.rs, src/tx-pool/src/error.rs,
    src/spec/src/error.rs

    An [Error] of the node is an [ErrorKind] with the cause it wraps.  The
    conversions [From<X> for Error] are instances of [Into]. *)

From S2P Require Import Prelude Capacity Types.

Inductive OutPointError :=
| OutPointError_Dead (o : OutPoint)
| OutPointError_Unknown (os : list OutPoint)
| OutPointError_OutOfOrder (o : OutPoint)
| OutPointError_InvalidDepGroup (o : OutPoint)
| OutPointError_InvalidHeader (h : Byte32)
| OutPointError_ImmatureHeader (h : Byte32).

Inductive TransactionError :=
| InsufficientCellCapacity
| OutputsSumOverflow
| TransactionError_Empty
| DuplicateDeps
| OutputsDataLengthMismatch
| OutputDataHashMismatch
| InvalidSince
| Immature
| CellbaseImmaturity
| MismatchedVersion
| TransactionError_ExceededMaximumBlockBytes.

Inductive ScriptError :=
| InvalidCodeHash
| ScriptError_ExceededMaximumCycles
| MultipleMatches
| ValidationFailure (code : Z)
| EncounteredKnownBugs (reason : String.string) (index : nat).

Inductive PowError :=
| PowError_Boundary (expected actual : Byte32)
| InvalidNonce.

Inductive TimestampError :=
| BlockTimeTooOld (min actual : Z)
| BlockTimeTooNew (max actual : Z).

Record NumberError := mkNumberError { NumberError_expected : Z; NumberError_actual : Z }.

Inductive EpochError :=
| TargetMismatch (expected actual : Z)
| NumberMismatch (expected actual : Z).

Record InvalidParentError := mkInvalidParentError { InvalidParentError_parent_hash : Byte32 }.

(** [HeaderError]: a [HeaderErrorKind] with its cause. *)
Inductive HeaderError :=
| HeaderError_InvalidParent (e : InvalidParentError)
| HeaderError_Pow (e : PowError)
| HeaderError_Timestamp (e : TimestampError)
| HeaderError_Number (e : NumberError)
| HeaderError_Epoch (e : EpochError).

Inductive CommitError :=
| AncestorNotFound
| CommitError_Invalid.

Inductive CellbaseError :=
| InvalidInput
| InvalidRewardAmount
| InvalidRewardTarget
| InvalidWitness
| InvalidTypeScript
| InvalidOutputQuantity
| InvalidQuantity
| InvalidPosition
| InvalidOutputData.

Inductive UnclesError :=
| OverCount (max actual : Z)
| InvalidDepth (max min actual : Z)
| UnclesError_InvalidHash (expected actual : Byte32)
| UnclesError_InvalidNumber
| InvalidTarget
| InvalidDifficultyEpoch
| UnclesError_ProposalsHash
| ProposalDuplicate
| UnclesError_Duplicate (h : Byte32)
| DoubleInclusion (h : Byte32)
| DescendantLimit
| UnclesError_ExceededMaximumProposalsLimit.

Record UnknownParentError := mkUnknownParentError { UnknownParentError_parent_hash : Byte32 }.

Inductive InternalErrorKind :=
| CapacityOverflow_Internal
| TransactionPoolFull
| PoolTransactionDuplicated
| DataCorrupted
| Database
| VM
| System.

Inductive DaoError :=
| DaoError_InvalidHeader
| InvalidOutPoint
| InvalidDaoFormat
| DaoError_Overflow
| ZeroC.

Inductive SubmitTxError :=
| LowFeeRate (min_fee_rate : Z)
| ExceededMaximumAncestorsCount.

Inductive SpecError :=
| FileNotFound (name : String.string)
| ChainNameNotAllowed (name : String.string)
| GenesisMismatch (expected actual : Byte32).

(** [BlockError] (a [BlockErrorKind], with the cause of the kinds that have one)
    and [Error]; a [BlockTransactionsError] nests the error of a transaction. *)
Inductive Error :=
| Error_OutPoint (e : OutPointError)
| Error_Transaction (e : TransactionError)
| Error_SubmitTransaction (e : SubmitTxError)
| Error_Script (e : ScriptError)
| Error_Header (e : HeaderError)
| Error_Block (e : BlockError)
| Error_Internal (k : InternalErrorKind)
| Error_Dao (e : DaoError)
| Error_Spec (e : SpecError)
with BlockError :=
| ProposalTransactionDuplicate
| CommitTransactionDuplicate
| ProposalTransactionsHash
| TransactionsRoot
| InvalidDAO
| BlockTransactions (index : Z) (error : Error)
| UnknownParent (e : UnknownParentError)
| Uncles (e : UnclesError)
| Cellbase (e : CellbaseError)
| Commit (e : CommitError)
| ExceededMaximumProposalsLimit
| ExceededMaximumCycles
| ExceededMaximumBlockBytes
| BlockVersion.

Definition TransactionError_is_malformed_tx (e : TransactionError) : bool :=
  match e with
  | OutputsSumOverflow | DuplicateDeps | TransactionError_Empty | InsufficientCellCapacity
  | InvalidSince | TransactionError_ExceededMaximumBlockBytes | OutputsDataLengthMismatch
  | OutputDataHashMismatch => true
  | Immature | CellbaseImmaturity | MismatchedVersion => false
  end.

(** ** Conversions *)

Class Into (A B : Type) := into : A -> B.

#[export] Instance into_OutPoint : Into OutPointError Error := Error_OutPoint.
#[export] Instance into_Transaction : Into TransactionError Error := Error_Transaction.
#[export] Instance into_Script : Into ScriptError Error := Error_Script.
#[export] Instance into_Header : Into HeaderError Error := Error_Header.
#[export] Instance into_Block : Into BlockError Error := Error_Block.
#[export] Instance into_Internal : Into InternalErrorKind Error := Error_Internal.
#[export] Instance into_Dao : Into DaoError Error := Error_Dao.
#[export] Instance into_SubmitTx : Into SubmitTxError Error := Error_SubmitTransaction.
#[export] Instance into_Spec : Into SpecError Error := Error_Spec.
#[export] Instance into_InvalidParent : Into InvalidParentError Error :=
  fun e => Error_Header (HeaderError_InvalidParent e).
#[export] Instance into_Pow : Into PowError Error := fun e => Error_Header (HeaderError_Pow e).
#[export] Instance into_Timestamp : Into TimestampError Error :=
  fun e => Error_Header (HeaderError_Timestamp e).
#[export] Instance into_Number : Into NumberError Error :=
  fun e => Error_Header (HeaderError_Number e).
#[export] Instance into_Epoch : Into EpochError Error :=
  fun e => Error_Header (HeaderError_Epoch e).
#[export] Instance into_UnknownParent : Into UnknownParentError Error :=
  fun e => Error_Block (UnknownParent e).
#[export] Instance into_Commit : Into CommitError Error := fun e => Error_Block (Commit e).
#[export] Instance into_Cellbase : Into CellbaseError Error := fun e => Error_Block (Cellbase e).
#[export] Instance into_Uncles : Into UnclesError Error := fun e => Error_Block (Uncles e).
(** [From<ckb_occupied_capacity::Error> for Error]. *)
#[export] Instance into_Capacity : Into CapacityError Error :=
  fun _ => Error_Internal CapacityOverflow_Internal.

(** [m?] where [m] fails with a capacity error in a function that fails with [Error]. *)
Definition cap {A} (m : CapacityResult A) : outcome Error A := map_err into m.

Lemma cap_Ok {A} (m : CapacityResult A) a : cap m = Ok a <-> m = Ok a.
Proof. apply map_err_Ok. Qed.

(** Inverts [cap], and decides guards and lets. *)
Ltac inv_err_step :=
  match goal with
  | H : cap _ = Ok _ |- _ => apply cap_Ok in H
  end.
Ltac inv_all := repeat ((inv_err_step || inv_ok_step || inv_cap_step); try subst).
