(* ===== verification/Epoch.v ===== *)
(** * Epochs: src/util/types/src/core/extras.rs

    [EpochNumberWithFraction] (a position inside an epoch, packed into a u64),
    [EpochExt] (the state of an epoch and the rewards of its blocks),
    [TransactionInfo] and [BlockExt].

    The [debug_assert!]s of the source are absent from a release build. *)

From Stdlib Require Import QArith.
From S2P Require Import Prelude Capacity NumExt Rational Types Errors.
Local Open Scope Z_scope.

(** ** EpochNumberWithFraction *)

Definition EpochNumberWithFraction := Z.

Definition NUMBER_OFFSET : Z := 0.
Definition NUMBER_BITS : Z := 24.
Definition NUMBER_MAXIMUM_VALUE : Z := Z.shiftl 1 NUMBER_BITS.
Definition NUMBER_MASK : Z := NUMBER_MAXIMUM_VALUE - 1.
Definition INDEX_OFFSET : Z := NUMBER_BITS.
Definition INDEX_BITS : Z := 16.
Definition INDEX_MAXIMUM_VALUE : Z := Z.shiftl 1 INDEX_BITS.
Definition INDEX_MASK : Z := INDEX_MAXIMUM_VALUE - 1.
Definition LENGTH_OFFSET : Z := NUMBER_BITS + INDEX_BITS.
Definition LENGTH_BITS : Z := 16.
Definition LENGTH_MAXIMUM_VALUE : Z := Z.shiftl 1 LENGTH_BITS.
Definition LENGTH_MASK : Z := LENGTH_MAXIMUM_VALUE - 1.

(** [<<] on u64 drops the bits shifted out. *)
Definition u64_shl (x s : Z) : Z := Z.shiftl x s mod 2 ^ 64.

Definition EpochFraction_new_unchecked (number index length : Z) : EpochNumberWithFraction :=
  Z.lor (Z.lor (u64_shl length LENGTH_OFFSET) (u64_shl index INDEX_OFFSET))
        (u64_shl number NUMBER_OFFSET).
Definition EpochFraction_new (number index length : Z) : EpochNumberWithFraction :=
  EpochFraction_new_unchecked number index length.
Definition EpochFraction_number (e : EpochNumberWithFraction) : Z :=
  Z.land (Z.shiftr e NUMBER_OFFSET) NUMBER_MASK.
Definition EpochFraction_index (e : EpochNumberWithFraction) : Z :=
  Z.land (Z.shiftr e INDEX_OFFSET) INDEX_MASK.
Definition EpochFraction_length (e : EpochNumberWithFraction) : Z :=
  Z.land (Z.shiftr e LENGTH_OFFSET) LENGTH_MASK.
Definition EpochFraction_full_value (e : EpochNumberWithFraction) : Z := e.
Definition EpochFraction_from_full_value (value : Z) : EpochNumberWithFraction :=
  if EpochFraction_length value =? 0
  then EpochFraction_new (EpochFraction_number value) 0 1
  else value.

(** [Ord::cmp]; the products of two 16-bit fields cannot overflow a u64. *)
Definition EpochFraction_cmp (self other : EpochNumberWithFraction) : comparison :=
  match EpochFraction_number self ?= EpochFraction_number other with
  | Eq =>
      let a := EpochFraction_index self * EpochFraction_length other in
      let b := EpochFraction_index other * EpochFraction_length self in
      a ?= b
  | ord => ord
  end.
Definition EpochFraction_lt (a b : EpochNumberWithFraction) : bool :=
  match EpochFraction_cmp a b with Lt => true | _ => false end.

Definition EpochFraction_to_rational `{NumExt} {E} (e : EpochNumberWithFraction) :
    outcome E RationalU256 :=
  r ← Rational_new (EpochFraction_index e) (EpochFraction_length e);
  Rational_add_u256 r (EpochFraction_number e).

(** [header.epoch()]: unpacking the field goes through [from_full_value]. *)
Definition RawHeader_epoch (h : RawHeader) : EpochNumberWithFraction :=
  EpochFraction_from_full_value (epoch h).
Definition HeaderView_epoch (h : HeaderView) : EpochNumberWithFraction :=
  RawHeader_epoch (HeaderView_raw h).

(** ** BlockExt and TransactionInfo *)

Record BlockExt := mkBlockExt {
  received_at : Z;
  total_difficulty : Z;
  total_uncles_count : Z;
  verified : option bool;
  txs_fees : list Capacity;
}.

Record TransactionInfo := mkTransactionInfo {
  info_block_hash : Byte32;
  info_block_number : Z;
  info_block_epoch : EpochNumberWithFraction;
  info_index : nat;
}.
Definition TransactionInfo_new (block_number : Z) (block_epoch : EpochNumberWithFraction)
    (block_hash : Byte32) (index : nat) : TransactionInfo :=
  mkTransactionInfo block_hash block_number block_epoch index.
Definition TransactionInfo_is_cellbase (i : TransactionInfo) : bool := (info_index i =? 0)%nat.
Definition TransactionInfo_is_genesis (i : TransactionInfo) : bool := info_block_number i =? 0.

(** ** EpochExt *)

Record EpochExt := mkEpochExt {
  epoch_number : Z;
  base_block_reward : Capacity;
  remainder_reward : Capacity;
  previous_epoch_hash_rate : Z;
  last_block_hash_in_previous_epoch : Byte32;
  start_number : Z;
  epoch_length : Z;
  epoch_compact_target : Z;
}.

Definition EpochExt_is_genesis (e : EpochExt) : bool := 0 =? epoch_number e.

Definition EpochExt_primary_reward {E} (e : EpochExt) : outcome E Capacity :=
  x ← u64_mul (Capacity_as_u64 (base_block_reward e)) (epoch_length e);
  y ← u64_add x (Capacity_as_u64 (remainder_reward e));
  Ok (Capacity_shannons y).

Definition EpochExt_set_primary_reward {E} (e : EpochExt) (primary_reward : Capacity) :
    outcome E EpochExt :=
  let primary_reward_u64 := Capacity_as_u64 primary_reward in
  base ← u64_div primary_reward_u64 (epoch_length e);
  remainder ← u64_rem primary_reward_u64 (epoch_length e);
  Ok (mkEpochExt (epoch_number e) (Capacity_shannons base) (Capacity_shannons remainder)
        (previous_epoch_hash_rate e) (last_block_hash_in_previous_epoch e)
        (start_number e) (epoch_length e) (epoch_compact_target e)).

(** [&&] evaluates its right operand, whose sum may overflow, only if the left
    one holds. *)
Definition EpochExt_block_reward (e : EpochExt) (number : Z) : outcome Error Capacity :=
  in_remainder ←
    (if start_number e <=? number
     then (fun s => number <? s) <$>
            u64_add (start_number e) (Capacity_as_u64 (remainder_reward e))
     else Ok false);
  if (in_remainder : bool)
  then cap (Capacity_safe_add (base_block_reward e) Capacity_one)
  else Ok (base_block_reward e).

Definition EpochExt_number_with_fraction {E} (e : EpochExt) (number : Z) :
    outcome E EpochNumberWithFraction :=
  index ← u64_sub number (start_number e);
  Ok (EpochFraction_new (epoch_number e) index (epoch_length e)).

Definition EpochExt_secondary_block_issuance (e : EpochExt) (block_number : Z)
    (secondary_epoch_issuance : Capacity) : outcome Error Capacity :=
  q ← u64_div (Capacity_as_u64 secondary_epoch_issuance) (epoch_length e);
  let g2 := Capacity_shannons q in
  remainder ← u64_rem (Capacity_as_u64 secondary_epoch_issuance) (epoch_length e);
  in_remainder ←
    (if start_number e <=? block_number
     then (fun s => block_number <? s) <$> u64_add (start_number e) remainder
     else Ok false);
  if (in_remainder : bool)
  then cap (Capacity_safe_add g2 Capacity_one)
  else Ok g2.

(** ** Correctness of the packing *)

Lemma EpochFraction_new_value n i l :
  0 <= n < 2 ^ 24 -> 0 <= i < 2 ^ 16 -> 0 <= l < 2 ^ 16 ->
  EpochFraction_new n i l = l * 2 ^ 40 + i * 2 ^ 24 + n.
Proof.
  intros Hn Hi Hl. unfold EpochFraction_new, EpochFraction_new_unchecked, u64_shl,
    LENGTH_OFFSET, INDEX_OFFSET, NUMBER_OFFSET, NUMBER_BITS, INDEX_BITS.
  rewrite (Z.shiftl_mul_pow2 l), (Z.shiftl_mul_pow2 i), Z.shiftl_0_r by lia.
  rewrite !Z.mod_small by lia.
  rewrite <- (Z.shiftl_mul_pow2 l) by lia. rewrite lor_shiftl_disjoint by lia.
  replace (l * 2 ^ (24 + 16) + i * 2 ^ 24) with ((l * 2 ^ 16 + i) * 2 ^ 24) by lia.
  rewrite <- (Z.shiftl_mul_pow2 (l * 2 ^ 16 + i)) by lia.
  rewrite lor_shiftl_disjoint by lia. lia.
Qed.

Lemma EpochFraction_number_value e : EpochFraction_number e = e mod 2 ^ 24.
Proof. unfold EpochFraction_number, NUMBER_OFFSET. rewrite Z.shiftr_0_r. by apply (land_mask _ 24). Qed.

Lemma EpochFraction_index_value e : EpochFraction_index e = e / 2 ^ 24 mod 2 ^ 16.
Proof.
  unfold EpochFraction_index, INDEX_OFFSET, NUMBER_BITS. rewrite shiftr_div by lia.
  by apply (land_mask _ 16).
Qed.

Lemma EpochFraction_length_value e : EpochFraction_length e = e / 2 ^ 40 mod 2 ^ 16.
Proof.
  unfold EpochFraction_length, LENGTH_OFFSET, NUMBER_BITS, INDEX_BITS. rewrite shiftr_div by lia.
  by apply (land_mask _ 16).
Qed.

Lemma EpochFraction_fields_range e :
  0 <= EpochFraction_number e < 2 ^ 24 /\ 0 <= EpochFraction_index e < 2 ^ 16 /\
  0 <= EpochFraction_length e < 2 ^ 16.
Proof.
  rewrite EpochFraction_number_value, EpochFraction_index_value, EpochFraction_length_value.
  split_and!; apply Z.mod_pos_bound; lia.
Qed.

Lemma EpochFraction_fields n i l :
  0 <= n < 2 ^ 24 -> 0 <= i < 2 ^ 16 -> 0 <= l < 2 ^ 16 ->
  EpochFraction_number (EpochFraction_new n i l) = n /\
  EpochFraction_index (EpochFraction_new n i l) = i /\
  EpochFraction_length (EpochFraction_new n i l) = l.
Proof.
  intros. rewrite EpochFraction_number_value, EpochFraction_index_value,
    EpochFraction_length_value, EpochFraction_new_value by done.
  split_and!; divlia.
Qed.

Lemma EpochFraction_new_fields e :
  0 <= e < 2 ^ 56 ->
  EpochFraction_new (EpochFraction_number e) (EpochFraction_index e) (EpochFraction_length e) = e.
Proof.
  intros He. destruct (EpochFraction_fields_range e) as (? & ? & ?).
  rewrite EpochFraction_new_value by done.
  rewrite EpochFraction_number_value, EpochFraction_index_value, EpochFraction_length_value.
  divlia.
Qed.

Lemma EpochFraction_from_full_value_length v :
  0 < EpochFraction_length (EpochFraction_from_full_value v).
Proof.
  unfold EpochFraction_from_full_value.
  destruct (EpochFraction_fields_range v) as (? & ? & ?).
  destruct (Z.eqb_spec (EpochFraction_length v) 0); [|lia].
  destruct (EpochFraction_fields (EpochFraction_number v) 0 1) as (_ & _ & ->); lia.
Qed.

(** Packing a position into a u64 and reading its three fields back is the
    identity in both directions on the values that fit the 24/16/16 bit fields,
    and a value read from the chain never has a zero length. *)
Theorem epoch_fraction_roundtrip n i l e v :
  0 <= n < 2 ^ 24 -> 0 <= i < 2 ^ 16 -> 0 <= l < 2 ^ 16 -> 0 <= e < 2 ^ 56 ->
  let p := EpochFraction_new n i l in
  (EpochFraction_number p, EpochFraction_index p, EpochFraction_length p) = (n, i, l) /\
  0 <= EpochFraction_full_value p < 2 ^ 56 /\
  EpochFraction_new (EpochFraction_number e) (EpochFraction_index e) (EpochFraction_length e) = e /\
  0 < EpochFraction_length (EpochFraction_from_full_value v) /\
  (0 < l -> EpochFraction_from_full_value (EpochFraction_full_value p) = p).
Proof.
  intros Hn Hi Hl He p. destruct (EpochFraction_fields n i l) as (E1 & E2 & E3); [done..|].
  fold p in E1, E2, E3. rewrite E1, E2, E3. split_and!; try done.
  - unfold EpochFraction_full_value, p. rewrite EpochFraction_new_value by done. lia.
  - unfold EpochFraction_full_value, p. rewrite EpochFraction_new_value by done. lia.
  - by apply EpochFraction_new_fields.
  - apply EpochFraction_from_full_value_length.
  - intros. unfold EpochFraction_from_full_value, EpochFraction_full_value.
    rewrite E3. by destruct (Z.eqb_spec l 0); [lia|].
Qed.

Lemma epoch_fraction_roundtrip_witness :
  EpochFraction_from_full_value (EpochFraction_full_value (EpochFraction_new 7 90 1800)) =
    EpochFraction_new 7 90 1800.
Proof.
  refine (proj2 (proj2 (proj2 (proj2 (epoch_fraction_roundtrip 7 90 1800 5 0 _ _ _ _)))) _); lia.
Defined.

(** ** Order *)

Section order.
Context {N : NumExt} `{!NumExtSpec N} {E : Type}.

(** The rational position [number + index / length]. *)
Definition epoch_position (e : EpochNumberWithFraction) : Q :=
  (inject_Z (EpochFraction_number e) +
   (EpochFraction_index e # Z.to_pos (EpochFraction_length e)))%Q.

(** [to_rational] computes the position, for every value whose length is not zero. *)
Lemma EpochFraction_to_rational_ok e :
  0 < EpochFraction_length e ->
  exists r, EpochFraction_to_rational (E:=E) e = Ok r /\ rational_wf r /\
    (toQ r == epoch_position e)%Q /\ numer r < 2 ^ 42 /\ denom r < 2 ^ 16.
Proof.
  intros Hl. destruct (EpochFraction_fields_range e) as (Hn & Hi & Hl').
  unfold EpochFraction_to_rational.
  destruct (Rational_new_reduced (E:=E) (EpochFraction_index e) (EpochFraction_length e))
    as (r & Hr & [[? ?] ?] & Hq & ? & ?); [zlia|lia|].
  rewrite Hr; simpl. rewrite Rational_add_u256_ok; [|by unfold rational_wf, in_range|zlia|nia].
  eexists; split; [done|]. unfold rational_wf, in_range; simpl.
  split_and!; [nia|nia|lia|lia| |nia|lia].
  unfold epoch_position. rewrite <- Hq. unfold Qeq, toQ; simpl.
  rewrite Pos.mul_1_l, !Z2Pos.id by lia. ring.
Qed.

(** Comparing mixed numbers with proper fractions is comparing the wholes first. *)
Lemma mixed_compare x y i j l m :
  0 <= i < l -> 0 <= j < m ->
  (inject_Z x + (i # Z.to_pos l) ?= inject_Z y + (j # Z.to_pos m))%Q =
  match x ?= y with Eq => i * m ?= j * l | ord => ord end.
Proof.
  intros Hi Hj. unfold Qcompare, Qplus, inject_Z, Qnum, Qden.
  rewrite !Pos.mul_1_l, !Z.mul_1_r, !Z2Pos.id by lia.
  destruct (Z.compare_spec x y) as [->| |].
  - destruct (Z.compare_spec (i * m) (j * l));
      [apply Z.compare_eq_iff|apply Z.compare_lt_iff|apply Z.compare_gt_iff]; nia.
  - apply Z.compare_lt_iff.
    assert (0 <= (y - x - 1) * (l * m)) by (apply Z.mul_nonneg_nonneg; nia). assert (i * m < l * m) by nia. nia.
  - apply Z.compare_gt_iff.
    assert (0 <= (x - y - 1) * (l * m)) by (apply Z.mul_nonneg_nonneg; nia). assert (j * l < m * l) by nia. nia.
Qed.

Lemma EpochFraction_cmp_position a b :
  EpochFraction_index a < EpochFraction_length a ->
  EpochFraction_index b < EpochFraction_length b ->
  EpochFraction_cmp a b = (epoch_position a ?= epoch_position b)%Q.
Proof.
  intros Ha Hb. destruct (EpochFraction_fields_range a) as (? & ? & ?).
  destruct (EpochFraction_fields_range b) as (? & ? & ?).
  symmetry. apply mixed_compare; lia.
Qed.

(** On positions whose index is below their length, the order [Ord::cmp] of
    epoch positions is the order of the rational numbers [to_rational] makes of
    them, and comparing those rationals with [RationalU256::cmp] gives the same
    answer; [to_rational] cannot fail on them. *)
Theorem epoch_cmp_is_rational_order a b :
  EpochFraction_index a < EpochFraction_length a ->
  EpochFraction_index b < EpochFraction_length b ->
  exists ra rb,
    EpochFraction_to_rational (E:=E) a = Ok ra /\ EpochFraction_to_rational (E:=E) b = Ok rb /\
    Rational_cmp (E:=E) ra rb = Ok (EpochFraction_cmp a b).
Proof.
  intros Ha Hb. destruct (EpochFraction_fields_range a) as (? & ? & ?).
  destruct (EpochFraction_fields_range b) as (? & ? & ?).
  destruct (EpochFraction_to_rational_ok a) as (ra & ? & Wa & Qa & ? & ?); [lia|].
  destruct (EpochFraction_to_rational_ok b) as (rb & ? & Wb & Qb & ? & ?); [lia|].
  exists ra, rb. split_and!; [done..|].
  pose proof Wa as [[? ?] ?]. pose proof Wb as [[? ?] ?].
  rewrite Rational_cmp_ok by (done || nia).
  by rewrite EpochFraction_cmp_position, Qa, Qb.
Qed.
End order.

Lemma epoch_cmp_is_rational_order_witness :
  exists ra rb,
    EpochFraction_to_rational (H:=numext_ref) (E:=unit) (EpochFraction_new 3 5 10) = Ok ra /\
    EpochFraction_to_rational (H:=numext_ref) (E:=unit) (EpochFraction_new 3 2 3) = Ok rb /\
    Rational_cmp (H:=numext_ref) (E:=unit) ra rb =
      Ok (EpochFraction_cmp (EpochFraction_new 3 5 10) (EpochFraction_new 3 2 3)).
Proof.
  refine (@epoch_cmp_is_rational_order numext_ref numext_ref_spec unit _ _ _ _); vm_compute; done.
Defined.

(** Nothing in [from_full_value] makes the index smaller than the length; on
    a malformed value the order [cmp] and the order of the rationals disagree:
    the position 0 + 5/1 is before epoch 1 for the one and after it for the other. *)
Theorem epoch_cmp_malformed_disagrees :
  let a := EpochFraction_from_full_value (EpochFraction_new 0 5 1) in
  let b := EpochFraction_from_full_value (EpochFraction_new 1 0 1) in
  EpochFraction_cmp a b = Lt /\ (epoch_position a ?= epoch_position b)%Q = Gt.
Proof. by vm_compute. Qed.

(** ** Rewards *)

(** The epochs of a chain: a positive length, a remainder smaller than it, and
    block numbers and a total reward that fit a u64. *)
Definition epoch_wf (e : EpochExt) : Prop :=
  0 < epoch_length e /\ 0 <= start_number e /\ start_number e + epoch_length e < 2 ^ 64 /\
  0 <= base_block_reward e /\ 0 <= remainder_reward e < epoch_length e /\
  base_block_reward e * epoch_length e + remainder_reward e < 2 ^ 64.

(** The block numbers of the epoch. *)
Definition epoch_blocks (e : EpochExt) : list Z := seqZ (start_number e) (epoch_length e).

Lemma EpochExt_primary_reward_ok {E} e :
  epoch_wf e ->
  EpochExt_primary_reward (E:=E) e =
    Ok (base_block_reward e * epoch_length e + remainder_reward e).
Proof.
  intros (? & ? & ? & ? & ? & ?). unfold EpochExt_primary_reward, u64_mul, u64_add,
    Capacity_as_u64, Capacity_shannons.
  rewrite fit_in_range by (unfold in_range; nia). simpl. by rewrite fit_in_range by (unfold in_range; nia).
Qed.

Lemma EpochExt_block_reward_ok e n :
  epoch_wf e -> n ∈ epoch_blocks e ->
  EpochExt_block_reward e n =
    Ok (if n <? start_number e + remainder_reward e
        then base_block_reward e + 1 else base_block_reward e).
Proof.
  intros (? & ? & ? & ? & ? & ?) [? ?]%elem_of_seqZ. unfold EpochExt_block_reward, u64_add,
    Capacity_as_u64.
  destruct (Z.leb_spec (start_number e) n); [|lia]. rewrite fit_in_range by zlia. simpl.
  destruct (Z.ltb_spec n (start_number e + remainder_reward e)); [|done].
  apply cap_Ok, safe_add_Ok. unfold Capacity_one. split; [done|unfold in_range; nia].
Qed.

Lemma EpochExt_secondary_block_issuance_ok e n s :
  epoch_wf e -> n ∈ epoch_blocks e -> is_u64 s ->
  EpochExt_secondary_block_issuance e n s =
    Ok (if n <? start_number e + s mod epoch_length e
        then s / epoch_length e + 1 else s / epoch_length e).
Proof.
  intros (? & ? & ? & ? & ? & ?) [? ?]%elem_of_seqZ Hs. unfold EpochExt_secondary_block_issuance,
    u64_div, u64_rem, u64_add, Capacity_as_u64, Capacity_shannons.
  destruct (Z.eqb_spec (epoch_length e) 0); [lia|]. simpl.
  destruct (Z.leb_spec (start_number e) n); [|lia].
  pose proof (Z.mod_pos_bound s (epoch_length e)).
  rewrite fit_in_range by zlia. simpl.
  destruct (Z.ltb_spec n (start_number e + s mod epoch_length e)); [|done].
  apply cap_Ok, safe_add_Ok. unfold Capacity_one. split; [done|].
  pose proof (Z.div_mod s (epoch_length e)). unfold in_range in *.
  assert (0 <= s / epoch_length e) by (apply Z.div_pos; lia). nia.
Qed.

(** The primary rewards of the blocks of an epoch add up to the primary
    reward of the epoch exactly, and their secondary issuances to the secondary
    issuance of the epoch: the shares of the remainder lose nothing and add
    nothing.  No step of the computation fails. *)
Theorem epoch_rewards_exhausted (e : EpochExt) (s : Capacity) :
  epoch_wf e -> is_u64 s ->
  exists total rs ss,
    EpochExt_primary_reward (E:=Error) e = Ok total /\
    try_map (EpochExt_block_reward e) (epoch_blocks e) = Ok rs /\ sumZ rs = total /\
    try_map (fun n => EpochExt_secondary_block_issuance e n s) (epoch_blocks e) = Ok ss /\
    sumZ ss = s.
Proof.
  intros He Hs. pose proof He as (? & ? & ? & ? & ? & ?).
  do 3 eexists. split; [by apply EpochExt_primary_reward_ok|].
  split; [apply try_map_fmap; intros; by apply EpochExt_block_reward_ok|].
  split; [apply sumZ_shares; lia|].
  split; [apply try_map_fmap; intros; by apply EpochExt_secondary_block_issuance_ok|].
  pose proof (Z.mod_pos_bound s (epoch_length e)).
  etrans; [apply sumZ_shares; lia|]. rewrite (Z.div_mod s (epoch_length e)) at 3; lia.
Qed.

Lemma epoch_rewards_exhausted_witness :
  let e := mkEpochExt 4 191780 17 1 zero32 4000 1000 0x20010000 in
  exists total rs ss,
    EpochExt_primary_reward (E:=Error) e = Ok total /\
    try_map (EpochExt_block_reward e) (epoch_blocks e) = Ok rs /\ sumZ rs = total /\
    try_map (fun n => EpochExt_secondary_block_issuance e n 61369863013698) (epoch_blocks e)
      = Ok ss /\
    sumZ ss = 61369863013698.
Proof. intros e. apply (epoch_rewards_exhausted e); unfold epoch_wf, in_range; simpl; lia. Defined.

(** [set_primary_reward] and [primary_reward] are inverse to each other. *)
Lemma EpochExt_set_primary_reward_ok {E} e r :
  epoch_length e <> 0 ->
  exists e', EpochExt_set_primary_reward (E:=E) e r = Ok e' /\
    base_block_reward e' = r / epoch_length e /\ remainder_reward e' = r mod epoch_length e /\
    epoch_length e' = epoch_length e /\ start_number e' = start_number e.
Proof.
  intros Hl. unfold EpochExt_set_primary_reward, u64_div, u64_rem.
  destruct (Z.eqb_spec (epoch_length e) 0); [done|]. by eexists.
Qed.
