(* ===== verification/Cell.v ===== *)
(** * Cells and their resolution: src/util/types/src/core/cell.rs

    A transaction is resolved against a cell provider: its inputs and cell deps
    are replaced by the cells they point to.  A provider is the function
    [CellProvider::cell]; [calc_data_hash] is the blake2b hash of cell data. *)

From S2P Require Import Prelude Capacity NumExt Types Molecule Errors Epoch.

(** ** Cell metadata *)

Record CellMeta := mkCellMeta {
  cell_output : CellOutput;
  out_point : OutPoint;
  transaction_info : option TransactionInfo;
  data_bytes : Z;
  mem_cell_data : option (bytes * Byte32);
}.

Definition CellMeta_is_cellbase (m : CellMeta) : bool :=
  match transaction_info m with
  | Some info => TransactionInfo_is_cellbase info
  | None => false
  end.
Definition CellMeta_capacity (m : CellMeta) : Capacity := capacity (cell_output m).
Definition CellMeta_occupied_capacity (m : CellMeta) : CapacityResult Capacity :=
  c ← Capacity_bytes (data_bytes m);
  CellOutput_occupied_capacity (cell_output m) c.
Definition CellMeta_is_lack_of_capacity (m : CellMeta) : CapacityResult bool :=
  c ← Capacity_bytes (data_bytes m);
  CellOutput_is_lack_of_capacity (cell_output m) c.

Inductive CellStatus := CellStatus_Live (m : CellMeta) | CellStatus_Dead | CellStatus_Unknown.
Definition CellStatus_is_live (s : CellStatus) : bool :=
  match s with CellStatus_Live _ => true | _ => false end.

Record ResolvedTransaction := mkResolvedTransaction {
  transaction : TransactionView;
  resolved_cell_deps : list CellMeta;
  resolved_inputs : list CellMeta;
  resolved_dep_groups : list CellMeta;
}.
Definition ResolvedTransaction_is_cellbase (r : ResolvedTransaction) : bool :=
  match resolved_inputs r with [] => true | _ => false end.
Definition ResolvedTransaction_inputs_capacity (r : ResolvedTransaction) :
    CapacityResult Capacity :=
  try_fold Capacity_safe_add Capacity_zero (CellMeta_capacity <$> resolved_inputs r).
Definition ResolvedTransaction_outputs_capacity (r : ResolvedTransaction) :
    CapacityResult Capacity :=
  TransactionView_outputs_capacity (transaction r).
Definition ResolvedTransaction_related_dep_out_points (r : ResolvedTransaction) :
    list OutPoint :=
  (out_point <$> resolved_cell_deps r) ++ (out_point <$> resolved_dep_groups r).

Inductive ResolvedDep :=
| ResolvedDep_Cell (m : CellMeta)
| ResolvedDep_Group (g : CellMeta * list CellMeta).

(** ** Cell providers *)

(** [CellProvider::cell]; a provider may panic, never return an error. *)
Definition CellProvider := OutPoint -> bool -> outcome Error CellStatus.

Definition OverlayCellProvider_cell (overlay cell_provider : CellProvider) : CellProvider :=
  fun out_point with_data =>
    s ← overlay out_point with_data;
    match s with
    | CellStatus_Live cell_meta => Ok (CellStatus_Live cell_meta)
    | CellStatus_Dead => Ok CellStatus_Dead
    | CellStatus_Unknown => cell_provider out_point with_data
    end.

(** [iter.collect::<HashMap<_, _>>()]: a later key replaces an earlier one. *)
Definition collect_map {K V} `{Countable K} (l : list (K * V)) : gmap K V :=
  foldl (fun m kv => <[kv.1 := kv.2]> m) ∅ l.

Record BlockCellProvider := mkBlockCellProvider {
  output_indices : gmap Byte32 nat;
  bcp_block : BlockView;
}.

(** The check of one out point of transaction [idx]. *)
Definition check_order (output_indices : gmap Byte32 nat) (idx : nat) (o : OutPoint) :
    outcome Error unit :=
  match output_indices !! op_tx_hash o with
  | Some output_idx =>
      guard_err (bool_decide (idx <= output_idx)%nat) (into (OutPointError_OutOfOrder o))
  | None => Ok tt
  end.
Definition BlockCellProvider_new (block : BlockView) : outcome Error BlockCellProvider :=
  let output_indices :=
    collect_map ((fun '(idx, tx) => (tx_hash tx, idx)) <$>
                 enumerate (BlockView_transactions block)) in
  _ ← try_for_each (fun '(idx, tx) =>
        _ ← try_for_each (fun dep => check_order output_indices idx (dep_out_point dep))
              (TransactionView_cell_deps tx);
        try_for_each (check_order output_indices idx) (TransactionView_input_pts_iter tx))
        (enumerate (BlockView_transactions block));
  Ok (mkBlockCellProvider output_indices block).

Section hashed.
Context (calc_data_hash : bytes -> Byte32).

Definition BlockCellProvider_cell (p : BlockCellProvider) : CellProvider :=
  fun out_point _with_data =>
    match output_indices p !! op_tx_hash out_point with
    | None => Ok CellStatus_Unknown
    | Some i =>
        tx ← BlockView_transaction (bcp_block p) i;
        transaction ← expect tx;
        let j := Z.to_nat (op_index out_point) in
        match BlockView_output (bcp_block p) i j with
        | None => Ok CellStatus_Unknown
        | Some output =>
            data ← expect (TransactionView_outputs_data transaction !! j);
            let data_hash := calc_data_hash data in
            let header := BlockView_header (bcp_block p) in
            Ok (CellStatus_Live
                  (mkCellMeta output out_point
                     (Some (mkTransactionInfo (block_hash (bcp_block p))
                              (HeaderView_number header) (HeaderView_epoch header) i))
                     (zlen data) (Some (data, data_hash))))
        end
    end.

(** [CellMetaBuilder::from_cell_output(..).build()]: the other fields have their defaults. *)
Definition CellMeta_from_cell_output (output : CellOutput) (data : bytes) : CellMeta :=
  mkCellMeta output (mkOutPoint Byte32_zero 0) None (zlen data)
    (Some (data, calc_data_hash data)).

Definition TransactionsProvider := gmap Byte32 TransactionView.
Definition TransactionsProvider_new (txs : list TransactionView) : TransactionsProvider :=
  collect_map ((fun tx => (tx_hash tx, tx)) <$> txs).
Definition TransactionsProvider_insert (p : TransactionsProvider) (tx : TransactionView) :
    TransactionsProvider := <[tx_hash tx := tx]> p.
Definition TransactionsProvider_cell (p : TransactionsProvider) : CellProvider :=
  fun out_point _with_data =>
    match p !! op_tx_hash out_point with
    | Some tx =>
        let i := Z.to_nat (op_index out_point) in
        match TransactionView_outputs tx !! i with
        | Some cell =>
            data ← expect (TransactionView_outputs_data tx !! i);
            Ok (CellStatus_Live (CellMeta_from_cell_output cell data))
        | None => Ok CellStatus_Unknown
        end
    | None => Ok CellStatus_Unknown
    end.
End hashed.

(** ** Resolution *)

(** [HeaderChecker::check_valid]. *)
Definition HeaderChecker := Byte32 -> outcome Error unit.

(** The error of the source is a message, which its caller drops. *)
Definition parse_dep_group_data (slice : bytes) : option (list OutPoint) :=
  match slice with
  | [] => None
  | _ =>
      match from_slice (A:=list OutPoint) slice with
      | Some [] => None
      | r => r
      end
  end.

(** The closure [resolve_cell]: it reads [seen_inputs] and appends to
    [unknown_out_points]. *)
Definition CellResolver :=
  OutPoint -> bool -> list OutPoint -> outcome Error (option CellMeta * list OutPoint).
Definition resolve_cell (seen_inputs : gset OutPoint) (cell_provider : CellProvider) :
    CellResolver :=
  fun out_point with_data unknown =>
    if decide (out_point ∈ seen_inputs) then Err (into (OutPointError_Dead out_point))
    else
      cell_status ← cell_provider out_point with_data;
      match cell_status with
      | CellStatus_Dead => Err (into (OutPointError_Dead out_point))
      | CellStatus_Unknown => Ok (None, unknown ++ [out_point])
      | CellStatus_Live cell_meta => Ok (Some cell_meta, unknown)
      end.

Definition push_some {A} (l : list A) (o : option A) : list A :=
  match o with Some a => l ++ [a] | None => l end.

Definition resolve_dep_group (cell_resolver : CellResolver) (o : OutPoint)
    (unknown : list OutPoint) :
    outcome Error (option (CellMeta * list CellMeta) * list OutPoint) :=
  '(cell, unknown) ← cell_resolver o true unknown;
  match cell with
  | None => Ok (None, unknown)
  | Some dep_group_cell =>
      data ← expect (mem_cell_data dep_group_cell);
      sub_out_points ←
        ok_or (into (OutPointError_InvalidDepGroup o)) (parse_dep_group_data data.1);
      '(resolved_deps, unknown) ←
        try_fold (fun '(deps, unknown) sub =>
          '(m, unknown) ← cell_resolver sub true unknown;
          Ok (push_some deps m, unknown)) ([], unknown) sub_out_points;
      Ok (Some (dep_group_cell, resolved_deps), unknown)
  end.

(** The vectors a dep resolution appends to. *)
Record DepsState := mkDepsState {
  ds_cell_deps : list CellMeta;
  ds_dep_groups : list CellMeta;
  ds_unknown : list OutPoint;
}.

Definition resolve_transaction_dep (cell_resolver : CellResolver) (st : DepsState)
    (cell_dep : CellDep) : outcome Error DepsState :=
  if dep_type cell_dep =? DepType_into DepType_DepGroup then
    '(g, unknown) ← resolve_dep_group cell_resolver (dep_out_point cell_dep) (ds_unknown st);
    match g with
    | Some (dep_group, cell_deps) =>
        Ok (mkDepsState (ds_cell_deps st ++ cell_deps) (ds_dep_groups st ++ [dep_group]) unknown)
    | None => Ok (mkDepsState (ds_cell_deps st) (ds_dep_groups st) unknown)
    end
  else
    '(m, unknown) ← cell_resolver (dep_out_point cell_dep) true (ds_unknown st);
    Ok (mkDepsState (push_some (ds_cell_deps st) m) (ds_dep_groups st) unknown).

(** [SYSTEM_CELL.get()] is the argument [system_cell]. *)
Definition resolve_transaction_deps_with_system_cell_cache
    (system_cell : option (gmap CellDep ResolvedDep)) (cell_resolver : CellResolver)
    (tx : TransactionView) (st : DepsState) : outcome Error DepsState :=
  match system_cell with
  | Some system_cell =>
      try_fold (fun st cell_dep =>
        match system_cell !! cell_dep with
        | Some (ResolvedDep_Cell cell_meta) =>
            Ok (mkDepsState (ds_cell_deps st ++ [cell_meta]) (ds_dep_groups st) (ds_unknown st))
        | Some (ResolvedDep_Group (dep_group, cell_deps)) =>
            Ok (mkDepsState (ds_cell_deps st ++ cell_deps) (ds_dep_groups st ++ [dep_group])
                  (ds_unknown st))
        | None => resolve_transaction_dep cell_resolver st cell_dep
        end) st (TransactionView_cell_deps tx)
  | None =>
      try_fold (resolve_transaction_dep cell_resolver) st (TransactionView_cell_deps tx)
  end.

(** One iteration of the loop over the inputs. *)
Definition resolve_input (cell_resolver : CellResolver)
    (st : gset OutPoint * list CellMeta * list OutPoint) (o : OutPoint) :
    outcome Error (gset OutPoint * list CellMeta * list OutPoint) :=
  let '(current_inputs, resolved, unknown) := st in
  if decide (o ∈ current_inputs) then Err (into (OutPointError_Dead o))
  else
    '(m, unknown) ← cell_resolver o false unknown;
    Ok ({[o]} ∪ current_inputs, push_some resolved m, unknown).

(** The result carries [seen_inputs] after the call; an error leaves it as it was. *)
Definition resolve_transaction (system_cell : option (gmap CellDep ResolvedDep))
    (tx : TransactionView) (seen_inputs : gset OutPoint) (cell_provider : CellProvider)
    (header_checker : HeaderChecker) : outcome Error (ResolvedTransaction * gset OutPoint) :=
  let resolver := resolve_cell seen_inputs cell_provider in
  '(current_inputs, resolved_inputs, unknown) ←
    (if negb (TransactionView_is_cellbase tx)
     then try_fold (resolve_input resolver) (∅, [], []) (TransactionView_input_pts_iter tx)
     else Ok (∅, [], []));
  deps ← resolve_transaction_deps_with_system_cell_cache system_cell resolver tx
           (mkDepsState [] [] unknown);
  _ ← try_for_each header_checker (TransactionView_header_deps tx);
  match ds_unknown deps with
  | [] =>
      Ok (mkResolvedTransaction tx (ds_cell_deps deps) resolved_inputs (ds_dep_groups deps),
          seen_inputs ∪ current_inputs)
  | unknown => Err (into (OutPointError_Unknown unknown))
  end.

(** Resolution of the transactions of a block, in order, with one set of seen
    inputs, as the chain service and the block verifiers do. *)
Definition resolve_transactions (system_cell : option (gmap CellDep ResolvedDep))
    (cell_provider : CellProvider) (header_checker : HeaderChecker)
    (seen_inputs : gset OutPoint) (txs : list TransactionView) :
    outcome Error (list ResolvedTransaction * gset OutPoint) :=
  try_fold (fun '(rtxs, seen) tx =>
    '(rtx, seen) ← resolve_transaction system_cell tx seen cell_provider header_checker;
    Ok (rtxs ++ [rtx], seen)) ([], seen_inputs) txs.

(** [build_cell_meta_from_out_point] of the system cell cache. *)
Definition build_cell_meta_from_out_point (cell_provider : CellProvider) (o : OutPoint)
    (with_data : bool) : outcome Error (option CellMeta) :=
  cell_status ← cell_provider o with_data;
  match cell_status with
  | CellStatus_Dead => Err (into (OutPointError_Dead o))
  | CellStatus_Unknown => Ok None
  | CellStatus_Live cell_meta => Ok (Some cell_meta)
  end.

(** ** Resolution is sound *)

Section resolve.
Context (system_cell : option (gmap CellDep ResolvedDep)) (cp : CellProvider).
Context (header_checker : HeaderChecker).

Lemma resolve_cell_Ok seen o wd unk m unk' :
  resolve_cell seen cp o wd unk = Ok (m, unk') ->
  o ∉ seen /\
  ((exists c, m = Some c /\ unk' = unk /\ cp o wd = Ok (CellStatus_Live c)) \/
   (m = None /\ unk' = unk ++ [o] /\ cp o wd = Ok CellStatus_Unknown)).
Proof.
  unfold resolve_cell. case_decide; [done|]. intros Hr.
  apply bind_Ok in Hr as ([c| |] & Hc & Hr); simplify_eq; naive_solver.
Qed.

(** A resolver only appends to the unknown out points. *)
Definition appends (r : CellResolver) : Prop :=
  forall o wd unk m unk', r o wd unk = Ok (m, unk') -> unk `prefix_of` unk'.

Lemma resolve_cell_appends seen : appends (resolve_cell seen cp).
Proof.
  intros o wd unk m unk' [_ [(c & _ & -> & _)|(_ & -> & _)]]%resolve_cell_Ok;
    [done|by apply prefix_app_r].
Qed.

Lemma resolve_dep_group_appends r o unk g unk' :
  appends r -> resolve_dep_group r o unk = Ok (g, unk') -> unk `prefix_of` unk'.
Proof.
  intros Hr. unfold resolve_dep_group. intros H.
  apply bind_Ok in H as ([[c|] u] & Hc & H); apply Hr in Hc; [|by simplify_eq].
  inv_ok_step. inv_ok_step. apply bind_Ok in H1 as ([deps u'] & Hf & H1). simplify_eq.
  apply (try_fold_inv (fun '(_, u') _ => unk `prefix_of` u') _ _ _ _ Hf); [done|].
  intros [d1 u1] sub l [d2 u2] Hp Hs. apply bind_Ok in Hs as ([m u3] & Hm & Hs).
  simplify_eq. by trans u1; [|eapply Hr].
Qed.

Lemma resolve_dep_appends r st d st' :
  appends r -> resolve_transaction_dep r st d = Ok st' -> ds_unknown st `prefix_of` ds_unknown st'.
Proof.
  intros Hr. unfold resolve_transaction_dep. destruct (_ =? _); intros H.
  - apply bind_Ok in H as ([g u] & Hg & H). apply resolve_dep_group_appends in Hg; [|done].
    by destruct g as [[]|]; simplify_eq.
  - apply bind_Ok in H as ([m u] & Hm & H). apply Hr in Hm. by simplify_eq.
Qed.

Lemma resolve_deps_appends r tx st st' :
  appends r ->
  resolve_transaction_deps_with_system_cell_cache system_cell r tx st = Ok st' ->
  ds_unknown st `prefix_of` ds_unknown st'.
Proof.
  intros Hr H. unfold resolve_transaction_deps_with_system_cell_cache in H.
  destruct system_cell as [sc|];
    apply (try_fold_inv (fun st' _ => ds_unknown st `prefix_of` ds_unknown st') _ _ _ _ H);
    try done; intros s1 d l s2 Hp Hs.
  - destruct (sc !! d) as [[m|[g ms]]|]; simplify_eq; try done.
    by trans (ds_unknown s1); [|eapply resolve_dep_appends].
  - by trans (ds_unknown s1); [|eapply resolve_dep_appends].
Qed.

(** The loop over the inputs. *)
Lemma resolve_inputs_Ok seen pts cur res unk cur' res' unk' :
  try_fold (resolve_input (resolve_cell seen cp)) (cur, res, unk) pts = Ok (cur', res', unk') ->
  NoDup pts /\ (forall o, o ∈ pts -> o ∉ cur /\ o ∉ seen) /\ cur' = cur ∪ list_to_set pts /\
  unk `prefix_of` unk' /\
  (unk' = [] -> exists ms, res' = res ++ ms /\
     Forall2 (fun o m => cp o false = Ok (CellStatus_Live m)) pts ms).
Proof.
  revert cur res unk. induction pts as [|o pts IH]; intros cur res unk H.
  - cbn in H. simplify_eq. split_and!; [constructor|set_solver|set_solver|done|].
    intros ->. exists []. by rewrite app_nil_r.
  - cbn [try_fold resolve_input] in H. apply bind_Ok in H as ([[c1 r1] u1] & Hi & H).
    case_decide as Ho; [done|]. apply bind_Ok in Hi as ([m u2] & Hm & Hi). simplify_eq.
    apply IH in H as (Hnd & Hnew & -> & Hpre & Hlive).
    pose proof (resolve_cell_appends _ _ _ _ _ _ Hm) as Hpre1.
    apply resolve_cell_Ok in Hm as [Hseen Hm]. split_and!.
    + constructor; [|done]. intros Hin. apply Hnew in Hin as [Hin _]. set_solver.
    + intros o' [->|Hin]%elem_of_cons; [done|]. apply Hnew in Hin as [? ?]. set_solver.
    + set_solver.
    + by trans u1.
    + intros ->. apply prefix_nil_inv in Hpre as ->. destruct Hm as [(c & -> & _ & Hc)|(_ & Hu & _)].
      * destruct Hlive as (ms & -> & Hms); [done|]. exists (c :: ms).
        cbn [push_some]. rewrite <- app_assoc. split; [done|by constructor].
      * by destruct unk.
Qed.

(** The inputs a transaction spends: those of a cellbase are not spent. *)
Definition spent_inputs (tx : TransactionView) : list OutPoint :=
  if TransactionView_is_cellbase tx then [] else TransactionView_input_pts_iter tx.

Lemma resolve_transaction_Ok tx seen rtx seen' :
  resolve_transaction system_cell tx seen cp header_checker = Ok (rtx, seen') ->
  transaction rtx = tx /\ NoDup (spent_inputs tx) /\
  (forall o, o ∈ spent_inputs tx -> o ∉ seen) /\ seen' = seen ∪ list_to_set (spent_inputs tx) /\
  Forall2 (fun o m => cp o false = Ok (CellStatus_Live m)) (spent_inputs tx)
    (resolved_inputs rtx) /\
  Forall (fun h => header_checker h = Ok tt) (TransactionView_header_deps tx).
Proof.
  unfold resolve_transaction, spent_inputs. intros H.
  apply bind_Ok in H as ([[cur res] unk] & Hi & H).
  apply bind_Ok in H as (deps & Hd & H). apply bind_Ok in H as ([] & Hh & H).
  apply resolve_deps_appends in Hd; [|apply resolve_cell_appends]. cbn in Hd.
  apply try_for_each_Ok in Hh.
  destruct (ds_unknown deps) eqn:Eu; [|done]. apply prefix_nil_inv in Hd as ->. simplify_eq. cbn.
  destruct (TransactionView_is_cellbase tx) eqn:Ecb; cbn in Hi.
  - simplify_eq. split_and!; [done|constructor|set_solver|set_solver|constructor|done].
  - apply resolve_inputs_Ok in Hi as (? & Hs & -> & _ & Hl).
    destruct Hl as (ms & -> & Hms); [done|].
    split_and!; [done|done|by intros; apply Hs|set_solver|done|done].
Qed.
End resolve.

Lemma resolve_transactions_Ok system_cell cp hc seen txs rtxs seen' :
  resolve_transactions system_cell cp hc seen txs = Ok (rtxs, seen') ->
  transaction <$> rtxs = txs /\
  NoDup (txs ≫= spent_inputs) /\ (forall o, o ∈ txs ≫= spent_inputs -> o ∉ seen) /\
  seen' = seen ∪ list_to_set (txs ≫= spent_inputs) /\
  Forall (fun rtx =>
    Forall2 (fun o m => cp o false = Ok (CellStatus_Live m)) (spent_inputs (transaction rtx))
      (resolved_inputs rtx) /\
    Forall (fun h => hc h = Ok tt) (TransactionView_header_deps (transaction rtx))) rtxs.
Proof.
  unfold resolve_transactions.
  enough (forall acc, try_fold (fun '(rtxs, seen) tx =>
      '(rtx, seen) ← resolve_transaction system_cell tx seen cp hc;
      Ok (rtxs ++ [rtx], seen)) (acc, seen) txs = Ok (rtxs, seen') ->
    exists new, rtxs = acc ++ new /\ transaction <$> new = txs /\
      NoDup (txs ≫= spent_inputs) /\ (forall o, o ∈ txs ≫= spent_inputs -> o ∉ seen) /\
      seen' = seen ∪ list_to_set (txs ≫= spent_inputs) /\
      Forall (fun rtx =>
        Forall2 (fun o m => cp o false = Ok (CellStatus_Live m)) (spent_inputs (transaction rtx))
          (resolved_inputs rtx) /\
        Forall (fun h => hc h = Ok tt) (TransactionView_header_deps (transaction rtx))) new)
    as Hgen by (intros H; apply Hgen in H as (new & -> & ?); done).
  revert seen. induction txs as [|tx txs IH]; intros seen acc H.
  - cbn in H. simplify_eq. exists [].
    split_and!; [by rewrite app_nil_r|done|constructor|set_solver|set_solver|constructor].
  - cbn [try_fold] in H. apply bind_Ok in H as ([acc1 seen1] & Hr & H).
    apply bind_Ok in Hr as ([rtx seen2] & Hr & Hp). simplify_eq.
    apply resolve_transaction_Ok in Hr as (Ht & Hnd & Hs & -> & Hl & Hh).
    apply IH in H as (new & -> & Hnew & Hnd' & Hs' & -> & Hall).
    exists (rtx :: new). rewrite bind_cons, <- app_assoc. split_and!.
    + done.
    + by rewrite fmap_cons, Ht, Hnew.
    + apply NoDup_app. split_and!; [done| |done]. intros o Ho Ho'. apply Hs' in Ho'. set_solver.
    + intros o [Ho|Ho]%elem_of_app; [by apply Hs|]. apply Hs' in Ho. set_solver.
    + rewrite list_to_set_app_L. set_solver.
    + constructor; [|done]. by rewrite Ht.
Qed.

(** C9: when the transactions of a block resolve, no cell is spent twice: the
    inputs spent by all of them together are distinct and none was spent before;
    each input was live, each resolved transaction carries the cells of its
    inputs in order, every header dep passed the check, and the set of seen
    inputs grows by exactly the inputs spent. *)
Theorem resolve_transactions_no_double_spend system_cell cp hc seen txs rtxs seen' :
  resolve_transactions system_cell cp hc seen txs = Ok (rtxs, seen') ->
  transaction <$> rtxs = txs /\
  NoDup (txs ≫= spent_inputs) /\ (forall o, o ∈ txs ≫= spent_inputs -> o ∉ seen) /\
  seen' = seen ∪ list_to_set (txs ≫= spent_inputs) /\
  Forall (fun rtx =>
    Forall2 (fun o m => cp o false = Ok (CellStatus_Live m)) (spent_inputs (transaction rtx))
      (resolved_inputs rtx) /\
    Forall (fun h => hc h = Ok tt) (TransactionView_header_deps (transaction rtx))) rtxs.
Proof. apply resolve_transactions_Ok. Qed.

(** ** The order of the transactions of a block *)

Lemma collect_map_lookup {K V} `{Countable K} (l : list (K * V)) k v :
  NoDup (l.*1) -> collect_map l !! k = Some v <-> (k, v) ∈ l.
Proof.
  intros Hnd. unfold collect_map.
  enough (forall m, foldl (fun m kv => <[kv.1 := kv.2]> m) m l !! k = Some v <->
    (k, v) ∈ l \/ (k ∉ l.*1 /\ m !! k = Some v)) as Hgen
    by (rewrite Hgen, lookup_empty; naive_solver).
  induction l as [|[k' v'] l IH]; intros m; cbn.
  - split; [|set_solver]. intros ?. right. split; [set_solver|done].
  - apply NoDup_cons in Hnd as [Hk Hnd]. rewrite IH by done. rewrite !elem_of_cons.
    rewrite lookup_insert_Some. split.
    + intros [?|(? & [[<- <-]|[? ?]])]; [by left; right|left; left; done|].
      right. split; [naive_solver|done].
    + intros [[[= -> ->]|?]|[Hn ?]]; [right; split; [done|by left]|by left|].
      right. split; [naive_solver|]. right. naive_solver.
Qed.

Lemma check_order_Ok m i o :
  check_order m i o = Ok tt <-> forall j, m !! op_tx_hash o = Some j -> (j < i)%nat.
Proof.
  unfold check_order. destruct (m !! op_tx_hash o) as [j|]; [|naive_solver].
  rewrite guard_err_Ok, bool_decide_eq_false. split; [intros ? ? [= <-]; lia|].
  intros Hj. specialize (Hj j eq_refl). lia.
Qed.

(** The out points a transaction refers to. *)
Definition referred (tx : TransactionView) : list OutPoint :=
  (dep_out_point <$> TransactionView_cell_deps tx) ++ TransactionView_input_pts_iter tx.

Definition indices_of (txs : list TransactionView) : list (Byte32 * nat) :=
  (fun '(idx, tx) => (tx_hash tx, idx)) <$> enumerate txs.
Lemma indices_lookup txs h j :
  NoDup (tx_hash <$> txs) ->
  collect_map (indices_of txs) !! h = Some j <-> exists tx, txs !! j = Some tx /\ tx_hash tx = h.
Proof.
  intros Hnd. assert ((indices_of txs).*1 = tx_hash <$> txs) as Hl.
  { unfold indices_of, enumerate. generalize 0%nat. clear. induction txs as [|t txs IH]; intros n; [done|].
    cbn. by rewrite IH. }
  rewrite collect_map_lookup by by rewrite Hl. unfold indices_of.
  rewrite list_elem_of_fmap. split.
  - intros ([k tx] & [= -> ->] & [i Hi]%list_elem_of_lookup).
    rewrite enumerate_lookup in Hi. destruct (txs !! i) eqn:E; simplify_eq/=. by exists tx.
  - intros (tx & Hj & <-). exists (j, tx). split; [done|]. apply list_elem_of_lookup. exists j.
    by rewrite enumerate_lookup, Hj.
Qed.

(** [BlockCellProvider::new] accepts a block exactly when its transactions are
    in order: whenever the transaction at [i] refers to an output of the
    transaction at [j] of the same block, [j] comes before [i].  In particular
    no transaction refers to itself and there are no cycles. *)
Theorem BlockCellProvider_new_ordered block :
  NoDup (tx_hash <$> BlockView_transactions block) ->
  (exists p, BlockCellProvider_new block = Ok p) <->
  (forall i j tx tx' o,
     BlockView_transactions block !! i = Some tx -> BlockView_transactions block !! j = Some tx' ->
     o ∈ referred tx -> op_tx_hash o = tx_hash tx' -> (j < i)%nat).
Proof.
  intros Hnd. unfold BlockCellProvider_new. set (txs := BlockView_transactions block) in *.
  set (l := (fun '(idx, tx) => (tx_hash tx, idx)) <$> enumerate txs).
  pose proof (fun h j => indices_lookup txs h j Hnd) as Hlook. change (indices_of txs) with l in Hlook.
  transitivity (Forall (fun '(i, tx) => forall o, o ∈ referred tx ->
    forall j, collect_map l !! op_tx_hash o = Some j -> (j < i)%nat) (enumerate txs)).
  - split.
    + intros [p Hp]. apply bind_Ok in Hp as ([] & Hp%try_for_each_Ok & _).
      eapply Forall_impl; [exact Hp|]. intros [i tx] Hi o Ho. apply check_order_Ok.
      apply bind_Ok in Hi as ([] & Hd%try_for_each_Ok & Hin%try_for_each_Ok).
      apply elem_of_app in Ho as [(d & -> & Hd')%list_elem_of_fmap|Ho].
      * exact (proj1 (Forall_forall _ _) Hd d Hd').
      * exact (proj1 (Forall_forall _ _) Hin o Ho).
    + intros Hall. eexists. apply bind_Ok. exists tt. split; [|done]. apply try_for_each_Ok.
      eapply Forall_impl; [exact Hall|]. intros [i tx] Hi. apply bind_Ok. exists tt.
      split; apply try_for_each_Ok, Forall_forall; intros x Hx; apply check_order_Ok; intros j;
        apply Hi; apply elem_of_app; [left|by right]. by apply list_elem_of_fmap_2.
  - rewrite Forall_lookup. setoid_rewrite enumerate_lookup. split.
    + intros Hall i j tx tx' o Hi Hj Ho Hh. specialize (Hall i (i, tx)). rewrite Hi in Hall.
      apply (Hall eq_refl o Ho). apply Hlook. by exists tx'.
    + intros Hall i [i' tx] Hi o Ho j (tx' & Hj & Hh)%Hlook.
      destruct (txs !! i) eqn:E; simplify_eq/=. by eapply Hall.
Qed.

(** *** Concrete transactions *)
Definition sample_cell : CellMeta :=
  mkCellMeta (mkCellOutput 100 (mkScript zero32 0 []) None) (mkOutPoint [1] 0) None 0 None.
Definition sample_spend (hash : Byte32) (inputs : list OutPoint) : TransactionView :=
  mkTransactionView
    (mkTransaction (mkRawTransaction 0 [] [] (mkCellInput 0 <$> inputs) [] []) []) hash hash.
Definition sample_provider : CellProvider := fun o _ =>
  Ok (if bool_decide (op_tx_hash o = [1]) then CellStatus_Live sample_cell
      else CellStatus_Unknown).

Lemma resolve_transactions_no_double_spend_witness :
  exists seen' : gset OutPoint, NoDup ([sample_spend [2] [mkOutPoint [1] 0]; sample_spend [3] [mkOutPoint [1] 1]]
    ≫= spent_inputs) /\
  seen' = ∅ ∪ list_to_set
    ([sample_spend [2] [mkOutPoint [1] 0]; sample_spend [3] [mkOutPoint [1] 1]] ≫= spent_inputs).
Proof.
  edestruct (resolve_transactions_no_double_spend None sample_provider (fun _ => Ok tt) ∅
    [sample_spend [2] [mkOutPoint [1] 0]; sample_spend [3] [mkOutPoint [1] 1]])
    as (_ & Hnd & _ & Hs & _); [reflexivity|].
  eexists. split; [exact Hnd|exact Hs].
Defined.

Definition sample_block : BlockView :=
  let tx hash inputs := tx_data (sample_spend hash inputs) in
  mkBlockView
    (mkBlock (mkHeader (mkRawHeader 0 0 0 0 0 [] [] [] [] []) 0) []
       [tx [2] [mkOutPoint [1] 0]; tx [3] [mkOutPoint [2] 0]] [])
    [0] [] [[2]; [3]] [[2]; [3]].

Lemma BlockCellProvider_new_ordered_witness : exists p, BlockCellProvider_new sample_block = Ok p.
Proof.
  apply BlockCellProvider_new_ordered.
  - apply (bool_decide_eq_true_1 _). by vm_compute.
  - intros [|[|i]] [|[|j]] tx tx' o Hi Hj Ho Hh; try done; try lia; cbn in Hi, Hj; simplify_eq;
      unfold referred in Ho; cbn in Ho; apply list_elem_of_singleton in Ho as ->; discriminate Hh.
Defined.
