(* ===== verification/Consensus.v ===== *)
(** * Consensus parameters and the epoch adjustment: src/spec/src/consensus.rs,
    [calculate_block_reward] of src/spec/src/lib.rs, [Pow] of src/pow/src/lib.rs *)

From Stdlib Require Import QArith.
From stdpp Require Import strings.
From S2P Require Import Prelude Capacity NumExt Rational Difficulty Types Errors Epoch.
Local Open Scope Z_scope.

Inductive Pow := Dummy | Eaglesong | EaglesongBlake2b.
#[export] Instance Pow_eq_dec : EqDecision Pow.
Proof. solve_decision. Defined.
Definition Pow_is_dummy (p : Pow) : bool := bool_decide (p = Dummy).

(** ** Constants *)
Definition DEFAULT_SECONDARY_EPOCH_REWARD : Capacity := 61369863013698.
Definition INITIAL_PRIMARY_EPOCH_REWARD : Capacity := 191780821917808.
Definition MAX_UNCLE_NUM : nat := 2.
Definition CELLBASE_MATURITY : EpochNumberWithFraction := EpochFraction_new_unchecked 4 0 1.
Definition MEDIAN_TIME_BLOCK_COUNT : nat := 37.
Definition TAU : Z := 2.
Definition GENESIS_EPOCH_LENGTH : Z := 1000.
Definition ORPHAN_RATE_TARGET : RationalU256 := mkRational 1 40.
Definition MAX_BLOCK_INTERVAL : Z := 48.
Definition MIN_BLOCK_INTERVAL : Z := 8.
Definition TWO_IN_TWO_OUT_CYCLES : Z := 3500000.
Definition TWO_IN_TWO_OUT_BYTES : Z := 597.
Definition TWO_IN_TWO_OUT_COUNT : Z := 1000.
Definition DEFAULT_EPOCH_DURATION_TARGET : Z := 4 * 60 * 60.
Definition MILLISECONDS_IN_A_SECOND : Z := 1000.
Definition MAX_EPOCH_LENGTH : Z := DEFAULT_EPOCH_DURATION_TARGET / MIN_BLOCK_INTERVAL.
Definition MIN_EPOCH_LENGTH : Z := DEFAULT_EPOCH_DURATION_TARGET / MAX_BLOCK_INTERVAL.
Definition DEFAULT_PRIMARY_EPOCH_REWARD_HALVING_INTERVAL : Z :=
  4 * 365 * 24 * 60 * 60 / DEFAULT_EPOCH_DURATION_TARGET.
Definition MAX_BLOCK_BYTES : Z := TWO_IN_TWO_OUT_BYTES * TWO_IN_TWO_OUT_COUNT.
Definition MAX_BLOCK_CYCLES : Z := TWO_IN_TWO_OUT_CYCLES * TWO_IN_TWO_OUT_COUNT.
Definition MAX_BLOCK_PROPOSALS_LIMIT : Z := 1500.
Definition PROPOSER_REWARD_RATIO : Ratio := mkRatio 4 10.
Definition SATOSHI_PUBKEY_HASH : bytes :=
  [0x62; 0xe9; 0x07; 0xb1; 0x5c; 0xbf; 0x27; 0xd5; 0x42; 0x53;
   0x99; 0xeb; 0xf6; 0xf0; 0xfb; 0x50; 0xeb; 0xb8; 0x8f; 0x18].
Definition SATOSHI_CELL_OCCUPIED_RATIO : Ratio := mkRatio 6 10.
Definition TYPE_ID_CODE_HASH : Byte32 :=
  repeat 0 25 ++ [0x54; 0x59; 0x50; 0x45; 0x5f; 0x49; 0x44].
Definition TX_VERSION : Z := 0.
Definition BLOCK_VERSION : Z := 0.
Definition OUTPUT_INDEX_SECP256K1_BLAKE160_SIGHASH_ALL : nat := 1.
Definition OUTPUT_INDEX_DAO : nat := 2.
Definition OUTPUT_INDEX_SECP256K1_BLAKE160_MULTISIG_ALL : nat := 4.

(** ** ProposalWindow *)
Record ProposalWindow := mkProposalWindow { closest : Z; farthest : Z }.
Definition TX_PROPOSAL_WINDOW : ProposalWindow := mkProposalWindow 2 10.
Definition ProposalWindow_length {E} (w : ProposalWindow) : outcome E Z :=
  d ← u64_sub (farthest w) (closest w);
  u64_add d 1.

(** ** Consensus *)
Record Consensus := mkConsensus {
  id : String.string;
  genesis_block : BlockView;
  genesis_hash : Byte32;
  dao_type_hash : option Byte32;
  secp256k1_blake160_sighash_all_type_hash : option Byte32;
  secp256k1_blake160_multisig_all_type_hash : option Byte32;
  initial_primary_epoch_reward : Capacity;
  secondary_epoch_reward : Capacity;
  max_uncles_num : nat;
  orphan_rate_target : RationalU256;
  epoch_duration_target : Z;
  tx_proposal_window : ProposalWindow;
  proposer_reward_ratio : Ratio;
  pow : Pow;
  cellbase_maturity : EpochNumberWithFraction;
  median_time_block_count : nat;
  max_block_cycles : Z;
  max_block_bytes : Z;
  block_version : Z;
  consensus_tx_version : Z;
  type_id_code_hash : Byte32;
  max_block_proposals_limit : Z;
  genesis_epoch_ext : EpochExt;
  satoshi_pubkey_hash : bytes;
  satoshi_cell_occupied_ratio : Ratio;
  primary_epoch_reward_halving_interval : Z;
  permanent_difficulty_in_dummy : bool;
}.

(** [ConsensusBuilder::new]. *)
Definition ConsensusBuilder_new (genesis_block : BlockView) (genesis_epoch_ext : EpochExt) :
    Consensus :=
  mkConsensus "main"%string genesis_block (header_hash (BlockView_header genesis_block))
    None None None INITIAL_PRIMARY_EPOCH_REWARD DEFAULT_SECONDARY_EPOCH_REWARD MAX_UNCLE_NUM
    ORPHAN_RATE_TARGET DEFAULT_EPOCH_DURATION_TARGET TX_PROPOSAL_WINDOW PROPOSER_REWARD_RATIO
    Dummy CELLBASE_MATURITY MEDIAN_TIME_BLOCK_COUNT MAX_BLOCK_CYCLES MAX_BLOCK_BYTES
    BLOCK_VERSION TX_VERSION TYPE_ID_CODE_HASH MAX_BLOCK_PROPOSALS_LIMIT genesis_epoch_ext
    SATOSHI_PUBKEY_HASH SATOSHI_CELL_OCCUPIED_RATIO
    DEFAULT_PRIMARY_EPOCH_REWARD_HALVING_INTERVAL false.

(** [calculate_block_reward]: the share of the first block, rounded up. *)
Definition calculate_block_reward {E} (epoch_reward : Capacity) (epoch_length : Z) :
    outcome E Capacity :=
  let epoch_reward := Capacity_as_u64 epoch_reward in
  r ← u64_rem epoch_reward epoch_length;
  q ← u64_div epoch_reward epoch_length;
  if negb (r =? 0) then Capacity_shannons <$> u64_add q 1 else Ok (Capacity_shannons q).

Definition finalization_delay_length {E} (c : Consensus) : outcome E Z :=
  u64_add (farthest (tx_proposal_window c)) 1.
Definition finalize_target {E} (c : Consensus) (block_number : Z) : outcome E (option Z) :=
  if negb (block_number =? 0)
  then (fun d => Some (saturating_sub block_number d)) <$> finalization_delay_length c
  else Ok None.

(** [>>] on u64 panics when the shift amount is not below 64. *)
Definition u64_shr {E} (x s : Z) : outcome E Z :=
  if s <? 64 then Ok (Z.shiftr x s) else Panic.
Definition primary_epoch_reward {E} (c : Consensus) (epoch_number : Z) : outcome E Capacity :=
  halvings ← u64_div epoch_number (primary_epoch_reward_halving_interval c);
  Capacity_shannons <$> u64_shr (Capacity_as_u64 (initial_primary_epoch_reward c)) halvings.

Definition max_epoch_length : Z := MAX_EPOCH_LENGTH.
Definition min_epoch_length : Z := MIN_EPOCH_LENGTH.
Definition permanent_difficulty (c : Consensus) : bool :=
  Pow_is_dummy (pow c) && permanent_difficulty_in_dummy c.

Definition primary_epoch_reward_of_next_epoch {E} (c : Consensus) (epoch : EpochExt) :
    outcome E Capacity :=
  n ← u64_add (epoch_number epoch) 1;
  r ← u64_rem n (primary_epoch_reward_halving_interval c);
  if negb (r =? 0) then EpochExt_primary_reward epoch else primary_epoch_reward c n.

(** [u.0[0]]: the lowest 64-bit limb. *)
Definition u256_low_u64 (u : Z) : Z := u mod 2 ^ 64.

Section ops.
Context `{NumExt} {E : Type}.

Definition build_genesis_epoch_ext (epoch_reward : Capacity)
    (compact_target genesis_epoch_length epoch_duration_target : Z) : outcome E EpochExt :=
  block_reward ← u64_div (Capacity_as_u64 epoch_reward) genesis_epoch_length;
  remainder_reward ← u64_rem (Capacity_as_u64 epoch_reward) genesis_epoch_length;
  genesis_orphan_count ← u64_div genesis_epoch_length 40;
  d ← compact_to_difficulty compact_target;
  n ← u64_add genesis_epoch_length genesis_orphan_count;
  x ← u256_mul d n;
  genesis_hash_rate ← u256_div x epoch_duration_target;
  Ok (mkEpochExt 0 (Capacity_shannons block_reward) (Capacity_shannons remainder_reward)
        genesis_hash_rate Byte32_zero 0 genesis_epoch_length compact_target).

Definition bounding_hash_rate (last_epoch_hash_rate last_epoch_previous_hash_rate : Z) :
    outcome E Z :=
  if last_epoch_previous_hash_rate =? 0 then Ok last_epoch_hash_rate
  else
    lower_bound ← u256_div last_epoch_previous_hash_rate TAU;
    if last_epoch_hash_rate <? lower_bound then Ok lower_bound
    else
      upper_bound ← u256_mul last_epoch_previous_hash_rate TAU;
      if upper_bound <? last_epoch_hash_rate then Ok upper_bound
      else Ok last_epoch_hash_rate.

Definition bounding_epoch_length (length last_epoch_length : Z) : outcome E (Z * bool) :=
  m ← u64_mul last_epoch_length TAU;
  let max_length := Z.min max_epoch_length m in
  h ← u64_div last_epoch_length TAU;
  let min_length := Z.max min_epoch_length h in
  if max_length <? length then Ok (max_length, true)
  else if length <? min_length then Ok (min_length, true)
  else Ok (length, false).

(** Step (2): the number of main chain blocks of the next epoch, and whether a
    bound decided it. *)
Definition next_epoch_length (c : Consensus) (last_uncles_count last_epoch_length : Z)
    (last_orphan_rate : RationalU256) (last_epoch_duration : Z) : outcome E (Z * bool) :=
  if last_uncles_count =? 0 then
    m ← u64_mul last_epoch_length TAU;
    Ok (Z.min max_epoch_length m, true)
  else
    a ← Rational_add_u256 last_orphan_rate 1;
    n ← Rational_mul (orphan_rate_target c) a;
    n ← Rational_mul_u256 n (epoch_duration_target c);
    numerator ← Rational_mul_u256 n last_epoch_length;
    b ← Rational_add_u256 (orphan_rate_target c) 1;
    d ← Rational_mul last_orphan_rate b;
    denominator ← Rational_mul_u256 d last_epoch_duration;
    q ← Rational_div numerator denominator;
    i ← Rational_into_u256 q;
    bounding_epoch_length (u256_low_u64 i) last_epoch_length.

(** Step (3): the divisor of the next epoch's difficulty. *)
Definition next_diff_denominator (c : Consensus) (next_length : Z) (bound : bool)
    (last_epoch_length : Z) (last_orphan_rate : RationalU256) (last_epoch_duration : Z) :
    outcome E RationalU256 :=
  if bound then
    if Rational_is_zero last_orphan_rate then Rational_new next_length 1
    else
      a ← Rational_add_u256 last_orphan_rate 1;
      n ← Rational_mul_u256 a (epoch_duration_target c);
      n ← Rational_mul_u256 n last_epoch_length;
      d ← Rational_mul_u256 last_orphan_rate last_epoch_duration;
      d ← Rational_mul_u256 d next_length;
      q ← Rational_div n d;
      orphan_rate_estimation_recip ← Rational_saturating_sub_u256 q 1;
      if Rational_is_zero orphan_rate_estimation_recip then
        o ← Rational_add_u256 (orphan_rate_target c) 1;
        Rational_mul_u256 o next_length
      else
        orphan_rate_estimation ← Rational_div Rational_one orphan_rate_estimation_recip;
        o ← Rational_add_u256 orphan_rate_estimation 1;
        Rational_mul_u256 o next_length
  else
    o ← Rational_add_u256 (orphan_rate_target c) 1;
    Rational_mul_u256 o next_length.

Definition next_epoch_ext (c : Consensus) (last_epoch : EpochExt) (header : HeaderView)
    (get_block_header : Byte32 -> option HeaderView) (total_uncles_count : Byte32 -> option Z) :
    outcome E (option EpochExt) :=
  let last_epoch_length := epoch_length last_epoch in
  let header_number := HeaderView_number header in
  x ← u64_add (start_number last_epoch) last_epoch_length;
  last_number ← u64_sub x 1;
  if negb (header_number =? last_number) then Ok None
  else if permanent_difficulty c then
    n ← u64_add (epoch_number last_epoch) 1;
    s ← u64_add header_number 1;
    Ok (Some (mkEpochExt n (base_block_reward last_epoch) (remainder_reward last_epoch)
                (previous_epoch_hash_rate last_epoch) (header_hash header) s last_epoch_length
                (epoch_compact_target last_epoch)))
  else
    match (if EpochExt_is_genesis last_epoch
           then Some (BlockView_header (genesis_block c))
           else get_block_header (last_block_hash_in_previous_epoch last_epoch)) with
    | None => Ok None
    | Some last_block_header_in_previous_epoch =>
        (* (1) the adjusted hash rate estimation *)
        last_difficulty ← HeaderView_difficulty header;
        start_total_uncles_count ←
          expect (total_uncles_count (header_hash last_block_header_in_previous_epoch));
        last_total_uncles_count ← expect (total_uncles_count (header_hash header));
        last_uncles_count ← u64_sub last_total_uncles_count start_total_uncles_count;
        ms ← u64_div (saturating_sub (HeaderView_timestamp header)
                        (HeaderView_timestamp last_block_header_in_previous_epoch))
                     MILLISECONDS_IN_A_SECOND;
        let last_epoch_duration := Z.max ms 1 in
        blocks ← u64_add last_epoch_length last_uncles_count;
        work ← u256_mul last_difficulty blocks;
        last_epoch_hash_rate ← u256_div work last_epoch_duration;
        bounded ← bounding_hash_rate last_epoch_hash_rate (previous_epoch_hash_rate last_epoch);
        let adjusted_last_epoch_hash_rate := Z.max bounded 1 in
        (* (2) the next epoch's main chain block number *)
        last_orphan_rate ← Rational_new last_uncles_count last_epoch_length;
        '(next_length, bound) ←
          next_epoch_length c last_uncles_count last_epoch_length last_orphan_rate
            last_epoch_duration;
        (* (3) the next epoch's difficulty *)
        total ← u256_mul adjusted_last_epoch_hash_rate (epoch_duration_target c);
        diff_numerator ← Rational_new total 1;
        diff_denominator ←
          next_diff_denominator c next_length bound last_epoch_length last_orphan_rate
            last_epoch_duration;
        ord ← Rational_cmp diff_numerator diff_denominator;
        next_epoch_diff ←
          match ord with
          | Gt =>
              q ← Rational_div diff_numerator diff_denominator;
              Rational_into_u256 q
          | _ => Ok 1
          end;
        primary ← primary_epoch_reward_of_next_epoch c last_epoch;
        let primary_epoch_reward := Capacity_as_u64 primary in
        block_reward ← u64_div primary_epoch_reward next_length;
        remainder_reward ← u64_rem primary_epoch_reward next_length;
        n ← u64_add (epoch_number last_epoch) 1;
        s ← u64_add header_number 1;
        compact_target ← difficulty_to_compact next_epoch_diff;
        Ok (Some (mkEpochExt n (Capacity_shannons block_reward)
                    (Capacity_shannons remainder_reward) adjusted_last_epoch_hash_rate
                    (header_hash header) s next_length compact_target))
    end.

End ops.

(** ** The adjustment in closed form

    With [C] blocks and [u] uncles in the last epoch, which took [d] seconds,
    and an epoch meant to take [T] seconds, the orphan rate is [u / C], and the
    rational formulas of the code reduce to quotients of integers. *)

Definition ref_raw_length (C u d T : Z) : Z := (C + u) * T * C / (41 * u * d).

Definition ref_next_length (C u d T : Z) : Z * bool :=
  let max_length := Z.min 1800 (2 * C) in
  let min_length := Z.max 300 (C / 2) in
  if u =? 0 then (max_length, true)
  else
    let raw := ref_raw_length C u d T in
    if max_length <? raw then (max_length, true)
    else if raw <? min_length then (min_length, true)
    else (raw, false).

(** Numerator and denominator of the divisor [(1 + o) * len], where the orphan
    rate [o] is the estimated one if a bound decided the length and the target
    of 1/40 otherwise. *)
Definition ref_divisor (C u d T len : Z) (bound : bool) : Z * Z :=
  let X := (C + u) * T * C in
  let Y := u * d * len in
  if bound then
    if u =? 0 then (len, 1)
    else if X <=? Y then (41 * len, 40)
    else (X * len, X - Y)
  else (41 * len, 40).

Definition ref_difficulty (rate T : Z) (divisor : Z * Z) : Z :=
  Z.max 1 (rate * T * divisor.2 / divisor.1).

Definition ref_hash_rate (D C u d prev : Z) : Z :=
  let rate := D * (C + u) / d in
  Z.max (if prev =? 0 then rate else Z.max (prev / 2) (Z.min rate (2 * prev))) 1.

Section closed_form.
Context {N : NumExt} `{!NumExtSpec N} {E : Type}.

Lemma bounding_hash_rate_ok rate prev :
  0 <= prev < 2 ^ 255 ->
  bounding_hash_rate (E:=E) rate prev =
    Ok (if prev =? 0 then rate else Z.max (prev / 2) (Z.min rate (2 * prev))).
Proof.
  intros Hp. unfold bounding_hash_rate, TAU. destruct (Z.eqb_spec prev 0); [done|].
  rewrite u256_div_Ok by (unfold in_range; lia). simpl.
  assert (prev / 2 <= 2 * prev) by divlia.
  destruct (Z.ltb_spec rate (prev / 2)); [f_equal; lia|].
  rewrite u256_mul_Ok by (unfold in_range; lia). simpl.
  destruct (Z.ltb_spec (prev * 2) rate); f_equal; lia.
Qed.

Lemma bounding_epoch_length_ok len C :
  0 <= C < 2 ^ 63 ->
  bounding_epoch_length (E:=E) len C =
    Ok (let max_length := Z.min 1800 (2 * C) in
        let min_length := Z.max 300 (C / 2) in
        if max_length <? len then (max_length, true)
        else if len <? min_length then (min_length, true)
        else (len, false)).
Proof.
  intros HC. unfold bounding_epoch_length, u64_mul, u64_div, TAU, max_epoch_length,
    min_epoch_length.
  rewrite fit_in_range by zlia. simpl.
  change MAX_EPOCH_LENGTH with 1800. change MIN_EPOCH_LENGTH with 300.
  rewrite (Z.mul_comm C 2).
  destruct (_ <? len); [done|]. by destruct (len <? _).
Qed.

(** The ranges the computation stays in. *)
Record adjust_ranges (c : Consensus) (C u d : Z) : Prop := {
  ar_target : orphan_rate_target c = ORPHAN_RATE_TARGET;
  ar_T : 0 < epoch_duration_target c < 2 ^ 32;
  ar_C : 0 < C <= 1800;
  ar_u : 0 <= u < 2 ^ 16;
  ar_d : 0 < d < 2 ^ 64;
}.

Lemma orphan_target_frac c C u d :
  adjust_ranges c C u d ->
  gives (E:=E) (Rational_add_u256 (orphan_rate_target c) 1) 41 40.
Proof.
  intros [-> _ _ _ _]. apply (frac_add_int _ 1 40); [|zlia..].
  unfold frac; simpl; lia.
Qed.

End closed_form.

(** The divisor with the estimated orphan rate: [(1 + 1/r) * len], where [r] is
    the reciprocal [X*K / (K*Y) - 1] of the estimation. *)
Lemma estimated_divisor_ok {N : NumExt} `{!NumExtSpec N} {E} rc X Y K len :
  0 < X < 2 ^ 65 -> 0 < Y < X -> 0 < K < 2 ^ 16 -> 0 < len <= 1800 ->
  frac rc (X * K - K * Y) (K * Y) ->
  gives (E:=E)
    (oe ← Rational_div Rational_one rc; o ← Rational_add_u256 oe 1; Rational_mul_u256 o len)
    (K * (X * len)) (K * (X - Y)).
Proof.
  intros HX HY HK Hlen Hrc.
  assert (0 < K * Y < 2 ^ 81) as HKY by nia.
  assert (0 < X * K - K * Y < 2 ^ 81) as HKX by nia.
  assert (0 < X * K < 2 ^ 81) as HXK by nia.
  replace (K * (X * len)) with ((1 * (K * Y) + 1 * (X * K - K * Y) * 1) * len) by ring.
  replace (K * (X - Y)) with (1 * (X * K - K * Y)) by ring.
  revert Hrc HKX. generalize (X * K - K * Y) as b. revert HKY. generalize (K * Y) as a.
  intros a Ha b Hrc Hb.
  destruct (frac_div_op (E:=E) Rational_one rc 1 1 b a) as (oe & -> & Hoe);
    [unfold frac; simpl; lia|done|lia..|]. simpl.
  destruct (frac_add_int (E:=E) oe (1 * a) (1 * b) 1) as (o1 & -> & Ho1); [done|zlia..|]. simpl.
  apply frac_mul_int; [done|unfold in_range; nia..].
Qed.

Section steps.
Context {N : NumExt} `{!NumExtSpec N} {E : Type}.
Context (c : Consensus) (C u d : Z) (o : RationalU256).
Hypothesis Hr : adjust_ranges c C u d.
Hypothesis Ho : frac o u C.
Let T := epoch_duration_target c.

Lemma next_epoch_length_ok :
  next_epoch_length (E:=E) c u C o d = Ok (ref_next_length C u d T).
Proof.
  destruct Hr as [Ht HT HC Hu Hd]. fold T in HT. unfold next_epoch_length, ref_next_length.
  destruct (Z.eqb_spec u 0) as [|Hu0].
  { unfold u64_mul, TAU. rewrite fit_in_range by zlia. simpl.
    change max_epoch_length with 1800. by rewrite (Z.mul_comm C). }
  destruct (frac_add_int (E:=E) o u C 1) as (a & -> & Ha); [done|zlia..|]. simpl.
  destruct (frac_mul (E:=E) (orphan_rate_target c) a 1 40 (u + C * 1) C) as (n1 & -> & Hn1);
    [rewrite Ht; unfold frac; simpl; lia|done|nia..|]. simpl.
  fold T.
  destruct (frac_mul_int (E:=E) n1 (1 * (u + C * 1)) (40 * C) T) as (n2 & -> & Hn2);
    [done|unfold in_range; nia..|]. simpl.
  destruct (frac_mul_int (E:=E) n2 (1 * (u + C * 1) * T) (40 * C) C) as (n3 & -> & Hn3);
    [done|unfold in_range; nia..|]. simpl.
  destruct (orphan_target_frac (E:=E) c C u d Hr) as (b & -> & Hb). simpl.
  destruct (frac_mul (E:=E) o b u C 41 40) as (d1 & -> & Hd1); [done|done|nia..|]. simpl.
  destruct (frac_mul_int (E:=E) d1 (u * 41) (C * 40) d) as (d2 & -> & Hd2);
    [done|unfold in_range; nia..|]. simpl.
  assert (0 < (C + u) * T * C < 2 ^ 65) as HX by nia.
  assert (0 < u * 41 * d < 2 ^ 86) as HY by nia.
  replace (1 * (u + C * 1) * T * C) with ((C + u) * T * C) in Hn3 by ring.
  destruct (frac_div_op (E:=E) n3 d2 ((C + u) * T * C) (40 * C) (u * 41 * d) (C * 40))
    as (q & -> & Hq); [done|done|nia..|]. simpl.
  rewrite (frac_into_u256 q _ _ Hq) by nia. simpl.
  replace ((C + u) * T * C * (C * 40)) with ((40 * C) * ((C + u) * T * C)) by ring.
  rewrite Z.div_mul_cancel_l by nia. replace (u * 41 * d) with (41 * u * d) by ring.
  fold (ref_raw_length C u d T).
  assert (0 <= ref_raw_length C u d T < 2 ^ 64) as Hraw.
  { unfold ref_raw_length. split; [apply Z.div_pos; nia|]. apply Z.div_lt_upper_bound; [nia|].
    assert ((C + u) * T * C <= (C + 1) * T * C * u) by nia.
    assert ((C + 1) * T * C < 2 ^ 64 * 41) by nia. nia. }
  unfold u256_low_u64. rewrite Z.mod_small by done. by rewrite bounding_epoch_length_ok by lia.
Qed.

(** The divisor with the target orphan rate. *)
Lemma ideal_divisor_ok len :
  0 < len <= 1800 ->
  gives (E:=E) (b ← Rational_add_u256 (orphan_rate_target c) 1; Rational_mul_u256 b len)
    (1 * (41 * len)) (1 * 40).
Proof.
  intros Hlen. destruct (orphan_target_frac (E:=E) c C u d Hr) as (b & -> & Hb).
  rewrite !Z.mul_1_l. simpl. apply frac_mul_int; [done|zlia..].
Qed.

Lemma divisor_ranges len bound :
  0 < len <= 1800 ->
  0 < (ref_divisor C u d T len bound).1 < 2 ^ 96 /\
  0 < (ref_divisor C u d T len bound).2 < 2 ^ 66.
Proof.
  intros Hlen. destruct Hr as [Ht HT HC Hu Hd]. fold T in HT. unfold ref_divisor.
  assert (0 < (C + u) * T * C < 2 ^ 65) by nia. assert (0 <= u * d * len) by nia.
  destruct bound; [|simpl; lia]. destruct (Z.eqb_spec u 0); [simpl; lia|].
  destruct (Z.leb_spec ((C + u) * T * C) (u * d * len)); simpl; [lia|]. split; nia.
Qed.

(** A positive multiple of the closed form: the code does not cancel the factor [C]. *)
Lemma next_diff_denominator_ok len bound :
  0 < len <= 1800 ->
  exists k, 0 < k <= C /\
    gives (E:=E) (next_diff_denominator c len bound C o d)
      (k * (ref_divisor C u d T len bound).1) (k * (ref_divisor C u d T len bound).2).
Proof.
  intros Hlen. destruct Hr as [Ht HT HC Hu Hd]. fold T in HT.
  pose proof (ideal_divisor_ok len Hlen) as Hideal.
  assert (0 <= u * d < 2 ^ 80) as Hud by nia.
  unfold next_diff_denominator, ref_divisor. destruct bound; simpl; [|exists 1; split; [lia|done]].
  unfold Rational_is_zero. pose proof (frac_zero _ _ _ Ho) as Hz.
  destruct (Z.eqb_spec u 0) as [Hu0|Hu0].
  { exists 1. destruct (Z.eqb_spec (numer o) 0) as [|Hno]; [|by destruct Hno; apply Hz].
    split; [lia|]. simpl. rewrite !Z.mul_1_l. apply frac_new; zlia. }
  destruct (Z.eqb_spec (numer o) 0) as [Hno|Hno]; [by apply Hz in Hno|]. simpl.
  destruct (frac_add_int (E:=E) o u C 1) as (a & -> & Ha); [done|zlia..|]. simpl. fold T.
  destruct (frac_mul_int (E:=E) a (u + C * 1) C T) as (n1 & -> & Hn1);
    [done|unfold in_range; nia..|]. simpl.
  destruct (frac_mul_int (E:=E) n1 ((u + C * 1) * T) C C) as (n2 & -> & Hn2);
    [done|unfold in_range; nia..|]. simpl.
  destruct (frac_mul_int (E:=E) o u C d) as (d1 & -> & Hd1); [done|unfold in_range; nia..|].
  simpl.
  destruct (frac_mul_int (E:=E) d1 (u * d) C len) as (d2 & -> & Hd2);
    [done|unfold in_range; nia..|]. simpl.
  replace ((u + C * 1) * T * C) with ((C + u) * T * C) in Hn2 by ring.
  set (X := (C + u) * T * C) in *. set (Y := u * d * len) in *.
  assert (0 < X < 2 ^ 65) as HX by (subst X; nia).
  assert (0 < Y < 2 ^ 92) as HY by (subst Y; nia).
  destruct (frac_div_op (E:=E) n2 d2 X C Y C) as (q & -> & Hq); [done|done|nia..|]. simpl.
  destruct (frac_saturating_sub_int (E:=E) q (X * C) (C * Y) 1) as (rc & -> & Hrc);
    [done|unfold in_range; nia..|]. simpl.
  pose proof (frac_zero _ _ _ Hrc) as Hz'.
  destruct (Z.leb_spec X Y).
  - destruct (Z.eqb_spec (numer rc) 0) as [|Hrc0]; [|exfalso; apply Hrc0, Hz'; nia].
    exists 1. split; [lia|done].
  - destruct (Z.eqb_spec (numer rc) 0) as [E0|_]; [exfalso; apply Hz' in E0; nia|].
    rewrite Z.max_r in Hrc by nia.
    rewrite Z.mul_1_r in Hrc. exists C. split; [lia|]. apply estimated_divisor_ok; [done|lia|lia|done|done].
Qed.

End steps.

(** ** The next epoch *)

(** What [next_epoch_ext] reads, and the ranges of the values: the header is the
    last of the epoch; [ph] is the last header of the epoch before, whose hash
    the epoch records; [u] uncles were included since; [R] is the primary reward
    of the next epoch. *)
Record adjust_inputs {N : NumExt} (c : Consensus) (e : EpochExt) (header ph : HeaderView)
    (get_block_header : Byte32 -> option HeaderView) (total_uncles_count : Byte32 -> option Z)
    (u0 u D R : Z) : Prop := {
  ai_adjust : permanent_difficulty c = false;
  ai_previous : (if EpochExt_is_genesis e then Some (BlockView_header (genesis_block c))
                 else get_block_header (last_block_hash_in_previous_epoch e)) = Some ph;
  ai_start_uncles : total_uncles_count (header_hash ph) = Some u0;
  ai_last_uncles : total_uncles_count (header_hash header) = Some (u0 + u);
  ai_difficulty : HeaderView_difficulty (E:=Error) header = Ok D;
  ai_reward : primary_epoch_reward_of_next_epoch (E:=Error) c e = Ok R;
  ai_target : orphan_rate_target c = ORPHAN_RATE_TARGET;
  ai_T : 0 < epoch_duration_target c < 2 ^ 32;
  ai_length : 0 < epoch_length e <= 1800;
  ai_start : 0 <= start_number e < 2 ^ 63;
  ai_last : HeaderView_number header = start_number e + epoch_length e - 1;
  ai_number : 0 <= epoch_number e < 2 ^ 63;
  ai_u0 : 0 <= u0;
  ai_u : 0 <= u < 2 ^ 16;
  ai_timestamps : is_u64 (HeaderView_timestamp header) /\ is_u64 (HeaderView_timestamp ph);
  ai_D : 0 <= D < 2 ^ 112;
  ai_prev : 0 <= previous_epoch_hash_rate e < 2 ^ 128;
  ai_R : is_u64 R;
}.

(** The duration of the last epoch in seconds, at least one. *)
Definition epoch_duration (header ph : HeaderView) : Z :=
  Z.max (saturating_sub (HeaderView_timestamp header) (HeaderView_timestamp ph) / 1000) 1.

Lemma ref_next_length_range C u d T :
  0 < C <= 1800 ->
  0 < (ref_next_length C u d T).1 <= 1800 /\
  (300 <= C ->
   Z.max 300 (C / 2) <= (ref_next_length C u d T).1 <= Z.min 1800 (2 * C)).
Proof.
  intros HC. assert (0 <= C / 2 <= 900 /\ C / 2 <= C) by divlia. unfold ref_next_length.
  destruct (u =? 0); simpl; [lia|].
  destruct (Z.ltb_spec (Z.min 1800 (2 * C)) (ref_raw_length C u d T)); simpl; [lia|].
  destruct (Z.ltb_spec (ref_raw_length C u d T) (Z.max 300 (C / 2))); simpl; lia.
Qed.

Lemma ref_hash_rate_range D C u d prev :
  0 <= D < 2 ^ 112 -> 0 < C <= 1800 -> 0 <= u < 2 ^ 16 -> 0 < d -> 0 <= prev < 2 ^ 128 ->
  0 <= D * (C + u) < 2 ^ 130 /\ 0 <= D * (C + u) / d < 2 ^ 130 /\
  1 <= ref_hash_rate D C u d prev < 2 ^ 130.
Proof.
  intros ? ? ? ? ?. assert (0 <= D * (C + u) < 2 ^ 130) by nia.
  assert (0 <= D * (C + u) / d < 2 ^ 130).
  { split; [apply Z.div_pos; lia|]. apply Z.div_lt_upper_bound; nia. }
  split_and!; try lia; unfold ref_hash_rate; destruct (prev =? 0); try lia.
  assert (prev / 2 <= prev) by divlia. lia.
Qed.

(** Step (3) on fractions. *)
Lemma next_difficulty_ok {N : NumExt} `{!NumExtSpec N} {E} dn dd total k n m :
  frac dn total 1 -> frac dd (k * n) (k * m) -> 0 <= total < 2 ^ 162 -> 0 < k <= 1800 ->
  0 < n < 2 ^ 96 -> 0 < m < 2 ^ 66 ->
  (ord ← Rational_cmp dn dd;
   match ord with
   | Gt => q ← Rational_div dn dd; Rational_into_u256 q
   | _ => Ok 1
   end) = Ok (E:=E) (Z.max 1 (total * m / n)) /\ Z.max 1 (total * m / n) < 2 ^ 256.
Proof.
  intros Hdn Hdd Ht Hk Hn Hm.
  assert (0 < k * n < 2 ^ 107) by nia. assert (0 < k * m < 2 ^ 77) by nia.
  assert (0 <= total * (k * m) < 2 ^ 239) by nia.
  rewrite (frac_cmp dn dd total 1 (k * n) (k * m)) by (done || lia). simpl.
  destruct (Z.compare_spec (total * (k * m)) (k * n * 1)) as [?|?|Hgt]; split.
  1,3: f_equal; assert (total * m / n < 2) by (apply Z.div_lt_upper_bound; nia); lia.
  1,2: assert (total * m / n < 2) by (apply Z.div_lt_upper_bound; nia); lia.
  - destruct (frac_div_op (E:=E) dn dd total 1 (k * n) (k * m)) as (q & -> & Hq);
      [done|done|lia..|]. simpl.
    rewrite (frac_into_u256 q _ _ Hq) by lia. f_equal.
    replace (total * (k * m)) with (k * (total * m)) by ring. rewrite Z.mul_1_l.
    rewrite Z.div_mul_cancel_l by lia.
    assert (1 <= total * m / n) by (apply Z.div_le_lower_bound; nia). lia.
  - assert (total * m / n < 2 ^ 239) by (apply Z.div_lt_upper_bound; nia). lia.
Qed.

Section next_epoch.
Context {N : NumExt} `{!NumExtSpec N}.
Context (c : Consensus) (e : EpochExt) (header ph : HeaderView).
Context (get_block_header : Byte32 -> option HeaderView).
Context (total_uncles_count : Byte32 -> option Z) (u0 u D R : Z).
Hypothesis Hin :
  adjust_inputs c e header ph get_block_header total_uncles_count u0 u D R.
Let C := epoch_length e.
Let T := epoch_duration_target c.
Let d := epoch_duration header ph.
Let len := (ref_next_length C u d T).1.
Let bound := (ref_next_length C u d T).2.
Let rate := ref_hash_rate D C u d (previous_epoch_hash_rate e).
Let difficulty := ref_difficulty rate T (ref_divisor C u d T len bound).

Lemma epoch_duration_range : 0 < d < 2 ^ 64.
Proof.
  destruct (ai_timestamps _ _ _ _ _ _ _ _ _ _ Hin) as [[? ?] [? ?]].
  unfold d, epoch_duration, saturating_sub.
  assert (Z.max 0 (HeaderView_timestamp header - HeaderView_timestamp ph) / 1000 < 2 ^ 64)
    by (apply Z.div_lt_upper_bound; lia). lia.
Qed.

Lemma next_epoch_ext_ok :
  exists compact,
    difficulty_to_compact (E:=Error) difficulty = Ok compact /\ 1 <= difficulty < 2 ^ 256 /\
    next_epoch_ext (E:=Error) c e header get_block_header total_uncles_count =
      Ok (Some (mkEpochExt (epoch_number e + 1) (R / len) (R mod len) rate (header_hash header)
                  (HeaderView_number header + 1) len compact)).
Proof.
  pose proof epoch_duration_range as Hd. destruct Hin.
  assert (adjust_ranges c C u d) as Har by by constructor.
  destruct (ref_next_length_range C u d T) as [Hlen _]; [done|]. fold len in Hlen.
  destruct (ref_hash_rate_range D C u d (previous_epoch_hash_rate e))
    as (Hwork & Hraw & Hrate); [done|done|done|lia|done|]. fold rate in Hrate.
  destruct (divisor_ranges c C u d Har len bound Hlen) as [Hn Hm].
  unfold next_epoch_ext, u64_add, u64_sub, u64_div, u64_rem. cbv zeta.
  fold C. rewrite (fit_in_range 64 (start_number e + C)) by (subst C; zlia). step.
  rewrite (fit_in_range 64 (start_number e + C - 1)) by (subst C; zlia). step. fold C in ai_last0.
  rewrite (proj2 (Z.eqb_eq _ _) ai_last0). cbn [negb].
  rewrite ai_adjust0, ai_previous0, ai_difficulty0. step.
  rewrite ai_start_uncles0, ai_last_uncles0. step.
  replace (u0 + u - u0) with u by lia. rewrite (fit_in_range 64 u) by zlia. step.
  change (MILLISECONDS_IN_A_SECOND =? 0) with false. step.
  change (Z.max (saturating_sub (HeaderView_timestamp header) (HeaderView_timestamp ph) /
    MILLISECONDS_IN_A_SECOND) 1) with d. rewrite (fit_in_range 64 (C + u)) by (subst C; zlia). step.
  rewrite u256_mul_Ok by (unfold in_range; lia). step.
  rewrite u256_div_Ok by (unfold in_range; lia). step.
  rewrite bounding_hash_rate_ok by lia. step.
  change (Z.max (if previous_epoch_hash_rate e =? 0 then _ else _) 1) with rate.
  destruct (frac_new (E:=Error) u C) as (o & -> & Ho); [zlia|subst C; lia|]. step.
  rewrite (next_epoch_length_ok c C u d o Har Ho). step.
  fold T. rewrite (surjective_pairing (ref_next_length C u d T)). fold len bound. step.
  assert (0 <= rate * T < 2 ^ 162) as Htot by (subst T; nia).
  rewrite u256_mul_Ok by (unfold in_range; subst T; lia). step.
  destruct (frac_new (E:=Error) (rate * T) 1) as (dn & -> & Hdn); [zlia|lia|]. step.
  destruct (next_diff_denominator_ok (E:=Error) c C u d o Har Ho len bound Hlen)
    as (k & Hk & dd & -> & Hdd). step.
  destruct (next_difficulty_ok (E:=Error) dn dd (rate * T) k _ _ Hdn Hdd) as [Hdiff Hlt];
    [done|subst C; lia|done|done|].
  change (Z.max 1 (rate * T * _ / _)) with difficulty in Hdiff, Hlt.
  assert (1 <= difficulty) by apply Z.le_max_l.
  destruct (difficulty_to_compact_sound (E:=Error) difficulty) as (compact & _ & Hc & _);
    [lia|].
  exists compact. split; [done|]. split; [lia|].
  destruct (Rational_cmp dn dd) as [ord| |]; cbn [mbind outcome_bind] in Hdiff |- *; [|done..].
  rewrite Hdiff. step. rewrite ai_reward0. step.
  unfold Capacity_as_u64, Capacity_shannons.
  destruct (Z.eqb_spec len 0); [lia|]. step.
  rewrite fit_in_range by zlia. step. rewrite fit_in_range by (subst C; zlia). step.
  by rewrite Hc.
Qed.

(** C15: at the last block of an epoch, [next_epoch_ext] returns the next epoch, and
    its fields are those of the closed formulas: the length
    [(C+u)TC / 41ud] clamped to the bounds, the damped hash rate, the difficulty
    [rate * T / ((1 + o) * len)] (at least one) and the shares of the reward.
    No rational operation overflows, divides by zero or loses precision. *)
Theorem next_epoch_ext_formula :
  exists compact,
    difficulty_to_compact (E:=Error) difficulty = Ok compact /\
    next_epoch_ext (E:=Error) c e header get_block_header total_uncles_count =
      Ok (Some (mkEpochExt (epoch_number e + 1) (R / len) (R mod len) rate (header_hash header)
                  (HeaderView_number header + 1) len compact)).
Proof. destruct next_epoch_ext_ok as (compact & ? & _ & ?). by exists compact. Qed.

(** C16: the epoch that follows an epoch of a legal length starts right after it,
    is well formed, has a legal length within a factor of two of the last one,
    pays exactly the primary reward of the next epoch, records a hash rate
    within a factor of two of the recorded one, and its compact target is a
    target at least as hard as the difficulty computed. *)
Theorem next_epoch_ext_bounds :
  300 <= epoch_length e ->
  exists e',
    next_epoch_ext (E:=Error) c e header get_block_header total_uncles_count = Ok (Some e') /\
    epoch_wf e' /\ epoch_number e' = epoch_number e + 1 /\
    start_number e' = start_number e + epoch_length e /\
    300 <= epoch_length e' <= 1800 /\
    epoch_length e / 2 <= epoch_length e' <= 2 * epoch_length e /\
    EpochExt_primary_reward (E:=Error) e' = Ok R /\
    (0 < previous_epoch_hash_rate e ->
       previous_epoch_hash_rate e / 2 <= previous_epoch_hash_rate e'
         <= 2 * previous_epoch_hash_rate e) /\
    (exists d', compact_to_difficulty (E:=Error) (epoch_compact_target e') = Ok d' /\
       1 <= difficulty <= d').
Proof.
  intros H300. destruct next_epoch_ext_ok as (compact & Hc & Hdiff & ->).
  destruct Hin. destruct (ref_next_length_range C u d T) as [Hpos Hlen]; [done|].
  specialize (Hlen H300). fold len in Hlen, Hpos. subst C.
  destruct (difficulty_to_compact_sound (E:=Error) difficulty) as (c' & d' & Hc' & _ & Hd' & ?);
    [lia|]. rewrite Hc in Hc'. injection Hc' as <-.
  assert (R = R / len * len + R mod len) as HR by (rewrite Z.mul_comm; apply Z.div_mod; lia).
  assert (0 <= R mod len < len) by (apply Z.mod_pos_bound; lia).
  assert (0 <= R / len) by (apply Z.div_pos; zlia).
  assert (epoch_wf (mkEpochExt (epoch_number e + 1) (R / len) (R mod len) rate
    (header_hash header) (HeaderView_number header + 1) len compact)) as Hwf.
  { unfold epoch_wf; simpl. zlia. }
  eexists. split; [done|]. split; [done|].
  rewrite EpochExt_primary_reward_ok by done. simpl. rewrite <- HR.
  split_and!; try lia.
  - done.
  - unfold rate, ref_hash_rate. intros Hp.
    destruct (Z.eqb_spec (previous_epoch_hash_rate e) 0); [lia|].
    assert (previous_epoch_hash_rate e / 2 <= previous_epoch_hash_rate e) by divlia. lia.
  - exists d'. split; [done|lia].
Qed.
End next_epoch.

(** *** A concrete adjustment: the genesis epoch of 1000 blocks, 25 uncles, 4 hours *)
Definition sample_raw_header (number timestamp target : Z) : RawHeader :=
  mkRawHeader 0 target timestamp number 0 zero32 zero32 zero32 zero32 zero32.
Definition sample_header (number timestamp target : Z) (hash : Byte32) : HeaderView :=
  mkHeaderView (mkHeader (sample_raw_header number timestamp target) 0) hash.
Definition sample_genesis : BlockView :=
  mkBlockView (mkBlock (header_data (sample_header 0 0 0x1d080000 [])) [] [] []) [0] [] [] [].
Definition sample_epoch : EpochExt := mkEpochExt 0 191780821917 808 2390000 [] 0 1000 0x1d080000.
Definition sample_consensus : Consensus :=
  let c := ConsensusBuilder_new sample_genesis sample_epoch in
  mkConsensus (id c) (genesis_block c) (genesis_hash c) None None None
    (initial_primary_epoch_reward c) (secondary_epoch_reward c) (max_uncles_num c)
    (orphan_rate_target c) (epoch_duration_target c) (tx_proposal_window c)
    (proposer_reward_ratio c) Eaglesong (cellbase_maturity c) (median_time_block_count c)
    (max_block_cycles c) (max_block_bytes c) (block_version c) (consensus_tx_version c)
    (type_id_code_hash c) (max_block_proposals_limit c) (genesis_epoch_ext c)
    (satoshi_pubkey_hash c) (satoshi_cell_occupied_ratio c)
    (primary_epoch_reward_halving_interval c) (permanent_difficulty_in_dummy c).
Definition sample_last : HeaderView := sample_header 999 14400000 0x1d080000 [9].
Definition sample_uncles (h : Byte32) : option Z := Some (if decide (h = [9]) then 25 else 0).

Lemma sample_inputs :
  @adjust_inputs numext_ref sample_consensus sample_epoch sample_last
    (BlockView_header sample_genesis) (fun _ => None) sample_uncles 0 25 0x20000000
    191780821917808.
Proof. constructor; unfold in_range; by vm_compute. Qed.

Lemma next_epoch_ext_formula_witness :
  exists compact,
    @next_epoch_ext numext_ref Error sample_consensus sample_epoch sample_last (fun _ => None)
      sample_uncles = Ok (Some (mkEpochExt 1 191780821917 808 4780000
                                  [9] 1000 1000 compact)).
Proof.
  destruct (@next_epoch_ext_formula numext_ref numext_ref_spec _ _ _ _ _ _ _ _ _ _ sample_inputs)
    as (compact & _ & ->).
  exists compact. vm_compute. done.
Defined.

Lemma next_epoch_ext_bounds_witness :
  exists e',
    @next_epoch_ext numext_ref Error sample_consensus sample_epoch sample_last (fun _ => None)
      sample_uncles = Ok (Some e') /\ 300 <= epoch_length e' <= 1800.
Proof.
  destruct (@next_epoch_ext_bounds numext_ref numext_ref_spec _ _ _ _ _ _ _ _ _ _ sample_inputs)
    as (e' & He & _ & _ & _ & Hl & _); [by vm_compute|].
  exists e'. exact (conj He Hl).
Defined.

(** ** The halving schedule *)

Section schedule.
Context {N : NumExt} (c : Consensus).

(** The epochs of a chain: the genesis epoch, and whatever [next_epoch_ext]
    computes after one of them, from any headers and uncle counts. *)
Inductive epoch_chain : EpochExt -> Prop :=
| epoch_chain_genesis e :
    epoch_number e = 0 -> 0 < epoch_length e ->
    EpochExt_primary_reward (E:=Error) e = Ok (initial_primary_epoch_reward c) ->
    epoch_chain e
| epoch_chain_next e header get_block_header total_uncles_count e' :
    epoch_chain e ->
    next_epoch_ext (E:=Error) c e header get_block_header total_uncles_count = Ok (Some e') ->
    epoch_chain e'.

Lemma next_epoch_length_nonneg u C o d len bound :
  next_epoch_length (E:=Error) c u C o d = Ok (len, bound) -> 0 <= len.
Proof.
  unfold next_epoch_length, bounding_epoch_length, max_epoch_length, min_epoch_length.
  change MAX_EPOCH_LENGTH with 1800. change MIN_EPOCH_LENGTH with 300. intros Hn.
  destruct (u =? 0).
  - inv_ok. zlia.
  - inv_ok. repeat case_match; simplify_eq; reflect_bools; zlia.
Qed.

Lemma next_epoch_ext_inv e header gh tu e' :
  permanent_difficulty c = false ->
  next_epoch_ext (E:=Error) c e header gh tu = Ok (Some e') ->
  exists R, primary_epoch_reward_of_next_epoch (E:=Error) c e = Ok R /\
    0 < epoch_length e' /\
    base_block_reward e' = R / epoch_length e' /\ remainder_reward e' = R mod epoch_length e' /\
    epoch_number e' = epoch_number e + 1 /\ is_u64 (epoch_number e + 1) /\
    start_number e' = start_number e + epoch_length e.
Proof.
  intros Hp Hn. unfold next_epoch_ext in Hn. cbv zeta in Hn. rewrite Hp in Hn.
  inv_ok_step. inv_ok_step. destruct (negb _) eqn:Eh; [done|]. reflect_bools.
  destruct (if EpochExt_is_genesis e then _ else _); [|done].
  repeat (inv_ok_step; cbv beta zeta iota in * ).
  match goal with H : (let '(_, _) := ?x in _) = _ |- _ => destruct x as [len bound] end.
  match goal with H : next_epoch_length _ _ _ _ _ = _ |- _ =>
    apply next_epoch_length_nonneg in H end.
  inv_ok. eexists. split; [done|]. simpl. unfold Capacity_shannons, Capacity_as_u64 in *.
  split_and!; try done; lia.
Qed.

Lemma shares_primary_reward {E} e R :
  0 < epoch_length e -> is_u64 R ->
  base_block_reward e = R / epoch_length e -> remainder_reward e = R mod epoch_length e ->
  EpochExt_primary_reward (E:=E) e = Ok R.
Proof.
  intros Hl HR Hb Hm. unfold EpochExt_primary_reward, u64_mul, u64_add, Capacity_as_u64,
    Capacity_shannons. rewrite Hb, Hm.
  assert (0 <= R mod epoch_length e < epoch_length e) by (apply Z.mod_pos_bound; lia).
  assert (R = R / epoch_length e * epoch_length e + R mod epoch_length e) as HR'
    by (rewrite Z.mul_comm; apply Z.div_mod; lia).
  assert (0 <= R / epoch_length e) by (apply Z.div_pos; zlia).
  rewrite fit_in_range by (unfold in_range in *; nia). step. rewrite <- HR'.
  by rewrite fit_in_range.
Qed.

(** Consecutive epoch numbers are in the same halving period unless the second
    is a multiple of the interval. *)
Lemma same_halving n k : 0 < k -> 0 <= n -> (n + 1) mod k <> 0 -> (n + 1) / k = n / k.
Proof.
  intros Hk Hn Hm. apply (Z.div_unique n k ((n + 1) / k) ((n + 1) mod k - 1)).
  - pose proof (Z.mod_pos_bound (n + 1) k). lia.
  - pose proof (Z.div_mod (n + 1) k). lia.
Qed.

Lemma shiftr_u64 x s : is_u64 x -> 0 <= s -> is_u64 (Z.shiftr x s).
Proof.
  intros [Hx Hx'] Hs. rewrite shiftr_div by done. unfold in_range.
  assert (1 <= 2 ^ s) by (apply (Z.pow_le_mono_r 2 0 s); lia).
  split; [apply Z.div_pos; lia|]. apply Z.div_lt_upper_bound; nia.
Qed.

(** The schedule: the initial reward, halved once per interval. *)
Definition scheduled_reward (n : Z) : Z :=
  Z.shiftr (initial_primary_epoch_reward c) (n / primary_epoch_reward_halving_interval c).

Lemma next_reward_scheduled e R :
  0 < primary_epoch_reward_halving_interval c -> 0 <= epoch_number e ->
  EpochExt_primary_reward (E:=Error) e = Ok (scheduled_reward (epoch_number e)) ->
  primary_epoch_reward_of_next_epoch (E:=Error) c e = Ok R ->
  R = scheduled_reward (epoch_number e + 1).
Proof.
  intros Hk Hn He HR. unfold primary_epoch_reward_of_next_epoch in HR.
  apply bind_Ok in HR as (n & Hn' & (r & Hr & HR)%bind_Ok).
  apply fit_Ok in Hn' as [-> _]. apply u64_rem_Ok in Hr as [_ ->].
  destruct (negb _) eqn:Em; reflect_bools.
  - rewrite He in HR. injection HR as <-. unfold scheduled_reward. by rewrite same_halving.
  - unfold primary_epoch_reward, u64_shr in HR. inv_ok. destruct (_ <? 64); by inv_ok.
Qed.

(** The primary reward of epoch [n] is the initial reward halved
    [n / halving_interval] times, on every chain of epochs the code computes and
    whatever the lengths of its epochs are. *)
Theorem primary_reward_schedule e :
  permanent_difficulty c = false -> 0 < primary_epoch_reward_halving_interval c ->
  is_u64 (initial_primary_epoch_reward c) ->
  epoch_chain e ->
  EpochExt_primary_reward (E:=Error) e = Ok (scheduled_reward (epoch_number e)).
Proof.
  intros Hp Hk Hi He.
  enough (0 <= epoch_number e /\
          EpochExt_primary_reward (E:=Error) e = Ok (scheduled_reward (epoch_number e))) by tauto.
  induction He as [e Hn Hl He|e header gh tu e' _ [IHn IH] Hnext].
  - rewrite Hn. split; [lia|]. rewrite He. unfold scheduled_reward.
    by rewrite Z.div_0_l, Z.shiftr_0_r by lia.
  - destruct (next_epoch_ext_inv _ _ _ _ _ Hp Hnext) as (R & HR & ? & ? & ? & -> & ? & _).
    apply next_reward_scheduled in HR as ->; [|done..]. split; [zlia|].
    apply shares_primary_reward; [done| |done|done].
    apply shiftr_u64; [done|apply Z.div_pos; zlia].
Qed.
End schedule.

Lemma primary_reward_schedule_witness :
  exists e', epoch_number e' = 1 /\
    EpochExt_primary_reward (E:=Error) e' =
      Ok (scheduled_reward sample_consensus (epoch_number e')).
Proof.
  assert (@epoch_chain numext_ref sample_consensus sample_epoch) as Hg
    by (apply epoch_chain_genesis; by vm_compute).
  assert (is_u64 (initial_primary_epoch_reward sample_consensus)) as Hi
    by (unfold in_range; by vm_compute).
  eassert (@next_epoch_ext numext_ref Error sample_consensus sample_epoch sample_last
    (fun _ => None) sample_uncles = Ok (Some _)) as Hnext by (vm_compute; reflexivity).
  eexists. split; [|exact (@primary_reward_schedule numext_ref sample_consensus _
    eq_refl eq_refl Hi (@epoch_chain_next numext_ref sample_consensus _ _ _ _ _ Hg Hnext))].
  reflexivity.
Defined.
