(* ===== verification/Hashes.v ===== *)
(** * Hashes and proof of work: src/util/hash/src/lib.rs, src/util/types/src/extension/calc_hash.rs,
    src/util/types/src/utilities/merkle_tree.rs, [into_view] of src/util/types/src/core/views.rs,
    [reset_header] of src/util/types/src/extension/shortcuts.rs, src/pow/src

    The hash functions themselves are third-party code and parameters of the
    model: the class [Hasher] has blake2b (with CKB's personalization, over all
    the bytes given to [update]), the root of merkle-cbt's complete binary
    Merkle tree, and eaglesong.  What is hashed, and in which order, is modelled. *)

From S2P Require Import Prelude Capacity NumExt Difficulty Types Molecule BlockCodec Errors Epoch.
From S2P Require Import Cell Consensus.

Class Hasher := {
  blake2b : bytes -> Byte32;
  build_merkle_root : list Byte32 -> Byte32;
  eaglesong : bytes -> bytes;
}.
(** The digests have 32 bytes. *)
Class HasherSpec (H : Hasher) : Prop := {
  blake2b_length s : length (blake2b s) = 32%nat;
  blake2b_bytes s : Forall is_u8 (blake2b s);
}.

Definition BLANK_HASH : Byte32 :=
  [68; 244; 198; 151; 68; 213; 248; 197; 93; 100; 32; 98; 148; 157; 202; 228; 155; 196; 231; 239;
   67; 211; 136; 197; 161; 47; 66; 181; 99; 61; 22; 62].

Section hashes.
Context `{Hasher}.

Definition blake2b_256 (s : bytes) : Byte32 :=
  match s with [] => BLANK_HASH | _ => blake2b s end.

(** ** [CalcHash] and the special hashes *)

Definition calc_hash {A} (C : Codec A) (a : A) : Byte32 := blake2b_256 (as_slice a).

Definition CellOutput_calc_data_hash (data : bytes) : Byte32 :=
  match data with [] => Byte32_zero | _ => blake2b_256 data end.
Definition Script_calc_script_hash (s : Script) : Byte32 := calc_hash Script_codec s.
Definition CellOutput_calc_lock_hash (o : CellOutput) : Byte32 := Script_calc_script_hash (lock o).
Definition ProposalShortIdVec_calc_proposals_hash (ids : list ProposalShortId) : Byte32 :=
  match ids with [] => Byte32_zero | _ => blake2b (concat ids) end.
Definition Transaction_calc_tx_hash (tx : Transaction) : Byte32 :=
  calc_hash RawTransaction_codec (tx_raw tx).
Definition Transaction_calc_witness_hash (tx : Transaction) : Byte32 :=
  calc_hash Transaction_codec tx.
Definition RawHeader_calc_pow_hash (h : RawHeader) : Byte32 := calc_hash RawHeader_codec h.
Definition Header_calc_pow_hash (h : Header) : Byte32 := RawHeader_calc_pow_hash (header_raw h).
Definition Header_calc_header_hash (h : Header) : Byte32 := calc_hash Header_codec h.
Definition UncleBlock_calc_header_hash (u : UncleBlock) : Byte32 :=
  Header_calc_header_hash (uncle_header u).
Definition UncleBlock_calc_proposals_hash (u : UncleBlock) : Byte32 :=
  ProposalShortIdVec_calc_proposals_hash (uncle_proposals u).
Definition UncleBlockVec_calc_uncles_hash (us : list UncleBlock) : Byte32 :=
  match us with [] => Byte32_zero | _ => blake2b (concat (UncleBlock_calc_header_hash <$> us)) end.
Definition Block_calc_header_hash (b : Block) : Byte32 := Header_calc_header_hash (block_header b).
Definition Block_calc_proposals_hash (b : Block) : Byte32 :=
  ProposalShortIdVec_calc_proposals_hash (block_proposals b).
Definition Block_calc_uncles_hash (b : Block) : Byte32 :=
  UncleBlockVec_calc_uncles_hash (block_uncles b).
Definition Block_calc_tx_hashes (b : Block) : list Byte32 :=
  Transaction_calc_tx_hash <$> block_transactions b.
Definition Block_calc_tx_witness_hashes (b : Block) : list Byte32 :=
  Transaction_calc_witness_hash <$> block_transactions b.

Definition merkle_root (leaves : list Byte32) : Byte32 := build_merkle_root leaves.
Definition calc_raw_transactions_root (b : BlockView) : Byte32 := merkle_root (block_tx_hashes b).
Definition calc_witnesses_root (b : BlockView) : Byte32 := merkle_root (block_tx_witness_hashes b).
Definition BlockView_calc_transactions_root (b : BlockView) : Byte32 :=
  merkle_root [calc_raw_transactions_root b; calc_witnesses_root b].
Definition BlockView_calc_proposals_hash (b : BlockView) : Byte32 :=
  Block_calc_proposals_hash (block_data b).
Definition BlockView_calc_uncles_hash (b : BlockView) : Byte32 :=
  Block_calc_uncles_hash (block_data b).

(** ** Views *)

Definition Transaction_into_view (tx : Transaction) : TransactionView :=
  mkTransactionView tx (Transaction_calc_tx_hash tx) (Transaction_calc_witness_hash tx).
Definition Header_into_view (h : Header) : HeaderView :=
  mkHeaderView h (Header_calc_header_hash h).
Definition UncleBlock_into_view (u : UncleBlock) : UncleBlockView :=
  mkUncleBlockView u (UncleBlock_calc_header_hash u).

Definition reset_header_with_hashes (b : Block) (tx_hashes tx_witness_hashes : list Byte32) :
    Block :=
  let raw_transactions_root := merkle_root tx_hashes in
  let witnesses_root := merkle_root tx_witness_hashes in
  let transactions_root := merkle_root [raw_transactions_root; witnesses_root] in
  let proposals_hash := Block_calc_proposals_hash b in
  let uncles_hash := Block_calc_uncles_hash b in
  let raw := header_raw (block_header b) in
  let raw_header := mkRawHeader (version raw) (compact_target raw) (timestamp raw) (number raw)
    (epoch raw) (parent_hash raw) transactions_root proposals_hash uncles_hash (dao raw) in
  let header := mkHeader raw_header (nonce (block_header b)) in
  mkBlock header (block_uncles b) (block_transactions b) (block_proposals b).
Definition Block_reset_header (b : Block) : Block :=
  reset_header_with_hashes b (Block_calc_tx_hashes b) (Block_calc_tx_witness_hashes b).

Definition block_into_view_internal (b : Block) (tx_hashes tx_witness_hashes : list Byte32) :
    BlockView :=
  mkBlockView b (Block_calc_header_hash b) (UncleBlock_calc_header_hash <$> block_uncles b)
    tx_hashes tx_witness_hashes.
Definition Block_into_view_without_reset_header (b : Block) : BlockView :=
  block_into_view_internal b (Block_calc_tx_hashes b) (Block_calc_tx_witness_hashes b).
Definition Block_into_view (b : Block) : BlockView :=
  let tx_hashes := Block_calc_tx_hashes b in
  let tx_witness_hashes := Block_calc_tx_witness_hashes b in
  let block := reset_header_with_hashes b tx_hashes tx_witness_hashes in
  block_into_view_internal block tx_hashes tx_witness_hashes.

(** ** Proof of work *)

Definition pow_message (pow_hash : Byte32) (nonce : Z) : bytes := pow_hash ++ le_encode 16 nonce.

(** [U256::from_big_endian]. *)
Definition from_big_endian (s : bytes) : Z := le_decode (rev s).

Definition check_pow_output `{NumExt} (header : Header) (output : bytes) : bool :=
  let '(block_target, overflow) := compact_to_target (compact_target (header_raw header)) in
  if (block_target =? 0) || overflow then false
  else if block_target <? from_big_endian output then false else true.

Definition EaglesongPowEngine_verify `{NumExt} (header : Header) : bool :=
  let input := pow_message (Header_calc_pow_hash header) (nonce header) in
  check_pow_output header (eaglesong input).
Definition EaglesongBlake2bPowEngine_verify `{NumExt} (header : Header) : bool :=
  let input := pow_message (Header_calc_pow_hash header) (nonce header) in
  check_pow_output header (blake2b_256 (eaglesong input)).
Definition DummyPowEngine_verify (_ : Header) : bool := true.

(** [Pow::engine] and [PowEngine::verify]. *)
Definition pow_engine_verify `{NumExt} (p : Pow) (header : Header) : bool :=
  match p with
  | Dummy => DummyPowEngine_verify header
  | Eaglesong => EaglesongPowEngine_verify header
  | EaglesongBlake2b => EaglesongBlake2bPowEngine_verify header
  end.
End hashes.

(** ** What the header hash commits to

    Collision resistance cannot be stated of one fixed function; the theorem
    says instead that two different contents under one hash exhibit a collision
    of blake2b (or a preimage of the zero hash, which stands for an empty
    list). *)
Section binding.
Context {HA : Hasher} {HS : HasherSpec HA}.

Definition collision : Prop := exists x y, x <> y /\ blake2b x = blake2b y.
Definition zero_preimage : Prop := exists x, blake2b x = Byte32_zero.
Definition broken : Prop := collision \/ zero_preimage.

Lemma blake2b_inj x y : blake2b x = blake2b y -> x = y \/ broken.
Proof. intros E. destruct (decide (x = y)); [by left|]. right. left. by exists x, y. Qed.

Lemma as_slice_inj {A} (C : Codec A) P (a b : A) :
  CodecSpec A (H:=C) P -> P a -> P b -> as_slice a = as_slice b -> a = b.
Proof. intros HC Ha Hb E. rewrite <- (codec_decode a Ha), E. by apply codec_decode. Qed.

Lemma calc_hash_inj {A} (C : Codec A) P (a b : A) :
  CodecSpec A (H:=C) P -> P a -> P b -> as_slice a <> [] -> as_slice b <> [] ->
  calc_hash C a = calc_hash C b -> a = b \/ broken.
Proof.
  intros HC Ha Hb Na Nb. unfold calc_hash, blake2b_256.
  destruct (as_slice a) as [|x s] eqn:Ea; [done|]. destruct (as_slice b) as [|y t] eqn:Eb; [done|].
  intros [E|]%blake2b_inj; [|by right]. left. apply (as_slice_inj C P); congruence.
Qed.

Lemma Header_length h : valid_Header h -> length (@as_slice _ Header_codec h) = 208%nat.
Proof. intros Hh. apply (fixed_length Header_codec Header_spec); [apply struct_fixed|done]. Qed.

Lemma header_hash_inj h1 h2 :
  valid_Header h1 -> valid_Header h2 ->
  Header_calc_header_hash h1 = Header_calc_header_hash h2 -> h1 = h2 \/ broken.
Proof.
  intros V1 V2. apply (calc_hash_inj _ _ _ _ Header_spec); [done..| |];
    intros E; apply (f_equal length) in E; by rewrite Header_length in E.
Qed.

(** Lists of items of one positive size are determined by their concatenation. *)
Lemma concat_fixed_inj n (l1 l2 : list bytes) :
  (0 < n)%nat -> Forall (fun s => length s = n) l1 -> Forall (fun s => length s = n) l2 ->
  concat l1 = concat l2 -> l1 = l2.
Proof.
  intros Hn H1. revert l2. induction H1 as [|s l1 Hs _ IH]; intros l2 H2 E.
  - destruct H2 as [|t l2 Ht]; [done|]. apply (f_equal length) in E. simpl in E.
    rewrite length_app in E. lia.
  - destruct H2 as [|t l2 Ht H2].
    + apply (f_equal length) in E. simpl in E. rewrite length_app in E. lia.
    + simpl in E. apply app_inj_1 in E as [-> E]; [|lia]. f_equal. by apply IH.
Qed.

Lemma proposals_hash_inj ids1 ids2 :
  valid_fixvec valid_short_id ids1 -> valid_fixvec valid_short_id ids2 ->
  ProposalShortIdVec_calc_proposals_hash ids1 = ProposalShortIdVec_calc_proposals_hash ids2 ->
  ids1 = ids2 \/ broken.
Proof.
  intros [V1 _] [V2 _] E. unfold ProposalShortIdVec_calc_proposals_hash in E.
  destruct ids1 as [|a l1], ids2 as [|b l2].
  - by left.
  - right; right. by eexists.
  - right; right. by eexists.
  - apply blake2b_inj in E as [E|]; [|by right]. left.
    apply (concat_fixed_inj 10); [lia|..|done]; (eapply Forall_impl; [eassumption|]); by intros s [].
Qed.

Lemma header_hashes_inj hs1 hs2 :
  Forall valid_Header hs1 -> Forall valid_Header hs2 ->
  Header_calc_header_hash <$> hs1 = Header_calc_header_hash <$> hs2 -> hs1 = hs2 \/ broken.
Proof.
  intros V1. revert hs2. induction V1 as [|h hs1 Vh _ IH]; intros hs2 V2 E.
  - left. by destruct hs2.
  - destruct V2 as [|h2 hs2 Vh2 V2]; [done|]. rewrite !fmap_cons in E. injection E as E1 E2.
    apply header_hash_inj in E1 as [->|]; [|by right|done|done].
    apply IH in E2 as [->|]; [|by right|done]. by left.
Qed.

Lemma header_hash_length h :
  valid_Header h -> length (Header_calc_header_hash h) = 32%nat.
Proof.
  intros Hh. unfold Header_calc_header_hash, calc_hash, blake2b_256.
  pose proof (Header_length h Hh). destruct (as_slice h); [done|]. apply blake2b_length.
Qed.

Lemma uncles_hash_inj us1 us2 :
  Forall (fun u => valid_Header (uncle_header u)) us1 ->
  Forall (fun u => valid_Header (uncle_header u)) us2 ->
  UncleBlockVec_calc_uncles_hash us1 = UncleBlockVec_calc_uncles_hash us2 ->
  uncle_header <$> us1 = uncle_header <$> us2 \/ broken.
Proof.
  intros V1 V2 E. unfold UncleBlockVec_calc_uncles_hash in E.
  destruct us1 as [|a l1], us2 as [|b l2];
    [by left|right; right; by eexists|right; right; by eexists|].
  apply blake2b_inj in E as [E|]; [|by right].
  assert (forall us, Forall (fun u => valid_Header (uncle_header u)) us ->
    Forall (fun s => length s = 32%nat) (UncleBlock_calc_header_hash <$> us)) as Hlen.
  { intros us Hus. apply Forall_fmap. eapply Forall_impl; [exact Hus|]. intros u Hu.
    by apply header_hash_length. }
  apply (concat_fixed_inj 32) in E; [|lia|by apply Hlen|by apply Hlen].
  apply header_hashes_inj; [by apply Forall_fmap|by apply Forall_fmap|].
  by rewrite <- !list_fmap_compose.
Qed.

(** The commitments a block's header makes, as [MerkleRootVerifier] and
    [UnclesVerifier] check them. *)
Definition committed (b : Block) : Prop :=
  proposals_hash (header_raw (block_header b)) = Block_calc_proposals_hash b /\
  uncles_hash (header_raw (block_header b)) = Block_calc_uncles_hash b.

End binding.

(** A toy instance of the interface: sums of bytes, padded to 32. *)
Definition toy_hash (s : bytes) : Byte32 := le_encode 32 (sumZ s).
#[export] Instance toy_hasher : Hasher := {|
  blake2b := toy_hash; build_merkle_root l := toy_hash (concat l); eaglesong := toy_hash |}.
#[export] Instance toy_hasher_spec : HasherSpec toy_hasher.
Proof. split; intros s; [apply length_le_encode|apply le_encode_bytes]. Qed.

