(* ===== verification/Store.v ===== *)
(** * The chain store: src/store/src/store.rs, src/store/src/transaction.rs,
    src/util/types/src/core/transaction_meta.rs, src/store/src/data_loader_wrapper.rs

    The columns of the database are finite maps.  A row of the body column has
    the key (block hash, big-endian index), so the rows of a block are read back
    in index order: they are the list of its transactions.  The caches of
    [StoreCache] hold copies of rows that are never changed, so they are left
    out, and so is the failure of the database itself. *)

From S2P Require Import Prelude Capacity NumExt Types Molecule Errors Epoch Cell Consensus.

(** ** TransactionMeta *)

Record TransactionMeta := mkTransactionMeta {
  meta_block_number : Z;
  meta_epoch_number : Z;
  meta_block_hash : Byte32;
  meta_cellbase : bool;
  dead_cell : list bool;
}.
Definition TransactionMeta_new (block_number epoch_number : Z) (block_hash : Byte32)
    (outputs_count : nat) (all_dead : bool) : TransactionMeta :=
  mkTransactionMeta block_number epoch_number block_hash false (replicate outputs_count all_dead).
Definition TransactionMeta_new_cellbase (block_number epoch_number : Z) (block_hash : Byte32)
    (outputs_count : nat) (all_dead : bool) : TransactionMeta :=
  let result := TransactionMeta_new block_number epoch_number block_hash outputs_count all_dead in
  mkTransactionMeta (meta_block_number result) (meta_epoch_number result)
    (meta_block_hash result) true (dead_cell result).
Definition TransactionMeta_is_dead (m : TransactionMeta) (index : nat) : option bool :=
  dead_cell m !! index.
Definition TransactionMeta_all_dead (m : TransactionMeta) : bool := forallb (fun b => b) (dead_cell m).
Definition set_dead_cell (m : TransactionMeta) (l : list bool) : TransactionMeta :=
  mkTransactionMeta (meta_block_number m) (meta_epoch_number m) (meta_block_hash m)
    (meta_cellbase m) l.
(** [if index < self.len() { self.dead_cell.set(index, ..) }]: the list update
    does nothing out of bounds. *)
Definition TransactionMeta_set_dead (m : TransactionMeta) (index : nat) : TransactionMeta :=
  if (index <? length (dead_cell m))%nat
  then set_dead_cell m (<[index := true]> (dead_cell m)) else m.
Definition TransactionMeta_unset_dead (m : TransactionMeta) (index : nat) : TransactionMeta :=
  if (index <? length (dead_cell m))%nat
  then set_dead_cell m (<[index := false]> (dead_cell m)) else m.

(** ** The store *)

Record Store := mkStore {
  col_header : gmap Byte32 HeaderView;             (* COLUMN_BLOCK_HEADER *)
  col_body : gmap Byte32 (list TransactionView);   (* COLUMN_BLOCK_BODY *)
  col_block_uncle : gmap Byte32 UncleBlockVecView; (* COLUMN_BLOCK_UNCLE *)
  col_proposal_ids : gmap Byte32 (list bytes);     (* COLUMN_BLOCK_PROPOSAL_IDS *)
  col_ext : gmap Byte32 BlockExt;                  (* COLUMN_BLOCK_EXT *)
  col_index : gmap Z Byte32;                       (* COLUMN_INDEX, number keys *)
  col_index_hash : gmap Byte32 Z;                  (* COLUMN_INDEX, hash keys *)
  col_uncles : gmap Byte32 HeaderView;             (* COLUMN_UNCLES *)
  col_tx_info : gmap Byte32 TransactionInfo;       (* COLUMN_TRANSACTION_INFO *)
  col_cell_set : gmap Byte32 TransactionMeta;      (* COLUMN_CELL_SET *)
  col_epoch : gmap Byte32 EpochExt;                (* COLUMN_EPOCH, hash keys *)
  col_epoch_index : gmap Z Byte32;                 (* COLUMN_EPOCH, number keys *)
  col_block_epoch : gmap Byte32 Byte32;            (* COLUMN_BLOCK_EPOCH *)
  meta_tip : option Byte32;                        (* COLUMN_META, tip header *)
  meta_current_epoch : option EpochExt;            (* COLUMN_META, current epoch *)
}.

(** *** Reads *)

Definition get_block_header (s : Store) (h : Byte32) : option HeaderView := col_header s !! h.
Definition get_block_body (s : Store) (h : Byte32) : list TransactionView :=
  default [] (col_body s !! h).
Definition get_block_txs_hashes (s : Store) (h : Byte32) : list Byte32 :=
  tx_hash <$> get_block_body s h.
Definition get_block_proposal_txs_ids (s : Store) (h : Byte32) : option (list bytes) :=
  col_proposal_ids s !! h.
Definition get_block_uncles (s : Store) (h : Byte32) : option UncleBlockVecView :=
  col_block_uncle s !! h.
Definition get_block {E} (s : Store) (h : Byte32) : outcome E (option BlockView) :=
  match get_block_header s h with
  | None => Ok None
  | Some header =>
      let body := get_block_body s h in
      uncles ← expect (get_block_uncles s h);
      proposals ← expect (get_block_proposal_txs_ids s h);
      Ok (Some (BlockView_new_unchecked header uncles body proposals))
  end.
Definition get_block_ext (s : Store) (h : Byte32) : option BlockExt := col_ext s !! h.
Definition get_block_hash (s : Store) (number : Z) : option Byte32 := col_index s !! number.
Definition get_block_number (s : Store) (h : Byte32) : option Z := col_index_hash s !! h.
Definition is_main_chain (s : Store) (h : Byte32) : bool := bool_decide (is_Some (col_index_hash s !! h)).
Definition get_tip_header (s : Store) : option HeaderView := meta_tip s ≫= get_block_header s.
Definition get_transaction_info (s : Store) (h : Byte32) : option TransactionInfo :=
  col_tx_info s !! h.
(** The row of the body column with the key of a transaction info. *)
Definition get_body_row (s : Store) (info : TransactionInfo) : option TransactionView :=
  col_body s !! info_block_hash info ≫= fun txs => txs !! info_index info.
Definition get_transaction {E} (s : Store) (h : Byte32) :
    outcome E (option (TransactionView * Byte32)) :=
  match get_transaction_info s h with
  | None => Ok None
  | Some info =>
      tx ← expect (get_body_row s info);
      Ok (Some (tx, info_block_hash info))
  end.
Definition get_tx_meta (s : Store) (h : Byte32) : option TransactionMeta := col_cell_set s !! h.
Definition get_cell_meta {E} (s : Store) (h : Byte32) (index : Z) : outcome E (option CellMeta) :=
  match (info ← get_transaction_info s h; row ← get_body_row s info; Some (info, row)) with
  | None => Ok None
  | Some (tx_info, tx) =>
      match TransactionView_outputs tx !! Z.to_nat index with
      | None => Ok None
      | Some output =>
          data ← expect (TransactionView_outputs_data tx !! Z.to_nat index);
          Ok (Some (mkCellMeta output (mkOutPoint h index) (Some tx_info) (zlen data) None))
      end
  end.
Definition get_current_epoch_ext (s : Store) : option EpochExt := meta_current_epoch s.
Definition get_epoch_ext (s : Store) (h : Byte32) : option EpochExt := col_epoch s !! h.
Definition get_epoch_index (s : Store) (number : Z) : option Byte32 := col_epoch_index s !! number.
Definition get_block_epoch_index (s : Store) (h : Byte32) : option Byte32 := col_block_epoch s !! h.
Definition get_block_epoch (s : Store) (h : Byte32) : option EpochExt :=
  get_block_epoch_index s h ≫= get_epoch_ext s.
Definition is_uncle (s : Store) (h : Byte32) : bool := bool_decide (is_Some (col_uncles s !! h)).
Definition get_uncle_header (s : Store) (h : Byte32) : option HeaderView := col_uncles s !! h.
Definition block_exists (s : Store) (h : Byte32) : bool := bool_decide (is_Some (col_header s !! h)).
Definition get_cellbase (s : Store) (h : Byte32) : option TransactionView :=
  col_body s !! h ≫= fun txs => txs !! 0%nat.
Definition store_next_epoch_ext `{NumExt} {E} (s : Store) (c : Consensus) (last_epoch : EpochExt)
    (header : HeaderView) : outcome E (option EpochExt) :=
  next_epoch_ext c last_epoch header (get_block_header s)
    (fun h => total_uncles_count <$> get_block_ext s h).

Section hashed.
Context (calc_data_hash : bytes -> Byte32).

Definition get_cell_data (s : Store) (h : Byte32) (index : Z) : option (bytes * Byte32) :=
  info ← get_transaction_info s h;
  tx ← get_body_row s info;
  data ← TransactionView_outputs_data tx !! Z.to_nat index;
  Some (data, calc_data_hash data).

(** [CellProviderWrapper::cell]: the cells of the main chain. *)
Definition store_cell (s : Store) : CellProvider :=
  fun out_point with_data =>
    let h := op_tx_hash out_point in
    let index := op_index out_point in
    match get_tx_meta s h with
    | Some tx_meta =>
        match TransactionMeta_is_dead tx_meta (Z.to_nat index) with
        | Some false =>
            m ← get_cell_meta s h index;
            cell_meta ← expect m;
            Ok (CellStatus_Live
                  (if with_data
                   then mkCellMeta (cell_output cell_meta) (Cell.out_point cell_meta)
                          (transaction_info cell_meta) (data_bytes cell_meta)
                          (get_cell_data s h index)
                   else cell_meta))
        | Some true => Ok CellStatus_Dead
        | None => Ok CellStatus_Unknown
        end
    | None => Ok CellStatus_Unknown
    end.

(** [DataLoaderWrapper::load_cell_data]. *)
Definition load_cell_data (s : Store) (cell : CellMeta) : option (bytes * Byte32) :=
  match mem_cell_data cell with
  | Some d => Some d
  | None => get_cell_data s (op_tx_hash (Cell.out_point cell)) (op_index (Cell.out_point cell))
  end.
End hashed.

(** *** Writes *)

(** Replacement of a column. *)
Definition set_col_ext (s : Store) (x : gmap Byte32 BlockExt) : Store :=
  mkStore (col_header s) (col_body s) (col_block_uncle s) (col_proposal_ids s) x (col_index s)
    (col_index_hash s) (col_uncles s) (col_tx_info s) (col_cell_set s) (col_epoch s)
    (col_epoch_index s) (col_block_epoch s) (meta_tip s) (meta_current_epoch s).
Definition set_col_cell_set (s : Store) (x : gmap Byte32 TransactionMeta) : Store :=
  mkStore (col_header s) (col_body s) (col_block_uncle s) (col_proposal_ids s) (col_ext s)
    (col_index s) (col_index_hash s) (col_uncles s) (col_tx_info s) x (col_epoch s)
    (col_epoch_index s) (col_block_epoch s) (meta_tip s) (meta_current_epoch s).
Definition set_col_block_epoch (s : Store) (x : gmap Byte32 Byte32) : Store :=
  mkStore (col_header s) (col_body s) (col_block_uncle s) (col_proposal_ids s) (col_ext s)
    (col_index s) (col_index_hash s) (col_uncles s) (col_tx_info s) (col_cell_set s) (col_epoch s)
    (col_epoch_index s) x (meta_tip s) (meta_current_epoch s).
Definition set_meta_tip (s : Store) (x : option Byte32) : Store :=
  mkStore (col_header s) (col_body s) (col_block_uncle s) (col_proposal_ids s) (col_ext s)
    (col_index s) (col_index_hash s) (col_uncles s) (col_tx_info s) (col_cell_set s) (col_epoch s)
    (col_epoch_index s) (col_block_epoch s) x (meta_current_epoch s).
Definition set_meta_current_epoch (s : Store) (x : option EpochExt) : Store :=
  mkStore (col_header s) (col_body s) (col_block_uncle s) (col_proposal_ids s) (col_ext s)
    (col_index s) (col_index_hash s) (col_uncles s) (col_tx_info s) (col_cell_set s) (col_epoch s)
    (col_epoch_index s) (col_block_epoch s) (meta_tip s) x.
Definition set_main_chain (s : Store) (index : gmap Z Byte32)
    (index_hash : gmap Byte32 Z) (uncles : gmap Byte32 HeaderView)
    (tx_info : gmap Byte32 TransactionInfo) : Store :=
  mkStore (col_header s) (col_body s) (col_block_uncle s) (col_proposal_ids s) (col_ext s) index
    index_hash uncles tx_info (col_cell_set s) (col_epoch s) (col_epoch_index s) (col_block_epoch
    s) (meta_tip s) (meta_current_epoch s).
Definition set_block (s : Store) (header : gmap Byte32 HeaderView)
    (body : gmap Byte32 (list TransactionView)) (uncle : gmap Byte32 UncleBlockVecView)
    (ids : gmap Byte32 (list bytes)) : Store :=
  mkStore header body uncle ids (col_ext s) (col_index s) (col_index_hash s) (col_uncles s)
    (col_tx_info s) (col_cell_set s) (col_epoch s) (col_epoch_index s) (col_block_epoch s)
    (meta_tip s) (meta_current_epoch s).
Definition set_epoch (s : Store) (epoch : gmap Byte32 EpochExt) (index : gmap Z Byte32) : Store :=
  mkStore (col_header s) (col_body s) (col_block_uncle s) (col_proposal_ids s) (col_ext s)
    (col_index s) (col_index_hash s) (col_uncles s) (col_tx_info s) (col_cell_set s) epoch index
    (col_block_epoch s) (meta_tip s) (meta_current_epoch s).

Definition insert_tip_header (s : Store) (h : HeaderView) : Store :=
  set_meta_tip s (Some (header_hash h)).

Definition insert_block (s : Store) (block : BlockView) : Store :=
  let hash := block_hash block in
  set_block s
    (<[hash := BlockView_header block]> (col_header s))
    (<[hash := BlockView_transactions block]> (col_body s))
    (<[hash := BlockView_uncles block]> (col_block_uncle s))
    (<[hash := block_proposals (block_data block)]> (col_proposal_ids s)).

Definition insert_block_ext (s : Store) (h : Byte32) (ext : BlockExt) : Store :=
  set_col_ext s (<[h := ext]> (col_ext s)).

(** The stored [block_epoch] is the raw field of the header; unpacking it on a
    read goes through [from_full_value]. *)
Definition attach_block {E} (s : Store) (block : BlockView) : outcome E Store :=
  let hash := block_hash block in
  let tx_info := foldl (fun m '(index, h) =>
    <[h := mkTransactionInfo hash (BlockView_number block)
             (HeaderView_epoch (BlockView_header block)) index]> m)
    (col_tx_info s) (enumerate (block_tx_hashes block)) in
  uncles ← UncleBlockVecView_into_iter (BlockView_uncles block);
  Ok (set_main_chain s
        (<[BlockView_number block := hash]> (col_index s))
        (<[hash := BlockView_number block]> (col_index_hash s))
        (foldl (fun m u => <[uncle_hash u := UncleBlockView_header u]> m) (col_uncles s) uncles)
        tx_info).

Definition detach_block {E} (s : Store) (block : BlockView) : outcome E Store :=
  let tx_info := foldl (fun m h => delete h m) (col_tx_info s) (block_tx_hashes block) in
  uncles ← UncleBlockVecView_into_iter (BlockView_uncles block);
  Ok (set_main_chain s
        (delete (BlockView_number block) (col_index s))
        (delete (block_hash block) (col_index_hash s))
        (foldl (fun m u => delete (uncle_hash u) m) (col_uncles s) uncles)
        tx_info).

Definition insert_block_epoch_index (s : Store) (h epoch_hash : Byte32) : Store :=
  set_col_block_epoch s (<[h := epoch_hash]> (col_block_epoch s)).
Definition insert_epoch_ext (s : Store) (h : Byte32) (epoch : EpochExt) : Store :=
  set_epoch s (<[h := epoch]> (col_epoch s)) (<[epoch_number epoch := h]> (col_epoch_index s)).
Definition insert_current_epoch_ext (s : Store) (epoch : EpochExt) : Store :=
  set_meta_current_epoch s (Some epoch).
Definition update_cell_set (s : Store) (h : Byte32) (meta : TransactionMeta) : Store :=
  set_col_cell_set s (<[h := meta]> (col_cell_set s)).
Definition delete_cell_set (s : Store) (h : Byte32) : Store :=
  set_col_cell_set s (delete h (col_cell_set s)).
