(* ===== verification/Dao.v ===== *)
(** * NervosDAO: src/util/dao/utils/src/lib.rs, src/util/dao/src/lib.rs

    The [dao] field of a header packs four u64 (C total issuance, AR accumulated
    rate, S issuance not yet withdrawn, U occupied capacity).  [DaoCalculator]
    computes the field of a block, the rewards of its miner, the maximum
    withdrawal of a deposit and the fee of a transaction. *)

From S2P Require Import Prelude Capacity NumExt Types Molecule Errors Epoch Cell Consensus Store.

(** ** The field *)

Definition DEFAULT_ACCUMULATED_RATE : Z := 10000000000000000.

(** [(ar, c, s, u)]. *)
Definition DaoData : Type := Z * Capacity * Capacity * Capacity.

Definition extract_dao_data (dao : Byte32) : outcome Error DaoData :=
  let c := Capacity_shannons (read_u64 dao) in
  let ar := read_u64 (drop 8 dao) in
  let s := Capacity_shannons (read_u64 (drop 16 dao)) in
  let u := Capacity_shannons (read_u64 (drop 24 dao)) in
  Ok (ar, c, s, u).

Definition pack_dao_data (ar : Z) (c s u : Capacity) : Byte32 :=
  write_u64 (Capacity_as_u64 c) ++ write_u64 ar ++ write_u64 (Capacity_as_u64 s) ++
  write_u64 (Capacity_as_u64 u).

(** ** Genesis *)

Section genesis.
Context (satoshi_pubkey_hash : bytes) (satoshi_cell_occupied_ratio : Ratio).

(** [dead_cells.contains(&OutPoint::new(tx.hash(), index as u32))]. *)
Definition is_dead_output (dead_cells : gset OutPoint) (tx : TransactionView) (index : nat) : bool :=
  bool_decide (mkOutPoint (tx_hash tx) (Z.of_nat index mod 2 ^ 32) ∈ dead_cells).

Definition statistics_outputs (dead_cells : gset OutPoint) (tx_index : nat)
    (tx : TransactionView) : outcome Error (Capacity * Capacity) :=
  c ← cap (try_fold (fun capacity '(_, output) =>
             Capacity_safe_add capacity (Types.capacity output)) Capacity_zero
             (filter (fun '(index, _) => negb (is_dead_output dead_cells tx index) = true)
                (enumerate (TransactionView_outputs tx))));
  u ← cap (try_fold (fun capacity '(_, (output, data)) =>
             occupied ←
               (if (tx_index =? 0)%nat && bool_decide (args (lock output) = satoshi_pubkey_hash)
                then Capacity_safe_mul_ratio (Types.capacity output) satoshi_cell_occupied_ratio
                else
                  c ← Capacity_bytes (zlen data);
                  CellOutput_occupied_capacity output c);
             Capacity_safe_add capacity occupied) Capacity_zero
             (filter (fun '(index, _) => negb (is_dead_output dead_cells tx index) = true)
                (enumerate (TransactionView_outputs_with_data_iter tx))));
  Ok (c, u).

Definition genesis_dao_data_with_satoshi_gift (txs : list TransactionView)
    (initial_primary_issuance initial_secondary_issuance : Capacity) : outcome Error Byte32 :=
  let dead_cells : gset OutPoint := list_to_set (txs ≫= TransactionView_input_pts_iter) in
  initial_issuance ← cap (Capacity_safe_add initial_primary_issuance initial_secondary_issuance);
  '(c, u) ← try_fold (fun '(c, u) '(tx_index, tx) =>
    '(tx_c, tx_u) ← statistics_outputs dead_cells tx_index tx;
    c ← cap (Capacity_safe_add c tx_c);
    u ← cap (Capacity_safe_add u tx_u);
    Ok (c, u)) (initial_issuance, Capacity_zero) (enumerate txs);
  if c =? Capacity_zero then Err (into ZeroC)
  else Ok (pack_dao_data DEFAULT_ACCUMULATED_RATE c initial_secondary_issuance u).
End genesis.

(** ** The calculator *)

(** [u64::try_from(x).map_err(|_| DaoError::Overflow)?] on a u128. *)
Definition try_u64 (x : Z) : outcome Error Z :=
  if in_rangeb 64 x then Ok x else Err (into DaoError_Overflow).

(** [u128::from(a) * u128::from(b) / u128::from(c)]. *)
Definition mul_div128 {E} (a b c : Z) : outcome E Z :=
  p ← u128_mul a b;
  u64_div p c.

(** [modified_occupied_capacity]: the satoshi cells of the genesis cellbase
    occupy a fixed ratio of their capacity. *)
Definition modified_occupied_capacity (cell_meta : CellMeta) (consensus : Consensus) :
    CapacityResult Capacity :=
  match transaction_info cell_meta with
  | Some tx_info =>
      if TransactionInfo_is_genesis tx_info && TransactionInfo_is_cellbase tx_info &&
         bool_decide (args (lock (cell_output cell_meta)) = satoshi_pubkey_hash consensus)
      then Capacity_safe_mul_ratio (capacity (cell_output cell_meta))
             (satoshi_cell_occupied_ratio consensus)
      else CellMeta_occupied_capacity cell_meta
  | None => CellMeta_occupied_capacity cell_meta
  end.

Section calculator.
Context `{NumExt} (calc_data_hash : bytes -> Byte32) (consensus : Consensus) (store : Store).

(** [get_block_epoch_index(..).and_then(get_epoch_ext).ok_or(InvalidHeader)]. *)
Definition block_epoch (h : Byte32) : outcome Error EpochExt :=
  ok_or (into DaoError_InvalidHeader) (get_block_epoch store h).

Definition primary_block_reward (target : HeaderView) : outcome Error Capacity :=
  target_epoch ← block_epoch (header_hash target);
  EpochExt_block_reward target_epoch (HeaderView_number target).

Definition secondary_block_reward (target : HeaderView) : outcome Error Capacity :=
  if HeaderView_number target =? 0 then Ok Capacity_zero
  else
    target_parent ← ok_or (into DaoError_InvalidHeader)
                      (get_block_header store (HeaderView_parent_hash target));
    target_epoch ← block_epoch (header_hash target);
    target_g2 ← EpochExt_secondary_block_issuance target_epoch (HeaderView_number target)
                  (secondary_epoch_reward consensus);
    '(_, target_parent_c, _, target_parent_u) ←
      extract_dao_data (dao (HeaderView_raw target_parent));
    reward128 ← mul_div128 (Capacity_as_u64 target_g2) (Capacity_as_u64 target_parent_u)
                  (Capacity_as_u64 target_parent_c);
    reward ← try_u64 reward128;
    Ok (Capacity_shannons reward).

Definition base_block_reward_of (parent : HeaderView) : outcome Error Capacity :=
  n ← u64_add (HeaderView_number parent) 1;
  t ← finalize_target consensus n;
  target_number ← ok_or (into DaoError_InvalidHeader) t;
  target ← ok_or (into DaoError_InvalidHeader)
             (get_block_hash store target_number ≫= get_block_header store);
  primary ← primary_block_reward target;
  secondary ← secondary_block_reward target;
  cap (Capacity_safe_add primary secondary).

Definition calculate_maximum_withdraw (output : CellOutput) (output_data_capacity : Capacity)
    (deposit_header_hash withdrawing_header_hash : Byte32) : outcome Error Capacity :=
  deposit_header ← ok_or (into DaoError_InvalidHeader) (get_block_header store deposit_header_hash);
  withdrawing_header ←
    ok_or (into DaoError_InvalidHeader) (get_block_header store withdrawing_header_hash);
  _ ← guard_err (HeaderView_number withdrawing_header <=? HeaderView_number deposit_header)
        (into InvalidOutPoint);
  '(deposit_ar, _, _, _) ← extract_dao_data (dao (HeaderView_raw deposit_header));
  '(withdrawing_ar, _, _, _) ← extract_dao_data (dao (HeaderView_raw withdrawing_header));
  occupied_capacity ← cap (CellOutput_occupied_capacity output output_data_capacity);
  let output_capacity := capacity output in
  counted_capacity ← cap (Capacity_safe_sub output_capacity occupied_capacity);
  withdraw_counted_capacity ←
    mul_div128 (Capacity_as_u64 counted_capacity) withdrawing_ar deposit_ar;
  (* the cast [as u64] keeps the low 64 bits *)
  cap (Capacity_safe_add (Capacity_shannons (withdraw_counted_capacity mod 2 ^ 64))
         occupied_capacity).

Definition maximum_withdraw (o : OutPoint) (withdrawing_header_hash : Byte32) :
    outcome Error Capacity :=
  t ← get_transaction store (op_tx_hash o);
  '(tx, block_hash) ← ok_or (into InvalidOutPoint) t;
  output ← ok_or (into InvalidOutPoint) (TransactionView_outputs tx !! Z.to_nat (op_index o));
  output_data ←
    ok_or (into InvalidOutPoint) (TransactionView_outputs_data tx !! Z.to_nat (op_index o));
  c ← cap (Capacity_bytes (zlen output_data));
  calculate_maximum_withdraw output c block_hash withdrawing_header_hash.

(** The closure [is_dao_type_script]; [&&] does not evaluate the [expect] when
    the hash type differs. *)
Definition is_dao_type_script (type_script : Script) : outcome Error bool :=
  if hash_type type_script =? ScriptHashType_into ScriptHashType_Type then
    h ← expect (dao_type_hash consensus);
    Ok (bool_decide (code_hash type_script = h))
  else Ok false.

(** The closure [is_withdrawing_input]. *)
Definition is_withdrawing_input (cell_meta : CellMeta) : bool :=
  match load_cell_data calc_data_hash store cell_meta with
  | Some (data, _) => (length data =? 8)%nat && (0 <? read_u64 data)
  | None => false
  end.

(** The header dep of the deposit, whose index is in the [input_type] of the witness. *)
Definition deposit_header_hash_of (tx : TransactionView) (i : nat) : outcome Error Byte32 :=
  witness_data ← ok_or (into InvalidOutPoint) (TransactionView_witnesses tx !! i);
  witness ← ok_or (into InvalidDaoFormat) (from_slice (A:=WitnessArgs) witness_data);
  header_dep_index ←
    match wa_input_type witness with
    | Some data =>
        if (length data =? 8)%nat then Ok (read_u64 data) else Err (into InvalidDaoFormat)
    | None => Err (into InvalidDaoFormat)
    end;
  ok_or (into InvalidOutPoint) (TransactionView_header_deps tx !! Z.to_nat header_dep_index).

Definition input_maximum_withdraw (rtx : ResolvedTransaction) (i : nat) (cell_meta : CellMeta) :
    outcome Error Capacity :=
  let output := cell_output cell_meta in
  is_dao ← match type_ output with
           | Some t => is_dao_type_script t
           | None => Ok false
           end;
  if is_dao && is_withdrawing_input cell_meta then
    withdrawing_header_hash ←
      ok_or (into InvalidOutPoint)
        (info ← transaction_info cell_meta;
         if decide (info_block_hash info ∈ TransactionView_header_deps (transaction rtx))
         then Some (info_block_hash info) else None);
    deposit_header_hash ← deposit_header_hash_of (transaction rtx) i;
    c ← cap (Capacity_bytes (data_bytes cell_meta));
    calculate_maximum_withdraw output c deposit_header_hash withdrawing_header_hash
  else Ok (capacity output).

Definition transaction_maximum_withdraw (rtx : ResolvedTransaction) : outcome Error Capacity :=
  try_fold (fun capacities '(i, cell_meta) =>
    c ← input_maximum_withdraw rtx i cell_meta;
    cap (Capacity_safe_add c capacities)) Capacity_zero (enumerate (resolved_inputs rtx)).

Definition transaction_fee (rtx : ResolvedTransaction) : outcome Error Capacity :=
  w ← transaction_maximum_withdraw rtx;
  cap (y ← TransactionView_outputs_capacity (transaction rtx); Capacity_safe_sub w y).

Definition tx_occupied_capacities (tx : TransactionView) : CapacityResult Capacity :=
  try_fold (fun tx_capacities '(output, data) =>
    c ← Capacity_bytes (zlen data);
    c ← CellOutput_occupied_capacity output c;
    Capacity_safe_add tx_capacities c) Capacity_zero (TransactionView_outputs_with_data_iter tx).
Definition added_occupied_capacities (rtxs : list ResolvedTransaction) : outcome Error Capacity :=
  cap (try_fold (fun capacities rtx =>
    c ← tx_occupied_capacities (transaction rtx);
    Capacity_safe_add capacities c) Capacity_zero rtxs).

Definition input_occupied_capacities (rtx : ResolvedTransaction) : outcome Error Capacity :=
  cap (try_fold (fun capacities cell_meta =>
    c ← modified_occupied_capacity cell_meta consensus;
    Capacity_safe_add capacities c) Capacity_zero (resolved_inputs rtx)).

Definition withdrawed_interests (rtxs : list ResolvedTransaction) : outcome Error Capacity :=
  maximum_withdraws ← try_fold (fun capacities rtx =>
    c ← transaction_maximum_withdraw rtx;
    cap (Capacity_safe_add capacities c)) Capacity_zero rtxs;
  input_capacities ← cap (try_fold (fun capacities rtx =>
    tx_input_capacities ← try_fold (fun tx_capacities cell_meta =>
      Capacity_safe_add tx_capacities (capacity (cell_output cell_meta))) Capacity_zero
      (resolved_inputs rtx);
    Capacity_safe_add capacities tx_input_capacities) Capacity_zero rtxs);
  cap (Capacity_safe_sub maximum_withdraws input_capacities).

(** The field of the block of [rtxs] on top of [parent]. *)
Definition dao_field (rtxs : list ResolvedTransaction) (parent : HeaderView) :
    outcome Error Byte32 :=
  freed_occupied_capacities ← try_fold (fun capacities rtx =>
    c ← input_occupied_capacities rtx;
    cap (Capacity_safe_add capacities c)) Capacity_zero rtxs;
  added_occupied ← added_occupied_capacities rtxs;
  interests ← withdrawed_interests rtxs;
  '(parent_ar, parent_c, parent_s, parent_u) ← extract_dao_data (dao (HeaderView_raw parent));
  parent_block_epoch ← block_epoch (header_hash parent);
  next ← store_next_epoch_ext store consensus parent_block_epoch parent;
  let current_block_epoch := default parent_block_epoch next in
  current_block_number ← u64_add (HeaderView_number parent) 1;
  current_g2 ← EpochExt_secondary_block_issuance current_block_epoch current_block_number
                 (secondary_epoch_reward consensus);
  primary ← EpochExt_block_reward current_block_epoch current_block_number;
  current_g ← cap (Capacity_safe_add primary current_g2);
  miner_issuance128 ← mul_div128 (Capacity_as_u64 current_g2) (Capacity_as_u64 parent_u)
                        (Capacity_as_u64 parent_c);
  miner_issuance ← try_u64 miner_issuance128;
  nervosdao_issuance ←
    cap (Capacity_safe_sub current_g2 (Capacity_shannons miner_issuance));
  current_c ← cap (Capacity_safe_add parent_c current_g);
  current_u ← cap (u ← Capacity_safe_add parent_u added_occupied;
                   Capacity_safe_sub u freed_occupied_capacities);
  current_s ← cap (s ← Capacity_safe_add parent_s nervosdao_issuance;
                   Capacity_safe_sub s interests);
  ar_increase128 ← mul_div128 parent_ar (Capacity_as_u64 current_g2) (Capacity_as_u64 parent_c);
  ar_increase ← try_u64 ar_increase128;
  current_ar ← ok_or (into DaoError_Overflow) (checked 64 (parent_ar + ar_increase));
  Ok (pack_dao_data current_ar current_c current_s current_u).

End calculator.

(** ** The packing is a bijection *)

Lemma extract_pack ar c s u :
  is_u64 ar -> is_u64 c -> is_u64 s -> is_u64 u ->
  extract_dao_data (pack_dao_data ar c s u) = Ok (ar, c, s, u).
Proof.
  intros Ha Hc Hs Hu. unfold extract_dao_data, pack_dao_data, Capacity_shannons, Capacity_as_u64.
  assert (forall z, length (write_u64 z) = 8%nat) as Hl by (intros; apply length_le_encode).
  assert (forall z rest, drop 8 (write_u64 z ++ rest) = rest) as Hd
    by (intros; by rewrite drop_app_length' by by rewrite Hl).
  set (d := _ ++ _ ++ _ ++ write_u64 u).
  assert (drop 16 d = drop 8 (drop 8 d) /\ drop 24 d = drop 8 (drop 8 (drop 8 d))) as [-> ->]
    by (by rewrite !drop_drop).
  subst d. rewrite !Hd, !read_write_u64 by done.
  rewrite <- (app_nil_r (write_u64 u)). by rewrite read_write_u64.
Qed.

Lemma write_read_u64 bs :
  Forall is_u8 bs -> (8 <= length bs)%nat -> write_u64 (read_u64 bs) = take 8 bs.
Proof.
  intros Hb Hl. unfold write_u64, read_u64.
  pose proof (le_encode_decode (take 8 bs)) as He. rewrite length_take_le in He by lia.
  apply He. by apply Forall_take.
Qed.

Lemma read_u64_range bs : Forall is_u8 bs -> is_u64 (read_u64 bs).
Proof.
  intros Hb. unfold read_u64. destruct (le_decode_range (take 8 bs)) as [? Hu];
    [by apply Forall_take|]. split; [done|]. eapply Z.lt_le_trans; [exact Hu|].
  change (2 ^ 64) with (256 ^ 8). apply Z.pow_le_mono_r; [lia|]. rewrite length_take. lia.
Qed.

Lemma pack_extract d ar c s u :
  Forall is_u8 d -> length d = 32%nat -> extract_dao_data d = Ok (ar, c, s, u) ->
  pack_dao_data ar c s u = d /\ is_u64 ar /\ is_u64 c /\ is_u64 s /\ is_u64 u.
Proof.
  intros Hd Hl [= <- <- <- <-]. unfold pack_dao_data, Capacity_as_u64, Capacity_shannons.
  assert (forall n, Forall is_u8 (drop n d)) as Hdn by (intros; by apply Forall_drop).
  split_and!; try by apply read_u64_range.
  rewrite !write_read_u64 by (try apply Hdn; try done; rewrite ?length_drop; lia).
  rewrite <- (take_drop 8 d) at 5. f_equal. rewrite <- (take_drop 8 (drop 8 d)) at 2. f_equal.
  rewrite drop_drop. simpl. rewrite <- (take_drop 8 (drop 16 d)) at 2. f_equal.
  rewrite drop_drop. simpl. rewrite take_ge; [done|]. rewrite length_drop. lia.
Qed.

(** Packing four u64 into the [dao] field and extracting them is the identity
    in both directions, on all u64 and on all 32-byte fields. *)
Theorem dao_data_roundtrip ar c s u d :
  is_u64 ar -> is_u64 c -> is_u64 s -> is_u64 u -> Forall is_u8 d -> length d = 32%nat ->
  extract_dao_data (pack_dao_data ar c s u) = Ok (ar, c, s, u) /\
  exists ar' c' s' u', extract_dao_data d = Ok (ar', c', s', u') /\ pack_dao_data ar' c' s' u' = d.
Proof.
  intros. split; [by apply extract_pack|].
  do 4 eexists. split; [done|]. by eapply pack_extract.
Qed.

Lemma dao_data_roundtrip_witness :
  extract_dao_data (pack_dao_data 10000000104789669 3360000290476976400 65136000891
    504120308900000000) =
  Ok (10000000104789669, 3360000290476976400, 65136000891, 504120308900000000).
Proof.
  refine (proj1 (dao_data_roundtrip _ _ _ _ zero32 _ _ _ _ _ _)); try (unfold in_range; lia).
  - by apply bytes_by_compute.
  - done.
Defined.

(** ** The field of a block *)

Lemma try_u64_Ok x y : try_u64 x = Ok y <-> y = x /\ is_u64 x.
Proof. unfold try_u64. destruct (in_rangeb_spec 64 x); naive_solver. Qed.

Lemma mul_div128_Ok {E} a b c y :
  mul_div128 (E:=E) a b c = Ok y <-> in_range 128 (a * b) /\ c <> 0 /\ y = a * b / c.
Proof.
  unfold mul_div128, u128_mul. rewrite bind_Ok. setoid_rewrite fit_Ok. setoid_rewrite u64_div_Ok.
  naive_solver.
Qed.

Section calculator_facts.
Context `{NumExt} (calc_data_hash : bytes -> Byte32) (consensus : Consensus) (store : Store).

(** The epoch the next block belongs to. *)
Definition current_epoch (parent : HeaderView) (e : EpochExt) : Prop :=
  exists pe next, block_epoch store (header_hash parent) = Ok pe /\
    store_next_epoch_ext store consensus pe parent = Ok (E:=Error) next /\ e = default pe next.

(** C34: the [dao] field of a block moves the four counters of its parent exactly by
    what the block does.  C grows by the primary and secondary issuance of the
    block; AR by its share [AR * g2 / C]; U by the capacity occupied by the new
    cells minus the capacity the spent cells freed; and S by the part of the
    secondary issuance that does not go to the miner, [g2 - g2 * U / C], minus
    the interest withdrawn.  AR never decreases, and the miner's part never
    exceeds the issuance. *)
Theorem dao_field_spec rtxs parent d ar c s u :
  extract_dao_data (dao (HeaderView_raw parent)) = Ok (ar, c, s, u) ->
  is_u64 ar -> is_u64 c -> is_u64 u ->
  dao_field calc_data_hash consensus store rtxs parent = Ok d ->
  exists e freed added interests g1 g2,
    current_epoch parent e /\
    EpochExt_block_reward e (HeaderView_number parent + 1) = Ok g1 /\
    EpochExt_secondary_block_issuance e (HeaderView_number parent + 1)
      (secondary_epoch_reward consensus) = Ok g2 /\
    try_fold (fun capacities rtx =>
      c ← input_occupied_capacities consensus rtx;
      cap (Capacity_safe_add capacities c)) Capacity_zero rtxs = Ok freed /\
    added_occupied_capacities rtxs = Ok added /\
    withdrawed_interests calc_data_hash consensus store rtxs = Ok interests /\
    0 < c /\ g2 * u / c <= g2 /\ 0 <= ar * g2 / c /\
    extract_dao_data d =
      Ok (ar + ar * g2 / c, c + (g1 + g2), s + (g2 - g2 * u / c) - interests, u + added - freed).
Proof.
  intros Hx Har Hc Hu Hd. unfold dao_field in Hd.
  apply bind_Ok in Hd as (freed & Hf & Hd). apply bind_Ok in Hd as (added & Ha & Hd).
  apply bind_Ok in Hd as (interests & Hi & Hd). rewrite Hx in Hd. step.
  cbn [mbind outcome_bind] in Hd.
  apply bind_Ok in Hd as (pe & Hpe & Hd). apply bind_Ok in Hd as (next & Hn & Hd).
  apply bind_Ok in Hd as (number & Hnum & Hd). apply fit_Ok in Hnum as [-> _].
  apply bind_Ok in Hd as (g2 & Hg2 & Hd). apply bind_Ok in Hd as (g1 & Hg1 & Hd).
  unfold Capacity_as_u64, Capacity_shannons in Hd. inv_all.
  repeat match goal with
  | H : mul_div128 _ _ _ = Ok _ |- _ => apply mul_div128_Ok in H as (? & ? & ->)
  | H : try_u64 _ = Ok _ |- _ => apply try_u64_Ok in H as [-> ?]
  | H : checked _ _ = Some _ |- _ => apply checked_Some in H as [-> ?]
  end.
  exists (default pe next), freed, added, interests, g1, g2.
  assert (0 < c) by zlia.
  split_and!; try done; try zlia.
  - by exists pe, next.
  - rewrite extract_pack by done. done.
Qed.
End calculator_facts.

(** *** A concrete store: one block of the genesis epoch *)
Definition empty_store : Store :=
  mkStore ∅ ∅ ∅ ∅ ∅ ∅ ∅ ∅ ∅ ∅ ∅ ∅ ∅ None None.
Definition sample_dao_header (number : Z) (hash : Byte32) (d : Byte32) : HeaderView :=
  mkHeaderView (mkHeader (mkRawHeader 0 0x1d080000 0 number 0 zero32 zero32 zero32 zero32 d) 0) hash.
Definition sample_parent : HeaderView :=
  sample_dao_header 5 [5]
    (pack_dao_data 10000000104789669 3360000290476976400 65136000891 504120308900000000).
Definition sample_store : Store :=
  insert_block_epoch_index (insert_epoch_ext empty_store [1] sample_epoch) [5] [1].

Lemma dao_field_spec_witness :
  exists d g2, @dao_field numext_ref (fun _ => []) sample_consensus sample_store [] sample_parent
      = Ok d /\
    extract_dao_data d =
      Ok (10000000104789669 + 10000000104789669 * g2 / 3360000290476976400,
          3360000290476976400 + (191780821918 + g2),
          65136000891 + (g2 - g2 * 504120308900000000 / 3360000290476976400) - 0,
          504120308900000000 + 0 - 0).
Proof.
  eassert (@dao_field numext_ref (fun _ => []) sample_consensus sample_store [] sample_parent
    = Ok _) as Hd by (vm_compute; reflexivity).
  edestruct (@dao_field_spec numext_ref (fun _ => []) sample_consensus sample_store []
    sample_parent) as (e & freed & added & interests & g1 & g2 & He & Hg1 & _ & Hf & Ha & Hi & H);
    [vm_compute; reflexivity|unfold in_range; lia..|exact Hd|].
  eexists. exists g2. split; [exact Hd|].
  destruct He as (pe & next & Hpe & Hn & ->).
  vm_compute in Hpe. injection Hpe as <-. vm_compute in Hn. injection Hn as <-.
  vm_compute in Hg1, Hf, Ha, Hi. injection Hg1 as <-. injection Hf as <-. injection Ha as <-.
  injection Hi as <-. exact (proj2 (proj2 (proj2 H))).
Defined.

(** ** Withdrawal *)

Section withdraw.
Context (store : Store).

(** A withdrawal is the occupied capacity of the deposit plus the rest scaled by
    the ratio of the accumulated rates, rounded down, whenever that fits a u64,
    the deposit block is older than the withdrawal block and the rate has not
    decreased in between; and the depositor then gets back at least the
    deposit. *)
Theorem maximum_withdraw_spec output data_capacity hd hw dep wit ard arw cd cw sd sw ud uw occ :
  get_block_header store hd = Some dep -> get_block_header store hw = Some wit ->
  extract_dao_data (dao (HeaderView_raw dep)) = Ok (ard, cd, sd, ud) ->
  extract_dao_data (dao (HeaderView_raw wit)) = Ok (arw, cw, sw, uw) ->
  HeaderView_number dep < HeaderView_number wit ->
  CellOutput_occupied_capacity output data_capacity = Ok occ -> 0 <= occ <= capacity output ->
  is_u64 (capacity output) -> 0 < ard <= arw -> is_u64 arw ->
  occ + (capacity output - occ) * arw / ard < 2 ^ 64 ->
  calculate_maximum_withdraw store output data_capacity hd hw =
    Ok (occ + (capacity output - occ) * arw / ard) /\
  capacity output <= occ + (capacity output - occ) * arw / ard.
Proof.
  intros Hd Hw Hxd Hxw Hn Hocc Ho Hcap Har Hw64 Hfit.
  assert (0 <= (capacity output - occ) * arw) by (unfold in_range in *; nia).
  assert (0 <= (capacity output - occ) * arw / ard) by (apply Z.div_pos; lia).
  assert (capacity output - occ <= (capacity output - occ) * arw / ard)
    by (apply Z.div_le_lower_bound; [lia|nia]).
  split; [|lia]. unfold calculate_maximum_withdraw. rewrite Hd, Hw. step.
  destruct (Z.leb_spec (HeaderView_number wit) (HeaderView_number dep)); [lia|].
  rewrite Hxd, Hxw. cbn [guard_err mbind outcome_bind].
  assert (cap (CellOutput_occupied_capacity output data_capacity) = Ok occ) as -> by by apply cap_Ok.
  step. assert (cap (Capacity_safe_sub (capacity output) occ) = Ok (capacity output - occ)) as ->
    by (apply cap_Ok, safe_sub_Ok; split; [done|zlia]).
  step. unfold Capacity_as_u64, Capacity_shannons.
  assert (mul_div128 (E:=Error) (capacity output - occ) arw ard =
    Ok ((capacity output - occ) * arw / ard)) as ->
    by (apply mul_div128_Ok; split_and!; [unfold in_range in *; nia|lia|done]).
  step. rewrite Z.mod_small by lia. apply cap_Ok, safe_add_Ok. split; [lia|zlia].
Qed.
End withdraw.

(** A deposit of 2^63 shannons of free capacity and a rate that doubled. *)
Definition sample_deposit : Store :=
  set_block empty_store
    (<[[1] := sample_dao_header 1 [1] (pack_dao_data 100 1 0 0)]>
       {[ [2] := sample_dao_header 2 [2] (pack_dao_data 200 1 0 0) ]}) ∅ ∅ ∅.
Definition sample_output (c : Z) : CellOutput := mkCellOutput c (mkScript zero32 0 []) None.

Lemma maximum_withdraw_spec_witness :
  calculate_maximum_withdraw sample_deposit (sample_output 5100000000) 0 [1] [2] =
    Ok (4100000000 + 1000000000 * 200 / 100) /\
  5100000000 <= 4100000000 + 1000000000 * 200 / 100.
Proof.
  refine (maximum_withdraw_spec sample_deposit (sample_output 5100000000) 0 [1] [2]
    (sample_dao_header 1 [1] (pack_dao_data 100 1 0 0))
    (sample_dao_header 2 [2] (pack_dao_data 200 1 0 0)) 100 200 1 1 0 0 0 0 4100000000
    _ _ _ _ _ _ _ _ _ _ _); try reflexivity; unfold in_range; cbn; lia.
Defined.

(** The scaled part is cast with [as u64], which drops its high bits instead of
    reporting an overflow: a deposit of 2^63 + 41 CKB whose rate doubled is
    worth 2^64 + 41 CKB, and the computed maximum withdrawal is 41 CKB, less
    than the deposit. *)
Theorem maximum_withdraw_truncates :
  calculate_maximum_withdraw sample_deposit (sample_output (2 ^ 63 + 4100000000)) 0 [1] [2] =
    Ok 4100000000 /\
  (2 ^ 63 + 4100000000 - 4100000000) * 200 / 100 = 2 ^ 64.
Proof. split; vm_compute; reflexivity. Qed.
