(* ===== verification/Reward.v ===== *)
(** * Block rewards: src/util/reward-calculator/src/lib.rs, src/util/types/src/core/reward.rs

    The reward of a block, finalized [farthest + 1] blocks later: its primary and
    secondary issuance, the fees of its transactions minus the proposers' share,
    and the proposers' share of the transactions it proposed first. *)

From S2P Require Import Prelude Capacity NumExt Types Molecule Errors Epoch Cell Consensus Store.
From S2P Require Import Dao.

Record BlockReward := mkBlockReward {
  reward_total : Capacity;
  reward_primary : Capacity;
  reward_secondary : Capacity;
  reward_tx_fee : Capacity;
  reward_proposal : Capacity;
}.

Section calculator.
Context `{NumExt} (consensus : Consensus) (store : Store).

(** The shares of one fee: [tx_fee.safe_mul_ratio(ratio)] and the rest. *)
Definition txs_fees_step (acc tx_fee : Capacity) : CapacityResult Capacity :=
  proposer ← Capacity_safe_mul_ratio tx_fee (proposer_reward_ratio consensus);
  miner ← Capacity_safe_sub tx_fee proposer;
  Capacity_safe_add acc miner.

Definition txs_fees_of (target : HeaderView) : outcome Error Capacity :=
  target_ext ← expect (get_block_ext store (header_hash target));
  cap (try_fold txs_fees_step Capacity_zero (txs_fees target_ext)).

Definition get_proposal_ids_by_hash (h : Byte32) : gset bytes :=
  list_to_set (default [] (get_block_proposal_txs_ids store h)) ∪
  list_to_set (default [] ((fun us => uncles_data us ≫= uncle_proposals) <$> get_block_uncles store h)).

(** The closures [committed_idx_proc] and [txs_fees_proc]. *)
Definition committed_idx_proc (h : Byte32) : list ProposalShortId :=
  ProposalShortId_from_tx_hash <$> drop 1 (get_block_txs_hashes store h).
Definition txs_fees_proc (h : Byte32) : outcome Error (list Capacity) :=
  ext ← expect (get_block_ext store h);
  Ok (txs_fees ext).

(** The [for] loop over the committed transactions of a block: the state is the
    proposals of the target not yet matched, and the reward. *)
Definition reward_step (proposed : gset bytes) (st : gset bytes * Capacity)
    (committed : ProposalShortId * Capacity) : outcome Error (gset bytes * Capacity) :=
  let '(target_proposals, reward) := st in
  let '(id, tx_fee) := committed in
  if decide (id ∈ target_proposals) then
    let target_proposals := target_proposals ∖ {[id]} in
    if decide (id ∈ proposed) then Ok (target_proposals, reward)
    else
      share ← cap (Capacity_safe_mul_ratio tx_fee (proposer_reward_ratio consensus));
      reward ← cap (Capacity_safe_add reward share);
      Ok (target_proposals, reward)
  else Ok (target_proposals, reward).
Definition reward_block (proposed : gset bytes) (h : Byte32) (st : gset bytes * Capacity) :
    outcome Error (gset bytes * Capacity) :=
  let committed_idx := committed_idx_proc h in
  let has_committed :=
    bool_decide (st.1 ∩ list_to_set committed_idx ≠ (∅ : gset bytes)) in
  if has_committed then
    fees ← txs_fees_proc h;
    try_fold (reward_step proposed) st (zip committed_idx fees)
  else Ok st.

(** The [while] loop, with fuel; [Ok None] is running out of it. *)
Fixpoint reward_loop (fuel : nat) (competing_commit_start : Z) (index : HeaderView)
    (proposed : gset bytes) (st : gset bytes * Capacity) : outcome Error (option Capacity) :=
  if competing_commit_start <? HeaderView_number index then
    match fuel with
    | O => Ok None
    | S fuel =>
        index ← expect (get_block_header store (HeaderView_parent_hash index));
        let competing_proposal_start :=
          Z.max (saturating_sub (HeaderView_number index)
                   (farthest (tx_proposal_window consensus))) 1 in
        previous_ids ←
          expect (get_proposal_ids_by_hash <$> get_block_hash store competing_proposal_start);
        let proposed := proposed ∪ previous_ids in
        st ← reward_block proposed (header_hash index) st;
        reward_loop fuel competing_commit_start index proposed st
    end
  else Ok (Some st.2).

Definition proposal_reward (parent target : HeaderView) : outcome Error (option Capacity) :=
  let target_proposals := get_proposal_ids_by_hash (header_hash target) in
  block_number ← u64_add (HeaderView_number parent) 1;
  len ← ProposalWindow_length (tx_proposal_window consensus);
  first ← u64_add 1 (closest (tx_proposal_window consensus));
  let competing_commit_start := Z.max (saturating_sub block_number len) first in
  st ← reward_block ∅ (header_hash parent) (target_proposals, Capacity_zero);
  reward_loop (Z.to_nat (HeaderView_number parent)) competing_commit_start parent ∅ st.

Definition base_block_reward_parts (target : HeaderView) : outcome Error (Capacity * Capacity) :=
  primary ← primary_block_reward store target;
  secondary ← secondary_block_reward consensus store target;
  Ok (primary, secondary).

Definition block_reward_internal (target parent : HeaderView) :
    outcome Error (option (Script * BlockReward)) :=
  cellbase ← expect (get_cellbase store (header_hash target));
  witness ← expect (TransactionView_witnesses cellbase !! 0%nat);
  cellbase_witness ← expect (from_slice (A:=CellbaseWitness) witness);
  let target_lock := cw_lock cellbase_witness in
  fees ← txs_fees_of target;
  proposal ← proposal_reward parent target;
  match proposal with
  | None => Ok None
  | Some proposal =>
      '(primary, secondary) ← base_block_reward_parts target;
      total ← cap (t ← Capacity_safe_add fees proposal; Capacity_safe_add t primary);
      total ← cap (Capacity_safe_add total secondary);
      Ok (Some (target_lock, mkBlockReward total primary secondary fees proposal))
  end.

Definition block_reward_to_finalize (parent : HeaderView) :
    outcome Error (option (Script * BlockReward)) :=
  block_number ← u64_add (HeaderView_number parent) 1;
  t ← finalize_target consensus block_number;
  target_number ← expect t;
  target ← expect (get_block_hash store target_number ≫= get_block_header store);
  block_reward_internal target parent.

Definition block_reward_for_target (target : HeaderView) :
    outcome Error (option (Script * BlockReward)) :=
  delay ← finalization_delay_length consensus;
  x ← u64_add (HeaderView_number target) delay;
  finalization_parent_number ← u64_sub x 1;
  parent ← expect (get_block_hash store finalization_parent_number ≫= get_block_header store);
  block_reward_internal target parent.

End calculator.

(** ** Fees are split without loss *)

Definition proposer_share (r : Ratio) (fee : Z) : Z := fee * Ratio_numer r / Ratio_denom r.

Lemma proposer_share_bounds r fee :
  0 <= Ratio_numer r <= Ratio_denom r -> 0 < Ratio_denom r -> 0 <= fee ->
  0 <= proposer_share r fee <= fee.
Proof.
  intros Hn Hd Hf. unfold proposer_share. split; [apply Z.div_pos; nia|].
  apply Z.div_le_upper_bound; nia.
Qed.

Section fees.
Context (consensus : Consensus).
Let r := proposer_reward_ratio consensus.
Hypothesis Hratio : 0 <= Ratio_numer r <= Ratio_denom r /\ 0 < Ratio_denom r.

Lemma txs_fees_fold fees acc :
  0 <= acc -> Forall (fun f => 0 <= f /\ f * Ratio_numer r < 2 ^ 64 /\ f < 2 ^ 64) fees ->
  acc + sumZ fees < 2 ^ 64 ->
  try_fold (txs_fees_step consensus) acc fees =
    Ok (acc + sumZ ((fun f => f - proposer_share r f) <$> fees)).
Proof.
  intros Ha Hf. revert acc Ha. induction Hf as [|f fees (Hf0 & Hmul & Hf64) Hfs IH];
    intros acc Ha Hs; csimpl.
  - by rewrite Z.add_0_r.
  - simpl in Hs. destruct (proposer_share_bounds r f) as [? ?]; [lia..|].
    assert (0 <= sumZ fees) by (apply sumZ_nonneg; eapply Forall_impl; [done|]; naive_solver).
    unfold txs_fees_step at 2. fold r.
    assert (Capacity_safe_mul_ratio f r = Ok (proposer_share r f)) as ->.
    { apply safe_mul_ratio_Ok. split_and!; [unfold in_range; nia|lia|done]. }
    step. assert (Capacity_safe_sub f (proposer_share r f) = Ok (f - proposer_share r f)) as ->
      by (apply safe_sub_Ok; split; [done|zlia]).
    step. assert (Capacity_safe_add acc (f - proposer_share r f) =
      Ok (acc + (f - proposer_share r f))) as -> by (apply safe_add_Ok; split; [done|zlia]).
    step. rewrite IH by lia. f_equal. lia.
Qed.

(** The fees of a block are split between its miner and the proposers without
    loss: the miner's part the code computes plus the proposers' shares
    [fee * numer / denom] of all its transactions is the sum of the fees. *)
Theorem fees_split_exactly (store : Store) (target : HeaderView) (ext : BlockExt) :
  get_block_ext store (header_hash target) = Some ext ->
  Forall (fun f => 0 <= f /\ f * Ratio_numer r < 2 ^ 64) (txs_fees ext) ->
  sumZ (txs_fees ext) < 2 ^ 64 ->
  exists miner, txs_fees_of consensus store target = Ok miner /\
    miner + sumZ (proposer_share r <$> txs_fees ext) = sumZ (txs_fees ext).
Proof.
  intros He Hf Hs. unfold txs_fees_of. rewrite He. step. eexists. split.
  - apply cap_Ok, txs_fees_fold; [done| |done].
    clear -Hf Hs. induction Hf as [|f fees Hf Hfs IH]; [constructor|]. simpl in Hs.
    assert (0 <= sumZ fees) by (apply sumZ_nonneg; eapply Forall_impl; [done|]; naive_solver).
    constructor; [lia|]. apply IH. lia.
  - clear. unfold Capacity_zero. induction (txs_fees ext) as [|f fees IH]; csimpl; lia.
Qed.
End fees.

Definition sample_fees : Store :=
  insert_block_ext empty_store [5] (mkBlockExt 0 0 0 None [100; 33; 7]).
Lemma fees_split_exactly_witness :
  exists miner, txs_fees_of sample_consensus sample_fees sample_parent = Ok miner /\
    miner + sumZ (proposer_share PROPOSER_REWARD_RATIO <$> [100; 33; 7]) = sumZ [100; 33; 7].
Proof.
  refine (fees_split_exactly sample_consensus _ sample_fees sample_parent
    (mkBlockExt 0 0 0 None [100; 33; 7]) _ _ _).
  - simpl. lia.
  - reflexivity.
  - simpl. repeat constructor; lia.
  - simpl. lia.
Defined.

(** ** Termination *)

(** Stored headers are numbered along the parent links. *)
Definition numbered (store : Store) : Prop :=
  forall h hd p, get_block_header store h = Some hd ->
    get_block_header store (HeaderView_parent_hash hd) = Some p ->
    HeaderView_number p = HeaderView_number hd - 1.

Lemma reward_loop_fuel consensus store fuel start h index proposed st :
  numbered store -> get_block_header store h = Some index ->
  HeaderView_number index - start <= Z.of_nat fuel ->
  reward_loop consensus store fuel start index proposed st <> Ok None.
Proof.
  intros Hnum. revert h index proposed st. induction fuel as [|fuel IH];
    intros h index proposed st Hi Hf; cbn [reward_loop].
  - destruct (Z.ltb_spec start (HeaderView_number index)); [lia|done].
  - destruct (Z.ltb_spec start (HeaderView_number index)); [|done].
    destruct (get_block_header store (HeaderView_parent_hash index)) as [p|] eqn:Ep; [|done]. step.
    destruct (get_proposal_ids_by_hash store <$> _) as [ids|]; [|done]. step.
    destruct (reward_block _ _ _ _ _) as [st'| |]; step; try done.
    apply (IH (HeaderView_parent_hash index)); [done|]. rewrite (Hnum _ _ _ Hi Ep). lia.
Qed.


