(* ===== verification/ProposalTable.v ===== *)
(** * The proposal table: src/util/proposal-table/src/lib.rs

    The table of the proposals of the recent main chain blocks, from which the
    chain service derives the proposals that may be committed in the next block
    ([set]) and those that may be committed soon ([gap]). *)

From S2P Require Import Prelude Capacity NumExt Types Errors Epoch Consensus.

Record ProposalView := mkProposalView { gap : gset bytes; set : gset bytes }.
Definition ProposalView_contains_proposed (v : ProposalView) (id : bytes) : bool :=
  bool_decide (id ∈ set v).
Definition ProposalView_contains_gap (v : ProposalView) (id : bytes) : bool :=
  bool_decide (id ∈ gap v).

Record ProposalTable := mkProposalTable {
  table : gmap Z (gset bytes);
  proposal_window : ProposalWindow;
}.

Definition ProposalTable_new (w : ProposalWindow) : ProposalTable := mkProposalTable ∅ w.
Definition ProposalTable_insert (t : ProposalTable) (number : Z) (ids : gset bytes) :
    bool * ProposalTable :=
  (bool_decide (table t !! number = None),
   mkProposalTable (<[number := ids]> (table t)) (proposal_window t)).
Definition ProposalTable_remove (t : ProposalTable) (number : Z) :
    option (gset bytes) * ProposalTable :=
  (table t !! number, mkProposalTable (delete number (table t)) (proposal_window t)).

(** [BTreeMap::range(..).map(|p| p.1).flatten().collect::<HashSet<_>>()]: the ids of
    the rows whose number satisfies the bounds. *)
Definition range_ids (bounds : Z -> bool) (t : gmap Z (gset bytes)) : gset bytes :=
  ⋃ (snd <$> filter (fun kv => bounds kv.1 = true) (map_to_list t)).

(** [BTreeMap::split_off]: the rows from [start] on. *)
Definition split_off (t : gmap Z (gset bytes)) (start : Z) : gmap Z (gset bytes) :=
  filter (fun kv => start <= kv.1) t.

(** [finalize]: the ids that are no longer proposed, the new view, and the table
    with the rows below the window dropped.  [BTreeMap::range] panics when the
    start of the range is after its end. *)
Definition ProposalTable_finalize {E} (t : ProposalTable) (origin : ProposalView) (number : Z) :
    outcome E (gset bytes * ProposalView * ProposalTable) :=
  candidate_number ← u64_add number 1;
  let proposal_start := saturating_sub candidate_number (farthest (proposal_window t)) in
  let proposal_end := saturating_sub candidate_number (closest (proposal_window t)) in
  let table' := if 1 <? proposal_start then split_off (table t) proposal_start else table t in
  '(new_ids, gap) ←
    (if candidate_number <=? closest (proposal_window t) then
       Ok (∅, range_ids (fun k => k <=? number) table')
     else
       if (proposal_end <? proposal_start) || (number <? proposal_end) then Panic
       else
         Ok (range_ids (fun k => (proposal_start <=? k) && (k <=? proposal_end)) table',
             range_ids (fun k => (proposal_end <? k) && (k <=? number)) table'));
  let removed_ids := set origin ∖ new_ids in
  Ok (removed_ids, mkProposalView gap new_ids, mkProposalTable table' (proposal_window t)).

(** ** Correctness *)

Lemma elem_of_range_ids bounds t id :
  id ∈ range_ids bounds t <-> exists k ids, t !! k = Some ids /\ bounds k = true /\ id ∈ ids.
Proof.
  unfold range_ids. rewrite elem_of_union_list. setoid_rewrite list_elem_of_fmap. split.
  - intros (ids & ([k ids'] & -> & [Hb Hk]%list_elem_of_filter) & Hid).
    exists k, ids'. split_and!; [by apply elem_of_map_to_list|done|done].
  - intros (k & ids & Hk & Hb & Hid). exists ids. split; [|done].
    exists (k, ids). split; [done|]. apply list_elem_of_filter.
    split; [done|by apply elem_of_map_to_list].
Qed.

Lemma lookup_split_off t start k ids :
  split_off t start !! k = Some ids <-> t !! k = Some ids /\ start <= k.
Proof. unfold split_off. by rewrite map_lookup_filter_Some. Qed.

(** The windows the chain specifications use. *)
Definition window_wf (w : ProposalWindow) : Prop := 1 <= closest w <= farthest w.

Lemma finalize_rows {E} t origin number :
  window_wf (proposal_window t) -> 0 <= number < 2 ^ 64 - 1 ->
  (forall k ids, table t !! k = Some ids -> 1 <= k) ->
  exists removed view t',
    ProposalTable_finalize (E:=E) t origin number = Ok (removed, view, t') /\
    (forall id, id ∈ set view <-> exists k ids, table t !! k = Some ids /\ id ∈ ids /\
       number + 1 - farthest (proposal_window t) <= k <= number + 1 - closest (proposal_window t)) /\
    (forall id, id ∈ gap view <-> exists k ids, table t !! k = Some ids /\ id ∈ ids /\
       number + 1 - closest (proposal_window t) < k <= number) /\
    removed = set origin ∖ set view /\
    (forall k, number + 1 - farthest (proposal_window t) <= k -> table t' !! k = table t !! k) /\
    proposal_window t' = proposal_window t.
Proof.
  intros [Hc Hf] Hn Hpos. unfold ProposalTable_finalize, u64_add.
  rewrite fit_in_range by zlia. step.
  set (start := saturating_sub (number + 1) (farthest (proposal_window t))).
  set (end_ := saturating_sub (number + 1) (closest (proposal_window t))).
  set (t' := if 1 <? start then split_off (table t) start else table t).
  assert (forall k ids, t' !! k = Some ids <-> table t !! k = Some ids /\ start <= k) as Ht'.
  { intros k ids. subst t'. destruct (Z.ltb_spec 1 start); [apply lookup_split_off|].
    split; [|naive_solver]. intros Hk. split; [done|]. apply Hpos in Hk. lia. }
  assert (forall k, number + 1 - farthest (proposal_window t) <= k -> t' !! k = table t !! k)
    as Hkeep.
  { intros k Hk. apply option_eq. intros ids. rewrite Ht'. split; [naive_solver|].
    intros Hki. split; [done|]. apply Hpos in Hki. subst start. zlia. }
  destruct (Z.leb_spec (number + 1) (closest (proposal_window t))).
  - do 3 eexists. split; [reflexivity|]. cbn [set gap table proposal_window].
    split_and!; try done; intros id.
    + split; [set_solver|]. intros (k & ids & Hk & _ & ?). apply Hpos in Hk. lia.
    + rewrite elem_of_range_ids. setoid_rewrite Ht'. setoid_rewrite Z.leb_le. split.
      * intros (k & ids & [Hk ?] & ? & ?). exists k, ids. pose proof (Hpos _ _ Hk). naive_solver lia.
      * intros (k & ids & Hk & ? & ?). exists k, ids. pose proof (Hpos _ _ Hk).
        subst start. split_and!; [done|zlia|lia|done].
  - destruct ((end_ <? start) || (number <? end_)) eqn:E1.
    { exfalso. apply orb_prop in E1 as [E1|E1]; apply Z.ltb_lt in E1; subst start end_; zlia. }
    do 3 eexists. split; [reflexivity|]. cbn [set gap table proposal_window].
    split_and!; try done; intros id; rewrite elem_of_range_ids; setoid_rewrite Ht';
      setoid_rewrite andb_true_iff; setoid_rewrite Z.leb_le; try setoid_rewrite Z.ltb_lt; split.
    + intros (k & ids & [Hk ?] & ? & ?). exists k, ids. subst start end_. split_and!; try done; zlia.
    + intros (k & ids & Hk & ? & ?). exists k, ids. pose proof (Hpos _ _ Hk).
      subst start end_. split_and!; try done; zlia.
    + intros (k & ids & [Hk ?] & ? & ?). exists k, ids. subst start end_. split_and!; try done; zlia.
    + intros (k & ids & Hk & ? & ?). exists k, ids. pose proof (Hpos _ _ Hk).
      subst start end_. split_and!; try done; zlia.
Qed.

(** After block [number], the proposals that may be committed next are exactly
    those in the rows [number + 1 - farthest .. number + 1 - closest], and the gap
    those of the later rows up to [number], so that an id is in neither when it
    was proposed only outside the window; the removed ids are those of the old
    set that are no longer proposed; finalizing the next block sees the same rows
    as if nothing had been dropped; and the operation cannot panic. *)
Theorem finalize_spec {E} t origin number :
  window_wf (proposal_window t) -> 0 <= number < 2 ^ 64 - 1 ->
  (forall k ids, table t !! k = Some ids -> 1 <= k) ->
  exists removed view t',
    ProposalTable_finalize (E:=E) t origin number = Ok (removed, view, t') /\
    (forall id, id ∈ set view <-> exists k ids, table t !! k = Some ids /\ id ∈ ids /\
       number + 1 - farthest (proposal_window t) <= k <= number + 1 - closest (proposal_window t)) /\
    (forall id, id ∈ gap view <-> exists k ids, table t !! k = Some ids /\ id ∈ ids /\
       number + 1 - closest (proposal_window t) < k <= number) /\
    (forall id, id ∈ removed <-> id ∈ set origin /\ id ∉ set view) /\
    (forall k, number + 1 - farthest (proposal_window t) <= k -> table t' !! k = table t !! k) /\
    proposal_window t' = proposal_window t.
Proof.
  intros Hw Hn Hpos. destruct (finalize_rows (E:=E) t origin number Hw Hn Hpos)
    as (removed & view & t' & Hf & Hset & Hgap & -> & Hkeep & Hwin).
  exists (set origin ∖ set view), view, t'. split_and!; try done. set_solver.
Qed.

Definition sample_table : ProposalTable :=
  mkProposalTable {[ 3 := {[ [1] ]}; 9 := {[ [2] ]}; 12 := {[ [3] ]} ]} TX_PROPOSAL_WINDOW.
Lemma finalize_spec_witness :
  exists removed view t',
    ProposalTable_finalize (E:=unit) sample_table (mkProposalView ∅ {[ [1] ]}) 12
      = Ok (removed, view, t') /\
    (forall id, id ∈ removed <-> id ∈ ({[ [1] ]} : gset bytes) /\ id ∉ set view).
Proof.
  destruct (finalize_spec (E:=unit) sample_table (mkProposalView ∅ {[ [1] ]}) 12)
    as (removed & view & t' & Hf & _ & _ & Hr & _).
  - vm_compute. split; discriminate.
  - lia.
  - intros k ids. unfold sample_table; cbn [table]. rewrite !lookup_insert_Some, lookup_singleton_Some.
    intros; destruct_or?; destruct_and?; lia.
  - exists removed, view, t'. exact (conj Hf Hr).
Defined.
