(* ===== verification/CellTwins.v ===== *)
(** * The same cells from two providers

    The block assembler resolves the transactions of a template against the
    transactions themselves ([TransactionsProvider]), the chain service those of a
    block against the block ([BlockCellProvider]).  The cells of the first lack the
    place of their transaction; [resolve_twins] shows that everything the first
    resolves the second resolves as well, and [dao_field_twins] that the DAO fields
    agree. *)

From S2P Require Import Prelude Capacity NumExt Rational Difficulty Types Molecule BlockCodec.
From S2P Require Import Errors Epoch Cell Consensus Hashes Store Dao.

(** The cell [m'] is [m], or it is the cell [m] of a block past the genesis block. *)
Definition twin (m m' : CellMeta) : Prop :=
  m = m' \/
  cell_output m' = cell_output m /\ data_bytes m' = data_bytes m /\
  mem_cell_data m' = mem_cell_data m /\ is_Some (mem_cell_data m) /\
  transaction_info m = None /\ exists info, transaction_info m' = Some info /\ info_block_number info <> 0.
Record rtx_twin (r r' : ResolvedTransaction) : Prop := {
  rt_transaction : transaction r' = transaction r;
  rt_cell_deps : Forall2 twin (resolved_cell_deps r) (resolved_cell_deps r');
  rt_inputs : Forall2 twin (resolved_inputs r) (resolved_inputs r');
  rt_dep_groups : Forall2 twin (resolved_dep_groups r) (resolved_dep_groups r');
}.

#[export] Instance twin_refl : Reflexive twin.
Proof. by left. Qed.
Lemma twins_refl l : Forall2 twin l l.
Proof. by apply Forall_Forall2_diag, Forall_true. Qed.
Lemma twin_mem m m' : twin m m' -> mem_cell_data m' = mem_cell_data m.
Proof. by intros [->|(_ & _ & ? & _)]. Qed.

(** ** Resolution *)

Section resolve.
Context (system_cell : option (gmap CellDep ResolvedDep)) (cp cp' : CellProvider).
Context (hc hc' : HeaderChecker).

Inductive status_twin : CellStatus -> CellStatus -> Prop :=
  | twin_live m m' : twin m m' -> status_twin (CellStatus_Live m) (CellStatus_Live m')
  | twin_dead : status_twin CellStatus_Dead CellStatus_Dead
  | twin_unknown : status_twin CellStatus_Unknown CellStatus_Unknown.
Hypothesis provider_twin : forall o wd s, cp o wd = Ok s -> exists s', cp' o wd = Ok s' /\ status_twin s s'.
Hypothesis checker_twin : forall h, hc h = Ok tt -> hc' h = Ok tt.

Definition resolver_twin (r r' : CellResolver) : Prop :=
  forall o wd unk m unk', r o wd unk = Ok (m, unk') ->
    exists m', r' o wd unk = Ok (m', unk') /\ option_Forall2 twin m m'.

Lemma resolve_cell_twin seen : resolver_twin (resolve_cell seen cp) (resolve_cell seen cp').
Proof.
  intros o wd unk m unk'. unfold resolve_cell. case_decide; [done|]. intros (s & Hs & Hr)%bind_Ok.
  destruct (provider_twin _ _ _ Hs) as (s' & -> & Ht). inversion Ht as [x x' Hm| |]; subst; simplify_eq; step.
  - exists (Some x'). split; [done|by constructor].
  - exists None. split; [done|constructor].
Qed.

Lemma push_some_twin l l' m m' :
  Forall2 twin l l' -> option_Forall2 twin m m' -> Forall2 twin (push_some l m) (push_some l' m').
Proof. intros Hl [x x' Hx|]; cbn; [|done]. by apply Forall2_app; [|constructor]. Qed.

Context (r r' : CellResolver) (Hr : resolver_twin r r').

Lemma dep_group_twin o unk g unk' :
  resolve_dep_group r o unk = Ok (g, unk') ->
  exists g', resolve_dep_group r' o unk = Ok (g', unk') /\
    option_Forall2 (fun a b => twin a.1 b.1 /\ Forall2 twin a.2 b.2) g g'.
Proof.
  unfold resolve_dep_group. intros Hg. apply bind_Ok in Hg as ([[c|] u] & Hc & Hg);
    destruct (Hr _ _ _ _ _ Hc) as (m' & -> & Hm'); inversion Hm' as [? c' Hcc|]; subst; step.
  2: { simplify_eq. exists None. split; [done|constructor]. }
  apply bind_Ok in Hg as (data & Hd%expect_Ok & Hg). rewrite (twin_mem _ _ Hcc), Hd. step.
  apply bind_Ok in Hg as (subs & -> & Hg). step. apply bind_Ok in Hg as ([deps u'] & Hf & Hg). simplify_eq.
  eapply (try_fold_sim (fun a b => Forall2 twin a.1 b.1 /\ a.2 = b.2) eq) in Hf as ([deps' u2] & -> & Hd' & Hu2).
  - cbn in Hd', Hu2. subst u2. step. exists (Some (c', deps')). split; [done|]. by constructor.
  - done.
  - by apply Forall_Forall2_diag, Forall_true.
  - intros [d1 u1] [d1' u1'] sub ? [d2 u2] [Hd1 Hu1] <- Hs. cbn in Hd1, Hu1. subst u1'.
    apply bind_Ok in Hs as ([m u3] & Hm & Hs). simplify_eq.
    destruct (Hr _ _ _ _ _ Hm) as (m2 & -> & Hm2). step. exists (push_some d1' m2, u2). split; [done|].
    by split; [apply push_some_twin|].
Qed.

Record deps_twin (st st' : DepsState) : Prop := {
  dt_cell_deps : Forall2 twin (ds_cell_deps st) (ds_cell_deps st');
  dt_dep_groups : Forall2 twin (ds_dep_groups st) (ds_dep_groups st');
  dt_unknown : ds_unknown st' = ds_unknown st;
}.
Lemma resolve_dep_twin st st' d x :
  deps_twin st st' -> resolve_transaction_dep r st d = Ok x ->
  exists x', resolve_transaction_dep r' st' d = Ok x' /\ deps_twin x x'.
Proof.
  intros [Hc Hg Hu] Hx. unfold resolve_transaction_dep in *. rewrite Hu. destruct (_ =? _).
  - apply bind_Ok in Hx as ([g u] & Hd & Hx). destruct (dep_group_twin _ _ _ _ Hd) as (g' & -> & Hgg). step.
    destruct Hgg as [[a b] [a' b'] [Ha Hb]|]; simplify_eq; eexists; (split; [done|]); split; cbn in *; try done.
    + by apply Forall2_app.
    + by apply Forall2_app; [|constructor].
  - apply bind_Ok in Hx as ([m u] & Hd & Hx). destruct (Hr _ _ _ _ _ Hd) as (m' & -> & Hm'). step. simplify_eq.
    eexists. split; [done|]. split; cbn; [by apply push_some_twin|done|done].
Qed.

Lemma resolve_deps_twin tx st st' x :
  deps_twin st st' -> resolve_transaction_deps_with_system_cell_cache system_cell r tx st = Ok x ->
  exists x', resolve_transaction_deps_with_system_cell_cache system_cell r' tx st' = Ok x' /\ deps_twin x x'.
Proof.
  intros Hst. unfold resolve_transaction_deps_with_system_cell_cache.
  destruct system_cell as [cells|]; apply (try_fold_sim deps_twin eq); try done; try by apply Forall_Forall2_diag, Forall_true.
  - intros s s' d ? y Hs <- Hy. destruct (cells !! d) as [[m|[g ms]]|]; [..|by eapply resolve_dep_twin];
      destruct Hs as [Hc Hg Hu]; simplify_eq; eexists; (split; [done|]); split; cbn; try done;
      apply Forall2_app; try done; apply twins_refl.
  - intros s s' d ? y Hs <- Hy. by eapply resolve_dep_twin.
Qed.

Lemma resolve_input_twin cur res res' unk o x :
  Forall2 twin res res' -> resolve_input r (cur, res, unk) o = Ok x ->
  exists x', resolve_input r' (cur, res', unk) o = Ok x' /\
    x'.1.1 = x.1.1 /\ Forall2 twin x.1.2 x'.1.2 /\ x'.2 = x.2.
Proof.
  intros Hres. unfold resolve_input. case_decide; [done|]. intros ([m u] & Hm & Hx)%bind_Ok.
  destruct (Hr _ _ _ _ _ Hm) as (m' & -> & Hm'). step. simplify_eq. eexists. split; [done|]. cbn.
  split_and!; [done|by apply push_some_twin|done].
Qed.
End resolve.

Section transactions.
Context (system_cell : option (gmap CellDep ResolvedDep)) (cp cp' : CellProvider).
Context (hc hc' : HeaderChecker).
Hypothesis provider_twin : forall o wd s, cp o wd = Ok s -> exists s', cp' o wd = Ok s' /\ status_twin s s'.
Hypothesis checker_twin : forall h, hc h = Ok tt -> hc' h = Ok tt.

Lemma resolve_inputs_twin seen tx cur res unk :
  (if negb (TransactionView_is_cellbase tx)
   then try_fold (resolve_input (resolve_cell seen cp)) (∅, [], []) (TransactionView_input_pts_iter tx)
   else Ok (∅, [], [])) = Ok (cur, res, unk) ->
  exists res', (if negb (TransactionView_is_cellbase tx)
   then try_fold (resolve_input (resolve_cell seen cp')) (∅, [], []) (TransactionView_input_pts_iter tx)
   else Ok (∅, [], [])) = Ok (cur, res', unk) /\ Forall2 twin res res'.
Proof.
  destruct (negb _); [|intros [= <- <- <-]; by exists []]. intros Hf.
  apply (try_fold_sim (fun a b => b.1.1 = a.1.1 /\ Forall2 twin a.1.2 b.1.2 /\ b.2 = a.2) eq _
    (resolve_input (resolve_cell seen cp')) _ (∅, [], []) _ (TransactionView_input_pts_iter tx)) in Hf
    as ([[cur' res'] unk'] & Hf & Hcur & Hres & Hunk); [|done|by apply Forall_Forall2_diag, Forall_true|].
  - cbn in Hcur, Hres, Hunk. subst. by exists res'.
  - intros [[c1 r1] u1] [[c2 r2] u2] o ? y (Hc & Hr & Hu) <- Hy. cbn in Hc, Hr, Hu. subst c2 u2.
    eapply resolve_input_twin; [by apply resolve_cell_twin|done|done].
Qed.

Lemma resolve_transaction_twin tx seen rtx seen' :
  resolve_transaction system_cell tx seen cp hc = Ok (rtx, seen') ->
  exists rtx', resolve_transaction system_cell tx seen cp' hc' = Ok (rtx', seen') /\ rtx_twin rtx rtx'.
Proof.
  unfold resolve_transaction. intros Hr. apply bind_Ok in Hr as ([[cur res] unk] & Hi & Hr).
  apply resolve_inputs_twin in Hi as (res' & -> & Hres). step.
  apply bind_Ok in Hr as (deps & Hd & Hr).
  eapply resolve_deps_twin in Hd as (deps' & -> & [Hcd Hdg Hu]); [|by apply resolve_cell_twin|by split; constructor].
  step. apply bind_Ok in Hr as ([] & Hh%try_for_each_Ok & Hr).
  rewrite (proj2 (try_for_each_Ok hc' _ tt)) by (eapply Forall_impl; [exact Hh|done]). step. rewrite Hu.
  destruct (ds_unknown deps); simplify_eq. eexists. split; [done|]. by split.
Qed.

(** Transactions that resolve against one provider resolve against the other. *)
Lemma resolve_twins txs seen rtxs seen' :
  resolve_transactions system_cell cp hc seen txs = Ok (rtxs, seen') ->
  exists rtxs', resolve_transactions system_cell cp' hc' seen txs = Ok (rtxs', seen') /\
    Forall2 rtx_twin rtxs rtxs'.
Proof.
  unfold resolve_transactions. intros Hf.
  eapply (try_fold_sim (fun a b => Forall2 rtx_twin a.1 b.1 /\ b.2 = a.2) eq) in Hf as ([rtxs' s'] & Hf & Hr & Hs).
  - cbn in Hr, Hs. subst s'. by exists rtxs'.
  - by split; [constructor|].
  - by apply Forall_Forall2_diag, Forall_true.
  - intros [l1 s1] [l2 s2] tx ? y [Hl Hs] <- Hy. cbn in Hl, Hs. subst s2.
    apply bind_Ok in Hy as ([rtx s3] & Hx & Hy). simplify_eq.
    apply resolve_transaction_twin in Hx as (rtx' & -> & Hx). step. eexists. split; [done|]. split; [|done].
    by apply Forall2_app; [|constructor].
Qed.
End transactions.

(** ** The DAO field *)

Section dao.
Context `{NumExt} (calc_data_hash : bytes -> Byte32) (consensus : Consensus) (store : Store).

Lemma occupied_twin m m' :
  twin m m' -> modified_occupied_capacity m consensus = modified_occupied_capacity m' consensus.
Proof.
  intros [->|(Ho & Hd & _ & _ & Hi & info & Hi' & Hn)]; [done|]. unfold modified_occupied_capacity.
  rewrite Hi, Hi'. unfold TransactionInfo_is_genesis. rewrite (proj2 (Z.eqb_neq _ _) Hn). cbn.
  unfold CellMeta_occupied_capacity. by rewrite Ho, Hd.
Qed.

Lemma withdrawing_twin m m' :
  twin m m' -> is_withdrawing_input calc_data_hash store m' = is_withdrawing_input calc_data_hash store m.
Proof.
  intros [->|(_ & _ & Hm & [d Hd] & _)]; [done|]. unfold is_withdrawing_input, load_cell_data.
  by rewrite Hm, Hd.
Qed.

Lemma input_withdraw_twin r r' i m m' c :
  rtx_twin r r' -> twin m m' ->
  input_maximum_withdraw calc_data_hash consensus store r i m = Ok c ->
  input_maximum_withdraw calc_data_hash consensus store r' i m' = Ok c.
Proof.
  intros Hr Hm. unfold input_maximum_withdraw. rewrite (withdrawing_twin _ _ Hm), (rt_transaction _ _ Hr).
  destruct Hm as [->|(Ho & Hd & _ & _ & Hi & _)]; [done|]. rewrite Ho.
  intros (b & -> & Hc)%bind_Ok. step. destruct (b && _); [|done]. rewrite Hi in Hc. done.
Qed.

Lemma withdraw_twin r r' c :
  rtx_twin r r' -> transaction_maximum_withdraw calc_data_hash consensus store r = Ok c ->
  transaction_maximum_withdraw calc_data_hash consensus store r' = Ok c.
Proof.
  intros Hr. unfold transaction_maximum_withdraw. apply try_fold_mono.
  eapply Forall2_impl; [apply Forall2_enumerate, (rt_inputs _ _ Hr)|]. cbn.
  intros [i m] [j m'] [Hij Hm] x y (w & Hw & Hy)%bind_Ok. cbn in Hij, Hm. subst j.
  by rewrite (input_withdraw_twin _ _ _ _ _ _ Hr Hm Hw).
Qed.

Lemma interests_twin rs rs' c :
  Forall2 rtx_twin rs rs' -> withdrawed_interests calc_data_hash consensus store rs = Ok c ->
  withdrawed_interests calc_data_hash consensus store rs' = Ok c.
Proof.
  intros Hrs. unfold withdrawed_interests. intros (w & Hw & Hc)%bind_Ok. apply bind_Ok in Hc as (ic & Hic & Hc).
  eapply try_fold_mono in Hw as ->.
  - step. apply cap_Ok in Hic. eapply try_fold_mono in Hic as Hic'; [rewrite (proj2 (cap_Ok _ _) Hic'); step; exact Hc|].
    eapply Forall2_impl; [exact Hrs|]. intros r r' Hr x y (t & Ht & Hy)%bind_Ok.
    eapply try_fold_mono in Ht as ->; [done|]. eapply Forall2_impl; [apply (rt_inputs _ _ Hr)|].
    intros m m' [->|(Ho & _)] a b; [done|]. by rewrite Ho.
  - eapply Forall2_impl; [exact Hrs|]. intros r r' Hr x y (t & Ht & Hy)%bind_Ok. by rewrite (withdraw_twin _ _ _ Hr Ht).
Qed.

(** The DAO field of a block does not see the difference. *)
Lemma dao_field_twins rs rs' parent d :
  Forall2 rtx_twin rs rs' -> dao_field calc_data_hash consensus store rs parent = Ok d ->
  dao_field calc_data_hash consensus store rs' parent = Ok d.
Proof.
  intros Hrs. unfold dao_field. intros (freed & Hf & Hd)%bind_Ok.
  apply bind_Ok in Hd as (added & Ha & Hd). apply bind_Ok in Hd as (interests & Hi & Hd).
  eapply try_fold_mono in Hf as ->; [step|].
  - assert (added_occupied_capacities rs' = Ok added) as ->.
    { unfold added_occupied_capacities in *. apply cap_Ok in Ha. apply cap_Ok. revert Ha. apply try_fold_mono.
      eapply Forall2_impl; [exact Hrs|]. intros r r' Hr x y. by rewrite (rt_transaction _ _ Hr). }
    step. rewrite (interests_twin _ _ _ Hrs Hi). step. exact Hd.
  - eapply Forall2_impl; [exact Hrs|]. intros r r' Hr x y (c & Hc & Hy)%bind_Ok.
    unfold input_occupied_capacities in *. apply cap_Ok in Hc. eapply try_fold_mono in Hc as Hc'.
    + rewrite (proj2 (cap_Ok _ _) Hc'). step. exact Hy.
    + eapply Forall2_impl; [apply (rt_inputs _ _ Hr)|]. intros m m' Hm a b. by rewrite (occupied_twin _ _ Hm).
Qed.
End dao.

(** ** The providers *)

(** The transactions [txs] as the fields of the view of a block. *)
Record transactions_of (b : BlockView) (txs : list TransactionView) : Prop := {
  to_data : block_transactions (block_data b) = tx_data <$> txs;
  to_hashes : block_tx_hashes b = tx_hash <$> txs;
  to_witness_hashes : block_tx_witness_hashes b = tx_witness_hash <$> txs;
}.
Lemma transactions_of_view b txs : transactions_of b txs -> BlockView_transactions b = txs.
Proof.
  intros [Hd Hh Hw]. unfold BlockView_transactions. rewrite Hd, Hh, Hw. clear.
  induction txs as [|[d h w] txs IH]; [done|]. rewrite !fmap_cons. cbn [zip zip_with fmap list_fmap]. f_equal. exact IH.
Qed.
Lemma transactions_of_lookup {E : Type} b txs i tx :
  transactions_of b txs -> txs !! i = Some tx -> BlockView_transaction (E:=E) b i = Ok (Some tx).
Proof.
  intros [Hd Hh Hw] Hi. unfold BlockView_transaction. rewrite Hd, Hh, Hw, !list_lookup_fmap, Hi. by destruct tx.
Qed.

Lemma transactions_provider_lookup txs h tx :
  NoDup (tx_hash <$> txs) -> TransactionsProvider_new txs !! h = Some tx <-> tx ∈ txs /\ tx_hash tx = h.
Proof.
  intros Hnd. unfold TransactionsProvider_new, TransactionsProvider. rewrite collect_map_lookup.
  - rewrite list_elem_of_fmap. split; [intros (t & [= -> ->] & ?); by split|]. intros [? <-]. by exists tx.
  - rewrite <- list_fmap_compose. done.
Qed.

Lemma block_provider_twin calc b p txs base o wd s :
  transactions_of b txs -> NoDup (tx_hash <$> txs) -> BlockCellProvider_new b = Ok p -> BlockView_number b <> 0 ->
  OverlayCellProvider_cell (TransactionsProvider_cell calc (TransactionsProvider_new txs)) base o wd = Ok s ->
  exists s', OverlayCellProvider_cell (BlockCellProvider_cell calc p) base o wd = Ok s' /\ status_twin s s'.
Proof.
  intros Hb Hnd Hp Hn Hs. unfold BlockCellProvider_new in Hp. apply bind_Ok in Hp as ([] & _ & Hp).
  rewrite (transactions_of_view _ _ Hb) in Hp. change ((fun '(idx, tx) => (tx_hash tx, idx)) <$> enumerate txs)
    with (indices_of txs) in Hp. injection Hp as <-.
  unfold OverlayCellProvider_cell, TransactionsProvider_cell, BlockCellProvider_cell in *. cbn [output_indices bcp_block].
  assert (base o wd = Ok s -> exists s', base o wd = Ok s' /\ status_twin s s') as Hbase.
  { intros ->. exists s. split; [done|]. destruct s; constructor. reflexivity. }
  destruct (TransactionsProvider_new txs !! op_tx_hash o) as [tx|] eqn:Htx.
  - apply transactions_provider_lookup in Htx as [[i Hi]%list_elem_of_lookup Hh]; [|done].
    rewrite (proj2 (indices_lookup txs (op_tx_hash o) i Hnd)) by by exists tx.
    rewrite (transactions_of_lookup _ _ _ _ Hb Hi). step. unfold BlockView_output.
    rewrite (to_data _ _ Hb), list_lookup_fmap, Hi. cbn [option_fmap option_map fmap mbind option_bind].
    change (outputs (tx_raw (tx_data tx))) with (TransactionView_outputs tx).
    destruct (TransactionView_outputs tx !! _) as [cell|]; [|by apply Hbase].
    apply bind_Ok in Hs as (st & Hst & Hs). apply bind_Ok in Hst as (data & -> & Hst). simplify_eq. step.
    eexists. split; [done|]. constructor. right. cbn. split_and!; try done. by eexists.
  - assert (collect_map (indices_of txs) !! op_tx_hash o = None) as ->; [|by apply Hbase].
    apply eq_None_not_Some. intros [i (tx & Hi & Hh)%indices_lookup]; [|done].
    rewrite (proj2 (transactions_provider_lookup txs _ tx Hnd)) in Htx; [done|].
    split; [by eapply list_elem_of_lookup_2|done].
Qed.
