(* ===== verification/HeaderVerifier.v ===== *)
(** * Header verification: src/verification/src/header_verifier.rs,
    src/traits/src/block_median_time_context.rs

    [BlockMedianTimeContext] is the trait: what the verifiers ask of the chain to
    compute the median of the last timestamps.  The clock is an argument. *)

From stdpp Require Import sorting.
From S2P Require Import Prelude Capacity NumExt Difficulty Types Errors Epoch Cell Consensus.
From S2P Require Import Hashes.

(** ** Median time *)

(** The implementations [expect] the block to exist. *)
Record BlockMedianTimeContext := mkBlockMedianTimeContext {
  median_block_count : nat;
  timestamp_and_parent : Byte32 -> outcome Error (Z * Z * Byte32);
}.

(** The loop of [block_median_time]: the timestamps of the last blocks, from
    the given one back, at most [n] and not past the genesis block. *)
Fixpoint median_timestamps (ctx : BlockMedianTimeContext) (n : nat) (block_hash : Byte32) :
    outcome Error (list Z) :=
  match n with
  | O => Ok []
  | S n' =>
      r ← timestamp_and_parent ctx block_hash;
      let '(timestamp, block_number, parent_hash) := r in
      if block_number =? 0 then Ok [timestamp]
      else
        timestamps ← median_timestamps ctx n' parent_hash;
        Ok (timestamp :: timestamps)
  end.

Definition block_median_time (ctx : BlockMedianTimeContext) (block_hash : Byte32) :
    outcome Error Z :=
  timestamps ← median_timestamps ctx (median_block_count ctx) block_hash;
  let timestamps := merge_sort Z.le timestamps in
  expect (timestamps !! (length timestamps / 2)%nat).

(** ** The verifiers *)

Definition ALLOWED_FUTURE_BLOCKTIME : Z := 15 * 1000.

Definition VersionVerifier_verify (header : HeaderView) (block_version : Z) : outcome Error unit :=
  if negb (version (HeaderView_raw header) =? block_version) then Err (into BlockVersion) else Ok tt.

Definition TimestampVerifier_verify (ctx : BlockMedianTimeContext) (now : Z) (header : HeaderView) :
    outcome Error unit :=
  if HeaderView_is_genesis header then Ok tt
  else
    min ← block_median_time ctx (HeaderView_parent_hash header);
    if HeaderView_timestamp header <=? min
    then Err (into (BlockTimeTooOld min (HeaderView_timestamp header)))
    else
      max ← u64_add now ALLOWED_FUTURE_BLOCKTIME;
      if max <? HeaderView_timestamp header
      then Err (into (BlockTimeTooNew max (HeaderView_timestamp header)))
      else Ok tt.

Definition NumberVerifier_verify (parent header : HeaderView) : outcome Error unit :=
  expected ← u64_add (HeaderView_number parent) 1;
  if negb (HeaderView_number header =? expected)
  then Err (into (mkNumberError expected (HeaderView_number header)))
  else Ok tt.

Section ops.
Context `{NumExt} `{Hasher}.

Definition PowVerifier_verify (header : HeaderView) (pow : Pow) : outcome Error unit :=
  if pow_engine_verify pow (header_data header) then Ok tt else Err (into InvalidNonce).

(** The target of the verifier is a [HeaderResolver]: the header and its parent. *)
Definition HeaderVerifier_verify (c : Consensus) (ctx : BlockMedianTimeContext) (now : Z)
    (header : HeaderView) (parent : option HeaderView) : outcome Error unit :=
  _ ← VersionVerifier_verify header (block_version c);
  _ ← PowVerifier_verify header (pow c);
  parent ← ok_or (into (mkUnknownParentError (HeaderView_parent_hash header))) parent;
  _ ← NumberVerifier_verify parent header;
  TimestampVerifier_verify ctx now header.
End ops.

(** ** The median *)

Section median.
Context (ctx : BlockMedianTimeContext).

Lemma block_median_time_Ok h m :
  block_median_time ctx h = Ok m <->
  exists ts sorted, median_timestamps ctx (median_block_count ctx) h = Ok ts /\
    sorted ≡ₚ ts /\ StronglySorted Z.le sorted /\ sorted !! (length ts / 2)%nat = Some m.
Proof.
  unfold block_median_time. rewrite bind_Ok. split.
  - intros (ts & Hts & Hm%expect_Ok). exists ts, (merge_sort Z.le ts).
    pose proof (merge_sort_Permutation Z.le ts) as Hp. rewrite (Permutation_length Hp) in Hm.
    split_and!; [done..| |done]. apply StronglySorted_merge_sort. { apply _. } intros x y. lia.
  - intros (ts & sorted & Hts & Hp & Hs & Hm). exists ts. split; [done|]. apply expect_Ok.
    pose proof (merge_sort_Permutation Z.le ts) as Hp'.
    assert (merge_sort Z.le ts = sorted) as ->.
    { apply (StronglySorted_unique Z.le); [|done|by rewrite Hp'].
      apply StronglySorted_merge_sort. { apply _. } intros x y. lia. }
    by rewrite (Permutation_length Hp).
Qed.

Definition count_below (m : Z) (ts : list Z) : nat := length (filter (fun t => t <= m) ts).
Definition count_above (m : Z) (ts : list Z) : nat := length (filter (fun t => m <= t) ts).

Lemma sorted_split l i m :
  StronglySorted Z.le l -> l !! i = Some m ->
  (S i <= count_below m l)%nat /\ (length l - i <= count_above m l)%nat.
Proof.
  intros Hs Hi. apply list_elem_of_split_length in Hi as (l1 & l2 & -> & ->).
  apply StronglySorted_app in Hs as (H12 & H1 & H2). unfold count_below, count_above.
  apply StronglySorted_cons in H2 as [Hm2 H2]. rewrite Forall_forall in Hm2.
  rewrite !filter_app, !length_app, !filter_cons_True by lia.
  rewrite (filter_all (fun t => t <= m) l1) by set_solver.
  rewrite (filter_all (fun t => m <= t) l2) by set_solver. simpl. lia.
Qed.

(** The blocks the loop visits exist. *)
Fixpoint has_ancestors (n : nat) (h : Byte32) : Prop :=
  match n with
  | O => True
  | S n' => exists t num p,
      timestamp_and_parent ctx h = Ok (t, num, p) /\ (num = 0 \/ has_ancestors n' p)
  end.

Lemma median_timestamps_Ok n h :
  has_ancestors n h ->
  exists ts, median_timestamps ctx n h = Ok ts /\ (length ts <= n)%nat /\ (0 < n -> 0 < length ts)%nat.
Proof.
  revert h. induction n as [|n IH]; intros h.
  - exists []. simpl. split_and!; [done|lia|lia].
  - intros (t & num & p & Ht & Hnum). cbn [median_timestamps]. rewrite Ht. step.
    destruct (Z.eqb_spec num 0) as [->|Hne].
    + exists [t]. split_and!; [done|simpl; lia..].
    + destruct Hnum as [?|Hp]; [done|]. destruct (IH p Hp) as (ts & -> & ? & _). step.
      exists (t :: ts). split_and!; [done|simpl; lia..].
Qed.

Lemma median_timestamps_length n h l : median_timestamps ctx n h = Ok l -> (length l <= n)%nat.
Proof.
  revert h l. induction n as [|n IH]; intros h l; cbn; [by intros [= <-]|].
  intros ([[t num] p] & _ & Hl)%bind_Ok. destruct (num =? 0); [injection Hl as <-; cbn; lia|].
  apply bind_Ok in Hl as (l' & ?%IH & Hl). injection Hl as <-. cbn. lia.
Qed.

(** The median is one of the timestamps. *)
Lemma block_median_time_elem (P : Z -> Prop) h m :
  (forall h' t n p, timestamp_and_parent ctx h' = Ok (t, n, p) -> P t) ->
  block_median_time ctx h = Ok m -> P m.
Proof.
  intros HP (ts & sorted & Hts & Hp & _ & Hm)%block_median_time_Ok.
  apply list_elem_of_lookup_2 in Hm. rewrite Hp in Hm. clear Hp sorted.
  revert h ts Hts Hm. generalize (median_block_count ctx). intros n.
  induction n as [|n IH]; intros h ts Hts Hm; cbn [median_timestamps] in Hts.
  { injection Hts as <-. by apply not_elem_of_nil in Hm. }
  apply bind_Ok in Hts as ([[t num] p] & Ht & Hts). apply HP in Ht.
  destruct (num =? 0).
  - injection Hts as <-. by apply list_elem_of_singleton in Hm as ->.
  - apply bind_Ok in Hts as (ts' & Hts' & Hts). injection Hts as <-.
    apply elem_of_cons in Hm as [->|Hm]; [done|]. by eapply IH.
Qed.

(** The past median time exists when the blocks it looks at do, and it is the
    median of their timestamps: one of them, at least as late as more than half
    of them and no later than at least half of them. *)
Theorem median_time_spec h :
  (0 < median_block_count ctx)%nat -> has_ancestors (median_block_count ctx) h ->
  exists m ts,
    block_median_time ctx h = Ok m /\
    median_timestamps ctx (median_block_count ctx) h = Ok ts /\
    (1 <= length ts <= median_block_count ctx)%nat /\ m ∈ ts /\
    (length ts < 2 * count_below m ts)%nat /\ (length ts <= 2 * count_above m ts)%nat.
Proof.
  intros Hn Hh. destruct (median_timestamps_Ok _ _ Hh) as (ts & Hts & Hl & Hpos).
  specialize (Hpos Hn). set (sorted := merge_sort Z.le ts).
  assert (sorted ≡ₚ ts) as Hp by apply merge_sort_Permutation.
  assert (StronglySorted Z.le sorted) as Hs.
  { apply StronglySorted_merge_sort; [apply _|]. intros x y. lia. }
  assert (length ts / 2 < length ts)%nat as Hlt by (apply Nat.div_lt; lia).
  destruct (lookup_lt_is_Some_2 sorted (length ts / 2)) as [m Hm];
    [by rewrite (Permutation_length Hp)|].
  exists m, ts. destruct (sorted_split sorted _ m Hs Hm) as [Hb Ha].
  unfold count_below, count_above in *. rewrite !Hp in Hb, Ha.
  pose proof (Nat.div_mod (length ts) 2 ltac:(lia)).
  pose proof (Nat.mod_upper_bound (length ts) 2 ltac:(lia)).
  split_and!; [|done|lia|lia| |lia|lia].
  - apply block_median_time_Ok. by exists ts, sorted.
  - rewrite <- Hp. by eapply list_elem_of_lookup_2.
Qed.

Lemma median_timestamps_take k p l :
  median_timestamps ctx (S k) p = Ok l -> median_timestamps ctx k p = Ok (take k l).
Proof.
  revert p l. induction k as [|k IH]; intros p l Hl; [done|].
  remember (S k) as k1 eqn:Hk1. cbn [median_timestamps] in Hl. subst k1. cbn [median_timestamps].
  apply bind_Ok in Hl as ([[t n] q] & -> & Hl). step.
  destruct (n =? 0); [injection Hl as <-; by rewrite take_ge by (cbn; lia)|].
  apply bind_Ok in Hl as (l' & Hl' & Hl). injection Hl as <-. rewrite (IH q l'); [done|exact Hl'].
Qed.

Lemma count_split m m0 l : m0 < m -> (count_above m l + count_below m0 l <= length l)%nat.
Proof.
  intros Hm. unfold count_above, count_below. induction l as [|x l IH]; [done|].
  rewrite !filter_cons. repeat case_decide; cbn; lia.
Qed.

(** A block later than the median before it is not earlier than the median after it:
    a timestamp above that of the parent is always late enough. *)
Lemma median_step h t n p m0 :
  timestamp_and_parent ctx h = Ok (t, n, p) -> n <> 0 -> block_median_time ctx p = Ok m0 -> m0 < t ->
  exists m, block_median_time ctx h = Ok m /\ m <= t.
Proof.
  intros Hh Hn (l & sorted & Hl & Hp & Hs & Hm0)%block_median_time_Ok Ht.
  destruct (median_block_count ctx) as [|k] eqn:Hk.
  { injection Hl as <-. apply Permutation_nil_r in Hp. by subst sorted. }
  set (l' := t :: take k l).
  assert (median_timestamps ctx (S k) h = Ok l') as Hl'.
  { cbn. rewrite Hh. step. rewrite (proj2 (Z.eqb_neq _ _) Hn). by rewrite (median_timestamps_take _ _ _ Hl). }
  assert (length l <= S k)%nat as Hlen by (eapply median_timestamps_length; exact Hl).
  set (sorted' := merge_sort Z.le l').
  assert (sorted' ≡ₚ l') as Hp' by apply merge_sort_Permutation.
  assert (StronglySorted Z.le sorted') as Hs'.
  { apply StronglySorted_merge_sort; [apply _|]. intros x y. lia. }
  destruct (lookup_lt_is_Some_2 sorted' (length l' / 2)) as [m Hm].
  { rewrite (Permutation_length Hp'). apply Nat.div_lt; cbn; lia. }
  exists m. split; [apply block_median_time_Ok; rewrite Hk; by exists l', sorted'|].
  destruct (Z.le_gt_cases m t) as [|Hgt]; [done|]. exfalso.
  destruct (sorted_split _ _ _ Hs' Hm) as [_ Ha]. destruct (sorted_split _ _ _ Hs Hm0) as [Hb _].
  unfold count_above in Ha. unfold count_below in Hb. rewrite Hp' in Ha. rewrite Hp in Hb.
  fold (count_above m l') in Ha. fold (count_below m0 l) in Hb.
  assert (count_above m l' <= count_above m l)%nat as Hsub.
  { unfold count_above, l'. rewrite filter_cons_False by lia. rewrite <- (take_drop k l) at 2.
    rewrite filter_app, length_app. lia. }
  pose proof (count_split m m0 l ltac:(lia)).
  unfold l' in Ha. cbn [length] in Ha. rewrite length_take in Ha.
  pose proof (Nat.div_mod (length l) 2 ltac:(lia)). pose proof (Nat.mod_upper_bound (length l) 2 ltac:(lia)).
  pose proof (Nat.div_mod (S (k `min` length l)) 2 ltac:(lia)).
  pose proof (Nat.mod_upper_bound (S (k `min` length l)) 2 ltac:(lia)).
  unfold l' in Hsub. lia.
Qed.
(** After the genesis block the median is its timestamp. *)
Lemma median_genesis h t p :
  timestamp_and_parent ctx h = Ok (t, 0, p) -> (0 < median_block_count ctx)%nat -> block_median_time ctx h = Ok t.
Proof.
  intros Hh Hn. unfold block_median_time. destruct (median_block_count ctx) as [|k]; [lia|].
  cbn [median_timestamps]. by rewrite Hh.
Qed.
End median.

(** ** What an accepted header satisfies *)

Section accepted.
Context `{NumExt} `{Hasher}.

(** A header is accepted exactly when its version is the consensus version,
    its proof of work holds, its parent is known and one block below it, and its
    timestamp is after the median of the last blocks and at most fifteen seconds
    ahead of the clock. *)
Theorem header_verifier_spec c ctx now header parent :
  is_u64 (now + ALLOWED_FUTURE_BLOCKTIME) ->
  (forall p, parent = Some p -> 0 <= HeaderView_number p < 2 ^ 64 - 1) ->
  HeaderVerifier_verify c ctx now header parent = Ok tt <->
  version (HeaderView_raw header) = block_version c /\
  pow_engine_verify (pow c) (header_data header) = true /\
  exists p, parent = Some p /\ HeaderView_number header = HeaderView_number p + 1 /\
    exists median, block_median_time ctx (HeaderView_parent_hash header) = Ok median /\
      median < HeaderView_timestamp header <= now + ALLOWED_FUTURE_BLOCKTIME.
Proof.
  intros Hnow Hpar. unfold HeaderVerifier_verify, VersionVerifier_verify, PowVerifier_verify,
    NumberVerifier_verify, TimestampVerifier_verify, HeaderView_is_genesis, u64_add.
  destruct (Z.eqb_spec (version (HeaderView_raw header)) (block_version c)); cbn [negb]; step;
    [|naive_solver].
  destruct (pow_engine_verify _ _); step; [|naive_solver].
  destruct parent as [p|]; step; [|naive_solver].
  specialize (Hpar p eq_refl). rewrite (fit_in_range 64 (HeaderView_number p + 1)) by zlia. step.
  destruct (Z.eqb_spec (HeaderView_number header) (HeaderView_number p + 1)) as [Hn|]; cbn [negb];
    step; [|naive_solver].
  destruct (Z.eqb_spec (HeaderView_number header) 0); [lia|].
  destruct (block_median_time ctx _) as [m|err|]; step; [|naive_solver|naive_solver].
  destruct (Z.leb_spec (HeaderView_timestamp header) m); [naive_solver lia|].
  rewrite fit_in_range by done. step.
  destruct (Z.ltb_spec (now + ALLOWED_FUTURE_BLOCKTIME) (HeaderView_timestamp header));
    naive_solver lia.
Qed.
End accepted.

(** ** Witnesses *)

Definition sample_times : gmap Byte32 (Z * Z * Byte32) :=
  {[ [1] := (100, 0, [0]); [2] := (130, 1, [1]); [3] := (120, 2, [2]) ]}.
Definition sample_context : BlockMedianTimeContext :=
  mkBlockMedianTimeContext 37 (fun h => expect (sample_times !! h)).
Definition sample_next : HeaderView :=
  mkHeaderView (mkHeader (mkRawHeader 0 0x20ffffff 150 3 0 [3] zero32 zero32 zero32 zero32) 0) [4].

Lemma sample_times_u64 h t n p : timestamp_and_parent sample_context h = Ok (t, n, p) -> is_u64 t.
Proof.
  intros Ht%expect_Ok.
  assert (map_Forall (fun _ x => in_rangeb 64 x.1.1 = true) sample_times) as Hall
    by (by apply (bool_decide_unpack _); vm_compute).
  specialize (Hall h _ Ht). cbn in Hall. by destruct (in_rangeb_spec 64 t).
Qed.

Lemma sample_ancestors : has_ancestors sample_context 37 [3].
Proof.
  do 3 eexists. split; [by vm_compute|]. right. do 3 eexists. split; [by vm_compute|]. right.
  do 3 eexists. split; [by vm_compute|]. by left.
Qed.

Lemma median_time_spec_witness : block_median_time sample_context [3] = Ok 120.
Proof.
  destruct (median_time_spec sample_context [3]) as (m & ts & -> & Hts & _ & Hm & Hb & Ha).
  - simpl. lia.
  - exact sample_ancestors.
  - vm_compute in Hts. injection Hts as <-.
    apply elem_of_cons in Hm as [->|Hm]; [done|]. exfalso.
    apply elem_of_cons in Hm as [->|Hm%list_elem_of_singleton]; [vm_compute in Ha; lia|].
    subst m. vm_compute in Hb. lia.
Defined.

Lemma header_verifier_spec_witness :
  HeaderVerifier_verify (H:=numext_ref) (H0:=toy_hasher) sample_consensus sample_context 1000
    sample_next (Some (mkHeaderView (mkHeader (mkRawHeader 0 0 120 2 0 [2] zero32 zero32 zero32
      zero32) 0) [3])) = Ok tt.
Proof.
  apply header_verifier_spec.
  - vm_compute. by split.
  - intros p [= <-]. by vm_compute.
  - split; [by vm_compute|]. split; [by vm_compute|]. eexists. split; [reflexivity|].
    split; [by vm_compute|]. exists 120. split; [by vm_compute|]. by vm_compute.
Defined.
