(* ===== verification/BlockVerifier.v ===== *)
(** * Block verification: src/verification/src/block_verifier.rs, genesis_verifier.rs

    The checks that need the block alone.  [BlockVerifier_spec] characterizes
    the accepted blocks; the genesis verifier adds the checks of the genesis
    block and runs the same verifier on it. *)

From S2P Require Import Prelude Capacity NumExt Difficulty Types Molecule BlockCodec Errors Epoch.
From S2P Require Import Cell Consensus Hashes Store Dao.

(** ** src/verification/src/block_verifier.rs *)

Definition CellbaseVerifier_verify (block : BlockView) : outcome Error unit :=
  if BlockView_is_genesis block then Ok tt
  else
    let txs := BlockView_transactions block in
    let cellbase_len := length (List.filter TransactionView_is_cellbase txs) in
    if negb (cellbase_len =? 1)%nat then Err (into InvalidQuantity)
    else
      cellbase ← expect (txs !! 0%nat);
      if negb (TransactionView_is_cellbase cellbase) then Err (into InvalidPosition)
      else if (1 <? length (TransactionView_outputs cellbase))%nat
        || (1 <? length (TransactionView_outputs_data cellbase))%nat
        || negb (length (TransactionView_outputs cellbase) =?
                 length (TransactionView_outputs_data cellbase))%nat
      then Err (into InvalidOutputQuantity)
      else if negb (default true (is_empty <$> (TransactionView_outputs_data cellbase !! 0%nat)))
      then Err (into InvalidOutputData)
      else match TransactionView_witnesses cellbase !! 0%nat ≫= from_slice (A:=CellbaseWitness) with
      | None => Err (into InvalidWitness)
      | Some _ =>
          if existsb (fun output => bool_decide (is_Some (type_ output)))
               (TransactionView_outputs cellbase)
          then Err (into InvalidTypeScript)
          else
            cellbase_input ← expect (TransactionView_inputs cellbase !! 0%nat);
            if negb (bool_decide (cellbase_input =
                       CellInput_new_cellbase_input (BlockView_number block)))
            then Err (into InvalidInput)
            else Ok tt
      end.

Definition DuplicateVerifier_verify (block : BlockView) : outcome Error unit :=
  if negb (all_insert ∅ (tx_hash <$> BlockView_transactions block))
  then Err (into CommitTransactionDuplicate)
  else if negb (all_insert ∅ (block_proposals (block_data block)))
  then Err (into ProposalTransactionDuplicate)
  else Ok tt.

Definition BlockProposalsLimitVerifier_verify (block_proposals_limit : Z) (block : BlockView) :
    outcome Error unit :=
  let proposals_len := zlen (block_proposals (block_data block)) in
  if proposals_len <=? block_proposals_limit then Ok tt
  else Err (into ExceededMaximumProposalsLimit).

Definition BlockBytesVerifier_verify (block_bytes_limit : Z) (block : BlockView) :
    outcome Error unit :=
  if BlockView_is_genesis block then Ok tt
  else
    block_bytes ← Block_serialized_size_without_uncle_proposals (block_data block);
    if block_bytes <=? block_bytes_limit then Ok tt else Err (into ExceededMaximumBlockBytes).

Section ops.
Context `{Hasher}.

Definition MerkleRootVerifier_verify (block : BlockView) : outcome Error unit :=
  if negb (bool_decide (transactions_root (BlockView_raw block) =
                        BlockView_calc_transactions_root block))
  then Err (into TransactionsRoot)
  else if negb (bool_decide (proposals_hash (BlockView_raw block) =
                             BlockView_calc_proposals_hash block))
  then Err (into ProposalTransactionsHash)
  else Ok tt.

Definition BlockVerifier_verify (c : Consensus) (target : BlockView) : outcome Error unit :=
  _ ← BlockProposalsLimitVerifier_verify (max_block_proposals_limit c) target;
  _ ← BlockBytesVerifier_verify (max_block_bytes c) target;
  _ ← CellbaseVerifier_verify target;
  _ ← DuplicateVerifier_verify target;
  MerkleRootVerifier_verify target.

(** ** src/verification/src/genesis_verifier.rs *)

Definition Genesis_NumberVerifier_verify (block : BlockView) : outcome Error unit :=
  if negb (BlockView_number block =? 0)
  then Err (into (mkNumberError 0 (BlockView_number block)))
  else Ok tt.
Definition Genesis_EpochVerifier_verify (block : BlockView) : outcome Error unit :=
  let number := EpochFraction_number (HeaderView_epoch (BlockView_header block)) in
  if negb (number =? 0) then Err (into (NumberMismatch 0 number)) else Ok tt.
Definition Genesis_ParentHashVerifier_verify (block : BlockView) : outcome Error unit :=
  if negb (bool_decide (parent_hash (BlockView_raw block) = repeat 0 32))
  then Err (into (mkUnknownParentError (parent_hash (BlockView_raw block))))
  else Ok tt.
Definition Genesis_UnclesVerifier_verify (block : BlockView) : outcome Error unit :=
  let hashes := uncles_hashes (BlockView_uncles block) in
  if negb (is_empty hashes) then Err (into (OverCount 0 (zlen hashes mod 2 ^ 32))) else Ok tt.
Definition Genesis_CellbaseVerifier_verify (block : BlockView) : outcome Error unit :=
  let txs := BlockView_transactions block in
  let cellbase_len := length (List.filter TransactionView_is_cellbase txs) in
  if negb (cellbase_len =? 1)%nat then Err (into InvalidQuantity)
  else
    cellbase ← expect (txs !! 0%nat);
    if negb (TransactionView_is_cellbase cellbase) then Err (into InvalidPosition)
    else if negb (length (TransactionView_outputs cellbase) =?
                  length (TransactionView_outputs_data cellbase))%nat
    then Err (into InvalidOutputQuantity)
    else
      cellbase_input ← expect (TransactionView_inputs cellbase !! 0%nat);
      if negb (bool_decide (cellbase_input =
                 CellInput_new_cellbase_input (BlockView_number block)))
      then Err (into InvalidInput)
      else Ok tt.
Definition Genesis_DAOVerifier_verify (c : Consensus) (block : BlockView) : outcome Error unit :=
  let txs := BlockView_transactions block in
  let epoch_length := epoch_length (genesis_epoch_ext c) in
  primary_issuance ← calculate_block_reward (initial_primary_epoch_reward c) epoch_length;
  secondary_issuance ← calculate_block_reward (secondary_epoch_reward c) epoch_length;
  dao ← genesis_dao_data_with_satoshi_gift (satoshi_pubkey_hash c)
    (satoshi_cell_occupied_ratio c) txs primary_issuance secondary_issuance;
  if negb (bool_decide (dao = Types.dao (BlockView_raw block))) then Err (into InvalidDAO) else Ok tt.

Definition GenesisVerifier_verify (c : Consensus) : outcome Error unit :=
  _ ← Genesis_NumberVerifier_verify (genesis_block c);
  _ ← Genesis_EpochVerifier_verify (genesis_block c);
  _ ← Genesis_ParentHashVerifier_verify (genesis_block c);
  _ ← Genesis_CellbaseVerifier_verify (genesis_block c);
  _ ← Genesis_UnclesVerifier_verify (genesis_block c);
  _ ← Genesis_DAOVerifier_verify c (genesis_block c);
  BlockVerifier_verify c (genesis_block c).
End ops.

(** ** The accepted blocks *)

(** A cellbase of block [number]. *)
Record valid_cellbase (number : Z) (tx : TransactionView) : Prop := {
  cellbase_inputs : TransactionView_inputs tx = [CellInput_new_cellbase_input number];
  cellbase_outputs :
    (length (TransactionView_outputs tx) <= 1)%nat /\
    length (TransactionView_outputs_data tx) = length (TransactionView_outputs tx);
  cellbase_data : Forall (fun d => d = []) (TransactionView_outputs_data tx);
  cellbase_witness : exists w cw,
    TransactionView_witnesses tx = [w] /\ from_slice (A:=CellbaseWitness) w = Some cw;
  cellbase_types : Forall (fun o => type_ o = None) (TransactionView_outputs tx);
}.

Lemma null_is_null : OutPoint_is_null OutPoint_null = true.
Proof. done. Qed.

Lemma valid_cellbase_is_cellbase n tx :
  valid_cellbase n tx -> TransactionView_is_cellbase tx = true.
Proof.
  intros [Hi _ _ (w & cw & Hw & _) _]. unfold TransactionView_is_cellbase, Transaction_is_cellbase.
  unfold TransactionView_inputs in Hi. unfold TransactionView_witnesses in Hw. by rewrite Hi, Hw.
Qed.

Lemma is_cellbase_shape tx :
  TransactionView_is_cellbase tx = true ->
  exists i w, TransactionView_inputs tx = [i] /\ TransactionView_witnesses tx = [w].
Proof.
  unfold TransactionView_is_cellbase, Transaction_is_cellbase, TransactionView_inputs,
    TransactionView_witnesses.
  destruct (inputs _) as [|i [|]], (witnesses _) as [|w [|]]; try done. eauto.
Qed.

Lemma filter_none {A} (f : A -> bool) l :
  length (List.filter f l) = 0%nat <-> Forall (fun x => f x = false) l.
Proof.
  induction l as [|a l IH]; simpl; [done|]. rewrite Forall_cons. destruct (f a) eqn:E; simpl.
  - split; [lia|]. intros [? _]. congruence.
  - rewrite IH. naive_solver.
Qed.

Lemma cellbase_outputs_check (os : list CellOutput) (ds : list bytes) :
  (1 <? length os)%nat || (1 <? length ds)%nat || negb (length os =? length ds)%nat = false <->
  (length os <= 1)%nat /\ length ds = length os.
Proof.
  destruct (Nat.ltb_spec 1 (length os)), (Nat.ltb_spec 1 (length ds)),
    (Nat.eqb_spec (length os) (length ds)); simpl; split; try done; lia.
Qed.

Lemma no_type_scripts os :
  existsb (fun output => bool_decide (is_Some (type_ output))) os = false <->
  Forall (fun o => type_ o = None) os.
Proof.
  induction os as [|o os IH]; simpl; [done|].
  rewrite Forall_cons, orb_false_iff, IH, bool_decide_eq_false, <- eq_None_not_Some. done.
Qed.

(** The cellbase check accepts exactly the non-genesis blocks that start with
    the one cellbase they have. *)
Lemma CellbaseVerifier_Ok block :
  BlockView_is_genesis block = false ->
  CellbaseVerifier_verify block = Ok tt <->
  exists cellbase rest, BlockView_transactions block = cellbase :: rest /\
    valid_cellbase (BlockView_number block) cellbase /\
    Forall (fun tx => TransactionView_is_cellbase tx = false) rest.
Proof.
  intros Hg. unfold CellbaseVerifier_verify. rewrite Hg.
  destruct (BlockView_transactions block) as [|tx rest]; simpl; [naive_solver|].
  destruct (TransactionView_is_cellbase tx) eqn:Hcb; simpl.
  2: { split; [by destruct (_ =? 1)%nat|]. intros (? & ? & [= <- <-] & Hv & _).
       apply valid_cellbase_is_cellbase in Hv. congruence. }
  destruct (Nat.eqb_spec (length (List.filter TransactionView_is_cellbase rest)) 0) as [Hr|Hr].
  2: { split; [done|]. by intros (? & ? & [= <- <-] & _ & ?%filter_none). }
  pose proof (proj1 (filter_none _ _) Hr) as Hnone. simpl.
  destruct (is_cellbase_shape tx Hcb) as (i & w & Hi & Hw). rewrite Hw, Hi. simpl.
  destruct (_ || _) eqn:Ho.
  { split; [done|]. intros (? & ? & [= <- <-] & [_ Hl _ _ _] & _).
    apply cellbase_outputs_check in Hl. congruence. }
  apply cellbase_outputs_check in Ho as [Ho1 Ho2].
  assert (default true (is_empty <$> (TransactionView_outputs_data tx !! 0%nat)) = true <->
    Forall (fun d => d = []) (TransactionView_outputs_data tx)) as Hd.
  { destruct (TransactionView_outputs_data tx) as [|d [|]]; simpl in *; [done| |lia].
    rewrite Forall_singleton. by destruct d. }
  destruct (default true _) eqn:Hdef; simpl.
  2: { split; [done|]. intros (? & ? & [= <- <-] & [_ _ Hd' _ _] & _). apply Hd in Hd'. congruence. }
  destruct (from_slice w) as [cw|] eqn:Hcw.
  2: { split; [done|]. intros (? & ? & [= <- <-] & [_ _ _ (w' & cw & Hw' & Hcw') _] & _).
       congruence. }
  destruct (existsb _ _) eqn:Ht.
  { split; [done|]. intros (? & ? & [= <- <-] & [_ _ _ _ Ht'] & _).
    apply no_type_scripts in Ht'. congruence. }
  destruct (bool_decide_reflect (i = CellInput_new_cellbase_input (BlockView_number block)));
    simpl.
  - split; [|done]. intros _. exists tx, rest. split_and!; [done| |done].
    split; [congruence|done|by apply Hd|by exists w, cw|by apply no_type_scripts].
  - split; [done|]. intros (? & ? & [= <- <-] & [Hi' _ _ _ _] & _). congruence.
Qed.

Section spec.
Context `{Hasher}.

Record accepted_block (c : Consensus) (b : BlockView) : Prop := {
  accepted_proposals_limit :
    zlen (block_proposals (block_data b)) <= max_block_proposals_limit c;
  accepted_bytes : BlockView_is_genesis b = false -> exists size,
    Block_serialized_size_without_uncle_proposals (E:=Error) (block_data b) = Ok size /\
    size <= max_block_bytes c;
  accepted_cellbase : BlockView_is_genesis b = false -> exists cellbase rest,
    BlockView_transactions b = cellbase :: rest /\
    valid_cellbase (BlockView_number b) cellbase /\
    Forall (fun tx => TransactionView_is_cellbase tx = false) rest;
  accepted_transactions : NoDup (tx_hash <$> BlockView_transactions b);
  accepted_proposals : NoDup (block_proposals (block_data b));
  accepted_root : transactions_root (BlockView_raw b) = BlockView_calc_transactions_root b;
  accepted_proposals_hash : proposals_hash (BlockView_raw b) = BlockView_calc_proposals_hash b;
}.

Lemma BlockBytesVerifier_Ok limit b :
  BlockBytesVerifier_verify limit b = Ok tt <->
  (BlockView_is_genesis b = false -> exists size,
    Block_serialized_size_without_uncle_proposals (E:=Error) (block_data b) = Ok size /\
    size <= limit).
Proof.
  unfold BlockBytesVerifier_verify. destruct (BlockView_is_genesis b); [naive_solver|].
  destruct (Block_serialized_size_without_uncle_proposals _) as [size|err|]; step;
    [|naive_solver..].
  destruct (Z.leb_spec size limit); [naive_solver|]. naive_solver lia.
Qed.

Lemma DuplicateVerifier_Ok b :
  DuplicateVerifier_verify b = Ok tt <->
  NoDup (tx_hash <$> BlockView_transactions b) /\ NoDup (block_proposals (block_data b)).
Proof.
  unfold DuplicateVerifier_verify. rewrite <- !all_insert_NoDup.
  destruct (all_insert ∅ (tx_hash <$> _)), (all_insert ∅ (block_proposals _)); naive_solver.
Qed.

Lemma MerkleRootVerifier_Ok b :
  MerkleRootVerifier_verify b = Ok tt <->
  transactions_root (BlockView_raw b) = BlockView_calc_transactions_root b /\
  proposals_hash (BlockView_raw b) = BlockView_calc_proposals_hash b.
Proof. unfold MerkleRootVerifier_verify. do 2 case_bool_decide; naive_solver. Qed.

(** A block is accepted exactly when its proposals and (past genesis) its
    bytes are within the limits, (past genesis) its first transaction and no
    other is a cellbase, of the prescribed shape for its height, no transaction
    and no proposal occurs twice, and its header commits to its transactions
    and proposals. *)
Theorem block_verifier_spec c b : BlockVerifier_verify c b = Ok tt <-> accepted_block c b.
Proof.
  unfold BlockVerifier_verify, BlockProposalsLimitVerifier_verify.
  destruct (Z.leb_spec (zlen (block_proposals (block_data b))) (max_block_proposals_limit c)); step.
  2: { split; [done|]. intros []. lia. }
  setoid_rewrite bind_Ok. setoid_rewrite bind_Ok. setoid_rewrite bind_Ok. split.
  - intros ([] & Hbytes & [] & Hcb & [] & [? ?]%DuplicateVerifier_Ok & [? ?]%MerkleRootVerifier_Ok).
    split; try assumption; [exact (proj1 (BlockBytesVerifier_Ok _ _) Hbytes)|].
    intros Hg. by apply CellbaseVerifier_Ok.
  - intros [_ Hbytes Hcb ? ? ? ?]. exists tt. split; [by apply BlockBytesVerifier_Ok|].
    exists tt. split.
    + destruct (BlockView_is_genesis b) eqn:Hg.
      * unfold CellbaseVerifier_verify. by rewrite Hg.
      * by apply CellbaseVerifier_Ok; [|apply Hcb].
    + exists tt. split; [by apply DuplicateVerifier_Ok|by apply MerkleRootVerifier_Ok].
Qed.

(** [into_view] completes a block so that its header commits to its contents:
    the result passes the Merkle root check and has the uncles hash the uncles
    verifier recomputes, and its data is the given block up to the header. *)
Theorem into_view_commits b :
  MerkleRootVerifier_verify (Block_into_view b) = Ok tt /\
  uncles_hash (BlockView_raw (Block_into_view b)) = BlockView_calc_uncles_hash (Block_into_view b) /\
  block_uncles (block_data (Block_into_view b)) = block_uncles b /\
  block_transactions (block_data (Block_into_view b)) = block_transactions b /\
  block_proposals (block_data (Block_into_view b)) = block_proposals b /\
  (tx_data <$> BlockView_transactions (Block_into_view b)) = block_transactions b.
Proof.
  split_and!; try done; [by apply MerkleRootVerifier_Ok|].
  unfold BlockView_transactions, Block_into_view; cbn. unfold Block_calc_tx_hashes,
    Block_calc_tx_witness_hashes.
  induction (block_transactions b) as [|tx txs IH]; [done|]. rewrite !fmap_cons; cbn. f_equal. done.
Qed.

(** A consensus whose genesis block is accepted has a genesis block at height
    and epoch zero without parent and uncles, whose DAO field is the one computed
    from its own transactions and issuance, and which passes the block checks. *)
Theorem genesis_verifier_spec c :
  GenesisVerifier_verify c = Ok tt ->
  let b := genesis_block c in
  BlockView_is_genesis b = true /\ parent_hash (BlockView_raw b) = Byte32_zero /\
  EpochFraction_number (HeaderView_epoch (BlockView_header b)) = 0 /\
  block_uncle_hashes b = [] /\
  (exists primary secondary,
     calculate_block_reward (E:=Error) (initial_primary_epoch_reward c)
       (epoch_length (genesis_epoch_ext c)) = Ok primary /\
     calculate_block_reward (E:=Error) (secondary_epoch_reward c)
       (epoch_length (genesis_epoch_ext c)) = Ok secondary /\
     genesis_dao_data_with_satoshi_gift (satoshi_pubkey_hash c) (satoshi_cell_occupied_ratio c)
       (BlockView_transactions b) primary secondary = Ok (dao (BlockView_raw b))) /\
  BlockVerifier_verify c b = Ok tt.
Proof.
  intros Hv b. unfold GenesisVerifier_verify in Hv. fold b in Hv. clearbody b.
  apply bind_Ok in Hv as ([] & Hn & Hv). apply bind_Ok in Hv as ([] & He & Hv).
  apply bind_Ok in Hv as ([] & Hp & Hv). apply bind_Ok in Hv as ([] & _ & Hv).
  apply bind_Ok in Hv as ([] & Hu & Hv). apply bind_Ok in Hv as ([] & Hd & Hv).
  unfold Genesis_NumberVerifier_verify in Hn. unfold Genesis_EpochVerifier_verify in He.
  unfold Genesis_ParentHashVerifier_verify in Hp. unfold Genesis_UnclesVerifier_verify in Hu.
  unfold Genesis_DAOVerifier_verify in Hd.
  apply bind_Ok in Hd as (primary & Hprim & Hd). apply bind_Ok in Hd as (secondary & Hsec & Hd).
  apply bind_Ok in Hd as (d & Hdao & Hd).
  repeat match goal with
  | Hi : (if negb ?c then Err _ else Ok tt) = Ok _ |- _ => destruct c eqn:?; [clear Hi|done]
  end. reflect_bools. split_and!; try done.
  - by apply Z.eqb_eq.
  - change (uncles_hashes (BlockView_uncles b)) with (block_uncle_hashes b) in *.
    by destruct (block_uncle_hashes b).
  - exists primary, secondary. split_and!; [done..|]. congruence.
Qed.
End spec.

(** ** Witness: a genesis block with one cellbase *)

Definition sample_cellbase_tx : Transaction :=
  mkTransaction (mkRawTransaction 0 [] [] [CellInput_new_cellbase_input 0] [] []) [[]].
Definition sample_genesis_dao : Byte32 :=
  match
    p ← calculate_block_reward (E:=Error) INITIAL_PRIMARY_EPOCH_REWARD 1000;
    s ← calculate_block_reward DEFAULT_SECONDARY_EPOCH_REWARD 1000;
    genesis_dao_data_with_satoshi_gift SATOSHI_PUBKEY_HASH SATOSHI_CELL_OCCUPIED_RATIO
      [Transaction_into_view (H:=toy_hasher) sample_cellbase_tx] p s
  with Ok d => d | _ => [] end.
Definition sample_genesis_consensus : Consensus :=
  ConsensusBuilder_new
    (Block_into_view (H:=toy_hasher)
      (mkBlock (mkHeader (mkRawHeader 0 0 0 0 0 zero32 zero32 zero32 zero32 sample_genesis_dao) 0)
        [] [sample_cellbase_tx] []))
    sample_epoch.

Lemma genesis_verifier_spec_witness :
  BlockView_is_genesis (genesis_block sample_genesis_consensus) = true /\
  GenesisVerifier_verify (H:=toy_hasher) sample_genesis_consensus = Ok tt.
Proof.
  assert (GenesisVerifier_verify (H:=toy_hasher) sample_genesis_consensus = Ok tt) as Hv
    by (by vm_compute).
  destruct (genesis_verifier_spec (H:=toy_hasher) sample_genesis_consensus Hv) as [Hg _].
  exact (conj Hg Hv).
Defined.
