(* ===== verification/UnclesVerifier.v ===== *)
(** * Uncle verification: src/verification/src/uncles_verifier.rs

    [UncleProvider] is the trait through which the verifier asks the chain about
    an uncle.  [uncles_verifier_spec] says which uncles a block may have. *)

From S2P Require Import Prelude Capacity NumExt Difficulty Types Molecule Errors Epoch Cell.
From S2P Require Import Consensus Hashes.

Record UncleProvider := mkUncleProvider {
  double_inclusion : Byte32 -> bool;
  descendant : HeaderView -> outcome Error bool;
  provider_epoch : EpochExt;
  provider_consensus : Consensus;
}.

Section ops.
Context `{NumExt} `{Hasher} (provider : UncleProvider) (block : BlockView).

(** [included.get(&parent_hash).map(|number| (number + 1) == uncle.number()).unwrap_or(false)]. *)
Definition embedded_descendant (included : gmap Byte32 Z) (uncle : UncleBlockView) :
    outcome Error bool :=
  match included !! parent_hash (UncleBlockView_raw uncle) with
  | Some number =>
      n ← u64_add number 1;
      Ok (n =? Types.number (UncleBlockView_raw uncle))
  | None => Ok false
  end.

(** The body of the loop over the uncles. *)
Definition verify_uncle (included : gmap Byte32 Z) (uncle : UncleBlockView) :
    outcome Error (gmap Byte32 Z) :=
  let raw := UncleBlockView_raw uncle in
  if negb (compact_target raw =? epoch_compact_target (provider_epoch provider))
  then Err (into InvalidTarget)
  else if negb (epoch_number (provider_epoch provider) =?
                EpochFraction_number (RawHeader_epoch raw))
  then Err (into InvalidDifficultyEpoch)
  else if BlockView_number block <=? number raw then Err (into UnclesError_InvalidNumber)
  else
    embedded ← embedded_descendant included uncle;
    linked ← (if (embedded : bool) then Ok true else descendant provider (UncleBlockView_header uncle));
    if negb linked then Err (into DescendantLimit)
    else if bool_decide (is_Some (included !! uncle_hash uncle))
    then Err (into (UnclesError_Duplicate (uncle_hash uncle)))
    else if double_inclusion provider (uncle_hash uncle)
    then Err (into (DoubleInclusion (uncle_hash uncle)))
    else if max_block_proposals_limit (provider_consensus provider) <?
            zlen (uncle_proposals (uncle_data uncle))
    then Err (into UnclesError_ExceededMaximumProposalsLimit)
    else if negb (bool_decide (proposals_hash raw = UncleBlock_calc_proposals_hash (uncle_data uncle)))
    then Err (into UnclesError_ProposalsHash)
    else if negb (all_insert ∅ (uncle_proposals (uncle_data uncle)))
    then Err (into ProposalDuplicate)
    else if negb (pow_engine_verify (pow (provider_consensus provider))
                    (uncle_header (uncle_data uncle)))
    then Err (into InvalidNonce)
    else Ok (<[uncle_hash uncle := number raw]> included).

Definition UnclesVerifier_verify : outcome Error unit :=
  let uncles_count := zlen (block_uncles (block_data block)) mod 2 ^ 32 in
  let actual_uncles_hash := BlockView_calc_uncles_hash block in
  if negb (bool_decide (actual_uncles_hash = uncles_hash (BlockView_raw block)))
  then Err (into (UnclesError_InvalidHash (uncles_hash (BlockView_raw block)) actual_uncles_hash))
  else if uncles_count =? 0 then Ok tt
  else if BlockView_is_genesis block then Err (into (OverCount 0 uncles_count))
  else
    let max_uncles_num := Z.of_nat (max_uncles_num (provider_consensus provider)) mod 2 ^ 32 in
    if max_uncles_num <? uncles_count then Err (into (OverCount max_uncles_num uncles_count))
    else
      uncles ← UncleBlockVecView_into_iter (BlockView_uncles block);
      _ ← try_fold verify_uncle ∅ uncles;
      Ok tt.
End ops.

(** ** The accepted uncles *)

Section spec.
Context `{NumExt} `{Hasher} (provider : UncleProvider) (block : BlockView).

(** Uncle [u] of the block after the uncles [seen]: (1) same epoch and target,
    (2) a lower height, (3) its parent is on the chain or an uncle, of the chain
    or listed before it, one block below it, (4) it was not included before;
    and its proposals and proof of work are in order. *)
Record accepted_uncle (seen : list UncleBlockView) (u : UncleBlockView) : Prop := {
  uncle_target : compact_target (UncleBlockView_raw u) = epoch_compact_target (provider_epoch provider);
  uncle_epoch : EpochFraction_number (RawHeader_epoch (UncleBlockView_raw u)) =
    epoch_number (provider_epoch provider);
  uncle_number : number (UncleBlockView_raw u) < BlockView_number block;
  uncle_parent :
    (exists v, v ∈ seen /\ uncle_hash v = parent_hash (UncleBlockView_raw u) /\
       number (UncleBlockView_raw v) + 1 = number (UncleBlockView_raw u)) \/
    descendant provider (UncleBlockView_header u) = Ok true;
  uncle_fresh : uncle_hash u ∉ uncle_hash <$> seen;
  uncle_not_included : double_inclusion provider (uncle_hash u) = false;
  uncle_limit : zlen (uncle_proposals (uncle_data u)) <=
    max_block_proposals_limit (provider_consensus provider);
  uncle_proposals_hash :
    proposals_hash (UncleBlockView_raw u) = UncleBlock_calc_proposals_hash (uncle_data u);
  uncle_proposals_nodup : NoDup (uncle_proposals (uncle_data u));
  uncle_pow : pow_engine_verify (pow (provider_consensus provider)) (uncle_header (uncle_data u)) = true;
}.

(** The map of the loop after the uncles [seen]. *)
Definition included_map (seen : list UncleBlockView) : gmap Byte32 Z :=
  foldl (fun m u => <[uncle_hash u := number (UncleBlockView_raw u)]> m) ∅ seen.

Lemma included_map_app seen u :
  included_map (seen ++ [u]) = <[uncle_hash u := number (UncleBlockView_raw u)]> (included_map seen).
Proof. unfold included_map. by rewrite foldl_app. Qed.

Lemma included_map_lookup seen h n :
  NoDup (uncle_hash <$> seen) ->
  included_map seen !! h = Some n <->
  exists v, v ∈ seen /\ uncle_hash v = h /\ number (UncleBlockView_raw v) = n.
Proof.
  induction seen as [|u seen IH] using rev_ind; intros Hnd.
  - split; [done|]. intros (v & Hv & _). by apply not_elem_of_nil in Hv.
  - rewrite fmap_app, NoDup_app in Hnd. destruct Hnd as (Hnd & Hu & _).
    rewrite included_map_app, lookup_insert_Some, IH by done. split.
    + intros [[<- <-]|[? (v & ? & ? & ?)]]; [exists u|exists v]; set_solver.
    + intros (v & [Hv|Hv%list_elem_of_singleton]%elem_of_app & <- & <-); [|subst v; by left].
      right. split; [|by exists v]. intros E. apply (Hu (uncle_hash v)); [|set_solver].
      by apply list_elem_of_fmap_2.
Qed.

Lemma included_map_None seen h :
  NoDup (uncle_hash <$> seen) ->
  included_map seen !! h = None <-> h ∉ uncle_hash <$> seen.
Proof.
  intros Hnd. rewrite eq_None_not_Some. unfold is_Some. setoid_rewrite included_map_lookup; [|done].
  rewrite list_elem_of_fmap. naive_solver.
Qed.

Hypothesis block_number_u64 : is_u64 (BlockView_number block).

Definition seen_ok (seen : list UncleBlockView) : Prop :=
  NoDup (uncle_hash <$> seen) /\
  Forall (fun u => 0 <= number (UncleBlockView_raw u) < BlockView_number block) seen.

Lemma embedded_descendant_Ok seen u :
  seen_ok seen ->
  exists b, embedded_descendant (included_map seen) u = Ok b /\
    (b = true <-> exists v, v ∈ seen /\ uncle_hash v = parent_hash (UncleBlockView_raw u) /\
       number (UncleBlockView_raw v) + 1 = number (UncleBlockView_raw u)).
Proof.
  intros [Hnd Hlt]. unfold embedded_descendant, u64_add.
  destruct (included_map seen !! _) as [n|] eqn:E.
  - apply included_map_lookup in E as (v & Hv & Hh & <-); [|done].
    rewrite Forall_forall in Hlt. pose proof (Hlt v Hv). rewrite fit_in_range by zlia. step.
    eexists. split; [done|]. rewrite Z.eqb_eq. split; [by exists v|].
    intros (v' & Hv' & Hh' & Hn). rewrite <- Hn. f_equal.
    assert (included_map seen !! uncle_hash v = Some (number (UncleBlockView_raw v'))) as E1
      by (apply included_map_lookup; [done|]; exists v'; split_and!; congruence).
    assert (included_map seen !! uncle_hash v = Some (number (UncleBlockView_raw v))) as E2
      by (apply included_map_lookup; [done|]; by exists v).
    congruence.
  - exists false. split; [done|]. split; [done|]. intros (v & Hv & Hh & _).
    apply included_map_None in E; [|done]. rewrite <- Hh in E.
    by apply list_elem_of_fmap_2 with (f:=uncle_hash) in Hv.
Qed.

Lemma verify_uncle_Ok seen u m :
  seen_ok seen ->
  verify_uncle provider block (included_map seen) u = Ok m <->
  accepted_uncle seen u /\ m = included_map (seen ++ [u]).
Proof.
  intros Hs. unfold verify_uncle.
  destruct (Z.eqb_spec (compact_target (UncleBlockView_raw u))
    (epoch_compact_target (provider_epoch provider))); cbn [negb];
    [|split; [done|intros [[] _]; done]].
  destruct (Z.eqb_spec (epoch_number (provider_epoch provider))
    (EpochFraction_number (RawHeader_epoch (UncleBlockView_raw u)))); cbn [negb];
    [|split; [done|intros [[] _]; congruence]].
  destruct (Z.leb_spec (BlockView_number block) (number (UncleBlockView_raw u)));
    [split; [done|intros [[] _]; lia]|].
  destruct (embedded_descendant_Ok seen u Hs) as (b & -> & Hb). step.
  assert (Hlinked : forall r : outcome Error (gmap Byte32 Z),
    (linked ← (if b then Ok true else descendant provider (UncleBlockView_header u));
     if negb linked then Err (into DescendantLimit) else r) = Ok m <->
    ((b = true \/ descendant provider (UncleBlockView_header u) = Ok true) /\ r = Ok m)).
  { intros r. destruct b; step; [naive_solver|].
    destruct (descendant _ _) as [[]|err|]; step; naive_solver. }
  rewrite Hlinked, Hb. clear Hlinked.
  pose proof (included_map_None seen (uncle_hash u) (proj1 Hs)) as Hfresh.
  rewrite eq_None_not_Some in Hfresh.
  case_bool_decide as Hin; [split; [naive_solver|intros [[] _]; naive_solver]|].
  destruct (double_inclusion provider (uncle_hash u)) eqn:Hd;
    [split; [naive_solver|intros [[] _]; congruence]|].
  destruct (Z.ltb_spec (max_block_proposals_limit (provider_consensus provider))
    (zlen (uncle_proposals (uncle_data u)))); [split; [naive_solver|intros [[] _]; lia]|].
  case_bool_decide; cbn [negb]; [|split; [naive_solver|intros [[] _]; congruence]].
  pose proof (all_insert_NoDup (uncle_proposals (uncle_data u))) as Hnd.
  destruct (all_insert ∅ _); cbn [negb];
    [|split; [naive_solver|intros [[] _]; naive_solver]].
  destruct (pow_engine_verify _ _) eqn:Hpow; cbn [negb];
    [|split; [naive_solver|intros [[] _]; congruence]].
  rewrite included_map_app. split.
  - intros [Hp [= <-]]. split; [|done]. split; try done; [by apply Hfresh|by apply Hnd].
  - intros [[] ->]. done.
Qed.

Lemma seen_ok_app seen u :
  seen_ok seen -> 0 <= number (UncleBlockView_raw u) -> accepted_uncle seen u ->
  seen_ok (seen ++ [u]).
Proof.
  intros [Hnd Hlt] Hu []. split.
  - rewrite fmap_app. apply NoDup_app. split_and!; [done| |apply NoDup_singleton].
    intros h Hh Hs%list_elem_of_singleton. by subst h.
  - apply Forall_app. split; [done|]. by apply Forall_singleton.
Qed.

Lemma verify_uncles_Ok us seen :
  seen_ok seen -> Forall (fun u => 0 <= number (UncleBlockView_raw u)) us ->
  (exists m, try_fold (verify_uncle provider block) (included_map seen) us = Ok m) <->
  forall i u, us !! i = Some u -> accepted_uncle (seen ++ take i us) u.
Proof.
  revert seen. induction us as [|u us IH]; intros seen Hs Hpos.
  { split; [done|]. intros _. by eexists. }
  apply Forall_cons in Hpos as [Hu Hpos]. cbn [try_fold]. setoid_rewrite bind_Ok. split.
  - intros (m & m' & Hm' & Hm). apply verify_uncle_Ok in Hm' as [Ha ->]; [|done].
    intros [|i] v Hv.
    + injection Hv as <-. by rewrite app_nil_r.
    + cbn [take]. rewrite (cons_middle u seen), app_assoc.
      refine (proj1 (IH (seen ++ [u]) (seen_ok_app _ _ Hs Hu Ha) Hpos) _ i v Hv). by exists m.
  - intros Hall. pose proof (Hall 0%nat u eq_refl) as Ha. rewrite app_nil_r in Ha.
    destruct (proj2 (IH (seen ++ [u]) (seen_ok_app _ _ Hs Hu Ha) Hpos)) as [m Hm].
    { intros i v Hv. specialize (Hall (S i) v Hv). by rewrite <- app_assoc. }
    exists m, (included_map (seen ++ [u])). split; [|done]. by apply verify_uncle_Ok.
Qed.

Lemma UnclesVerifier_Ok us :
  UncleBlockVecView_into_iter (E:=Error) (BlockView_uncles block) = Ok us ->
  Forall (fun u => 0 <= number (UncleBlockView_raw u)) us ->
  zlen us < 2 ^ 32 -> Z.of_nat (max_uncles_num (provider_consensus provider)) < 2 ^ 32 ->
  UnclesVerifier_verify provider block = Ok tt <->
  uncles_hash (BlockView_raw block) = BlockView_calc_uncles_hash block /\
  (us = [] \/
   BlockView_is_genesis block = false /\
   (length us <= max_uncles_num (provider_consensus provider))%nat /\
   forall i u, us !! i = Some u -> accepted_uncle (take i us) u).
Proof.
  intros Hus Hpos Hlen Hmax. unfold UnclesVerifier_verify. rewrite Hus.
  assert (length (block_uncles (block_data block)) = length us) as ->.
  { apply try_map_Ok, Forall2_length in Hus. by rewrite length_enumerate in Hus. }
  rewrite !Z.mod_small by lia.
  case_bool_decide; cbn [negb]; [|naive_solver].
  destruct (Z.eqb_spec (zlen us) 0) as [Hz|Hz].
  { destruct us; [naive_solver|simpl in Hz; lia]. }
  assert (us <> []) by (by intros ->).
  destruct (BlockView_is_genesis block); [naive_solver|].
  destruct (Z.ltb_spec (Z.of_nat (max_uncles_num (provider_consensus provider))) (zlen us)).
  { split; [done|]. intros [_ [?|(_ & ? & _)]]; [done|lia]. }
  step. rewrite bind_Ok. pose proof (verify_uncles_Ok us []) as Hv. cbn [app] in Hv.
  change (included_map []) with (∅ : gmap Byte32 Z) in Hv. split.
  - intros (m & Hm & _). split; [done|]. right. split_and!; [done|lia|].
    apply Hv; [by split; constructor|done|by exists m].
  - intros [_ [?|(_ & _ & Hall)]]; [done|]. apply Hv in Hall as [m Hm]; [by exists m| |done].
    by split; constructor.
Qed.

(** C32: the uncles of a block are accepted exactly when the header commits to
    their hashes and there are none, or the block is not genesis, they are at
    most the maximum number, and each of them, after those listed before it,
    shares epoch and target, is lower than the block, has a parent one below it
    on the chain, among the chain's uncles or listed before it, was not included
    before, and has admissible proposals and proof of work. *)
Theorem uncles_verifier_spec us :
  UncleBlockVecView_into_iter (E:=Error) (BlockView_uncles block) = Ok us ->
  Forall (fun u => 0 <= number (UncleBlockView_raw u)) us ->
  zlen us < 2 ^ 32 -> Z.of_nat (max_uncles_num (provider_consensus provider)) < 2 ^ 32 ->
  UnclesVerifier_verify provider block = Ok tt <->
  uncles_hash (BlockView_raw block) = BlockView_calc_uncles_hash block /\
  (us = [] \/
   BlockView_is_genesis block = false /\
   (length us <= max_uncles_num (provider_consensus provider))%nat /\
   forall i u, us !! i = Some u -> accepted_uncle (take i us) u).
Proof. apply UnclesVerifier_Ok. Qed.
End spec.

(** ** Witness *)

Definition sample_uncle : UncleBlock :=
  mkUncleBlock (mkHeader (mkRawHeader 0 0x1d080000 0 4 0 [7] zero32 zero32 zero32 zero32) 0) [].
Definition sample_uncle2 : UncleBlock :=
  mkUncleBlock (mkHeader (mkRawHeader 0 0x1d080000 0 5 0 (UncleBlock_calc_header_hash
    (H:=toy_hasher) sample_uncle) zero32 zero32 zero32 zero32) 0) [].
Definition sample_nephew : BlockView :=
  Block_into_view (H:=toy_hasher)
    (mkBlock (mkHeader (mkRawHeader 0 0x1d080000 0 6 0 [8] zero32 zero32 zero32 zero32) 0)
      [sample_uncle; sample_uncle2] [] []).
Definition sample_uncle_provider : UncleProvider :=
  mkUncleProvider (fun _ => false) (fun h => Ok (bool_decide (HeaderView_parent_hash h = [7])))
    sample_epoch (ConsensusBuilder_new sample_genesis sample_epoch).

Lemma uncles_verifier_spec_witness :
  UnclesVerifier_verify (H:=numext_ref) (H0:=toy_hasher) sample_uncle_provider sample_nephew = Ok tt.
Proof.
  apply (uncles_verifier_spec (H:=numext_ref) (H0:=toy_hasher) sample_uncle_provider sample_nephew
    ltac:(by vm_compute) (UncleBlock_into_view (H:=toy_hasher) <$> [sample_uncle; sample_uncle2])).
  - by vm_compute.
  - repeat constructor; by vm_compute.
  - by vm_compute.
  - by vm_compute.
  - split; [by vm_compute|]. right. split; [by vm_compute|]. split; [by vm_compute; lia|].
    intros [|[|i]] u Hu; [injection Hu as <-|injection Hu as <-|done].
    + split; try (by vm_compute); [right; by vm_compute|apply not_elem_of_nil|constructor].
    + split; try (by vm_compute); [|by apply (bool_decide_unpack _); vm_compute|constructor].
      left. exists (UncleBlock_into_view (H:=toy_hasher) sample_uncle).
      split; [apply list_elem_of_singleton; reflexivity|]. split; by vm_compute.
Defined.
