(* ===== verification/TransactionVerifier.v ===== *)
(** * Transaction verification: src/verification/src/transaction_verifier.rs, cache.rs

    Every check of [TransactionVerifier::verify], in its order.  The scripts run
    in the third-party virtual machine: their verification is the argument
    [script_verify].  The memo of median times in [SinceVerifier] is an LRU cache
    of a third-party crate, the class [LruCache] with its law. *)

From Stdlib Require Import QArith.
From S2P Require Import Prelude Capacity NumExt Rational Difficulty Types Molecule BlockCodec.
From S2P Require Import Errors Epoch Cell Consensus Hashes Store Dao HeaderVerifier.
Local Open Scope Z_scope.

(** ** Caches *)

Record CacheEntry := mkCacheEntry { cycles : Z; fee : Capacity }.

Class LruCache (V : Type) := {
  lru : Type;
  lru_new : nat -> lru;
  lru_get : lru -> Byte32 -> option V;
  lru_insert : lru -> Byte32 -> V -> lru;
}.
Arguments lru V {_}.
(** Whatever is evicted, a cache returns only what was inserted last under a key. *)
Class LruCacheSpec V (C : LruCache V) : Prop := {
  lru_get_new n k : lru_get (lru_new n) k = None;
  lru_get_insert c k v k' v' :
    lru_get (lru_insert c k v) k' = Some v' ->
    (k' = k /\ v' = v) \/ (k' <> k /\ lru_get c k' = Some v');
}.

(** ** The checks of a transaction alone *)

Definition Tx_VersionVerifier_verify (tx : TransactionView) (tx_version : Z) : outcome Error unit :=
  if negb (TransactionView_version tx =? tx_version) then Err (into MismatchedVersion) else Ok tt.

Definition SizeVerifier_verify (tx : TransactionView) (block_bytes_limit : Z) : outcome Error unit :=
  let size := Transaction_serialized_size_in_block (tx_data tx) in
  if size <=? block_bytes_limit then Ok tt
  else Err (into TransactionError_ExceededMaximumBlockBytes).

Definition EmptyVerifier_verify (tx : TransactionView) : outcome Error unit :=
  if is_empty (TransactionView_inputs tx)
     || (is_empty (TransactionView_outputs tx) && negb (TransactionView_is_cellbase tx))
  then Err (into TransactionError_Empty) else Ok tt.

Definition DuplicateDepsVerifier_verify (tx : TransactionView) : outcome Error unit :=
  if all_insert ∅ (TransactionView_cell_deps tx) && all_insert ∅ (TransactionView_header_deps tx)
  then Ok tt else Err (into DuplicateDeps).

Definition OutputsDataVerifier_verify (tx : TransactionView) : outcome Error unit :=
  if negb (length (TransactionView_outputs tx) =? length (TransactionView_outputs_data tx))%nat
  then Err (into OutputsDataLengthMismatch) else Ok tt.

(** ** Capacity *)

Section capacity.
Context (rtx : ResolvedTransaction) (dao_type_hash : option Byte32).

Definition valid_dao_withdraw_transaction : outcome Error bool :=
  try_any (fun cell_meta =>
    match type_ (cell_output cell_meta) with
    | None => Ok false
    | Some t =>
        if hash_type t =? ScriptHashType_into ScriptHashType_Type then
          h ← expect dao_type_hash;
          Ok (bool_decide (code_hash t = h))
        else Ok false
    end) (resolved_inputs rtx).

Definition output_capacity_check (od : CellOutput * bytes) : outcome Error unit :=
  let '(output, data) := od in
  data_capacity ← cap (Capacity_bytes (zlen data));
  lack ← cap (CellOutput_is_lack_of_capacity output data_capacity);
  if (lack : bool) then Err (into InsufficientCellCapacity) else Ok tt.

Definition CapacityVerifier_verify : outcome Error unit :=
  skip ← (if ResolvedTransaction_is_cellbase rtx then Ok true else valid_dao_withdraw_transaction);
  _ ← (if (skip : bool) then Ok tt
       else
         inputs_total ← cap (ResolvedTransaction_inputs_capacity rtx);
         outputs_total ← cap (ResolvedTransaction_outputs_capacity rtx);
         if inputs_total <? outputs_total then Err (into OutputsSumOverflow) else Ok tt);
  try_for_each output_capacity_check (TransactionView_outputs_with_data_iter (transaction rtx)).
End capacity.

(** ** Cellbase maturity *)

Section rational.
Context `{NumExt}.

Definition rational_lt {E} (a b : RationalU256) : outcome E bool :=
  ord ← Rational_cmp a b;
  Ok (match ord with Lt => true | _ => false end).

(** [current < a.to_rational() + b.to_rational()]. *)
Definition epoch_before {E} (current a b : EpochNumberWithFraction) : outcome E bool :=
  x ← EpochFraction_to_rational a;
  y ← EpochFraction_to_rational b;
  threshold ← Rational_add x y;
  current ← EpochFraction_to_rational current;
  rational_lt current threshold.

Definition cellbase_immature (epoch cellbase_maturity : EpochNumberWithFraction) (meta : CellMeta) :
    outcome Error bool :=
  match transaction_info meta with
  | None => Ok false
  | Some info =>
      if (0 <? info_block_number info) && TransactionInfo_is_cellbase info
      then epoch_before epoch cellbase_maturity (info_block_epoch info)
      else Ok false
  end.

Definition MaturityVerifier_verify (rtx : ResolvedTransaction)
    (epoch cellbase_maturity : EpochNumberWithFraction) : outcome Error unit :=
  input_immature ← try_any (cellbase_immature epoch cellbase_maturity) (resolved_inputs rtx);
  immature ← (if (input_immature : bool) then Ok true
              else try_any (cellbase_immature epoch cellbase_maturity) (resolved_cell_deps rtx));
  if (immature : bool) then Err (into CellbaseImmaturity) else Ok tt.
End rational.

(** ** Since *)

Definition LOCK_TYPE_FLAG : Z := Z.shiftl 1 63.
Definition METRIC_TYPE_FLAG_MASK : Z := 0x6000000000000000.
Definition VALUE_MASK : Z := 0x00ffffffffffffff.
Definition REMAIN_FLAGS_BITS : Z := 0x1f00000000000000.

Inductive SinceMetric :=
| SinceMetric_BlockNumber (n : Z)
| SinceMetric_EpochNumberWithFraction (e : EpochNumberWithFraction)
| SinceMetric_Timestamp (t : Z).

Definition Since_is_absolute (s : Z) : bool := Z.land s LOCK_TYPE_FLAG =? 0.
Definition Since_is_relative (s : Z) : bool := negb (Since_is_absolute s).
Definition Since_flags_is_valid (s : Z) : bool :=
  (Z.land s REMAIN_FLAGS_BITS =? 0)
  && negb (Z.land s METRIC_TYPE_FLAG_MASK =? METRIC_TYPE_FLAG_MASK).
Definition Since_extract_metric {E} (s : Z) : outcome E (option SinceMetric) :=
  let value := Z.land s VALUE_MASK in
  let metric := Z.land s METRIC_TYPE_FLAG_MASK in
  if metric =? 0x0000000000000000 then Ok (Some (SinceMetric_BlockNumber value))
  else if metric =? 0x2000000000000000
  then Ok (Some (SinceMetric_EpochNumberWithFraction (EpochFraction_from_full_value value)))
  else if metric =? 0x4000000000000000
  then t ← u64_mul value 1000; Ok (Some (SinceMetric_Timestamp t))
  else Ok None.

Section since.
Context `{NumExt} `{LruCache Z} (ctx : BlockMedianTimeContext) (block_number : Z)
  (epoch_number_with_fraction : EpochNumberWithFraction) (parent_hash : Byte32).

(** The methods of [SinceVerifier] thread the cache of its [RefCell]. *)
Definition since_block_median_time (cache : lru Z) (block_hash : Byte32) :
    outcome Error (Z * lru Z) :=
  match lru_get cache block_hash with
  | Some median_time => Ok (median_time, cache)
  | None =>
      median_time ← block_median_time ctx block_hash;
      Ok (median_time, lru_insert cache block_hash median_time)
  end.
Definition parent_median_time (cache : lru Z) (block_hash : Byte32) : outcome Error (Z * lru Z) :=
  r ← timestamp_and_parent ctx block_hash;
  since_block_median_time cache r.2.

Definition verify_absolute_lock (cache : lru Z) (since : Z) : outcome Error (lru Z) :=
  if Since_is_absolute since then
    metric ← Since_extract_metric since;
    match metric with
    | Some (SinceMetric_BlockNumber n) =>
        if block_number <? n then Err (into Immature) else Ok cache
    | Some (SinceMetric_EpochNumberWithFraction e) =>
        if EpochFraction_lt epoch_number_with_fraction e then Err (into Immature) else Ok cache
    | Some (SinceMetric_Timestamp timestamp) =>
        '(tip_timestamp, cache) ← since_block_median_time cache parent_hash;
        if tip_timestamp <? timestamp then Err (into Immature) else Ok cache
    | None => Err (into InvalidSince)
    end
  else Ok cache.

Definition verify_relative_lock (cache : lru Z) (since : Z) (cell_meta : CellMeta) :
    outcome Error (lru Z) :=
  if Since_is_relative since then
    info ← ok_or (into Immature) (transaction_info cell_meta);
    metric ← Since_extract_metric since;
    match metric with
    | Some (SinceMetric_BlockNumber n) =>
        limit ← u64_add (info_block_number info) n;
        if block_number <? limit then Err (into Immature) else Ok cache
    | Some (SinceMetric_EpochNumberWithFraction e) =>
        before ← epoch_before epoch_number_with_fraction (info_block_epoch info) e;
        if (before : bool) then Err (into Immature) else Ok cache
    | Some (SinceMetric_Timestamp timestamp) =>
        '(cell_median_timestamp, cache) ← parent_median_time cache (info_block_hash info);
        '(current_median_time, cache) ← since_block_median_time cache parent_hash;
        limit ← u64_add cell_median_timestamp timestamp;
        if current_median_time <? limit then Err (into Immature) else Ok cache
    | None => Err (into InvalidSince)
    end
  else Ok cache.

(** One iteration of the loop over the inputs. *)
Definition verify_since (cache : lru Z) (mi : CellMeta * CellInput) : outcome Error (lru Z) :=
  let '(cell_meta, input) := mi in
  let since := since input in
  if since =? 0 then Ok cache
  else if negb (Since_flags_is_valid since) then Err (into InvalidSince)
  else
    cache ← verify_absolute_lock cache since;
    verify_relative_lock cache since cell_meta.

Definition SinceVerifier_verify (rtx : ResolvedTransaction) : outcome Error unit :=
  _ ← try_fold verify_since (lru_new (length (resolved_inputs rtx)))
    (zip (resolved_inputs rtx) (TransactionView_inputs (transaction rtx)));
  Ok tt.
End since.

(** ** The transaction verifiers *)

Section verifiers.
Context `{NumExt} `{Hasher} `{LruCache Z}.
Context (script_verify : Store -> ResolvedTransaction -> Z -> outcome Error Z).
Context (ctx : BlockMedianTimeContext) (block_number : Z)
  (epoch_number_with_fraction : EpochNumberWithFraction) (parent_hash : Byte32)
  (consensus : Consensus).

Definition ContextualTransactionVerifier_verify (rtx : ResolvedTransaction) : outcome Error unit :=
  _ ← MaturityVerifier_verify rtx epoch_number_with_fraction (cellbase_maturity consensus);
  SinceVerifier_verify ctx block_number epoch_number_with_fraction parent_hash rtx.

Context (store : Store).

Definition FeeCalculator_transaction_fee (rtx : ResolvedTransaction) : outcome Error Capacity :=
  if ResolvedTransaction_is_cellbase rtx then Ok Capacity_zero
  else transaction_fee CellOutput_calc_data_hash consensus store rtx.

Definition TransactionVerifier_verify (rtx : ResolvedTransaction) (max_cycles : Z) :
    outcome Error CacheEntry :=
  let tx := transaction rtx in
  _ ← Tx_VersionVerifier_verify tx (consensus_tx_version consensus);
  _ ← SizeVerifier_verify tx (max_block_bytes consensus);
  _ ← EmptyVerifier_verify tx;
  _ ← MaturityVerifier_verify rtx epoch_number_with_fraction (cellbase_maturity consensus);
  _ ← CapacityVerifier_verify rtx (dao_type_hash consensus);
  _ ← DuplicateDepsVerifier_verify tx;
  _ ← OutputsDataVerifier_verify tx;
  _ ← SinceVerifier_verify ctx block_number epoch_number_with_fraction parent_hash rtx;
  cycles ← script_verify store rtx max_cycles;
  fee ← FeeCalculator_transaction_fee rtx;
  Ok (mkCacheEntry cycles fee).
End verifiers.

(** ** Epoch arithmetic *)

Section epochs.
Context `{NumExt, !NumExtSpec H}.

(** [epoch_before] decides an inequality of positions on the epoch line. *)
Lemma epoch_before_ok {E} current a b :
  0 < EpochFraction_length current -> 0 < EpochFraction_length a -> 0 < EpochFraction_length b ->
  exists r, epoch_before (E:=E) current a b = Ok r /\
    (r = true <-> (epoch_position current < epoch_position a + epoch_position b)%Q).
Proof.
  intros Hc Ha Hb. unfold epoch_before, rational_lt.
  destruct (EpochFraction_to_rational_ok (E:=E) a Ha) as (ra & -> & Wa & Qa & Na & Da).
  destruct (EpochFraction_to_rational_ok (E:=E) b Hb) as (rb & -> & Wb & Qb & Nb & Db).
  destruct (EpochFraction_to_rational_ok (E:=E) current Hc) as (rc & -> & Wc & Qc & Nc & Dc). step.
  pose proof Wa as [[? _] ?]. pose proof Wb as [[? _] ?]. pose proof Wc as [[? _] ?].
  assert (numer ra * denom rb < 2 ^ 58) by nia. assert (numer rb * denom ra < 2 ^ 58) by nia.
  assert (denom ra * denom rb < 2 ^ 32) by nia.
  destruct (Rational_add_reduced (E:=E) ra rb) as (rt & -> & Wt & Qt & Nt & Dt); [done|done|lia..|].
  pose proof Wt as [[? _] ?]. step.
  assert (numer rc * denom rt < 2 ^ 74) by nia. assert (numer rt * denom rc < 2 ^ 75) by nia.
  assert (denom rc * denom rt < 2 ^ 48) by nia.
  rewrite Rational_cmp_ok by (done || lia). step.
  assert ((toQ rc ?= toQ rt)%Q = (epoch_position current ?= epoch_position a + epoch_position b)%Q)
    as -> by by rewrite Qc, Qt, Qa, Qb.
  eexists. split; [done|]. rewrite Qlt_alt.
  by destruct (epoch_position current ?= _)%Q.
Qed.

(** The cellbase outputs a transaction uses or depends on are mature. *)
Definition mature (epoch maturity : EpochNumberWithFraction) (meta : CellMeta) : Prop :=
  forall info, transaction_info meta = Some info ->
    0 < info_block_number info -> TransactionInfo_is_cellbase info = true ->
    (epoch_position maturity + epoch_position (info_block_epoch info) <= epoch_position epoch)%Q.

Definition meta_epoch_wf (meta : CellMeta) : Prop :=
  forall info, transaction_info meta = Some info -> 0 < EpochFraction_length (info_block_epoch info).

Lemma cellbase_immature_ok epoch maturity meta :
  0 < EpochFraction_length epoch -> 0 < EpochFraction_length maturity -> meta_epoch_wf meta ->
  exists r, cellbase_immature epoch maturity meta = Ok r /\ (r = true <-> ~ mature epoch maturity meta).
Proof.
  intros He Hm Hw. unfold cellbase_immature, mature.
  destruct (transaction_info meta) as [info|] eqn:Ei.
  2: { exists false. split; [done|]. split; [done|]. intros Hn. destruct Hn. naive_solver. }
  destruct ((0 <? info_block_number info) && TransactionInfo_is_cellbase info) eqn:Hc.
  - reflect_bools. destruct (epoch_before_ok (E:=Error) epoch maturity (info_block_epoch info))
      as (r & -> & Hr); [done|done|by apply Hw|].
    exists r. split; [done|]. rewrite Hr. split.
    + intros Hlt Hle. by apply (Qlt_not_le _ _ Hlt), Hle.
    + intros Hn. apply Qnot_le_lt. intros Hle. apply Hn. by intros ? [= <-].
  - exists false. split; [done|]. split; [done|]. intros Hn. destruct Hn.
    intros ? [= <-] Hp Hcb. rewrite Hcb, andb_true_r in Hc. apply Z.ltb_ge in Hc. lia.
Qed.

(** A transaction passes the maturity check exactly when every cellbase output
    (past the genesis block) among its inputs and dependencies is at least the
    maturity period older than the block, measured on the epoch line. *)
Theorem maturity_verifier_spec rtx epoch maturity :
  0 < EpochFraction_length epoch -> 0 < EpochFraction_length maturity ->
  Forall meta_epoch_wf (resolved_inputs rtx ++ resolved_cell_deps rtx) ->
  MaturityVerifier_verify rtx epoch maturity = Ok tt <->
  Forall (mature epoch maturity) (resolved_inputs rtx ++ resolved_cell_deps rtx).
Proof.
  intros He Hm [Hwi Hwd]%Forall_app. unfold MaturityVerifier_verify.
  assert (forall l, Forall meta_epoch_wf l -> exists b,
    try_any (cellbase_immature epoch maturity) l = Ok b /\
    (b = false <-> Forall (mature epoch maturity) l)) as Hany.
  { intros l Hl. rewrite Forall_forall in Hl.
    destruct (try_any_Ok (cellbase_immature epoch maturity)
      (fun m => ~ mature epoch maturity m) l) as (b & Hb & Hi).
    { intros m Hin. apply cellbase_immature_ok; auto. }
    exists b. split; [done|]. rewrite Hi, !Forall_forall. split; [|naive_solver].
    intros Hn m Hin. specialize (Hn m Hin).
    destruct (cellbase_immature_ok epoch maturity m) as (r & _ & Hr); [auto..|].
    unfold mature in *. intros info Hinfo Hp Hc. apply Qnot_lt_le. intros Hlt. apply Hn.
    intros Hall. by apply (Qlt_not_le _ _ Hlt), Hall. }
  destruct (Hany _ Hwi) as (bi & -> & Hbi). destruct (Hany _ Hwd) as (bd & Hd & Hbd).
  rewrite Forall_app, <- Hbi, <- Hbd. step. destruct bi; step; [naive_solver|].
  rewrite Hd. step. destruct bd; naive_solver.
Qed.
End epochs.

(** ** Since locks *)

(** The fields of a since value: the lock flag, the metric, reserved bits and
    the value (RFC 17). *)
Definition since_relative (s : Z) : Prop := s / 2 ^ 63 mod 2 ^ 1 <> 0.
Definition since_metric (s : Z) : Z := s / 2 ^ 61 mod 2 ^ 2.
Definition since_reserved (s : Z) : Z := s / 2 ^ 56 mod 2 ^ 5.
Definition since_value (s : Z) : Z := s mod 2 ^ 56.

Lemma Since_is_relative_spec s : Since_is_relative s = true <-> since_relative s.
Proof.
  unfold Since_is_relative, Since_is_absolute, since_relative.
  change LOCK_TYPE_FLAG with (Z.shiftl (2 ^ 1 - 1) 63). rewrite land_field by lia.
  rewrite negb_true_iff, Z.eqb_neq. lia.
Qed.

Lemma Since_flags_is_valid_spec s :
  Since_flags_is_valid s = true <-> since_reserved s = 0 /\ since_metric s <> 3.
Proof.
  unfold Since_flags_is_valid, since_reserved, since_metric.
  change REMAIN_FLAGS_BITS with (Z.shiftl (2 ^ 5 - 1) 56).
  change METRIC_TYPE_FLAG_MASK with (Z.shiftl (2 ^ 2 - 1) 61) at 1.
  rewrite !land_field by lia. change METRIC_TYPE_FLAG_MASK with (3 * 2 ^ 61).
  rewrite andb_true_iff, negb_true_iff, Z.eqb_eq, Z.eqb_neq. lia.
Qed.

Lemma Since_extract_metric_spec {E} s :
  Since_extract_metric (E:=E) s =
  match since_metric s with
  | 0 => Ok (Some (SinceMetric_BlockNumber (since_value s)))
  | 1 => Ok (Some (SinceMetric_EpochNumberWithFraction (EpochFraction_from_full_value (since_value s))))
  | 2 => t ← u64_mul (since_value s) 1000; Ok (Some (SinceMetric_Timestamp t))
  | _ => Ok None
  end.
Proof.
  unfold Since_extract_metric, since_metric, since_value.
  change VALUE_MASK with (2 ^ 56 - 1). rewrite land_mask by lia.
  change METRIC_TYPE_FLAG_MASK with (Z.shiftl (2 ^ 2 - 1) 61). rewrite land_field by lia.
  pose proof (Z.mod_pos_bound (s / 2 ^ 61) (2 ^ 2) ltac:(lia)) as Hb.
  change 0x2000000000000000 with (1 * 2 ^ 61). change 0x4000000000000000 with (2 * 2 ^ 61).
  destruct (Z.eqb_spec (s / 2 ^ 61 mod 2 ^ 2 * 2 ^ 61) 0) as [E0|E0].
  { assert (s / 2 ^ 61 mod 2 ^ 2 = 0) as -> by lia. done. }
  destruct (Z.eqb_spec (s / 2 ^ 61 mod 2 ^ 2 * 2 ^ 61) (1 * 2 ^ 61)) as [E1|E1].
  { assert (s / 2 ^ 61 mod 2 ^ 2 = 1) as -> by lia. done. }
  destruct (Z.eqb_spec (s / 2 ^ 61 mod 2 ^ 2 * 2 ^ 61) (2 * 2 ^ 61)) as [E2|E2].
  { assert (s / 2 ^ 61 mod 2 ^ 2 = 2) as -> by lia. done. }
  assert (s / 2 ^ 61 mod 2 ^ 2 = 3) as -> by lia. done.
Qed.

(** A since value whose metric is a timestamp of more than 2^64 / 1000 seconds
    makes [extract_metric] panic: the multiplication by 1000 is not checked, and
    the 56-bit value can exceed the bound. *)
Theorem since_timestamp_overflow :
  let s := 0x40ffffffffffffff in
  Since_flags_is_valid s = true /\ Since_extract_metric (E:=Error) s = Panic.
Proof. by vm_compute. Qed.

Section since_facts.
Context `{NumExt, !NumExtSpec H} `{LC : LruCache Z, !LruCacheSpec Z LC}.
Context (ctx : BlockMedianTimeContext) (block_number : Z)
  (epoch : EpochNumberWithFraction) (parent_hash : Byte32).

(** A cache that agrees with the chain. *)
Definition cache_ok (cache : lru Z) : Prop :=
  forall h m, lru_get cache h = Some m -> block_median_time ctx h = Ok m.

Lemma since_block_median_time_ok cache h :
  cache_ok cache ->
  match block_median_time ctx h with
  | Ok m => exists cache', since_block_median_time ctx cache h = Ok (m, cache') /\ cache_ok cache'
  | Err e => since_block_median_time ctx cache h = Err e
  | Panic => since_block_median_time ctx cache h = Panic
  end.
Proof.
  intros Hc. unfold since_block_median_time. destruct (lru_get cache h) as [m|] eqn:Eg.
  - rewrite (Hc h m Eg). by exists cache.
  - destruct (block_median_time ctx h) as [m|e|] eqn:Em; [|done..]. step.
    eexists. split; [done|]. intros h' m' [[-> ->]|[_ ?]]%lru_get_insert; auto.
Qed.

(** What the lock of an input demands: an absolute lock bounds the block's
    height, epoch or the median time before it; a relative lock bounds what has
    passed since the block of the cell. *)
Definition absolute_ok (s : Z) : Prop :=
  match since_metric s with
  | 0 => since_value s <= block_number
  | 1 => EpochFraction_lt epoch (EpochFraction_from_full_value (since_value s)) = false
  | 2 => exists m, block_median_time ctx parent_hash = Ok m /\ since_value s * 1000 <= m
  | _ => False
  end.
Definition relative_time_ok (info : TransactionInfo) (s : Z) : Prop :=
  exists t n p before now,
    timestamp_and_parent ctx (info_block_hash info) = Ok (t, n, p) /\
    block_median_time ctx p = Ok before /\ block_median_time ctx parent_hash = Ok now /\
    before + since_value s * 1000 <= now.
Definition relative_ok (meta : CellMeta) (s : Z) : Prop :=
  exists info, transaction_info meta = Some info /\
  match since_metric s with
  | 0 => info_block_number info + since_value s <= block_number
  | 1 => (epoch_position (info_block_epoch info) +
          epoch_position (EpochFraction_from_full_value (since_value s)) <= epoch_position epoch)%Q
  | 2 => relative_time_ok info s
  | _ => False
  end.
Definition since_ok (meta : CellMeta) (s : Z) : Prop :=
  s = 0 \/ since_reserved s = 0 /\ (since_relative s -> relative_ok meta s) /\
           (~ since_relative s -> absolute_ok s).

Hypothesis block_number_u64 : is_u64 block_number.
Hypothesis median_u64 : forall h m, block_median_time ctx h = Ok m -> is_u64 m.
Hypothesis epoch_wf : 0 < EpochFraction_length epoch.

Lemma since_value_range s : 0 <= since_value s < 2 ^ 56.
Proof. apply Z.mod_pos_bound. lia. Qed.

Definition ends_ok (m : outcome Error (lru Z)) (P : Prop) : Prop :=
  (P <-> exists c, m = Ok c) /\ (forall c, m = Ok c -> cache_ok c).

Lemma ends_ok_if (cond : bool) (cache : lru Z) (P : Prop) :
  cache_ok cache -> (P <-> cond = false) ->
  ends_ok (if cond then Err (into Immature) else Ok cache) P.
Proof. intros Hc HP. unfold ends_ok. destruct cond; split; naive_solver. Qed.

Lemma ends_ok_stuck (m : outcome Error (lru Z)) (P : Prop) :
  (forall c, m <> Ok c) -> ~ P -> ends_ok m P.
Proof. intros Hm HP. split; [|naive_solver]. naive_solver. Qed.

Lemma ends_ok_Err e (P : Prop) : ~ P -> ends_ok (Err e) P.
Proof. intros. by apply ends_ok_stuck. Qed.

Lemma ltb_false_iff (a b : Z) : b <= a <-> (a <? b) = false.
Proof. by rewrite Z.ltb_ge. Qed.

Lemma verify_absolute_ok cache s :
  cache_ok cache -> ~ since_relative s ->
  ends_ok (verify_absolute_lock ctx block_number epoch parent_hash cache s) (absolute_ok s).
Proof.
  intros Hc Hs. unfold verify_absolute_lock, absolute_ok.
  assert (Since_is_absolute s = true) as ->.
  { destruct (Since_is_absolute s) eqn:Ea; [done|]. destruct Hs. apply Since_is_relative_spec.
    unfold Since_is_relative. by rewrite Ea. }
  rewrite Since_extract_metric_spec. pose proof (since_value_range s).
  destruct (since_metric s) as [|[[]|[]|]|] eqn:Em; step;
    try (apply ends_ok_Err; tauto).
  - apply ends_ok_if; [done|]. apply ltb_false_iff.
  - (* timestamp *) unfold u64_mul, fit. destruct (in_rangeb_spec 64 (since_value s * 1000)); step.
    + pose proof (since_block_median_time_ok cache parent_hash Hc) as Hm.
      destruct (block_median_time ctx parent_hash) as [m|e|] eqn:Ebm.
      * destruct Hm as (cache' & -> & Hc'). step. apply ends_ok_if; [done|].
        rewrite <- ltb_false_iff. naive_solver.
      * rewrite Hm. apply ends_ok_stuck; [done|naive_solver].
      * rewrite Hm. apply ends_ok_stuck; [done|naive_solver].
    + apply ends_ok_stuck; [done|]. intros (m & Hm%median_u64 & Hle). zlia.
  - by apply ends_ok_if.
Qed.

Definition meta_wf (meta : CellMeta) : Prop :=
  forall info, transaction_info meta = Some info ->
    0 < EpochFraction_length (info_block_epoch info) /\ 0 <= info_block_number info.

Lemma relative_timestamp_ok cache info s :
  cache_ok cache ->
  ends_ok
    (metric ← (t ← u64_mul (since_value s) 1000; Ok (Some (SinceMetric_Timestamp t)));
     match metric with
     | Some (SinceMetric_Timestamp timestamp) =>
         '(cell_median_timestamp, cache) ← parent_median_time ctx cache (info_block_hash info);
         '(current_median_time, cache) ← since_block_median_time ctx cache parent_hash;
         limit ← u64_add cell_median_timestamp timestamp;
         if current_median_time <? limit then Err (into Immature) else Ok cache
     | _ => Panic
     end)
    (relative_time_ok info s).
Proof.
  intros Hc. pose proof (since_value_range s). unfold relative_time_ok, u64_mul, fit.
  destruct (in_rangeb_spec 64 (since_value s * 1000)); step.
  2: { apply ends_ok_stuck; [done|].
       intros (t & num & p & b & m & _ & Hb%median_u64 & Hm'%median_u64 & ?). zlia. }
  unfold parent_median_time.
  destruct (timestamp_and_parent ctx (info_block_hash info)) as [[[t n] p]|e|] eqn:Etp; step;
    [|apply ends_ok_stuck; [done|]; intros (? & ? & ? & ? & ? & ? & ? & ? & ?); congruence..].
  pose proof (since_block_median_time_ok cache p Hc) as Hp.
  destruct (block_median_time ctx p) as [b|e|] eqn:Eb;
    [|rewrite Hp; apply ends_ok_stuck; [done|];
      intros (? & ? & ? & ? & ? & ? & ? & ? & ?); congruence..].
  destruct Hp as (c1 & -> & Hc1). step.
  pose proof (since_block_median_time_ok c1 parent_hash Hc1) as Hp.
  destruct (block_median_time ctx parent_hash) as [m|e|] eqn:Ebm;
    [|rewrite Hp; apply ends_ok_stuck; [done|];
      intros (? & ? & ? & ? & ? & ? & ? & ? & ?); congruence..].
  destruct Hp as (c2 & -> & Hc2). step.
  pose proof (median_u64 _ _ Eb). pose proof (median_u64 _ _ Ebm).
  unfold u64_add, fit. destruct (in_rangeb_spec 64 (b + since_value s * 1000)); step.
  - apply ends_ok_if; [done|]. rewrite <- ltb_false_iff. split; [|by exists t, n, p, b, m].
    intros (t' & n' & p' & b' & m' & E1 & E2 & E3 & Hle).
    assert (p' = p) by congruence. subst p'. assert (b' = b /\ m' = m) as [-> ->] by (split; congruence).
    done.
  - apply ends_ok_stuck; [done|]. intros (t' & n' & p' & b' & m' & E1 & E2 & E3 & Hle).
    assert (p' = p) by congruence. subst p'. assert (b' = b /\ m' = m) as [-> ->] by (split; congruence).
    zlia.
Qed.

Lemma verify_relative_ok cache s meta :
  cache_ok cache -> meta_wf meta -> since_relative s ->
  ends_ok (verify_relative_lock ctx block_number epoch parent_hash cache s meta)
    (relative_ok meta s).
Proof.
  intros Hc Hw Hs%Since_is_relative_spec. unfold verify_relative_lock, relative_ok. rewrite Hs.
  destruct (transaction_info meta) as [info|] eqn:Ei; step;
    [|apply ends_ok_Err; naive_solver].
  destruct (Hw info Ei) as [Hl Hn]. pose proof (since_value_range s).
  assert (forall (m : outcome Error (lru Z)) (Q : TransactionInfo -> Prop), ends_ok m (Q info) ->
    ends_ok m (exists info', Some info = Some info' /\ Q info')) as Hex.
  { intros m Q [H1 H2]. split; [|done]. rewrite <- H1. naive_solver. }
  apply (Hex _ (fun info => match since_metric s with
    | 0 => _ | 1 => _ | 2 => _ | _ => _ end)). clear Hex.
  rewrite Since_extract_metric_spec.
  destruct (since_metric s) as [|[[]|[]|]|] eqn:Em; step; try (apply ends_ok_Err; tauto).
  - unfold u64_add, fit. destruct (in_rangeb_spec 64 (info_block_number info + since_value s)); step.
    + apply ends_ok_if; [done|]. apply ltb_false_iff.
    + apply ends_ok_stuck; [done|]. zlia.
  - pose proof (relative_timestamp_ok cache info s Hc) as Hr. revert Hr.
    unfold u64_mul, fit. by destruct (in_rangeb 64 (since_value s * 1000)); step.
  - destruct (epoch_before_ok (E:=Error) epoch (info_block_epoch info)
      (EpochFraction_from_full_value (since_value s))) as (r & -> & Hr);
      [done|done|apply EpochFraction_from_full_value_length|]. step.
    apply ends_ok_if; [done|]. rewrite <- not_true_iff_false, Hr. split.
    + intros Hle Hlt. by apply (Qlt_not_le _ _ Hlt).
    + apply Qnot_lt_le.
Qed.

Lemma verify_since_ok cache mi :
  cache_ok cache -> meta_wf mi.1 ->
  ends_ok (verify_since ctx block_number epoch parent_hash cache mi) (since_ok mi.1 (since mi.2)).
Proof.
  destruct mi as [meta input]. cbn [fst snd]. intros Hc Hw. unfold verify_since, since_ok.
  destruct (Z.eqb_spec (since input) 0) as [E0|E0]; [split; [naive_solver|naive_solver]|].
  pose proof (Since_flags_is_valid_spec (since input)) as Hf.
  destruct (Since_flags_is_valid (since input)); cbn [negb].
  2: { apply ends_ok_Err. intros [?|(Hr & Hrel & Habs)]; [done|].
       assert (since_metric (since input) = 3) as Hm.
       { destruct (Z.eq_dec (since_metric (since input)) 3); [done|]. naive_solver. }
       unfold relative_ok in Hrel. unfold absolute_ok in Habs. rewrite Hm in Habs.
       destruct (Since_is_relative (since input)) eqn:Er.
       - apply Since_is_relative_spec, Hrel in Er as (info & _ & Hi). by rewrite Hm in Hi.
       - apply Habs. rewrite <- Since_is_relative_spec. by rewrite Er. }
  destruct Hf as [[Hr Hm] _]; [done|].
  destruct (Since_is_relative (since input)) eqn:Er.
  - assert (verify_absolute_lock ctx block_number epoch parent_hash cache (since input) = Ok cache)
      as ->.
    { unfold verify_absolute_lock. unfold Since_is_relative in Er. by apply negb_true_iff in Er as ->. }
    step. apply Since_is_relative_spec in Er.
    destruct (verify_relative_ok cache (since input) meta Hc Hw Er) as [H1 H2].
    split; [|done]. rewrite <- H1. naive_solver.
  - assert (~ since_relative (since input)) as Hn by (by rewrite <- Since_is_relative_spec, Er).
    destruct (verify_absolute_ok cache (since input) Hc Hn) as [H1 H2].
    unfold verify_relative_lock. rewrite Er.
    split; [|intros c Hb; inv_ok; auto].
    transitivity (exists c, verify_absolute_lock ctx block_number epoch parent_hash cache (since input)
      = Ok c); [rewrite <- H1; naive_solver|].
    split; intros [c Hcx]; exists c; [by rewrite Hcx|by inv_ok].
Qed.

Lemma verify_sinces_ok l cache :
  cache_ok cache -> Forall (fun mi => meta_wf mi.1) l ->
  (exists c, try_fold (verify_since ctx block_number epoch parent_hash) cache l = Ok c) <->
  Forall (fun mi => since_ok mi.1 (since mi.2)) l.
Proof.
  revert cache. induction l as [|mi l IH]; intros cache Hc Hw; cbn [try_fold].
  { split; [constructor|]. intros _. by exists cache. }
  apply Forall_cons in Hw as [Hmi Hw]. rewrite Forall_cons.
  destruct (verify_since_ok cache mi Hc Hmi) as [H1 H2]. rewrite H1. split.
  - intros [c Hb]. apply bind_Ok in Hb as (c' & Hc' & Hb). split; [by exists c'|].
    apply (IH c'); [by apply H2|done|by exists c].
  - intros [[c Hc'] Hl]. apply (IH c) in Hl as [c' Hl]; [|by apply H2|done].
    exists c'. apply bind_Ok. by exists c.
Qed.

(** C33: a transaction passes the since check exactly when the lock of every input
    holds in the sense of RFC 17: reserved bits unset, an absolute lock reached by
    the block's height, epoch position or past median time, a relative lock by
    what has passed since the block that created the cell; the memo of median
    times does not influence the result. *)
Theorem since_verifier_spec rtx :
  Forall meta_wf (resolved_inputs rtx) ->
  SinceVerifier_verify ctx block_number epoch parent_hash rtx = Ok tt <->
  Forall (fun mi => since_ok mi.1 (since mi.2))
    (zip (resolved_inputs rtx) (TransactionView_inputs (transaction rtx))).
Proof.
  intros Hw. unfold SinceVerifier_verify. 
  rewrite <- (verify_sinces_ok _ (lru_new (length (resolved_inputs rtx)))).
  - rewrite bind_Ok. split; [intros (c & ? & _); by exists c|intros [c ?]; by exists c].
  - intros h m Hg. by rewrite lru_get_new in Hg.
  - apply Forall_forall. intros [m i] Hin%elem_of_zip_l. rewrite Forall_forall in Hw. by apply Hw.
Qed.
End since_facts.

(** ** Capacities *)

Definition is_dao_input (h : Byte32) (meta : CellMeta) : bool :=
  match type_ (cell_output meta) with
  | None => false
  | Some t => (hash_type t =? ScriptHashType_into ScriptHashType_Type) && bool_decide (code_hash t = h)
  end.

Lemma valid_dao_withdraw_ok rtx h :
  valid_dao_withdraw_transaction rtx (Some h) = Ok (existsb (is_dao_input h) (resolved_inputs rtx)).
Proof.
  unfold valid_dao_withdraw_transaction.
  induction (resolved_inputs rtx) as [|m l IH]; cbn [try_any existsb]; [done|].
  unfold is_dao_input at 1. destruct (type_ (cell_output m)) as [t|]; step; [|done].
  destruct (hash_type t =? _); step; [|done]. by destruct (bool_decide _).
Qed.

(** The output pays for the bytes it occupies. *)
Definition output_funded (od : CellOutput * bytes) : Prop :=
  (cell_bytes od.1 + zlen od.2) * BYTE_SHANNONS <= capacity od.1.

Lemma output_capacity_check_ok od :
  is_u64 (capacity od.1) -> output_capacity_check od = Ok tt <-> output_funded od.
Proof.
  destruct od as [o d]. cbn [fst snd]. intros Hc. unfold output_capacity_check, output_funded,
    CellOutput_is_lack_of_capacity. pose proof (cell_bytes_pos o). split.
  - intros Hv. inv_all. apply CellOutput_occupied_capacity_Ok in H1 as [-> ?]; [|done].
    cbn [fst snd]. revert H2. case_match eqn:Hlt; [done|]. apply Z.ltb_ge in Hlt. lia.
  - cbn [fst snd]. intros Hle. unfold BYTE_SHANNONS in *.
    apply bind_Ok. exists (zlen d * BYTE_SHANNONS).
    assert (is_u64 (zlen d * BYTE_SHANNONS)) by (unfold BYTE_SHANNONS; zlia).
    split; [by apply cap_Ok, bytes_Ok|]. apply bind_Ok. exists false. split; [|done].
    apply cap_Ok, fmap_Ok. exists (cell_bytes o * BYTE_SHANNONS + zlen d * BYTE_SHANNONS).
    unfold BYTE_SHANNONS in *. split; [|symmetry; apply Z.ltb_ge; lia].
    apply CellOutput_occupied_capacity_Ok; [done|]. unfold BYTE_SHANNONS. split; [done|zlia].
Qed.

(** With the DAO cell known, the capacity check accepts exactly the
    transactions that create no capacity (unless they are cellbases or withdraw
    from the DAO) and whose every output holds at least the capacity its bytes
    occupy; no sum or product overflows unnoticed. *)
Theorem capacity_verifier_spec rtx h :
  Forall is_u64 (CellMeta_capacity <$> resolved_inputs rtx) ->
  Forall is_u64 (capacity <$> TransactionView_outputs (transaction rtx)) ->
  CapacityVerifier_verify rtx (Some h) = Ok tt <->
  (resolved_inputs rtx = [] \/ existsb (is_dao_input h) (resolved_inputs rtx) = true \/
   is_u64 (sumZ (CellMeta_capacity <$> resolved_inputs rtx)) /\
   sumZ (capacity <$> TransactionView_outputs (transaction rtx)) <=
     sumZ (CellMeta_capacity <$> resolved_inputs rtx)) /\
  Forall output_funded (TransactionView_outputs_with_data_iter (transaction rtx)).
Proof.
  intros Hi Ho. unfold CapacityVerifier_verify.
  assert (try_for_each output_capacity_check (TransactionView_outputs_with_data_iter (transaction rtx))
    = Ok tt <-> Forall output_funded (TransactionView_outputs_with_data_iter (transaction rtx))) as Hf.
  { rewrite try_for_each_Ok, !Forall_forall. rewrite Forall_forall in Ho.
    split; intros Hall [o d] Hin; specialize (Hall (o, d) Hin); revert Hall;
      rewrite output_capacity_check_ok; try done; apply Ho, list_elem_of_fmap_2;
      by apply elem_of_zip_l in Hin. }
  assert (ResolvedTransaction_is_cellbase rtx = true <-> resolved_inputs rtx = []) as Hcb
    by (unfold ResolvedTransaction_is_cellbase; by destruct (resolved_inputs rtx)).
  destruct (ResolvedTransaction_is_cellbase rtx); step; [rewrite Hf; naive_solver|].
  rewrite valid_dao_withdraw_ok. step. destruct (existsb _ _); step; [rewrite Hf; naive_solver|].
  assert (forall c, ResolvedTransaction_inputs_capacity rtx = Ok c <->
    c = sumZ (CellMeta_capacity <$> resolved_inputs rtx) /\
    is_u64 (sumZ (CellMeta_capacity <$> resolved_inputs rtx))) as Hin.
  { intros c. unfold ResolvedTransaction_inputs_capacity, Capacity_zero.
    by rewrite try_fold_safe_add_Ok by (done || zlia). }
  assert (0 <= sumZ (capacity <$> TransactionView_outputs (transaction rtx))).
  { apply sumZ_nonneg. eapply Forall_impl; [exact Ho|]. by intros ? [? _]. }
  pose proof (fun c => total_capacity_Ok _ c Ho) as Hout.
  rewrite bind_Ok, <- Hf. split.
  - intros ([] & Hsum & ?). apply bind_Ok in Hsum as (ti & [-> ?]%cap_Ok%Hin & Hsum).
    apply bind_Ok in Hsum as (to & [-> ?]%cap_Ok%Hout & Hsum). split; [|done].
    revert Hsum. case_match eqn:Hlt; [done|]. apply Z.ltb_ge in Hlt. intros _. auto.
  - intros [[?|[?|[Hu Hle]]] ?]; [naive_solver|done|]. exists tt. split; [|done].
    apply bind_Ok. eexists. split; [by apply cap_Ok, Hin|].
    apply bind_Ok. eexists. split; [apply cap_Ok, Hout; split; [done|zlia]|].
    by rewrite (proj2 (Z.ltb_ge _ _) Hle).
Qed.

(** ** The whole verifier *)

Lemma Tx_VersionVerifier_Ok tx v :
  Tx_VersionVerifier_verify tx v = Ok tt <-> TransactionView_version tx = v.
Proof.
  unfold Tx_VersionVerifier_verify. by destruct (Z.eqb_spec (TransactionView_version tx) v).
Qed.
Lemma SizeVerifier_Ok tx limit :
  SizeVerifier_verify tx limit = Ok tt <->
  zlen (@as_slice _ Transaction_codec (tx_data tx)) + 4 <= limit.
Proof.
  unfold SizeVerifier_verify, Transaction_serialized_size_in_block, NUMBER_SIZE.
  destruct (Z.leb_spec (zlen (@as_slice _ Transaction_codec (tx_data tx)) + 4) limit); [done|].
  split; [done|lia].
Qed.
Lemma EmptyVerifier_Ok tx :
  EmptyVerifier_verify tx = Ok tt <->
  TransactionView_inputs tx <> [] /\
  (TransactionView_outputs tx = [] -> TransactionView_is_cellbase tx = true).
Proof.
  unfold EmptyVerifier_verify. destruct (TransactionView_inputs tx); simpl; [naive_solver|].
  destruct (TransactionView_outputs tx), (TransactionView_is_cellbase tx); naive_solver.
Qed.
Lemma DuplicateDepsVerifier_Ok tx :
  DuplicateDepsVerifier_verify tx = Ok tt <->
  NoDup (TransactionView_cell_deps tx) /\ NoDup (TransactionView_header_deps tx).
Proof.
  unfold DuplicateDepsVerifier_verify. rewrite <- !all_insert_NoDup.
  destruct (all_insert ∅ (TransactionView_cell_deps tx)),
    (all_insert ∅ (TransactionView_header_deps tx)); naive_solver.
Qed.
Lemma OutputsDataVerifier_Ok tx :
  OutputsDataVerifier_verify tx = Ok tt <->
  length (TransactionView_outputs tx) = length (TransactionView_outputs_data tx).
Proof.
  unfold OutputsDataVerifier_verify.
  by destruct (Nat.eqb_spec (length (TransactionView_outputs tx))
    (length (TransactionView_outputs_data tx))).
Qed.

Section whole.
Context `{NumExt} `{Hasher} `{LruCache Z}.
Context (script_verify : Store -> ResolvedTransaction -> Z -> outcome Error Z).
Context (ctx : BlockMedianTimeContext) (block_number : Z) (epoch : EpochNumberWithFraction)
  (parent_hash : Byte32) (consensus : Consensus) (store : Store).

(** The checks that do not depend on the block a transaction is in. *)
Record noncontextual (rtx : ResolvedTransaction) (max_cycles : Z) (entry : CacheEntry) : Prop := {
  nc_version : Tx_VersionVerifier_verify (transaction rtx) (consensus_tx_version consensus) = Ok tt;
  nc_size : SizeVerifier_verify (transaction rtx) (max_block_bytes consensus) = Ok tt;
  nc_empty : EmptyVerifier_verify (transaction rtx) = Ok tt;
  nc_capacity : CapacityVerifier_verify rtx (dao_type_hash consensus) = Ok tt;
  nc_deps : DuplicateDepsVerifier_verify (transaction rtx) = Ok tt;
  nc_data : OutputsDataVerifier_verify (transaction rtx) = Ok tt;
  nc_cycles : script_verify store rtx max_cycles = Ok (cycles entry);
  nc_fee : FeeCalculator_transaction_fee consensus store rtx = Ok (fee entry);
}.

Lemma TransactionVerifier_noncontextual rtx max_cycles entry :
  noncontextual rtx max_cycles entry ->
  TransactionVerifier_verify script_verify ctx block_number epoch parent_hash consensus store rtx
    max_cycles =
  (_ ← ContextualTransactionVerifier_verify ctx block_number epoch parent_hash consensus rtx;
   Ok entry).
Proof.
  intros [Hv Hs He Hc Hd Ho Hcy Hf].
  unfold TransactionVerifier_verify, ContextualTransactionVerifier_verify.
  rewrite Hv, Hs, He, Hd, Ho, Hcy, Hf. step.
  destruct (MaturityVerifier_verify _ _ _) as [[]|?|]; step; [|done..]. rewrite Hc. step.
  destruct (SinceVerifier_verify _ _ _ _ _) as [[]|?|]; step; [|done..]. by destruct entry.
Qed.

Lemma TransactionVerifier_Ok rtx max_cycles entry :
  TransactionVerifier_verify script_verify ctx block_number epoch parent_hash consensus store rtx
    max_cycles = Ok entry <->
  noncontextual rtx max_cycles entry /\
  ContextualTransactionVerifier_verify ctx block_number epoch parent_hash consensus rtx = Ok tt.
Proof.
  split.
  - intros Hv. unfold TransactionVerifier_verify in Hv. inv_ok.
    repeat match goal with u : unit |- _ => destruct u end.
    unfold ContextualTransactionVerifier_verify. split; [by split|].
    by match goal with Hm : MaturityVerifier_verify _ _ _ = _ |- _ => rewrite Hm end.
  - intros [Hn Hc]. rewrite (TransactionVerifier_noncontextual _ _ _ Hn), Hc. done.
Qed.

(** The verifier returns an entry exactly when the version is the consensus
    version, the transaction fits in a block, has inputs, and outputs unless it
    is a cellbase, no dependency is listed twice, every output has its data, the
    maturity, capacity and since checks pass, and its scripts succeed; the entry
    has the cycles the scripts used and the fee the DAO calculator computes. *)
Theorem transaction_verifier_spec rtx max_cycles entry :
  TransactionVerifier_verify script_verify ctx block_number epoch parent_hash consensus store rtx
    max_cycles = Ok entry <->
  let tx := transaction rtx in
  TransactionView_version tx = consensus_tx_version consensus /\
  zlen (@as_slice _ Transaction_codec (tx_data tx)) + 4 <= max_block_bytes consensus /\
  TransactionView_inputs tx <> [] /\
  (TransactionView_outputs tx = [] -> TransactionView_is_cellbase tx = true) /\
  NoDup (TransactionView_cell_deps tx) /\ NoDup (TransactionView_header_deps tx) /\
  length (TransactionView_outputs tx) = length (TransactionView_outputs_data tx) /\
  MaturityVerifier_verify rtx epoch (cellbase_maturity consensus) = Ok tt /\
  CapacityVerifier_verify rtx (dao_type_hash consensus) = Ok tt /\
  SinceVerifier_verify ctx block_number epoch parent_hash rtx = Ok tt /\
  script_verify store rtx max_cycles = Ok (cycles entry) /\
  FeeCalculator_transaction_fee consensus store rtx = Ok (fee entry).
Proof.
  rewrite TransactionVerifier_Ok. unfold ContextualTransactionVerifier_verify. cbn zeta. split.
  - intros [[Hv Hs He Hc Hd Ho Hcy Hf] Hctx]. apply bind_Ok in Hctx as ([] & Hm & Hsn).
    apply Tx_VersionVerifier_Ok in Hv. apply SizeVerifier_Ok in Hs.
    apply EmptyVerifier_Ok in He as [? ?]. apply DuplicateDepsVerifier_Ok in Hd as [? ?].
    apply OutputsDataVerifier_Ok in Ho. tauto.
  - intros (Hver & Hsize & Hin & Hout & Hd & Hh & Hlen & Hm & Hc & Hs & Hcy & Hf). split.
    + split; try done; [by apply Tx_VersionVerifier_Ok|by apply SizeVerifier_Ok|
        by apply EmptyVerifier_Ok|by apply DuplicateDepsVerifier_Ok|by apply OutputsDataVerifier_Ok].
    + by rewrite Hm.
Qed.
End whole.

(** ** Witnesses *)

(** A cache that never evicts. *)
#[export] Instance map_cache : LruCache Z := {|
  lru := gmap Byte32 Z; lru_new _ := ∅; lru_get c k := c !! k; lru_insert c k v := <[k := v]> c |}.
#[export] Instance map_cache_spec : LruCacheSpec Z map_cache.
Proof.
  split; cbn; [done|]. intros c k v k' v' [[<- <-]|[? ?]]%lookup_insert_Some; [by left|right].
  by split.
Qed.

Definition sample_info : TransactionInfo :=
  mkTransactionInfo [2] 1 (EpochFraction_new 0 1 10) 0.
Definition sample_input : CellMeta :=
  mkCellMeta (mkCellOutput 10000000000 (mkScript zero32 0 []) None) (mkOutPoint [1] 0)
    (Some sample_info) 0 None.
(** Spends a cellbase output, with a relative lock of one block. *)
Definition sample_rtx (out : Z) : ResolvedTransaction :=
  mkResolvedTransaction
    (mkTransactionView
      (mkTransaction
        (mkRawTransaction 0 [] [] [mkCellInput (2 ^ 63 + 1) (mkOutPoint [1] 0)]
          [mkCellOutput out (mkScript zero32 0 []) None] [[]]) []) [9] [9])
    [] [sample_input] [].

Lemma maturity_verifier_spec_witness :
  MaturityVerifier_verify (H:=numext_ref) (sample_rtx 5000000000) (EpochFraction_new 4 2 10)
    (EpochFraction_new 4 0 1) = Ok tt.
Proof.
  refine (proj2 (@maturity_verifier_spec numext_ref numext_ref_spec _ _ _ _ _ _) _).
  - by vm_compute.
  - by vm_compute.
  - constructor; [|constructor]. intros info [= <-]. by vm_compute.
  - constructor; [|constructor]. intros info [= <-] _ _. by vm_compute.
Defined.

Lemma since_verifier_spec_witness :
  SinceVerifier_verify (H:=numext_ref) (H0:=map_cache) sample_context 2 (EpochFraction_new 0 2 10)
    [3] (sample_rtx 5000000000) = Ok tt.
Proof.
  refine (proj2 (@since_verifier_spec numext_ref numext_ref_spec map_cache map_cache_spec _ _ _ _ _ _ _ _ _) _).
  - by vm_compute.
  - intros h m. apply block_median_time_elem. exact sample_times_u64.
  - by vm_compute.
  - constructor; [|constructor]. intros info [= <-]. split; by vm_compute.
  - constructor; [|constructor]. right. split; [by vm_compute|]. split.
    + intros _. exists sample_info. split; [reflexivity|]. by vm_compute.
    + intros Hn. destruct Hn. by vm_compute.
Defined.

Lemma capacity_verifier_spec_witness :
  CapacityVerifier_verify (sample_rtx 5000000000) (Some [0]) = Ok tt.
Proof.
  apply capacity_verifier_spec.
  - constructor; [|constructor]. by vm_compute.
  - constructor; [|constructor]. by vm_compute.
  - split; [right; right; split; by vm_compute|]. constructor; [|constructor]. by vm_compute.
Defined.
