(* ===== verification/ContextualVerifier.v ===== *)
(** * Contextual block verification: src/verification/src/contextual_block_verifier.rs

    The checks of a block against the chain it extends.  A [VerifyContext] is the
    store (of the transaction that attaches the block) and the consensus.  The
    transactions are verified in parallel: [par_try_map] takes the order in which
    they happen to finish. *)

From Stdlib Require Import QArith.
From S2P Require Import Prelude Capacity NumExt Rational Difficulty Types Molecule BlockCodec.
From S2P Require Import Errors Epoch Cell Consensus Hashes Store Dao Reward ProposalTable.
From S2P Require Import HeaderVerifier BlockVerifier UnclesVerifier TransactionVerifier.
Local Open Scope Z_scope.

Section ops.
Context `{NumExt} `{Hasher} `{LruCache Z} `{LruCache CacheEntry}.
Context (script_verify : Store -> ResolvedTransaction -> Z -> outcome Error Z).
Context (store : Store) (consensus : Consensus).

(** ** VerifyContext *)

Definition finalize_block_reward (parent : HeaderView) :
    outcome Error (option (Script * BlockReward)) :=
  block_reward_to_finalize consensus store parent.

Definition context_next_epoch_ext (last_epoch : EpochExt) (header : HeaderView) :
    outcome Error (option EpochExt) :=
  next_epoch_ext consensus last_epoch header (get_block_header store)
    (fun h => total_uncles_count <$> get_block_ext store h).

(** [impl BlockMedianTimeContext for VerifyContext]. *)
Definition verify_median_context : BlockMedianTimeContext :=
  mkBlockMedianTimeContext (median_time_block_count consensus) (fun block_hash =>
    header ← expect (get_block_header store block_hash);
    Ok (HeaderView_timestamp header, HeaderView_number header, HeaderView_parent_hash header)).

(** [impl HeaderChecker for VerifyContext]. *)
Definition check_valid (block_hash : Byte32) : outcome Error unit :=
  match get_block_header store block_hash with
  | Some header =>
      tip_header ← expect (get_tip_header store);
      immature ← epoch_before (HeaderView_epoch tip_header) (cellbase_maturity consensus)
        (HeaderView_epoch header);
      if (immature : bool) then Err (into (OutPointError_ImmatureHeader block_hash)) else Ok tt
  | None => Err (into (OutPointError_InvalidHeader block_hash))
  end.

(** ** UncleVerifierContext *)

Definition context_double_inclusion (h : Byte32) : bool :=
  bool_decide (is_Some (get_block_number store h)) || is_uncle store h.

(** [(parent.number() + 1) == uncle_number]. *)
Definition is_child_number (parent : HeaderView) (uncle_number : Z) : outcome Error bool :=
  n ← u64_add (HeaderView_number parent) 1;
  Ok (n =? uncle_number).
Definition context_descendant (uncle : HeaderView) : outcome Error bool :=
  let parent_hash := HeaderView_parent_hash uncle in
  let uncle_number := HeaderView_number uncle in
  if bool_decide (is_Some (get_block_number store parent_hash)) then
    match get_block_header store parent_hash with
    | Some parent => is_child_number parent uncle_number
    | None => Ok false
    end
  else
    match get_uncle_header store parent_hash with
    | Some uncle_parent => is_child_number uncle_parent uncle_number
    | None => Ok false
    end.
Definition UncleVerifierContext_new (epoch : EpochExt) : UncleProvider :=
  mkUncleProvider context_double_inclusion context_descendant epoch consensus.

(** ** TwoPhaseCommitVerifier *)

(** The loop [while proposal_end >= proposal_start]: [n] is
    [proposal_end + 1 - proposal_start], positive as long as the condition holds. *)
Fixpoint proposal_loop (n : nat) (proposal_end : Z) (block_hash : Byte32)
    (proposal_txs_ids : gset bytes) : outcome Error (gset bytes) :=
  match n with
  | O => Ok proposal_txs_ids
  | S n' =>
      header ← ok_or (into AncestorNotFound) (get_block_header store block_hash);
      if HeaderView_is_genesis header then Ok proposal_txs_ids
      else
        let proposal_txs_ids := proposal_txs_ids ∪
          list_to_set (default [] (get_block_proposal_txs_ids store block_hash)) in
        let proposal_txs_ids := proposal_txs_ids ∪
          list_to_set (default [] ((fun us => uncles_data us ≫= uncle_proposals) <$>
                                   get_block_uncles store block_hash)) in
        proposal_end ← u64_sub proposal_end 1;
        proposal_loop n' proposal_end (HeaderView_parent_hash header) proposal_txs_ids
  end.

Definition TwoPhaseCommitVerifier_verify (block : BlockView) : outcome Error unit :=
  if BlockView_is_genesis block then Ok tt
  else
    let block_number := BlockView_number block in
    let proposal_window := tx_proposal_window consensus in
    let proposal_start := saturating_sub block_number (farthest proposal_window) in
    let proposal_end := saturating_sub block_number (closest proposal_window) in
    block_hash ← ok_or (into AncestorNotFound) (get_block_hash store proposal_end);
    proposal_txs_ids ←
      proposal_loop (Z.to_nat (proposal_end + 1 - proposal_start)) proposal_end block_hash ∅;
    let committed_ids : gset bytes :=
      list_to_set (TransactionView_proposal_short_id <$> drop 1 (BlockView_transactions block)) in
    if negb (bool_decide (committed_ids ∖ proposal_txs_ids = ∅))
    then Err (into CommitError_Invalid) else Ok tt.

(** ** RewardVerifier and DaoHeaderVerifier *)

(** [Ok None] is the reward calculator running out of fuel. *)
Definition RewardVerifier_verify (resolved : list ResolvedTransaction) (parent : HeaderView) :
    outcome Error (option unit) :=
  cellbase ← expect (resolved !! 0%nat);
  n ← u64_add (HeaderView_number parent) 1;
  delay ← finalization_delay_length consensus;
  let no_finalization_target := n <=? delay in
  r ← finalize_block_reward parent;
  match r with
  | None => Ok None
  | Some (target_lock, block_reward) =>
      let output := mkCellOutput (reward_total block_reward) target_lock None in
      insufficient ← cap (CellOutput_is_lack_of_capacity output Capacity_zero);
      if no_finalization_target || insufficient then
        if is_empty (TransactionView_outputs (transaction cellbase)) then Ok (Some tt)
        else Err (into InvalidRewardTarget)
      else
        paid ← cap (TransactionView_outputs_capacity (transaction cellbase));
        if negb (paid =? reward_total block_reward) then Err (into InvalidRewardAmount)
        else
          out ← expect (TransactionView_outputs (transaction cellbase) !! 0%nat);
          if negb (bool_decide (lock out = target_lock)) then Err (into InvalidRewardTarget)
          else Ok (Some tt)
  end.

Definition DaoHeaderVerifier_verify (resolved : list ResolvedTransaction)
    (parent header : HeaderView) : outcome Error unit :=
  dao ← dao_field CellOutput_calc_data_hash consensus store resolved parent;
  if negb (bool_decide (dao = Types.dao (HeaderView_raw header))) then Err (into InvalidDAO)
  else Ok tt.

(** ** BlockTxsVerifier *)

(** [par_iter().map(f).collect::<Result<Vec<_>, _>>()]: the items are evaluated in
    the order [order]; the results keep the order of the items. *)
Definition par_try_map {E A B} (order : list nat) (f : nat * A -> outcome E B) (l : list A) :
    outcome E (list B) :=
  _ ← try_for_each (fun i =>
        match enumerate l !! i with
        | None => Ok tt
        | Some x => _ ← f x; Ok tt
        end) order;
  try_map f (enumerate l).

Section block_txs.
Context (block_number : Z) (epoch_number_with_fraction : EpochNumberWithFraction)
  (parent_hash : Byte32) (resolved : list ResolvedTransaction).

(** [fetched_cache]: the entries of the keys that are cached. *)
Definition fetched_cache (cache : lru CacheEntry) (keys : list Byte32) : gmap Byte32 CacheEntry :=
  foldl (fun m k => match lru_get cache k with Some v => <[k := v]> m | None => m end) ∅ keys.

Definition block_tx_error (index : nat) (error : Error) : Error :=
  into (BlockTransactions (Z.of_nat index mod 2 ^ 32) error).

(** The closure of the parallel map. *)
Definition verify_block_tx (fetched : gmap Byte32 CacheEntry) (itx : nat * ResolvedTransaction) :
    outcome Error (Byte32 * CacheEntry) :=
  let '(index, tx) := itx in
  let h := tx_hash (transaction tx) in
  match fetched !! h with
  | Some cache_entry =>
      _ ← map_err (block_tx_error index)
        (ContextualTransactionVerifier_verify verify_median_context block_number
           epoch_number_with_fraction parent_hash consensus tx);
      Ok (h, cache_entry)
  | None =>
      cache_entry ← map_err (block_tx_error index)
        (TransactionVerifier_verify script_verify verify_median_context block_number
           epoch_number_with_fraction parent_hash consensus store tx (max_block_cycles consensus));
      Ok (h, cache_entry)
  end.

(** The verdict, and the cache once the spawned task has written the entries. *)
Definition BlockTxsVerifier_verify (order : list nat) (cache : lru CacheEntry) :
    outcome Error (Z * list CacheEntry) * lru CacheEntry :=
  let keys := (fun rtx => tx_hash (transaction rtx)) <$> resolved in
  let fetched := fetched_cache cache keys in
  match par_try_map order (verify_block_tx fetched) resolved with
  | Err e => (Err e, cache)
  | Panic => (Panic, cache)
  | Ok ret =>
      match try_fold u64_add 0 ((fun e => cycles e.2) <$> ret) with
      | Err e => (Err e, cache)
      | Panic => (Panic, cache)
      | Ok sum =>
          let cache := foldl (fun c kv => lru_insert c kv.1 kv.2) cache ret in
          if max_block_cycles consensus <? sum
          then (Err (into ExceededMaximumCycles), cache)
          else (Ok (sum, ret.*2), cache)
      end
  end.
End block_txs.

(** ** EpochVerifier and ContextualBlockVerifier *)

Definition prepare_epoch_ext (parent : HeaderView) : outcome Error EpochExt :=
  parent_ext ← ok_or (into (mkUnknownParentError (header_hash parent)))
    (get_block_epoch store (header_hash parent));
  next ← context_next_epoch_ext parent_ext parent;
  Ok (default parent_ext next).

Definition EpochVerifier_verify (epoch : EpochExt) (block : BlockView) : outcome Error unit :=
  let header := BlockView_header block in
  let actual_epoch_with_fraction := HeaderView_epoch header in
  let block_number := HeaderView_number header in
  epoch_with_fraction ← EpochExt_number_with_fraction epoch block_number;
  if negb (actual_epoch_with_fraction =? epoch_with_fraction)
  then Err (into (NumberMismatch (EpochFraction_full_value epoch_with_fraction)
                    (EpochFraction_full_value actual_epoch_with_fraction)))
  else
    let actual_compact_target := compact_target (HeaderView_raw header) in
    if negb (epoch_compact_target epoch =? actual_compact_target)
    then Err (into (TargetMismatch (epoch_compact_target epoch) actual_compact_target))
    else Ok tt.

(** The trait [Switch]: checks that a caller turns off. *)
Record Switch := mkSwitch {
  disable_epoch : bool;
  disable_uncles : bool;
  disable_two_phase_commit : bool;
  disable_daoheader : bool;
  disable_reward : bool;
}.

Definition unless {E} (disabled : bool) (m : outcome E unit) : outcome E unit :=
  if disabled then Ok tt else m.

(** The checks before the transactions; [Ok None] is out of fuel. *)
Definition contextual_checks (resolved : list ResolvedTransaction) (block : BlockView)
    (switch : Switch) : outcome Error (option unit) :=
  let parent_hash := parent_hash (BlockView_raw block) in
  parent ← ok_or (into (mkUnknownParentError parent_hash)) (get_block_header store parent_hash);
  epoch_ext ← (if BlockView_is_genesis block then Ok (genesis_epoch_ext consensus)
               else prepare_epoch_ext parent);
  _ ← unless (disable_epoch switch) (EpochVerifier_verify epoch_ext block);
  _ ← unless (disable_uncles switch)
        (UnclesVerifier_verify (UncleVerifierContext_new epoch_ext) block);
  _ ← unless (disable_two_phase_commit switch) (TwoPhaseCommitVerifier_verify block);
  _ ← unless (disable_daoheader switch)
        (DaoHeaderVerifier_verify resolved parent (BlockView_header block));
  if disable_reward switch then Ok (Some tt) else RewardVerifier_verify resolved parent.

Definition ContextualBlockVerifier_verify (order : list nat) (resolved : list ResolvedTransaction)
    (block : BlockView) (cache : lru CacheEntry) (switch : Switch) :
    outcome Error (option (Z * list CacheEntry)) * lru CacheEntry :=
  match contextual_checks resolved block switch with
  | Err e => (Err e, cache)
  | Panic => (Panic, cache)
  | Ok None => (Ok None, cache)
  | Ok (Some tt) =>
      let '(r, cache) :=
        BlockTxsVerifier_verify (BlockView_number block) (HeaderView_epoch (BlockView_header block))
          (parent_hash (BlockView_raw block)) resolved order cache in
      (Some <$> r, cache)
  end.
End ops.

(** ** Two-phase commit *)

Section two_phase.
Context (store : Store) (consensus : Consensus).

(** The index of the main chain: every indexed block is stored, has its height,
    and its parent is indexed below it. *)
Record main_chain : Prop := {
  chain_height n : is_Some (col_index store !! n) -> 0 <= n < 2 ^ 64;
  chain_header n h : col_index store !! n = Some h ->
    exists header, get_block_header store h = Some header /\ HeaderView_number header = n /\
      (0 < n -> col_index store !! (n - 1) = Some (HeaderView_parent_hash header));
}.

(** The ids proposed by the main chain block at height [n] and its uncles. *)
Definition proposals_at (n : Z) : gset bytes :=
  match col_index store !! n with
  | Some h => get_proposal_ids_by_hash store h
  | None => ∅
  end.

Lemma proposal_loop_ok n end_ h ids :
  main_chain -> col_index store !! end_ = Some h -> Z.of_nat n <= end_ + 1 ->
  exists ids', proposal_loop store n end_ h ids = Ok ids' /\
    forall id, id ∈ ids' <-> id ∈ ids \/ exists k, 1 <= k /\ end_ + 1 - Z.of_nat n <= k <= end_ /\
      id ∈ proposals_at k.
Proof.
  intros Hmc. revert end_ h ids. induction n as [|n IH]; intros end_ h ids Hh Hn.
  - exists ids. split; [done|]. intros id. split; [by left|]. intros [?|(k & ? & ? & _)]; [done|lia].
  - cbn [proposal_loop]. destruct (chain_header Hmc _ _ Hh) as (header & -> & Hnum & Hpar). step.
    destruct (chain_height Hmc end_) as [Hpos Hlt]; [by eexists|].
    unfold HeaderView_is_genesis. rewrite Hnum. destruct (Z.eqb_spec end_ 0) as [->|Hne].
    { exists ids. split; [done|]. intros id. split; [by left|].
      intros [?|(k & ? & ? & _)]; [done|lia]. }
    unfold u64_sub. rewrite fit_in_range by zlia. step.
    destruct (IH (end_ - 1) _ (ids ∪ get_proposal_ids_by_hash store h) (Hpar ltac:(lia)))
      as (ids' & Hl & Hids); [lia|].
    exists ids'. split; [rewrite <- Hl; unfold get_proposal_ids_by_hash; by rewrite (assoc_L (∪))|]. intros id. rewrite Hids, elem_of_union.
    assert (proposals_at end_ = get_proposal_ids_by_hash store h) as Hat
      by (unfold proposals_at; by rewrite Hh).
    split.
    + intros [[?|Hid]|(k & ? & ? & ?)]; [by left| |].
      * right. exists end_. rewrite Hat. split_and!; [lia..|done].
      * right. exists k. split_and!; [lia..|done].
    + intros [?|(k & ? & ? & Hk)]; [by left; left|].
      destruct (Z.eq_dec k end_) as [->|]; [left; right; by rewrite Hat in Hk|].
      right. exists k. split_and!; [lia..|done].
Qed.

Lemma TwoPhaseCommit_Ok block :
  main_chain -> window_wf (tx_proposal_window consensus) ->
  BlockView_is_genesis block = false -> is_u64 (BlockView_number block) ->
  is_Some (col_index store !! saturating_sub (BlockView_number block)
    (closest (tx_proposal_window consensus))) ->
  TwoPhaseCommitVerifier_verify store consensus block = Ok tt <->
  forall tx, tx ∈ drop 1 (BlockView_transactions block) -> exists k, 1 <= k /\
    BlockView_number block - farthest (tx_proposal_window consensus) <= k <=
      BlockView_number block - closest (tx_proposal_window consensus) /\
    TransactionView_proposal_short_id tx ∈ proposals_at k.
Proof.
  intros Hmc [Hc Hf] Hg Hn [h Hh]. unfold TwoPhaseCommitVerifier_verify. rewrite Hg.
  unfold get_block_hash. rewrite Hh. step.
  set (N := BlockView_number block) in *. set (w := tx_proposal_window consensus) in *.
  destruct (proposal_loop_ok (Z.to_nat (saturating_sub N (closest w) + 1 -
    saturating_sub N (farthest w))) (saturating_sub N (closest w)) h ∅ Hmc Hh) as (ids & -> & Hids);
    [zlia|]. step.
  rewrite Z2Nat.id in Hids by zlia.
  assert ((forall tx, tx ∈ drop 1 (BlockView_transactions block) -> exists k, 1 <= k /\
      N - farthest w <= k <= N - closest w /\ TransactionView_proposal_short_id tx ∈ proposals_at k) <->
    (list_to_set (TransactionView_proposal_short_id <$> drop 1 (BlockView_transactions block))
      : gset bytes) ⊆ ids) as ->.
  { rewrite elem_of_subseteq. setoid_rewrite elem_of_list_to_set. setoid_rewrite list_elem_of_fmap.
    setoid_rewrite Hids. split.
    - intros Hall id (tx & -> & Htx). right. destruct (Hall tx Htx) as (k & ? & ? & ?).
      exists k. split_and!; [lia|zlia|zlia|done].
    - intros Hall tx Htx. destruct (Hall (TransactionView_proposal_short_id tx)) as [Hx|(k & ? & ? & ?)];
        [by exists tx|set_solver|]. exists k. split_and!; [lia|zlia|zlia|done]. }
  case_bool_decide as Hd; cbn [negb].
  - split; [|done]. intros _. intros id Hid. destruct (decide (id ∈ ids)); [done|]. set_solver.
  - split; [done|]. intros Hsub. destruct Hd. set_solver.
Qed.

(** On a main chain, a block passes the two-phase commit check exactly when
    every transaction it commits, cellbase apart, was proposed by a main chain
    block (or an uncle of one) whose distance to the block is within the
    proposal window. *)
Theorem two_phase_commit_spec block :
  main_chain -> window_wf (tx_proposal_window consensus) ->
  BlockView_is_genesis block = false -> is_u64 (BlockView_number block) ->
  is_Some (col_index store !! saturating_sub (BlockView_number block)
    (closest (tx_proposal_window consensus))) ->
  TwoPhaseCommitVerifier_verify store consensus block = Ok tt <->
  Forall (fun tx => exists distance h,
    closest (tx_proposal_window consensus) <= distance <= farthest (tx_proposal_window consensus) /\
    1 <= BlockView_number block - distance /\
    get_block_hash store (BlockView_number block - distance) = Some h /\
    TransactionView_proposal_short_id tx ∈ get_proposal_ids_by_hash store h)
    (drop 1 (BlockView_transactions block)).
Proof.
  intros Hmc Hw Hg Hn Hend. rewrite TwoPhaseCommit_Ok, Forall_forall by done.
  unfold proposals_at, get_block_hash. split; intros Hall tx Htx.
  - destruct (Hall tx Htx) as (k & ? & ? & Hk). destruct (col_index store !! k) as [h|] eqn:Eh; [|set_solver].
    exists (BlockView_number block - k), h. 
    replace (BlockView_number block - (BlockView_number block - k)) with k by lia.
    split_and!; [lia..|done|done].
  - destruct (Hall tx Htx) as (d & h & ? & ? & Hd & Hid).
    exists (BlockView_number block - d). rewrite Hd. split_and!; [lia..|done].
Qed.

(** C26: the proposal table and the two-phase commit check agree: when the rows of
    the table are the proposals of the main chain, a block on the tip passes the
    check exactly when every transaction it commits is in the set of proposals
    that [finalize] computed at the tip. *)
Theorem proposal_table_agrees block t origin removed view t' :
  main_chain -> window_wf (tx_proposal_window consensus) ->
  proposal_window t = tx_proposal_window consensus ->
  (forall k, 1 <= k < BlockView_number block ->
     BlockView_number block - farthest (tx_proposal_window consensus) <= k ->
     table t !! k = Some (proposals_at k)) ->
  (forall k ids, table t !! k = Some ids -> 1 <= k /\ ids = proposals_at k) ->
  0 < BlockView_number block < 2 ^ 64 ->
  (forall n, 0 <= n < BlockView_number block -> is_Some (col_index store !! n)) ->
  ProposalTable_finalize (E:=Error) t origin (BlockView_number block - 1) = Ok (removed, view, t') ->
  TwoPhaseCommitVerifier_verify store consensus block = Ok tt <->
  forall tx, tx ∈ drop 1 (BlockView_transactions block) ->
    TransactionView_proposal_short_id tx ∈ set view.
Proof.
  intros Hmc Hw Hpw Hrows Hall Hn Hidx Hfin. pose proof Hw as [Hc Hf].
  rewrite TwoPhaseCommit_Ok; [|done|done|apply Z.eqb_neq; lia|zlia|apply Hidx; zlia].
  destruct (finalize_rows (E:=Error) t origin (BlockView_number block - 1))
    as (r' & v' & tt' & Hfin' & Hset & _); [by rewrite Hpw|lia|naive_solver|].
  rewrite Hfin' in Hfin. injection Hfin as -> -> ->. setoid_rewrite Hset. rewrite Hpw.
  replace (BlockView_number block - 1 + 1) with (BlockView_number block) by lia.
  split; intros H tx Htx.
  - destruct (H tx Htx) as (k & ? & ? & ?). exists k, (proposals_at k).
    split_and!; [apply Hrows; lia|done|lia|lia].
  - destruct (H tx Htx) as (k & ids & Hk & ? & ?). destruct (Hall k ids Hk) as [? ->].
    exists k. split_and!; [lia..|done].
Qed.
End two_phase.

(** ** Transactions in parallel, and the verification cache *)

Lemma elem_of_enumerate {A} (l : list A) i a : (i, a) ∈ enumerate l -> a ∈ l.
Proof.
  intros [k Hk]%list_elem_of_lookup. rewrite enumerate_lookup in Hk.
  apply fmap_Some in Hk as (x & Hx & [= -> ->]). by eapply list_elem_of_lookup_2.
Qed.

Lemma try_map_ext {E A B} (f g : A -> outcome E B) l :
  (forall x, x ∈ l -> f x = g x) -> try_map f l = try_map g l.
Proof.
  induction l as [|a l IH]; intros Hfg; simpl; [done|].
  rewrite (Hfg a) by set_solver. destruct (g a); simpl; [|done..]. by rewrite IH by set_solver.
Qed.

Lemma try_for_each_ext {E A} (f g : A -> outcome E unit) l :
  (forall x, x ∈ l -> f x = g x) -> try_for_each f l = try_for_each g l.
Proof.
  induction l as [|a l IH]; intros Hfg; simpl; [done|].
  rewrite (Hfg a) by set_solver. destruct (g a); simpl; [|done..]. by apply IH; set_solver.
Qed.

Lemma par_try_map_ext {E A B} order (f g : nat * A -> outcome E B) l :
  (forall x, x ∈ enumerate l -> f x = g x) -> par_try_map order f l = par_try_map order g l.
Proof.
  intros Hfg. unfold par_try_map. rewrite (try_map_ext f g) by done. f_equal.
  apply try_for_each_ext. intros i _. destruct (enumerate l !! i) as [x|] eqn:Ex; [|done].
  by rewrite (Hfg x) by by eapply list_elem_of_lookup_2.
Qed.

(** Whether a parallel map succeeds, and with what, does not depend on the order. *)
Lemma par_try_map_Ok {E A B} order (f : nat * A -> outcome E B) l r :
  par_try_map order f l = Ok r <-> try_map f (enumerate l) = Ok r.
Proof.
  unfold par_try_map. rewrite bind_Ok. split; [by intros (? & _ & ?)|].
  intros Hr. exists tt. split; [|done]. apply try_for_each_Ok, Forall_forall. intros i _.
  destruct (enumerate l !! i) as [x|] eqn:Ex; [|done].
  apply try_map_Ok in Hr. destruct (Forall2_lookup_l _ _ _ _ _ Hr Ex) as (y & _ & ->). done.
Qed.

Section cache.
Context `{NumExt} `{Hasher} `{LruCache Z} `{LC : LruCache CacheEntry, !LruCacheSpec CacheEntry LC}.
Context (script_verify : Store -> ResolvedTransaction -> Z -> outcome Error Z).
Context (store : Store) (consensus : Consensus).
Context (block_number : Z) (epoch : EpochNumberWithFraction) (parent_hash : Byte32)
  (resolved : list ResolvedTransaction).

Abbreviation rtx_hash rtx := (tx_hash (transaction rtx)).
Abbreviation good rtx entry :=
  (noncontextual script_verify consensus store rtx (max_block_cycles consensus) entry).

(** What the cache says of the transactions of the block is what verifying them
    would say, leaving aside what depends on the block. *)
Definition tx_cache_sound (cache : lru CacheEntry) : Prop :=
  forall rtx entry, rtx ∈ resolved -> lru_get cache (rtx_hash rtx) = Some entry -> good rtx entry.

Lemma fetched_cache_lookup cache keys k :
  fetched_cache cache keys !! k = if decide (k ∈ keys) then lru_get cache k else None.
Proof.
  unfold fetched_cache. induction keys as [|k' keys IH] using rev_ind; [done|].
  rewrite foldl_app. cbn [foldl].
  assert (k ∈ keys ++ [k'] <-> k ∈ keys \/ k = k') as Hin by set_solver.
  destruct (lru_get cache k') as [v|] eqn:Ev.
  - destruct (decide (k = k')) as [->|Hne].
    + rewrite lookup_insert_eq, decide_True by set_solver. done.
    + rewrite lookup_insert_ne, IH by done. by repeat case_decide; try set_solver.
  - rewrite IH. destruct (decide (k = k')) as [->|Hne].
    + by repeat case_decide; try set_solver.
    + by repeat case_decide; try set_solver.
Qed.

(** The verdict on a transaction, without cache. *)
Definition verify_uncached (itx : nat * ResolvedTransaction) : outcome Error (Byte32 * CacheEntry) :=
  cache_entry ← map_err (block_tx_error itx.1)
    (TransactionVerifier_verify script_verify (verify_median_context store consensus) block_number
       epoch parent_hash consensus store itx.2 (max_block_cycles consensus));
  Ok (rtx_hash itx.2, cache_entry).

Lemma verify_block_tx_sound cache itx :
  tx_cache_sound cache -> itx.2 ∈ resolved ->
  verify_block_tx script_verify store consensus block_number epoch parent_hash
    (fetched_cache cache ((fun rtx => rtx_hash rtx) <$> resolved)) itx = verify_uncached itx.
Proof.
  destruct itx as [i rtx]. cbn [snd]. intros Hs Hin. unfold verify_block_tx, verify_uncached.
  cbn [fst snd]. rewrite fetched_cache_lookup, decide_True
    by exact (list_elem_of_fmap_2 (fun r => rtx_hash r) resolved rtx Hin).
  destruct (lru_get cache (rtx_hash rtx)) as [entry|] eqn:Eg; [|done].
  rewrite (TransactionVerifier_noncontextual _ _ _ _ _ _ _ _ _ _ (Hs rtx entry Hin Eg)).
  by destruct (ContextualTransactionVerifier_verify _ _ _ _ _ _) as [[]|?|].
Qed.

Lemma verify_resolved_sound order cache :
  tx_cache_sound cache ->
  par_try_map order (verify_block_tx script_verify store consensus block_number epoch parent_hash
    (fetched_cache cache ((fun rtx => rtx_hash rtx) <$> resolved))) resolved =
  par_try_map order verify_uncached resolved.
Proof.
  intros Hs. apply par_try_map_ext. intros [i rtx] Hin. apply verify_block_tx_sound; [done|].
  by eapply elem_of_enumerate.
Qed.

(** The entries a successful verification computes. *)
Lemma verify_uncached_entries ret :
  try_map verify_uncached (enumerate resolved) = Ok ret ->
  Forall2 (fun rtx kv => kv.1 = rtx_hash rtx /\ good rtx kv.2) resolved ret.
Proof.
  unfold enumerate. generalize 0%nat. revert ret. induction resolved as [|rtx l IH]; intros ret n Hr.
  - injection Hr as <-. constructor.
  - cbn [enumerate_from try_map] in Hr. apply bind_Ok in Hr as (kv & Hkv & Hr).
    apply bind_Ok in Hr as (ret' & Hr' & Hr). injection Hr as <-. constructor; [|by eapply IH].
    unfold verify_uncached in Hkv. apply bind_Ok in Hkv as (entry & He%map_err_Ok & Hkv).
    injection Hkv as <-. apply TransactionVerifier_Ok in He as [? _]. done.
Qed.

Lemma insert_entries_sound l ret cache :
  NoDup ((fun rtx => rtx_hash rtx) <$> resolved) ->
  Forall2 (fun rtx kv => kv.1 = rtx_hash rtx /\ good rtx kv.2) l ret -> l ⊆ resolved ->
  tx_cache_sound cache ->
  tx_cache_sound (foldl (fun c kv => lru_insert c kv.1 kv.2) cache ret).
Proof.
  intros Hnd Hr. revert cache. induction Hr as [|rtx kv l ret [Hk Hg] _ IH]; intros cache Hsub Hs;
    [done|]. cbn [foldl]. apply IH; [set_solver|].
  intros rtx' entry Hin [[Eh ->]|[_ Hget]]%lru_get_insert; [|by apply Hs].
  assert (rtx' = rtx) as ->; [|done]. rewrite Hk in Eh.
  apply list_elem_of_lookup in Hin as [i Hi].
  assert (rtx ∈ resolved) as [j Hj]%list_elem_of_lookup by set_solver.
  assert (i = j) as <-; [|congruence].
  eapply (NoDup_lookup _ i j); [exact Hnd|by rewrite list_lookup_fmap, Hi|].
  by rewrite list_lookup_fmap, Hj, Eh.
Qed.

(** C25: the verdict on the transactions of a block does not depend on the cache,
    as long as what the cache says was verified before, and the cache stays
    sound; and whether it is [Ok], and with which cycles and fees, does not
    depend on the order in which the parallel verification runs. *)
Theorem block_txs_cache_transparent order order' cache cache' :
  NoDup ((fun rtx => rtx_hash rtx) <$> resolved) ->
  tx_cache_sound cache -> tx_cache_sound cache' ->
  let verify order cache := BlockTxsVerifier_verify script_verify store consensus block_number epoch
    parent_hash resolved order cache in
  (verify order cache).1 = (verify order cache').1 /\
  tx_cache_sound (verify order cache).2 /\
  forall r, (verify order cache).1 = Ok r <-> (verify order' cache).1 = Ok r.
Proof.
  intros Hnd Hs Hs' verify. unfold verify, BlockTxsVerifier_verify.
  rewrite !verify_resolved_sound by done.
  assert (forall ret, par_try_map order verify_uncached resolved = Ok ret <->
    par_try_map order' verify_uncached resolved = Ok ret) as Hord
    by (intros ret; by rewrite !par_try_map_Ok).
  destruct (par_try_map order verify_uncached resolved) as [ret|e|] eqn:Er.
  - rewrite (proj1 (Hord ret) eq_refl). apply par_try_map_Ok, verify_uncached_entries in Er.
    destruct (try_fold u64_add 0 _) as [sum|e|]; cbn [fst snd]; [|done..].
    split_and!; [by destruct (_ <? sum)| |done].
    destruct (_ <? sum); cbn [snd]; by apply (insert_entries_sound resolved).
  - cbn [fst snd]. split_and!; [done|done|]. intros r. split; [done|]. intros Hr. exfalso.
    destruct (par_try_map order' verify_uncached resolved) as [ret|?|]; [|done..].
    by specialize (proj2 (Hord ret) eq_refl).
  - cbn [fst snd]. split_and!; [done|done|]. intros r. split; [done|]. intros Hr. exfalso.
    destruct (par_try_map order' verify_uncached resolved) as [ret|?|]; [|done..].
    by specialize (proj2 (Hord ret) eq_refl).
Qed.
End cache.

(** ** The checks before the transactions *)

Section checks.
Context `{NumExt} `{Hasher} (store : Store) (consensus : Consensus).

Lemma EpochVerifier_Ok epoch block :
  EpochVerifier_verify epoch block = Ok tt <->
  EpochExt_number_with_fraction (E:=Error) epoch (BlockView_number block) =
    Ok (HeaderView_epoch (BlockView_header block)) /\
  compact_target (BlockView_raw block) = epoch_compact_target epoch.
Proof.
  unfold EpochVerifier_verify.
  change (HeaderView_number (BlockView_header block)) with (BlockView_number block).
  change (HeaderView_raw (BlockView_header block)) with (BlockView_raw block).
  destruct (EpochExt_number_with_fraction _ _) as [e|?|]; step; [|naive_solver..].
  destruct (Z.eqb_spec (HeaderView_epoch (BlockView_header block)) e) as [<-|]; cbn [negb];
    [|naive_solver].
  destruct (Z.eqb_spec (epoch_compact_target epoch) (compact_target (BlockView_raw block)));
    naive_solver.
Qed.

Lemma contextual_checks_Ok resolved block :
  contextual_checks store consensus resolved block (mkSwitch false false false false false) = Ok (Some tt) <->
  exists parent epoch,
    get_block_header store (parent_hash (BlockView_raw block)) = Some parent /\
    (if BlockView_is_genesis block then Ok (genesis_epoch_ext consensus)
     else prepare_epoch_ext store consensus parent) = Ok epoch /\
    (EpochExt_number_with_fraction (E:=Error) epoch (BlockView_number block) =
      Ok (HeaderView_epoch (BlockView_header block)) /\
    compact_target (BlockView_raw block) = epoch_compact_target epoch) /\
    UnclesVerifier_verify (UncleVerifierContext_new store consensus epoch) block = Ok tt /\
    TwoPhaseCommitVerifier_verify store consensus block = Ok tt /\
    dao_field CellOutput_calc_data_hash consensus store resolved parent =
      Ok (dao (BlockView_raw block)) /\
    RewardVerifier_verify store consensus resolved parent = Ok (Some tt).
Proof.
  unfold contextual_checks, unless, DaoHeaderVerifier_verify. cbn. split.
  - intros Hc. apply bind_Ok in Hc as (parent & Hp%ok_or_Ok & Hc). apply bind_Ok in Hc as (epoch & He & Hc).
    apply bind_Ok in Hc as ([] & Hep%EpochVerifier_Ok & Hc). apply bind_Ok in Hc as ([] & Hu & Hc).
    apply bind_Ok in Hc as ([] & Htp & Hc). apply bind_Ok in Hc as ([] & Hd & Hc).
    apply bind_Ok in Hd as (d & Hdao & Hd). exists parent, epoch.
    revert Hd. case_bool_decide as Hd; [intros _|done].
    change (HeaderView_raw (BlockView_header block)) with (BlockView_raw block) in Hd.
    rewrite <- Hd. split_and!; try done; by apply Hep.
  - intros (parent & epoch & Hp & He & Hep & Hu & Htp & Hd & Hr). rewrite Hp. step.
    rewrite He. step. rewrite (proj2 (EpochVerifier_Ok epoch block)) by done. step. rewrite Hu. step.
    rewrite Htp. step. rewrite Hd. step.
    change (HeaderView_raw (BlockView_header block)) with (BlockView_raw block).
    rewrite bool_decide_true by done. cbn [negb]. step. done.
Qed.
End checks.

(** ** Rewards and the whole verifier *)

Section whole.
Context `{NumExt} `{Hasher} `{LruCache Z} `{LruCache CacheEntry}.
Context (script_verify : Store -> ResolvedTransaction -> Z -> outcome Error Z).
Context (store : Store) (consensus : Consensus).

(** The smallest capacity of a cell with this lock and no data. *)
Definition minimal_capacity (l : Script) : Z := (8 + script_bytes l) * BYTE_SHANNONS.

(** C27: for a cellbase with at most one output, the reward check accepts exactly:
    no output while no block is final or when the reward cannot pay for a cell,
    and otherwise one output, locked by the lock of the finalized block's miner,
    of exactly the total reward. *)
Theorem reward_verifier_spec resolved cellbase parent target_lock reward :
  resolved !! 0%nat = Some cellbase ->
  (length (TransactionView_outputs (transaction cellbase)) <= 1)%nat ->
  Forall is_u64 (capacity <$> TransactionView_outputs (transaction cellbase)) ->
  0 <= HeaderView_number parent < 2 ^ 64 - 1 ->
  0 <= farthest (tx_proposal_window consensus) < 2 ^ 64 - 1 ->
  finalize_block_reward store consensus parent = Ok (Some (target_lock, reward)) ->
  is_u64 (minimal_capacity target_lock) ->
  RewardVerifier_verify store consensus resolved parent = Ok (Some tt) <->
  if bool_decide (HeaderView_number parent <= farthest (tx_proposal_window consensus) \/
                  reward_total reward < minimal_capacity target_lock)
  then TransactionView_outputs (transaction cellbase) = []
  else exists type, TransactionView_outputs (transaction cellbase) =
         [mkCellOutput (reward_total reward) target_lock type].
Proof.
  intros Hcb Hlen Hu Hp Hf Hr Hm. unfold RewardVerifier_verify, finalization_delay_length, u64_add.
  rewrite Hcb. step. rewrite !fit_in_range by zlia. step. rewrite Hr. step.
  assert (cap (CellOutput_is_lack_of_capacity (mkCellOutput (reward_total reward) target_lock None)
    Capacity_zero) = Ok (reward_total reward <? minimal_capacity target_lock)) as ->.
  { unfold CellOutput_is_lack_of_capacity. apply cap_Ok, fmap_Ok. exists (minimal_capacity target_lock).
    split; [|done]. unfold minimal_capacity in *. apply CellOutput_occupied_capacity_Ok; [done|].
    unfold cell_bytes, Capacity_zero; cbn [lock type_]. rewrite Z.add_0_r, Z.add_0_r. done. }
  step. set (cond := bool_decide _).
  assert ((HeaderView_number parent + 1 <=? farthest (tx_proposal_window consensus) + 1)
    || (reward_total reward <? minimal_capacity target_lock) = cond) as ->.
  { subst cond. case_bool_decide; destruct (Z.leb_spec (HeaderView_number parent + 1) (farthest (tx_proposal_window consensus) + 1)),
      (Z.ltb_spec (reward_total reward) (minimal_capacity target_lock)); simpl; (done || lia). }
  pose proof (fun c => total_capacity_Ok _ c Hu) as Hsum.
  destruct cond.
  { by destruct (TransactionView_outputs (transaction cellbase)). }
  unfold TransactionView_outputs_capacity in *.
  destruct (TransactionView_outputs (transaction cellbase)) as [|o [|]]; [|..|simpl in Hlen; lia].
  - change (cap (CellOutputVec_total_capacity [])) with (Ok (E:=Error) Capacity_zero). step.
    destruct (Capacity_zero =? reward_total reward); simpl; (split; [done|by intros []]).
  - assert (cap (CellOutputVec_total_capacity [o]) = Ok (capacity o)) as ->.
    { apply cap_Ok, Hsum. inversion Hu as [|? ? Hc]; subst.
      replace (sumZ (capacity <$> [o])) with (capacity o) by (cbn; lia). done. }
    step. destruct (Z.eqb_spec (capacity o) (reward_total reward)) as [<-|]; cbn [negb].
    + simpl. case_bool_decide as Hl; cbn [negb].
      * split; [|done]. intros _. exists (type_ o). subst target_lock. by destruct o.
      * split; [done|]. intros [t [= E]]. destruct Hl. by rewrite E.
    + split; [done|]. intros [t [= E]]. by rewrite E in *.
Qed.

End whole.

(** ** Witnesses: a chain of twelve blocks *)

Definition toy_lock : Script := mkScript (repeat 3 32) 1 [1; 2].
Definition toy_cellbase (n : Z) : TransactionView :=
  mkTransactionView
    (mkTransaction (mkRawTransaction 0 [] [] [CellInput_new_cellbase_input n] [] [])
      [Script_into_witness toy_lock]) [200 + n] [200 + n].
Definition toy_tx : TransactionView :=
  mkTransactionView (mkTransaction (mkRawTransaction 0 [] [] [] [] []) []) (repeat 77 32) zero32.
Definition toy_header (n : Z) : HeaderView :=
  mkHeaderView (mkHeader (mkRawHeader 0 0x1d080000 (n * 1000) n 0 [n - 1] zero32 zero32 zero32
    (pack_dao_data 10000000104789669 3360000290476976400 65136000891 504120308900000000)) 0) [n].
Definition toy_proposals (n : Z) : list bytes := if n =? 5 then [repeat 77 10] else [].
Definition toy_store : Store :=
  let ns := seqZ 0 12 in
  mkStore (list_to_map ((fun n => ([n], toy_header n)) <$> ns))
    (list_to_map ((fun n => ([n], [toy_cellbase n])) <$> ns))
    ∅ (list_to_map ((fun n => ([n], toy_proposals n)) <$> ns))
    (list_to_map ((fun n => ([n], mkBlockExt 0 0 0 None [])) <$> ns))
    (list_to_map ((fun n => (n, [n])) <$> ns)) (list_to_map ((fun n => ([n], n)) <$> ns))
    ∅ ∅ ∅ {[ [1] := sample_epoch ]} ∅ (list_to_map ((fun n => ([n], [1])) <$> ns)) (Some [11]) None.
Definition toy_block : BlockView :=
  BlockView_new_unchecked (toy_header 12) (mkUncleBlockVecView [] []) [toy_cellbase 12; toy_tx] [].

(** Decides [main_chain] on a concrete store. *)
Definition main_chain_check (s : Store) (n : Z) (h : Byte32) : bool :=
  in_rangeb 64 n &&
  match get_block_header s h with
  | Some header => (HeaderView_number header =? n) &&
      ((n =? 0) || bool_decide (col_index s !! (n - 1) = Some (HeaderView_parent_hash header)))
  | None => false
  end.
Lemma main_chain_by_compute s :
  bool_decide (map_Forall (fun n h => main_chain_check s n h = true) (col_index s)) = true ->
  main_chain s.
Proof.
  intros Hall%bool_decide_eq_true. split.
  - intros n [h Hh]. specialize (Hall n h Hh). unfold main_chain_check in Hall. reflect_bools.
    by destruct (in_rangeb_spec 64 n).
  - intros n h Hh. specialize (Hall n h Hh). unfold main_chain_check in Hall.
    apply andb_prop in Hall as [_ Hall]. destruct (get_block_header s h) as [header|]; [|done].
    apply andb_prop in Hall as [Hn%Z.eqb_eq Hp]. exists header. split_and!; [done|done|]. intros Hpos.
    apply orb_prop in Hp as [Hz%Z.eqb_eq|Hp%bool_decide_eq_true]; [lia|done].
Qed.

Lemma toy_main_chain : main_chain toy_store.
Proof. by apply main_chain_by_compute; vm_compute. Qed.

Lemma two_phase_commit_spec_witness :
  TwoPhaseCommitVerifier_verify toy_store sample_consensus toy_block = Ok tt.
Proof.
  apply two_phase_commit_spec.
  - exact toy_main_chain.
  - vm_compute. split; discriminate.
  - by vm_compute.
  - by vm_compute.
  - vm_compute. by eexists.
  - constructor; [|constructor]. exists 7, [5].
    split; [vm_compute; split; discriminate|]. split; [vm_compute; discriminate|].
    split; [by vm_compute|]. apply (bool_decide_unpack _). by vm_compute.
Defined.

Definition toy_table : ProposalTable :=
  mkProposalTable (list_to_map ((fun n => (n, proposals_at toy_store n)) <$> seqZ 1 11))
    TX_PROPOSAL_WINDOW.

Lemma toy_table_lookup k ids :
  table toy_table !! k = Some ids <-> 1 <= k < 12 /\ ids = proposals_at toy_store k.
Proof.
  unfold toy_table; cbn [table]. rewrite <- elem_of_list_to_map.
  2: { rewrite <- list_fmap_compose. cbn. rewrite list_fmap_id. apply NoDup_seqZ. }
  rewrite list_elem_of_fmap. setoid_rewrite elem_of_seqZ. split.
  - intros (n & [= -> ->] & ?). split; [lia|done].
  - intros [? ->]. exists k. split; [done|lia].
Qed.

Lemma proposal_table_agrees_witness :
  exists removed view t',
    ProposalTable_finalize (E:=Error) toy_table (mkProposalView ∅ ∅) 11 = Ok (removed, view, t') /\
    TransactionView_proposal_short_id toy_tx ∈ set view.
Proof.
  destruct (ProposalTable_finalize (E:=Error) toy_table (mkProposalView ∅ ∅) 11)
    as [[[removed view] t']|?|] eqn:Hf; [|by vm_compute in Hf..].
  exists removed, view, t'. split; [reflexivity|].
  pose proof (proposal_table_agrees toy_store sample_consensus toy_block toy_table (mkProposalView ∅ ∅)
    removed view t' toy_main_chain) as Hag.
  apply Hag.
  - vm_compute. split; discriminate.
  - reflexivity.
  - intros k Hk _. apply toy_table_lookup. split; [|done].
    change (BlockView_number toy_block) with 12 in Hk. lia.
  - intros k ids Hk%toy_table_lookup. split; [lia|]. apply Hk.
  - by vm_compute.
  - intros n Hn. change (BlockView_number toy_block) with 12 in Hn.
    assert (n ∈ seqZ 0 12) as Hin by (apply elem_of_seqZ; lia).
    assert (Forall (fun n => bool_decide (is_Some (col_index toy_store !! n)) = true) (seqZ 0 12))
      as Hall by (repeat constructor).
    rewrite Forall_forall in Hall. exact (proj1 (bool_decide_eq_true _) (Hall n Hin)).
  - exact Hf.
  - by vm_compute.
  - apply list_elem_of_singleton. reflexivity.
Defined.

#[export] Instance entry_cache : LruCache CacheEntry := {|
  lru := gmap Byte32 CacheEntry; lru_new _ := ∅; lru_get c k := c !! k;
  lru_insert c k v := <[k := v]> c |}.
#[export] Instance entry_cache_spec : LruCacheSpec CacheEntry entry_cache.
Proof.
  split; cbn; [done|]. intros c k v k' v' [[<- <-]|[? ?]]%lookup_insert_Some; [by left|right].
  by split.
Qed.

(** Scripts that always use 10 cycles. *)
Definition toy_scripts : Store -> ResolvedTransaction -> Z -> outcome Error Z := fun _ _ _ => Ok 10.
Definition toy_consensus : Consensus :=
  let c := sample_consensus in
  mkConsensus (id c) (genesis_block c) (genesis_hash c) (Some [0]) None None
    (initial_primary_epoch_reward c) (secondary_epoch_reward c) (max_uncles_num c)
    (orphan_rate_target c) (epoch_duration_target c) (tx_proposal_window c)
    (proposer_reward_ratio c) Dummy (EpochFraction_new 0 0 1) (median_time_block_count c)
    (max_block_cycles c) (max_block_bytes c) (block_version c) (consensus_tx_version c)
    (type_id_code_hash c) (max_block_proposals_limit c) (genesis_epoch_ext c)
    (satoshi_pubkey_hash c) (satoshi_cell_occupied_ratio c)
    (primary_epoch_reward_halving_interval c) (permanent_difficulty_in_dummy c).

(** The entry of the transaction is cached or not: the verdict is the same. *)
Lemma block_txs_cache_transparent_witness :
  let rtx := sample_rtx 5000000000 in
  let verify cache := BlockTxsVerifier_verify (H:=numext_ref) (H0:=toy_hasher) (H1:=map_cache)
    (H2:=entry_cache) toy_scripts toy_store toy_consensus 12 (EpochFraction_new 0 2 10) [11] [rtx]
    [0%nat] cache in
  (verify (∅ : gmap Byte32 CacheEntry)).1 =
    (verify ({[ [9] := mkCacheEntry 10 5000000000 ]} : gmap Byte32 CacheEntry)).1 /\
  (verify (∅ : gmap Byte32 CacheEntry)).1 = Ok (10, [mkCacheEntry 10 5000000000]).
Proof.
  intros rtx verify. split; [|by vm_compute].
  refine (proj1 (@block_txs_cache_transparent numext_ref toy_hasher map_cache entry_cache
    entry_cache_spec toy_scripts toy_store toy_consensus 12 (EpochFraction_new 0 2 10) [11] [rtx]
    [0%nat] [] ∅ {[ [9] := mkCacheEntry 10 5000000000 ]} _ _ _)).
  - apply NoDup_singleton.
  - intros r entry _ He. discriminate He.
  - intros r entry ->%list_elem_of_singleton He.
    assert (entry = mkCacheEntry 10 5000000000) as ->.
    { vm_compute in He. by injection He as <-. }
    split; by vm_compute.
Defined.

Lemma reward_verifier_spec_witness :
  RewardVerifier_verify toy_store toy_consensus
    [mkResolvedTransaction (toy_cellbase 12) [] [] []] (toy_header 11) = Err (into InvalidRewardAmount)
  /\ RewardVerifier_verify toy_store toy_consensus
    [mkResolvedTransaction (toy_cellbase 10) [] [] []] (toy_header 9) = Ok (Some tt).
Proof.
  split; [by vm_compute|].
  destruct (finalize_block_reward toy_store toy_consensus (toy_header 9))
    as [[[l r]|]|?|] eqn:Hf; [|by vm_compute in Hf..].
  apply (reward_verifier_spec toy_store toy_consensus
    [mkResolvedTransaction (toy_cellbase 10) [] [] []] (mkResolvedTransaction (toy_cellbase 10) [] [] [])
    (toy_header 9) l r).
  - reflexivity.
  - vm_compute. lia.
  - constructor.
  - by vm_compute.
  - by vm_compute.
  - exact Hf.
  - vm_compute in Hf. injection Hf as <- <-. by vm_compute.
  - vm_compute in Hf. injection Hf as <- <-. by vm_compute.
Defined.
