(* ===== verification/ChainCell.v ===== *)
(** * The cell set: src/chain/src/cell.rs

    Attaching a block marks the cells it spends as dead and adds its own;
    detaching undoes this.  [attach_keeps_cells] shows that the cell set stays
    tied to the transactions of the main chain, which detaching relies on, and
    [rollback_restores] that rolling back a run of attached blocks, in whatever
    order, gives back the whole store. *)

From S2P Require Import Prelude Capacity NumExt Types Molecule Errors Epoch Cell Consensus Store.

(** ** attach_block_cell *)

(** The body of the loop over the inputs. *)
Definition attach_input (txn : Store) (cell : OutPoint) : Store :=
  let cell_tx_hash := op_tx_hash cell in
  match get_tx_meta txn cell_tx_hash with
  | Some meta =>
      let meta := TransactionMeta_set_dead meta (Z.to_nat (op_index cell)) in
      if TransactionMeta_all_dead meta then delete_cell_set txn cell_tx_hash
      else update_cell_set txn cell_tx_hash meta
  | None => txn
  end.

(** [if tx.is_cellbase() { new_cellbase(..) } else { new(..) }]. *)
Definition tx_meta (header : HeaderView) (tx : TransactionView) (all_dead : bool) :
    TransactionMeta :=
  (if TransactionView_is_cellbase tx then TransactionMeta_new_cellbase else TransactionMeta_new)
    (HeaderView_number header) (EpochFraction_number (HeaderView_epoch header)) (header_hash header)
    (length (TransactionView_outputs tx)) all_dead.

Definition attach_tx (block : BlockView) (txn : Store) (tx : TransactionView) : Store :=
  let txn := foldl attach_input txn (TransactionView_input_pts_iter tx) in
  update_cell_set txn (tx_hash tx) (tx_meta (BlockView_header block) tx false).

Definition attach_block_cell (txn : Store) (block : BlockView) : Store :=
  foldl (attach_tx block) txn (BlockView_transactions block).

(** ** detach_block_cell *)

(** The metadata of a transaction that is not in the cell set because all its
    outputs are dead. *)
Definition recover_meta {E} (txn : Store) (h : Byte32) : outcome E (option TransactionMeta) :=
  t ← get_transaction txn h;
  match t with
  | None => Ok None
  | Some (tx, block_hash) =>
      Ok ((fun header => tx_meta header tx true) <$> get_block_header txn block_hash)
  end.

Definition detach_input {E} (txn : Store) (cell : OutPoint) : outcome E Store :=
  let cell_tx_hash := op_tx_hash cell in
  match get_tx_meta txn cell_tx_hash with
  | Some tx_meta =>
      Ok (update_cell_set txn cell_tx_hash
            (TransactionMeta_unset_dead tx_meta (Z.to_nat (op_index cell))))
  | None =>
      r ← recover_meta txn cell_tx_hash;
      match r with
      | Some meta =>
          Ok (update_cell_set txn cell_tx_hash
                (TransactionMeta_unset_dead meta (Z.to_nat (op_index cell))))
      | None => Ok txn
      end
  end.

Definition detach_tx {E} (txn : Store) (tx : TransactionView) : outcome E Store :=
  let txn := delete_cell_set txn (tx_hash tx) in
  try_fold detach_input txn (TransactionView_input_pts_iter tx).

Definition detach_block_cell {E} (txn : Store) (block : BlockView) : outcome E Store :=
  try_fold detach_tx txn (rev (BlockView_transactions block)).

(** ** Whole blocks, as chain.rs attaches and detaches them *)

Definition attach_main {E} (txn : Store) (b : BlockView) : outcome E Store :=
  txn ← attach_block txn b;
  Ok (attach_block_cell txn b).

Definition detach_main {E} (txn : Store) (b : BlockView) : outcome E Store :=
  txn ← detach_block txn b;
  detach_block_cell txn b.

(** [ChainService::rollback]. *)
Definition rollback {E} (detached_blocks : list BlockView) (txn : Store) : outcome E Store :=
  try_fold detach_main txn (rev detached_blocks).

(** ** One transaction's entry *)

(** Every operation changes one entry of the cell set; these are the changes. *)
Definition attach_idx (x : option TransactionMeta) (i : nat) : option TransactionMeta :=
  match x with
  | Some meta =>
      let meta := TransactionMeta_set_dead meta i in
      if TransactionMeta_all_dead meta then None else Some meta
  | None => None
  end.
Definition detach_idx (recovered : option TransactionMeta) (x : option TransactionMeta) (i : nat) :
    option TransactionMeta :=
  match x with
  | Some meta => Some (TransactionMeta_unset_dead meta i)
  | None => (fun meta => TransactionMeta_unset_dead meta i) <$> recovered
  end.

(** The outputs of transaction [h] among some out points. *)
Definition indices (h : Byte32) (os : list OutPoint) : list nat :=
  (fun o => Z.to_nat (op_index o)) <$> filter (fun o => op_tx_hash o = h) os.

Lemma indices_cons h o os :
  indices h (o :: os) =
  if decide (op_tx_hash o = h) then Z.to_nat (op_index o) :: indices h os else indices h os.
Proof. unfold indices. rewrite filter_cons. by case_decide. Qed.
Lemma indices_app h os1 os2 : indices h (os1 ++ os2) = indices h os1 ++ indices h os2.
Proof. unfold indices. by rewrite filter_app, fmap_app. Qed.

(** The columns the cell set operations leave alone. *)
Definition same_chain (s1 s2 : Store) : Prop := s2 = set_col_cell_set s1 (col_cell_set s2).

Lemma same_chain_refl s : same_chain s s.
Proof. by destruct s. Qed.
Lemma same_chain_trans s1 s2 s3 : same_chain s1 s2 -> same_chain s2 s3 -> same_chain s1 s3.
Proof. unfold same_chain. by intros -> ->. Qed.
Lemma same_chain_update s h m : same_chain s (update_cell_set s h m).
Proof. done. Qed.
Lemma same_chain_delete s h : same_chain s (delete_cell_set s h).
Proof. done. Qed.
#[local] Hint Resolve same_chain_refl same_chain_update same_chain_delete : core.

Lemma attach_input_same s o : same_chain s (attach_input s o).
Proof. unfold attach_input. repeat case_match; auto. Qed.

Lemma attach_inputs_same os s : same_chain s (foldl attach_input s os).
Proof.
  revert s. induction os as [|o os IH]; intros s; cbn [foldl]; [auto|].
  eapply same_chain_trans; [apply attach_input_same|apply IH].
Qed.

Lemma attach_txs_same b txs s : same_chain s (foldl (attach_tx b) s txs).
Proof.
  revert s. induction txs as [|tx txs IH]; intros s; cbn [foldl]; [auto|].
  eapply same_chain_trans; [|apply IH]. unfold attach_tx.
  eapply same_chain_trans; [apply attach_inputs_same|auto].
Qed.

Lemma attach_input_lookup s o h :
  col_cell_set (attach_input s o) !! h =
  if decide (op_tx_hash o = h) then attach_idx (col_cell_set s !! h) (Z.to_nat (op_index o))
  else col_cell_set s !! h.
Proof.
  unfold attach_input, get_tx_meta. case_decide as Hh; [subst h|].
  - destruct (col_cell_set s !! op_tx_hash o) as [m|] eqn:E; cbn [attach_idx]; [|done].
    case_match; cbn; [by rewrite lookup_delete_eq|by rewrite lookup_insert_eq].
  - destruct (col_cell_set s !! op_tx_hash o); [|done].
    case_match; cbn; [by rewrite lookup_delete_ne|by rewrite lookup_insert_ne].
Qed.

Lemma attach_inputs_lookup os s h :
  col_cell_set (foldl attach_input s os) !! h =
  foldl attach_idx (col_cell_set s !! h) (indices h os).
Proof.
  revert s. induction os as [|o os IH]; intros s; [done|]. cbn [foldl].
  rewrite IH, attach_input_lookup, indices_cons. by case_decide.
Qed.

Definition block_inputs (txs : list TransactionView) : list OutPoint :=
  txs ≫= TransactionView_input_pts_iter.

Lemma block_inputs_cons tx txs :
  block_inputs (tx :: txs) = TransactionView_input_pts_iter tx ++ block_inputs txs.
Proof. done. Qed.

(** An entry of a transaction outside the block. *)
Lemma attach_txs_lookup b txs s h :
  h ∉ tx_hash <$> txs ->
  col_cell_set (foldl (attach_tx b) s txs) !! h =
  foldl attach_idx (col_cell_set s !! h) (indices h (block_inputs txs)).
Proof.
  revert s. induction txs as [|tx txs IH]; intros s Hh; [done|]. cbn [foldl].
  rewrite fmap_cons, not_elem_of_cons in Hh. destruct Hh as [Hne Hh].
  rewrite IH by done. unfold attach_tx, update_cell_set.
  cbn [col_cell_set set_col_cell_set]. rewrite lookup_insert_ne by done.
  by rewrite attach_inputs_lookup, block_inputs_cons, indices_app, foldl_app.
Qed.

(** *** Detaching *)

(** What [recover_meta] returns when the indexed rows exist. *)
Definition recovered (s : Store) (h : Byte32) : option TransactionMeta :=
  info ← get_transaction_info s h;
  tx ← get_body_row s info;
  header ← get_block_header s (info_block_hash info);
  Some (tx_meta header tx true).

Definition rows_ok (s : Store) : Prop :=
  forall h info, col_tx_info s !! h = Some info -> is_Some (get_body_row s info).

Lemma recover_meta_Ok {E} s h : rows_ok s -> recover_meta (E:=E) s h = Ok (recovered s h).
Proof.
  intros Hs. unfold recover_meta, recovered, get_transaction, get_transaction_info.
  destruct (col_tx_info s !! h) as [info|] eqn:Hi; [|done].
  destruct (Hs _ _ Hi) as [tx Htx]. rewrite Htx. step. cbn. rewrite Htx. cbn.
  by destruct (get_block_header s (info_block_hash info)).
Qed.

Lemma same_chain_recovered s1 s2 h : same_chain s1 s2 -> recovered s2 h = recovered s1 h.
Proof. by intros ->. Qed.
Lemma same_chain_rows s1 s2 : same_chain s1 s2 -> rows_ok s1 -> rows_ok s2.
Proof. by intros ->. Qed.
Lemma same_chain_set s m : same_chain s (set_col_cell_set s m).
Proof. done. Qed.
#[local] Hint Resolve same_chain_set same_chain_rows : core.

Lemma detach_input_Ok {E} s o :
  rows_ok s ->
  exists s', detach_input (E:=E) s o = Ok s' /\ same_chain s s' /\
  forall h, col_cell_set s' !! h =
    if decide (op_tx_hash o = h)
    then detach_idx (recovered s h) (col_cell_set s !! h) (Z.to_nat (op_index o))
    else col_cell_set s !! h.
Proof.
  intros Hs. unfold detach_input, get_tx_meta.
  assert (forall m h, col_cell_set (update_cell_set s (op_tx_hash o) m) !! h =
    if decide (op_tx_hash o = h) then Some m else col_cell_set s !! h) as Hupd.
  { intros m h. cbn. case_decide as Hh; [subst h; apply lookup_insert_eq|by apply lookup_insert_ne]. }
  destruct (col_cell_set s !! op_tx_hash o) as [m|] eqn:Em.
  { eexists. split_and!; [done|auto|]. intros h. rewrite Hupd. case_decide; [subst|done].
    by rewrite Em. }
  rewrite recover_meta_Ok by done. step.
  destruct (recovered s (op_tx_hash o)) as [m|] eqn:Er;
    eexists; (split_and!; [done|auto|]); intros h; [rewrite Hupd|];
    case_decide; [subst|done|subst|done]; by rewrite Em, Er.
Qed.

Lemma detach_inputs_Ok {E} os s :
  rows_ok s ->
  exists s', try_fold (detach_input (E:=E)) s os = Ok s' /\ same_chain s s' /\
  forall h, col_cell_set s' !! h =
    foldl (detach_idx (recovered s h)) (col_cell_set s !! h) (indices h os).
Proof.
  revert s. induction os as [|o os IH]; intros s Hs; cbn [try_fold]; [by exists s; auto|].
  destruct (detach_input_Ok (E:=E) s o Hs) as (s1 & -> & H1 & L1). step.
  destruct (IH s1) as (s2 & -> & H2 & L2); [by eapply same_chain_rows|].
  exists s2. split_and!; [done|by eapply same_chain_trans|]. intros h.
  rewrite L2, L1, (same_chain_recovered s s1), indices_cons by done. by case_decide.
Qed.

(** The entries of the transactions that are detached, once their rows are no
    longer indexed, end empty; the others lose the dead marks of the inputs. *)
Lemma detach_txs_Ok {E} txs s :
  rows_ok s ->
  exists s', try_fold (detach_tx (E:=E)) s txs = Ok s' /\ same_chain s s' /\
  (forall h, h ∉ tx_hash <$> txs -> col_cell_set s' !! h =
    foldl (detach_idx (recovered s h)) (col_cell_set s !! h) (indices h (block_inputs txs))) /\
  (forall h, recovered s h = None -> h ∈ tx_hash <$> txs \/ col_cell_set s !! h = None ->
    col_cell_set s' !! h = None).
Proof.
  assert (forall L, foldl (detach_idx None) None L = None) as Hnone.
  { induction L; [done|]. by cbn. }
  revert s. induction txs as [|tx txs IH]; intros s Hs; cbn [try_fold].
  { exists s. split_and!; [done|auto|done|]. intros h _ [?%not_elem_of_nil|]; done. }
  destruct (detach_inputs_Ok (E:=E) (TransactionView_input_pts_iter tx)
    (delete_cell_set s (tx_hash tx))) as (s1 & Htx & H1 & L1); [done|].
  change (detach_tx (E:=E) s tx = Ok s1) in Htx. rewrite Htx. step.
  destruct (IH s1) as (s2 & -> & H2 & L2 & N2); [by eapply same_chain_rows|].
  assert (same_chain s s1) by (eapply same_chain_trans; eauto).
  exists s2. split_and!; [done|by eapply same_chain_trans|..]; intros h.
  - rewrite fmap_cons, not_elem_of_cons. intros [Hne Hh].
    rewrite L2, L1, (same_chain_recovered s s1) by done. cbn [col_cell_set delete_cell_set set_col_cell_set].
    rewrite lookup_delete_ne by done. by rewrite block_inputs_cons, indices_app, foldl_app.
  - intros Hr Hh. apply N2; [by rewrite (same_chain_recovered s s1)|].
    rewrite L1. rewrite (same_chain_recovered s) by done. rewrite Hr. cbn [col_cell_set delete_cell_set set_col_cell_set].
    destruct (decide (tx_hash tx = h)) as [<-|]; [right; by rewrite lookup_delete_eq|].
    rewrite lookup_delete_ne by done. rewrite fmap_cons, elem_of_cons in Hh.
    destruct Hh as [[?|?]| ->]; [done|by left|by right].
Qed.

(** ** The columns of the main chain *)

(** A loop that only touches the keys of its elements. *)
Lemma foldl_insert_ne {K V X} `{Countable K} (key : X -> K) (f : gmap K V -> X -> gmap K V) l m k :
  (forall m x, k <> key x -> f m x !! k = m !! k) ->
  k ∉ key <$> l -> foldl f m l !! k = m !! k.
Proof.
  intros Hf. revert m. induction l as [|x l IH]; intros m Hk; [done|]. cbn [foldl].
  rewrite fmap_cons, not_elem_of_cons in Hk. destruct Hk. rewrite IH by done. by apply Hf.
Qed.

Lemma snd_enumerate {A} (l : list A) : snd <$> enumerate l = l.
Proof.
  unfold enumerate. generalize 0%nat. induction l as [|a l IH]; intros n; [done|].
  cbn. f_equal. apply IH.
Qed.

Lemma foldl_delete {K V X} `{Countable K} (key : X -> K) l (m : gmap K V) k :
  foldl (fun m x => delete (key x) m) m l !! k =
  if decide (k ∈ key <$> l) then None else m !! k.
Proof.
  revert m. induction l as [|x l IH]; intros m; [done|]. cbn [foldl]. rewrite IH, fmap_cons.
  destruct (decide (k = key x)) as [->|Hne].
  - rewrite lookup_delete_eq. rewrite (decide_True (P:=key x ∈ key x :: _)) by set_solver.
    by case_decide.
  - rewrite lookup_delete_ne by done. do 2 case_decide; set_solver.
Qed.

(** The hashes a view carries are those of its parts. *)
Record view_ok (b : BlockView) : Prop := {
  view_txs : tx_hash <$> BlockView_transactions b = block_tx_hashes b;
  view_uncles : length (block_uncle_hashes b) = length (block_uncles (block_data b));
}.

Lemma view_uncles_Ok {E} b :
  view_ok b ->
  exists us, UncleBlockVecView_into_iter (E:=E) (BlockView_uncles b) = Ok us /\
             uncle_hash <$> us = block_uncle_hashes b.
Proof.
  intros [_ Hl]. unfold UncleBlockVecView_into_iter. cbn.
  exists (zip_with mkUncleBlockView (block_uncles (block_data b)) (block_uncle_hashes b)). split.
  - apply try_map_Ok, Forall2_same_length_lookup_2.
    { rewrite length_zip_with. unfold enumerate.
      enough (forall A n (l : list A), length (enumerate_from n l) = length l) as -> by lia.
      intros A n l. revert n. by induction l; intros; cbn; auto. }
    intros i [j d] u Hi Hu. rewrite enumerate_from_lookup in Hi.
    apply lookup_zip_with_Some in Hu as (d' & h & -> & Hd & Hh).
    rewrite Hd in Hi. cbn in Hi. simplify_eq. by rewrite Hh.
  - apply fmap_zip_with_r; [done|lia].
Qed.

Definition hashes_of (bs : list BlockView) : list Byte32 := bs ≫= block_tx_hashes.
Definition uncles_of (bs : list BlockView) : list Byte32 := bs ≫= block_uncle_hashes.
Definition inputs_of (bs : list BlockView) : list OutPoint :=
  bs ≫= fun b => block_inputs (BlockView_transactions b).

(** Two stores that differ in the rows of the main chain that blocks [bs] own
    and in the cell set, and nowhere else. *)
Record agree_outside (bs : list BlockView) (s s' : Store) : Prop := {
  ao_rest : s' = set_col_cell_set (set_main_chain s (col_index s') (col_index_hash s')
                   (col_uncles s') (col_tx_info s')) (col_cell_set s');
  ao_index n : n ∉ BlockView_number <$> bs -> col_index s' !! n = col_index s !! n;
  ao_index_hash h : h ∉ block_hash <$> bs -> col_index_hash s' !! h = col_index_hash s !! h;
  ao_uncles h : h ∉ uncles_of bs -> col_uncles s' !! h = col_uncles s !! h;
  ao_info h : h ∉ hashes_of bs -> col_tx_info s' !! h = col_tx_info s !! h;
}.

(** The main chain has none of the rows of [bs]. *)
Record cleared (bs : list BlockView) (s : Store) : Prop := {
  cl_index n : n ∈ BlockView_number <$> bs -> col_index s !! n = None;
  cl_index_hash h : h ∈ block_hash <$> bs -> col_index_hash s !! h = None;
  cl_uncles h : h ∈ uncles_of bs -> col_uncles s !! h = None;
  cl_info h : h ∈ hashes_of bs -> col_tx_info s !! h = None;
}.
Definition cells_cleared (bs : list BlockView) (s : Store) : Prop :=
  forall h, h ∈ hashes_of bs -> col_cell_set s !! h = None.

Lemma agree_outside_refl bs s : agree_outside bs s s.
Proof. split; [by destruct s|done..]. Qed.

Lemma agree_outside_trans bs1 bs2 s1 s2 s3 :
  agree_outside bs1 s1 s2 -> agree_outside bs2 s2 s3 -> agree_outside (bs1 ++ bs2) s1 s3.
Proof.
  intros [Hr1 Hi1 Hh1 Hu1 Ht1] [Hr2 Hi2 Hh2 Hu2 Ht2].
  unfold uncles_of, hashes_of in *. split.
  - rewrite Hr2, Hr1. done.
  - intros n. rewrite fmap_app, not_elem_of_app. intros []. by rewrite Hi2, Hi1.
  - intros n. rewrite fmap_app, not_elem_of_app. intros []. by rewrite Hh2, Hh1.
  - intros n. unfold uncles_of. rewrite bind_app, not_elem_of_app. intros []. by rewrite Hu2, Hu1.
  - intros n. unfold hashes_of. rewrite bind_app, not_elem_of_app. intros []. by rewrite Ht2, Ht1.
Qed.

Lemma agree_outside_cell bs s1 s2 s3 :
  agree_outside bs s1 s2 -> same_chain s2 s3 -> agree_outside bs s1 s3.
Proof. intros [Hr Hi Hh Hu Ht] Hc. rewrite Hc. split; [by rewrite Hr at 1|done..]. Qed.

(** What attaching and detaching leave alone determines what is recovered. *)
Lemma agree_outside_recovered bs s s' h :
  agree_outside bs s s' -> h ∉ hashes_of bs -> recovered s' h = recovered s h.
Proof.
  intros H Hh. unfold recovered, get_transaction_info. rewrite (ao_info _ _ _ H) by done.
  unfold get_body_row, get_block_header. by rewrite (ao_rest _ _ _ H).
Qed.

Lemma attach_block_agree {E} s b s' :
  view_ok b -> attach_block (E:=E) s b = Ok s' ->
  agree_outside [b] s s' /\ col_cell_set s' = col_cell_set s.
Proof.
  intros Hv Hs. unfold attach_block in Hs.
  destruct (view_uncles_Ok (E:=E) b Hv) as (us & Hus & Hus'). rewrite Hus in Hs. step. inv_ok.
  split; [|done]. unfold hashes_of, uncles_of. split; cbn; [done|..]; try rewrite !app_nil_r.
  - intros n Hn. apply lookup_insert_ne. set_solver.
  - intros n Hn. apply lookup_insert_ne. set_solver.
  - intros h Hh. apply (foldl_insert_ne uncle_hash); [|by rewrite Hus'].
    intros. by apply lookup_insert_ne.
  - intros h Hh. apply (foldl_insert_ne snd); [|by rewrite snd_enumerate].
    intros m [i h'] Hne. by apply lookup_insert_ne.
Qed.

Lemma attach_main_Ok {E} s b s' :
  view_ok b -> attach_main (E:=E) s b = Ok s' ->
  agree_outside [b] s s' /\
  forall h, h ∉ block_tx_hashes b -> col_cell_set s' !! h =
    foldl attach_idx (col_cell_set s !! h) (indices h (block_inputs (BlockView_transactions b))).
Proof.
  intros Hv Hs. unfold attach_main in Hs. inv_ok.
  destruct (attach_block_agree (E:=E) s b x) as [Ha Hc]; [done..|]. unfold attach_block_cell. split.
  - eapply agree_outside_cell; [done|apply attach_txs_same].
  - intros h Hh. rewrite attach_txs_lookup; [by rewrite Hc|]. by rewrite (view_txs b Hv).
Qed.

Lemma attach_blocks_Ok {E} bs s s' :
  Forall view_ok bs -> try_fold (attach_main (E:=E)) s bs = Ok s' ->
  agree_outside bs s s' /\
  forall h, h ∉ hashes_of bs ->
    col_cell_set s' !! h = foldl attach_idx (col_cell_set s !! h) (indices h (inputs_of bs)).
Proof.
  intros Hv. revert s. induction Hv as [|b bs Hb Hv IH]; intros s Hs; cbn [try_fold] in Hs; inv_ok.
  { split; [apply agree_outside_refl|done]. }
  destruct (attach_main_Ok (E:=E) s b x Hb) as [Ha Hl]; [done|].
  destruct (IH x) as [Ha' Hl']; [done|]. split; [by apply (agree_outside_trans [b] bs s x)|].
  intros h. unfold hashes_of, inputs_of. rewrite !bind_cons, not_elem_of_app. intros [Hh Hh'].
  by rewrite Hl', Hl, indices_app, foldl_app.
Qed.

Lemma detach_block_Ok {E} bs s b :
  view_ok b -> cleared bs s ->
  exists s', detach_block (E:=E) s b = Ok s' /\ agree_outside [b] s s' /\
  cleared (b :: bs) s' /\ col_cell_set s' = col_cell_set s.
Proof.
  intros Hv [C1 C2 C3 C4]. unfold detach_block.
  destruct (view_uncles_Ok (E:=E) b Hv) as (us & -> & Hus). step.
  eexists. split; [done|]. set (s1 := set_main_chain s _ _ _ _).
  assert (forall h, col_tx_info s1 !! h =
    if decide (h ∈ block_tx_hashes b) then None else col_tx_info s !! h) as Hinfo.
  { intros h. unfold s1. cbn [col_tx_info set_main_chain].
    rewrite (foldl_delete (fun h => h)). by rewrite list_fmap_id. }
  assert (forall h, col_uncles s1 !! h =
    if decide (h ∈ block_uncle_hashes b) then None else col_uncles s !! h) as Hunc.
  { intros h. unfold s1. cbn [col_uncles set_main_chain].
    rewrite (foldl_delete uncle_hash). by rewrite Hus. }
  split_and!; [| |done]; unfold hashes_of, uncles_of in *; split; [done|..].
  - intros n ?. apply lookup_delete_ne. set_solver.
  - intros n ?. apply lookup_delete_ne. set_solver.
  - intros h. cbn. rewrite app_nil_r, Hunc. by case_decide.
  - intros h. cbn. rewrite app_nil_r, Hinfo. by case_decide.
  - intros n Hn%elem_of_cons. apply lookup_delete_None. destruct Hn; auto.
  - intros n Hn%elem_of_cons. apply lookup_delete_None. destruct Hn; auto.
  - intros h. unfold uncles_of. rewrite bind_cons, elem_of_app, Hunc.
    case_decide; [done|]. intros [?|?]; [done|by apply C3].
  - intros h. unfold hashes_of. rewrite bind_cons, elem_of_app, Hinfo.
    case_decide; [done|]. intros [?|?]; [done|by apply C4].
Qed.

Lemma agree_outside_rows b s s' :
  agree_outside [b] s s' -> cleared [b] s' -> rows_ok s -> rows_ok s'.
Proof.
  intros H Hc Hs h info Hi. destruct (decide (h ∈ hashes_of [b])) as [Hh|Hh].
  - by rewrite (cl_info _ _ Hc) in Hi.
  - rewrite (ao_info _ _ _ H) in Hi by done. destruct (Hs _ _ Hi) as [tx Htx]. exists tx.
    rewrite <- Htx. unfold get_body_row. by rewrite (ao_rest _ _ _ H).
Qed.

Lemma cleared_cell bs s s' : cleared bs s -> same_chain s s' -> cleared bs s'.
Proof. by intros [] ->. Qed.

Lemma cleared_recovered bs s h : cleared bs s -> h ∈ hashes_of bs -> recovered s h = None.
Proof. intros Hc Hh. unfold recovered, get_transaction_info. by rewrite (cl_info _ _ Hc). Qed.

Lemma cleared_mono bs bs' s : bs' ⊆ bs -> cleared bs s -> cleared bs' s.
Proof.
  intros Hb [C1 C2 C3 C4]. unfold uncles_of, hashes_of in *.
  split; intros x Hx; [apply C1|apply C2|apply C3|apply C4]; set_solver.
Qed.

Lemma detach_main_Ok {E} bs s b :
  rows_ok s -> view_ok b -> cleared bs s -> cells_cleared bs s ->
  exists s', detach_main (E:=E) s b = Ok s' /\ rows_ok s' /\
  agree_outside [b] s s' /\ cleared (b :: bs) s' /\ cells_cleared (b :: bs) s' /\
  forall h, h ∉ block_tx_hashes b -> col_cell_set s' !! h =
    foldl (detach_idx (recovered s h)) (col_cell_set s !! h)
      (indices h (block_inputs (rev (BlockView_transactions b)))).
Proof.
  intros Hs Hv Hcl Hcc. unfold detach_main.
  destruct (detach_block_Ok (E:=E) bs s b Hv Hcl) as (s1 & -> & Ha & Hc1 & Hcs). step.
  assert (rows_ok s1) as Hs1.
  { eapply agree_outside_rows; [done| |done]. eapply cleared_mono; [|done]. set_solver. }
  destruct (detach_txs_Ok (E:=E) (rev (BlockView_transactions b)) s1 Hs1)
    as (s2 & Hs2 & Hsame & Hl & Hn).
  assert (tx_hash <$> rev (BlockView_transactions b) ≡ₚ block_tx_hashes b) as Hp.
  { by rewrite <- (view_txs b Hv), <- Permutation_rev. }
  exists s2. split_and!; [exact Hs2|by eapply same_chain_rows|
    by eapply agree_outside_cell|by eapply cleared_cell|..].
  - intros h Hh. apply Hn; [by apply (cleared_recovered (b :: bs))|]. rewrite Hp, Hcs.
    unfold hashes_of in Hh. rewrite bind_cons, elem_of_app in Hh.
    destruct Hh; [by left|right; by apply Hcc].
  - intros h Hh. rewrite Hl, Hcs by (by rewrite Hp). f_equal. f_equal.
    eapply agree_outside_recovered; [done|]. unfold hashes_of. set_solver.
Qed.

Lemma detach_blocks_Ok {E} bs done s :
  rows_ok s -> Forall view_ok bs -> cleared done s -> cells_cleared done s ->
  exists s', try_fold (detach_main (E:=E)) s bs = Ok s' /\
  agree_outside bs s s' /\ cleared (rev bs ++ done) s' /\ cells_cleared (rev bs ++ done) s' /\
  forall h, h ∉ hashes_of bs -> exists os, os ≡ₚ inputs_of bs /\
    col_cell_set s' !! h = foldl (detach_idx (recovered s h)) (col_cell_set s !! h) (indices h os).
Proof.
  intros Hs Hv. revert done s Hs.
  induction Hv as [|b bs Hb Hv IH]; intros done s Hs Hc Hcc; cbn [try_fold].
  { exists s. split_and!; [done|apply agree_outside_refl|done|done|]. by exists []. }
  destruct (detach_main_Ok (E:=E) done s b) as (s1 & -> & Hs1 & Ha1 & Hc1 & Hcc1 & Hl1); [done..|].
  step. destruct (IH (b :: done) s1) as (s2 & -> & Ha2 & Hc2 & Hcc2 & Hl2); [done..|].
  cbn [rev]. rewrite <- app_assoc. exists s2.
  split_and!; [done|by apply (agree_outside_trans [b] bs s s1)|done|done|].
  intros h. unfold hashes_of, inputs_of. rewrite !bind_cons, not_elem_of_app. intros [Hh Hh'].
  destruct (Hl2 h Hh') as (os & Hos & ->).
  exists (block_inputs (rev (BlockView_transactions b)) ++ os). split.
  - rewrite Hos. unfold block_inputs at 1. by rewrite <- Permutation_rev.
  - rewrite indices_app, foldl_app, Hl1 by done. f_equal. f_equal.
    eapply agree_outside_recovered; [done|]. unfold hashes_of. set_solver.
Qed.

(** ** Undoing the marks of one entry *)

Definition mark (b : bool) (L : list nat) (d : list bool) : list bool :=
  foldl (fun d i => <[i := b]> d) d L.

Lemma length_mark b L d : length (mark b L d) = length d.
Proof.
  revert d. induction L as [|i L IH]; intros d; [done|].
  change (length (mark b L (<[i := b]> d)) = length d). by rewrite IH, length_insert.
Qed.

Lemma mark_lookup b L d k :
  mark b L d !! k = if decide (k ∈ L) then (fun _ => b) <$> d !! k else d !! k.
Proof.
  revert d. induction L as [|i L IH]; intros d; [done|].
  change (mark b L (<[i := b]> d) !! k = if decide (k ∈ i :: L) then (fun _ => b) <$> d !! k else d !! k).
  rewrite IH.
  destruct (decide (k = i)) as [->|Hne].
  - rewrite (decide_True (P := i ∈ i :: L)) by set_solver.
    destruct (d !! i) eqn:Hi.
    + rewrite list_lookup_insert_eq by (by eapply lookup_lt_Some). by case_decide.
    + rewrite list_insert_ge by (by apply lookup_ge_None). rewrite Hi. by case_decide.
  - rewrite list_lookup_insert_ne by done. do 2 case_decide; set_solver.
Qed.

Lemma set_dead_mark m i : TransactionMeta_set_dead m i = set_dead_cell m (mark true [i] (dead_cell m)).
Proof.
  unfold TransactionMeta_set_dead, mark. cbn [foldl]. destruct (Nat.ltb_spec i (length (dead_cell m))); [done|].
  rewrite list_insert_ge by done. by destruct m.
Qed.
Lemma unset_dead_mark m i :
  TransactionMeta_unset_dead m i = set_dead_cell m (mark false [i] (dead_cell m)).
Proof.
  unfold TransactionMeta_unset_dead, mark. cbn [foldl]. destruct (Nat.ltb_spec i (length (dead_cell m))); [done|].
  rewrite list_insert_ge by done. by destruct m.
Qed.

Lemma all_dead_iff d : forallb (fun b => b) d = true <-> d = replicate (length d) true.
Proof.
  induction d as [|[] d IH]; cbn; [done| |done]. rewrite IH. split; [by intros <-|by intros [= <-]].
Qed.

Lemma live_not_all_dead d i : d !! i = Some false -> forallb (fun b => b) d = false.
Proof.
  intros Hi. apply not_true_is_false. rewrite all_dead_iff. intros Hd. rewrite Hd in Hi.
  by apply lookup_replicate in Hi as [? _].
Qed.

(** A nonempty run of spends of live outputs marks them, and drops the entry
    when none is left. *)
Lemma attach_entry m L :
  L <> [] -> NoDup L -> (forall i, i ∈ L -> dead_cell m !! i = Some false) ->
  foldl attach_idx (Some m) L =
  let d := mark true L (dead_cell m) in
  if forallb (fun b => b) d then None else Some (set_dead_cell m d).
Proof.
  revert m. induction L as [|i L IH]; intros m Hne Hnd Hlive; [done|]. cbn [foldl attach_idx].
  unfold TransactionMeta_all_dead. rewrite set_dead_mark. destruct L as [|j L]; [done|].
  apply NoDup_cons in Hnd as [Hi Hnd]. set (m1 := set_dead_cell m _).
  assert (forall k, k ∈ j :: L -> dead_cell m1 !! k = Some false) as Hlive1.
  { intros k Hk. cbn. rewrite list_lookup_insert_ne by set_solver. apply Hlive. set_solver. }
  rewrite (live_not_all_dead _ j) by (apply Hlive1; set_solver). by rewrite IH by done.
Qed.

Lemma detach_entry_Some r m L :
  foldl (detach_idx r) (Some m) L = Some (set_dead_cell m (mark false L (dead_cell m))).
Proof.
  revert m. induction L as [|i L IH]; intros m; [by destruct m|]. cbn [foldl detach_idx].
  by rewrite unset_dead_mark, IH.
Qed.

Lemma detach_entry m d L :
  L <> [] ->
  foldl (detach_idx (Some (set_dead_cell m (replicate (length d) true))))
    (if forallb (fun b => b) d then None else Some (set_dead_cell m d)) L =
  Some (set_dead_cell m (mark false L d)).
Proof.
  intros HL. destruct (forallb (fun b => b) d) eqn:Hd; [|by rewrite detach_entry_Some].
  destruct L as [|i L]; [done|]. apply all_dead_iff in Hd. cbn [foldl detach_idx fmap option_fmap option_map].
  rewrite detach_entry_Some, unset_dead_mark, <- Hd. done.
Qed.

(** Marking live outputs and unmarking them, in any order. *)
Lemma entry_roundtrip m L L' :
  L' ≡ₚ L -> NoDup L -> (forall i, i ∈ L -> dead_cell m !! i = Some false) ->
  foldl (detach_idx (Some (set_dead_cell m (replicate (length (dead_cell m)) true))))
    (foldl attach_idx (Some m) L) L' = Some m.
Proof.
  intros HL Hnd Hlive. destruct (decide (L = [])) as [->|Hne].
  { by apply Permutation_nil_r in HL as ->. }
  rewrite attach_entry by done. cbv zeta. rewrite <- (length_mark true L (dead_cell m)).
  rewrite detach_entry by (intros ->; by apply Permutation_nil_l in HL).
  f_equal. transitivity (set_dead_cell m (dead_cell m)); [|by destruct m]. f_equal.
  apply list_eq. intros k. rewrite !mark_lookup.
  assert (k ∈ L' <-> k ∈ L) as Hk by (by rewrite HL).
  repeat case_decide; try tauto. by rewrite Hlive.
Qed.

(** ** The invariant of the cell set *)

Definition killed (m : TransactionMeta) : TransactionMeta :=
  set_dead_cell m (replicate (length (dead_cell m)) true).

(** Every entry is the metadata of the main-chain transaction with its hash, with
    dead marks of its own. *)
Record cells_wf (s : Store) : Prop := {
  wf_rows : rows_ok s;
  wf_cells h m : col_cell_set s !! h = Some m -> recovered s h = Some (killed m);
}.

(** The rows of the block that attaching it relies on. *)
Record stored (s : Store) (b : BlockView) : Prop := {
  stored_header : col_header s !! block_hash b = Some (BlockView_header b);
  stored_body : col_body s !! block_hash b = Some (BlockView_transactions b);
}.

Lemma killed_mark m L : killed (set_dead_cell m (mark true L (dead_cell m))) = killed m.
Proof. unfold killed. cbn. by rewrite length_mark. Qed.

Lemma killed_tx_meta header tx all_dead : killed (tx_meta header tx all_dead) = tx_meta header tx true.
Proof.
  unfold killed, tx_meta. case_match; unfold set_dead_cell; cbn; by rewrite length_replicate.
Qed.

Lemma attach_idx_killed (r : option TransactionMeta) x i :
  (forall m, x = Some m -> r = Some (killed m)) ->
  forall m, attach_idx x i = Some m -> r = Some (killed m).
Proof.
  intros Hx m. unfold attach_idx. destruct x as [m0|]; [|done]. rewrite set_dead_mark.
  case_match; [done|]. intros Hm. apply (inj Some) in Hm as <-. rewrite killed_mark. by apply Hx.
Qed.

Lemma attach_input_wf s o : cells_wf s -> cells_wf (attach_input s o).
Proof.
  intros [Hr Hc]. pose proof (attach_input_same s o) as Hs. split; [by eapply same_chain_rows|].
  intros h m. rewrite attach_input_lookup, (same_chain_recovered _ _ _ Hs).
  case_decide; [|apply Hc]. apply attach_idx_killed. intros m0. apply Hc.
Qed.

Lemma attach_tx_wf b s tx :
  recovered s (tx_hash tx) = Some (tx_meta (BlockView_header b) tx true) ->
  cells_wf s -> cells_wf (attach_tx b s tx).
Proof.
  intros Ht Hs. unfold attach_tx.
  pose proof (attach_inputs_same (TransactionView_input_pts_iter tx) s) as Hsame.
  assert (cells_wf (foldl attach_input s (TransactionView_input_pts_iter tx))) as [Hr Hc].
  { clear Ht Hsame. revert s Hs. induction (TransactionView_input_pts_iter tx); intros s Hs; [done|].
    by apply IHl, attach_input_wf. }
  split; [done|]. intros h m. unfold update_cell_set. cbn [col_cell_set set_col_cell_set].
  destruct (decide (h = tx_hash tx)) as [->|Hne].
  - rewrite lookup_insert_eq. intros [= <-]. rewrite killed_tx_meta, <- Ht.
    apply (same_chain_recovered s). eapply same_chain_trans; [exact Hsame|auto].
  - rewrite lookup_insert_ne by done. apply Hc.
Qed.

Lemma attach_txs_wf b txs s :
  (forall tx, tx ∈ txs -> recovered s (tx_hash tx) = Some (tx_meta (BlockView_header b) tx true)) ->
  cells_wf s -> cells_wf (foldl (attach_tx b) s txs).
Proof.
  revert s. induction txs as [|tx txs IH]; intros s Ht Hs; [done|]. cbn [foldl].
  apply IH; [|apply attach_tx_wf; [apply Ht; set_solver|done]].
  intros tx' Htx'. rewrite (same_chain_recovered s); [apply Ht; set_solver|].
  unfold attach_tx. eapply same_chain_trans; [apply attach_inputs_same|auto].
Qed.

(** The rows [attach_block] adds to the transaction index. *)
Lemma tx_info_rows (f : nat -> TransactionInfo) (l : list Byte32) (n : nat) (m : gmap Byte32 TransactionInfo) h info :
  foldl (fun m '(i, h) => <[h := f i]> m) m (enumerate_from n l) !! h = Some info ->
  (exists i, l !! i = Some h /\ info = f (n + i)%nat) \/ (h ∉ l /\ m !! h = Some info).
Proof.
  revert n m. induction l as [|x l IH]; intros n m; cbn [foldl enumerate_from].
  { intros ?. right. split; [set_solver|done]. }
  intros [(i & Hi & ->)|[Hn Hl]]%IH.
  { left. exists (S i). split; [done|]. f_equal. lia. }
  destruct (decide (h = x)) as [->|Hne].
  - rewrite lookup_insert_eq in Hl. simplify_eq. left. exists 0%nat. split; [done|]. f_equal. lia.
  - rewrite lookup_insert_ne in Hl by done. right. split; [set_solver|done].
Qed.
Lemma tx_info_total (f : nat -> TransactionInfo) (l : list Byte32) (n : nat) (m : gmap Byte32 TransactionInfo) h :
  h ∈ l -> is_Some (foldl (fun m '(i, h) => <[h := f i]> m) m (enumerate_from n l) !! h).
Proof.
  assert (forall (l : list Byte32) (n : nat) (m : gmap Byte32 TransactionInfo), is_Some (m !! h) ->
    is_Some (foldl (fun m '(i, h) => <[h := f i]> m) m (enumerate_from n l) !! h)) as Hkeep.
  { clear. induction l as [|x l IH]; intros n m Hm; [done|]. cbn [foldl enumerate_from]. apply IH.
    destruct (decide (h = x)) as [->|]; [by rewrite lookup_insert_eq|by rewrite lookup_insert_ne]. }
  revert n m. induction l as [|x l IH]; intros n m; [by intros ?%not_elem_of_nil|].
  intros [->|Hh]%elem_of_cons; cbn [foldl enumerate_from]; [|by apply IH].
  apply Hkeep. by rewrite lookup_insert_eq.
Qed.

Lemma attach_block_info {E} s b s' :
  attach_block (E:=E) s b = Ok s' ->
  (forall h, h ∈ block_tx_hashes b -> is_Some (col_tx_info s' !! h)) /\
  (forall h info, col_tx_info s' !! h = Some info ->
    (exists i, block_tx_hashes b !! i = Some h /\ info_block_hash info = block_hash b /\
               info_index info = i) \/
    (h ∉ block_tx_hashes b /\ col_tx_info s !! h = Some info)).
Proof.
  intros Hs. unfold attach_block in Hs. inv_ok. cbn [col_tx_info set_main_chain].
  set (f := mkTransactionInfo _ _ _). unfold enumerate.
  split; intros h; [by apply (tx_info_total f)|].
  intros info [(i & Hi & ->)|?]%(tx_info_rows f); [left; eauto|by right].
Qed.

Lemma attach_block_rows {E} s b s' :
  view_ok b -> stored s b -> attach_block (E:=E) s b = Ok s' -> rows_ok s -> rows_ok s'.
Proof.
  intros Hv Hst Hs Hr h info Hi. destruct (attach_block_agree s b s' Hv Hs) as [Ha _].
  destruct (attach_block_info s b s' Hs) as [_ Hinfo].
  unfold get_body_row. rewrite (ao_rest _ _ _ Ha). cbn.
  destruct (Hinfo h info Hi) as [(i & Hl & -> & ->)|[_ Hold]]; [|by apply (Hr h)].
  rewrite (stored_body _ _ Hst). cbn. rewrite <- (view_txs b Hv) in Hl.
  apply list_lookup_fmap_Some in Hl as (tx & _ & Htx). by exists tx.
Qed.

Lemma attach_block_wf {E} s b s' :
  view_ok b -> stored s b -> cells_cleared [b] s ->
  attach_block (E:=E) s b = Ok s' -> cells_wf s -> cells_wf s'.
Proof.
  intros Hv Hst Hcc Hs [Hr Hc]. destruct (attach_block_agree s b s' Hv Hs) as [Ha Hcs].
  split; [by eapply attach_block_rows|].
  intros h m Hm. rewrite Hcs in Hm. rewrite (agree_outside_recovered [b] s); [by apply Hc|done|].
  intros Hh. by rewrite (Hcc h Hh) in Hm.
Qed.

Lemma attach_block_recovered {E} s b s' tx :
  view_ok b -> stored s b -> NoDup (block_tx_hashes b) -> attach_block (E:=E) s b = Ok s' ->
  tx ∈ BlockView_transactions b ->
  recovered s' (tx_hash tx) = Some (tx_meta (BlockView_header b) tx true).
Proof.
  intros Hv Hst Hnd Hs Htx. destruct (attach_block_agree s b s' Hv Hs) as [Ha _].
  destruct (attach_block_info s b s' Hs) as [Htot Hinfo].
  apply list_elem_of_lookup in Htx as [i Htx].
  assert (block_tx_hashes b !! i = Some (tx_hash tx)) as Hi.
  { by rewrite <- (view_txs b Hv), list_lookup_fmap, Htx. }
  destruct (Htot (tx_hash tx)) as [info Hinf]; [by eapply list_elem_of_lookup_2|].
  unfold recovered, get_transaction_info, get_body_row, get_block_header. rewrite Hinf. cbn.
  rewrite (ao_rest _ _ _ Ha). cbn.
  destruct (Hinfo _ _ Hinf) as [(j & Hj & -> & ->)|[Hn _]].
  - rewrite (NoDup_lookup _ _ _ _ Hnd Hj Hi), (stored_body _ _ Hst). cbn.
    by rewrite Htx, (stored_header _ _ Hst).
  - by destruct Hn; eapply list_elem_of_lookup_2.
Qed.

Lemma attach_blocks_rows {E} bs s s' :
  Forall view_ok bs -> Forall (stored s) bs -> try_fold (attach_main (E:=E)) s bs = Ok s' ->
  rows_ok s -> rows_ok s'.
Proof.
  intros Hv. revert s.
  induction Hv as [|b bs Hb Hv IH]; intros s Hst Hs Hr; cbn [try_fold] in Hs; inv_ok; [done|].
  apply Forall_cons in Hst as [Hstb Hst]. destruct (attach_main_Ok (E:=E) s b x) as [Ha _]; [done..|].
  apply (IH x); [|done|].
  - eapply Forall_impl; [exact Hst|]. intros b' [H1 H2]. by split; rewrite (ao_rest _ _ _ Ha).
  - unfold attach_main in *. inv_ok. eapply same_chain_rows; [apply attach_txs_same|].
    by eapply attach_block_rows.
Qed.

(** ** Attaching and rolling back *)

(** The blocks spend outputs that are live, each once; an input of an unknown
    transaction is the one of a cellbase. *)
Record spends (s : Store) (bs : list BlockView) : Prop := {
  spends_live o : o ∈ inputs_of bs -> op_tx_hash o ∉ hashes_of bs ->
    (exists m, col_cell_set s !! op_tx_hash o = Some m /\
               dead_cell m !! Z.to_nat (op_index o) = Some false) \/
    (col_cell_set s !! op_tx_hash o = None /\ col_tx_info s !! op_tx_hash o = None);
  spends_once : NoDup (filter (fun o => is_Some (col_cell_set s !! op_tx_hash o)) (inputs_of bs));
  spends_index o : o ∈ inputs_of bs -> 0 <= op_index o;
}.

Lemma spends_entry s bs h m :
  spends s bs -> h ∉ hashes_of bs -> col_cell_set s !! h = Some m ->
  NoDup (indices h (inputs_of bs)) /\
  forall i, i ∈ indices h (inputs_of bs) -> dead_cell m !! i = Some false.
Proof.
  intros [Hlive Honce Hidx] Hh Hm. split.
  - unfold indices. apply NoDup_fmap_2_strong.
    + intros o1 o2. rewrite !list_elem_of_filter. intros [E1 H1] [E2 H2] Heq.
      apply Hidx in H1, H2. destruct o1, o2. cbn in *. f_equal; [congruence|lia].
    + rewrite <- (list_filter_filter_l (fun o => op_tx_hash o = h)
        (fun o => is_Some (col_cell_set s !! op_tx_hash o))).
      * by apply NoDup_filter.
      * intros o ->. by rewrite Hm.
  - intros i Hi. unfold indices in Hi. apply list_elem_of_fmap in Hi as (o & -> & Ho).
    apply list_elem_of_filter in Ho as [<- Ho].
    destruct (Hlive o Ho Hh) as [(m' & Hm' & ?)|[Hn _]]; congruence.
Qed.

Lemma indices_perm h os os' : os ≡ₚ os' -> indices h os ≡ₚ indices h os'.
Proof. unfold indices. by intros ->. Qed.

(** One entry of a transaction outside the blocks. *)
Lemma entry_restored s bs os h :
  cells_wf s -> spends s bs -> h ∉ hashes_of bs -> os ≡ₚ inputs_of bs ->
  foldl (detach_idx (recovered s h)) (foldl attach_idx (col_cell_set s !! h)
    (indices h (inputs_of bs))) (indices h os) = col_cell_set s !! h.
Proof.
  intros Hwf Hsp Hh Hos. pose proof (indices_perm h _ _ Hos) as Hp.
  destruct (col_cell_set s !! h) as [m|] eqn:Hm.
  - rewrite (wf_cells s Hwf h m Hm). destruct (spends_entry s bs h m) as [Hnd Hl]; [done..|].
    by apply entry_roundtrip.
  - assert (forall L, foldl attach_idx None L = None) as -> by (by induction L).
    destruct (decide (indices h os = [])) as [->|Hne]; [done|].
    assert (recovered s h = None) as ->; [|generalize (indices h os); by induction l].
    destruct (indices h os) as [|i L] eqn:Hi; [done|].
    assert (i ∈ indices h os) as Hin by (rewrite Hi; set_solver).
    unfold indices in Hin. apply list_elem_of_fmap in Hin as (o & _ & Ho).
    apply list_elem_of_filter in Ho as [<- Ho]. rewrite Hos in Ho.
    destruct (spends_live s bs Hsp o Ho Hh) as [(m' & Hm' & _)|[_ Hn]]; [congruence|].
    unfold recovered, get_transaction_info. by rewrite Hn.
Qed.

Lemma agree_cleared bs cs s s' :
  agree_outside cs s s' -> cs ⊆ bs -> cleared bs s -> cleared bs s' -> same_chain s s'.
Proof.
  intros [Hr Hi Hh Hu Ht] Hsub [C1 C2 C3 C4] [D1 D2 D3 D4].
  unfold same_chain. rewrite Hr at 1. unfold uncles_of, hashes_of in *.
  assert (col_index s' = col_index s) as ->.
  { apply map_eq. intros n. destruct (decide (n ∈ BlockView_number <$> bs)); [by rewrite C1, D1|].
    apply Hi. set_solver. }
  assert (col_index_hash s' = col_index_hash s) as ->.
  { apply map_eq. intros n. destruct (decide (n ∈ block_hash <$> bs)); [by rewrite C2, D2|].
    apply Hh. set_solver. }
  assert (col_uncles s' = col_uncles s) as ->.
  { apply map_eq. intros n. destruct (decide (n ∈ bs ≫= block_uncle_hashes)); [by rewrite C3, D3|].
    apply Hu. set_solver. }
  assert (col_tx_info s' = col_tx_info s) as ->; [|by destruct s].
  apply map_eq. intros n. destruct (decide (n ∈ bs ≫= block_tx_hashes)); [by rewrite C4, D4|].
  apply Ht. set_solver.
Qed.

Lemma rollback_attached {E} (bs detached : list BlockView) (s s' : Store) :
  cells_wf s -> Forall view_ok bs -> Forall (stored s) bs ->
  cleared bs s -> cells_cleared bs s -> spends s bs ->
  try_fold (attach_main (E:=E)) s bs = Ok s' ->
  detached ≡ₚ bs ->
  rollback (E:=E) detached s' = Ok s.
Proof.
  intros Hwf Hv Hst Hcl Hcc Hsp Hs Hp.
  destruct (attach_blocks_Ok bs s s' Hv Hs) as [Ha Hl].
  assert (rev detached ≡ₚ bs) as Hp' by (by rewrite <- Permutation_rev).
  assert (hashes_of (rev detached) ≡ₚ hashes_of bs) as Hph by (unfold hashes_of; by rewrite Hp').
  destruct (detach_blocks_Ok (E:=E) (rev detached) [] s') as (s2 & Hrb & Ha2 & Hc2 & Hcc2 & Hl2).
  - eapply attach_blocks_rows; eauto. apply Hwf.
  - by rewrite Hp'.
  - split; intros x Hx; by apply not_elem_of_nil in Hx.
  - intros h Hh. by apply not_elem_of_nil in Hh.
  - unfold rollback. rewrite Hrb. f_equal. rewrite rev_involutive, app_nil_r in Hc2, Hcc2.
    assert (same_chain s s2) as Hsame.
    { apply (agree_cleared bs (bs ++ rev detached)); [by eapply agree_outside_trans| |done|].
      - intros b. rewrite elem_of_app, Hp'. tauto.
      - eapply cleared_mono; [|done]. intros b. by rewrite Hp. }
    rewrite Hsame. transitivity (set_col_cell_set s (col_cell_set s)); [|by destruct s]. f_equal.
    apply map_eq. intros h. destruct (decide (h ∈ hashes_of bs)) as [Hh|Hh].
    { rewrite (Hcc h Hh). apply Hcc2. unfold hashes_of. by rewrite Hp. }
    destruct (Hl2 h) as (os & Hos & ->); [by rewrite Hph|].
    rewrite (agree_outside_recovered bs s s' h Ha Hh), (Hl h Hh). apply entry_restored; [done..|].
    rewrite Hos. unfold inputs_of. by rewrite Hp'.
Qed.

(** C2: rolling back undoes attaching.  Attach a run of blocks on top of a main
    chain whose cell set is well formed, the blocks spending live outputs once
    each; then [rollback] over these blocks, taken in any order, does not panic and
    gives back the store as it was, in every column. *)
Theorem rollback_restores {E} (bs detached : list BlockView) (s s' : Store) :
  cells_wf s -> Forall view_ok bs -> Forall (stored s) bs ->
  cleared bs s -> cells_cleared bs s -> spends s bs ->
  try_fold (attach_main (E:=E)) s bs = Ok s' ->
  detached ≡ₚ bs ->
  rollback (E:=E) detached s' = Ok s.
Proof. apply rollback_attached. Qed.

Lemma attach_main_wf {E} (s s' : Store) (b : BlockView) :
  view_ok b -> stored s b -> NoDup (block_tx_hashes b) -> cells_cleared [b] s ->
  attach_main (E:=E) s b = Ok s' -> cells_wf s -> cells_wf s'.
Proof.
  intros Hv Hst Hnd Hcc Hs Hwf. unfold attach_main in Hs. inv_ok. apply attach_txs_wf.
  - intros tx Htx. eapply (attach_block_recovered s); eauto.
  - by eapply attach_block_wf.
Qed.

(** Attaching a stored block keeps the cell set well formed: every entry is
    the metadata of the main-chain transaction with its hash, up to its dead
    marks, which is what [detach_block_cell] relies on when it recovers an entry. *)
Theorem attach_keeps_cells {E} (s s' : Store) (b : BlockView) :
  view_ok b -> stored s b -> NoDup (block_tx_hashes b) -> cells_cleared [b] s ->
  attach_main (E:=E) s b = Ok s' -> cells_wf s -> cells_wf s'.
Proof. apply attach_main_wf. Qed.

(** *** A concrete run: the first block spends the only output of transaction
    [[10]], whose entry is dropped; the second spends an output of the first. *)
Definition cell_tx (hash : Byte32) (ins : list OutPoint) (n : nat) : TransactionView :=
  mkTransactionView
    (mkTransaction (mkRawTransaction 0 [] [] (mkCellInput 0 <$> ins)
      (replicate n (mkCellOutput 100 (mkScript zero32 0 []) None)) (replicate n [])) [[]])
    hash hash.
Definition cell_block (n : Z) (hash parent : Byte32) (txs : list TransactionView) : BlockView :=
  BlockView_new_unchecked
    (mkHeaderView (mkHeader (mkRawHeader 0 0 0 n 0 parent [] [] [] []) 0) hash)
    (mkUncleBlockVecView [] []) txs [].
Definition cell_block0 : BlockView := cell_block 0 [0] [] [cell_tx [10] [] 1].
Definition cell_block1 : BlockView :=
  cell_block 1 [1] [0] [cell_tx [11] [OutPoint_null] 1; cell_tx [12] [mkOutPoint [10] 0] 2].
Definition cell_block2 : BlockView :=
  cell_block 2 [2] [1] [cell_tx [13] [OutPoint_null] 1; cell_tx [14] [mkOutPoint [12] 1] 1].
Definition cell_store : Store :=
  let s := mkStore ∅ ∅ ∅ ∅ ∅ {[0 := [0]]} {[[0] := 0]} ∅ {[[10] := mkTransactionInfo [0] 0 0 0]}
             {[[10] := tx_meta (BlockView_header cell_block0) (cell_tx [10] [] 1) false]}
             ∅ ∅ ∅ None None in
  foldl insert_block s [cell_block0; cell_block1; cell_block2].

Lemma cell_store_wf : cells_wf cell_store.
Proof.
  split; intros h m; unfold cell_store; cbn [col_tx_info col_cell_set foldl insert_block set_block];
    rewrite lookup_singleton_Some; intros [<- <-]; [|reflexivity].
  eexists. reflexivity.
Qed.

Lemma rollback_restores_witness :
  exists s', try_fold (attach_main (E:=unit)) cell_store [cell_block1; cell_block2] = Ok s' /\
    get_tx_meta s' [10] = None /\
    rollback (E:=unit) [cell_block2; cell_block1] s' = Ok cell_store.
Proof.
  eexists. split; [reflexivity|]. split; [reflexivity|].
  apply (rollback_restores [cell_block1; cell_block2]); [exact cell_store_wf|..|apply perm_swap].
  - repeat constructor.
  - repeat constructor.
  - split; refine (proj1 (Forall_forall _ _) _); repeat constructor.
  - refine (proj1 (Forall_forall _ _) _). repeat constructor.
  - split.
    + refine (proj1 (Forall_forall _ _) _).
      refine (Forall_cons_2 _ _ _ _ _); [by right|].
      refine (Forall_cons_2 _ _ _ _ _); [left; by eexists|].
      refine (Forall_cons_2 _ _ _ _ _); [by right|].
      refine (Forall_cons_2 _ _ _ _ _); [|by apply Forall_nil_2].
      intros Hn. destruct Hn. vm_compute. right. left.
    + apply (bool_decide_eq_true_1 _). by vm_compute.
    + refine (proj1 (Forall_forall _ _) _). repeat constructor; done.
  - reflexivity.
Defined.

Lemma attach_keeps_cells_witness :
  exists s', attach_main (E:=unit) cell_store cell_block1 = Ok s' /\ cells_wf s'.
Proof.
  eexists. split; [reflexivity|].
  apply (attach_keeps_cells (E:=unit) cell_store _ cell_block1); [by split|by split|..].
  - apply (bool_decide_eq_true_1 _). by vm_compute.
  - refine (proj1 (Forall_forall _ _) _). repeat constructor.
  - reflexivity.
  - exact cell_store_wf.
Defined.
