(* ===== verification/Chain.v ===== *)
(** * The chain service: src/chain/src/chain.rs, src/chain/src/switch.rs,
    src/util/snapshot/src/lib.rs

    [ChainService::insert_block] stores a block, and when it makes the chain with
    the greatest total difficulty, switches the main chain to it: it finds the
    fork, detaches the old branch and verifies and attaches the new one, all in
    one database transaction that is committed or dropped as a whole.

    The state of the service is the committed store, the snapshot the rest of
    the node reads, the proposal table and the cache of verified transactions.
    The messages it sends are part of the result.  [Ok None] is the reward
    calculator running out of fuel. *)

From S2P Require Import Prelude Capacity NumExt Rational Difficulty Types Molecule BlockCodec.
From S2P Require Import Errors Epoch Cell Consensus Hashes Store Dao Reward ProposalTable.
From S2P Require Import HeaderVerifier BlockVerifier UnclesVerifier TransactionVerifier.
From S2P Require Import ContextualVerifier ChainCell.

(** ** Switch *)

(** The bit flags of [Switch], a [u32]. *)
Definition NONE : Z := 0.
Definition DISABLE_EPOCH : Z := 1.
Definition DISABLE_UNCLES : Z := 2.
Definition DISABLE_TWO_PHASE_COMMIT : Z := 4.
Definition DISABLE_DAOHEADER : Z := 8.
Definition DISABLE_REWARD : Z := 16.
Definition DISABLE_NON_CONTEXTUAL : Z := 32.
Definition DISABLE_ALL : Z :=
  Z.lor DISABLE_EPOCH (Z.lor DISABLE_UNCLES (Z.lor DISABLE_TWO_PHASE_COMMIT
    (Z.lor DISABLE_DAOHEADER (Z.lor DISABLE_REWARD DISABLE_NON_CONTEXTUAL)))).
Definition Switch_contains (self other : Z) : bool := Z.land self other =? other.
Definition Switch_disable_all (s : Z) : bool := Switch_contains s DISABLE_ALL.
Definition Switch_disable_non_contextual (s : Z) : bool := Switch_contains s DISABLE_NON_CONTEXTUAL.
(** [impl VerificationSwitch for Switch]. *)
Definition verification_switch (s : Z) : Switch :=
  mkSwitch (Switch_contains s DISABLE_EPOCH) (Switch_contains s DISABLE_UNCLES)
    (Switch_contains s DISABLE_TWO_PHASE_COMMIT) (Switch_contains s DISABLE_DAOHEADER)
    (Switch_contains s DISABLE_REWARD).

(** ** State *)

Record Snapshot := mkSnapshot {
  snap_tip_header : HeaderView;
  snap_total_difficulty : Z;
  snap_epoch_ext : EpochExt;
  snap_store : Store;
  snap_proposals : ProposalView;
}.
Definition Snapshot_refresh (s : Snapshot) (store : Store) : Snapshot :=
  mkSnapshot (snap_tip_header s) (snap_total_difficulty s) (snap_epoch_ext s) store
    (snap_proposals s).

Record ForkChanges := mkForkChanges {
  attached_blocks : list BlockView;
  detached_blocks : list BlockView;
  detached_proposal_id : gset bytes;
  dirty_exts : list BlockExt;
}.
Definition ForkChanges_default : ForkChanges := mkForkChanges [] [] ∅ [].
Definition ForkChanges_has_detached (f : ForkChanges) : bool := negb (is_empty (detached_blocks f)).
(** [self.attached_blocks.len() - self.dirty_exts.len()]. *)
Definition ForkChanges_verified_len {E} (f : ForkChanges) : outcome E nat :=
  if (length (attached_blocks f) <? length (dirty_exts f))%nat then Panic
  else Ok (length (attached_blocks f) - length (dirty_exts f))%nat.

(** [push_front] on the deques. *)
Definition push_attached (f : ForkChanges) (b : BlockView) : ForkChanges :=
  mkForkChanges (b :: attached_blocks f) (detached_blocks f) (detached_proposal_id f) (dirty_exts f).
Definition push_detached (f : ForkChanges) (b : BlockView) : ForkChanges :=
  mkForkChanges (attached_blocks f) (b :: detached_blocks f) (detached_proposal_id f) (dirty_exts f).
Definition push_dirty_ext (f : ForkChanges) (e : BlockExt) : ForkChanges :=
  mkForkChanges (attached_blocks f) (detached_blocks f) (detached_proposal_id f) (e :: dirty_exts f).
Definition set_detached_proposal_id (f : ForkChanges) (ids : gset bytes) : ForkChanges :=
  mkForkChanges (attached_blocks f) (detached_blocks f) ids (dirty_exts f).

Record GlobalIndex := mkGlobalIndex { gi_number : Z; gi_hash : Byte32; gi_unseen : bool }.
Definition GlobalIndex_forward {E} (i : GlobalIndex) (hash : Byte32) : outcome E GlobalIndex :=
  n ← u64_sub (gi_number i) 1;
  Ok (mkGlobalIndex n hash (gi_unseen i)).

(** The messages to the other services. *)
Inductive Notification :=
| UpdateTxPoolForReorg (detached attached : list BlockView) (detached_proposal_id : gset bytes)
    (snapshot : Snapshot)
| NotifyNewUncle (uncle : UncleBlockView)
| NotifyNewBlock (block : BlockView).

(** ** The fork *)

Section fork.
Context {E : Type} (store : Store).

(** [store.get_block(hash).expect(..)]. *)
Definition expect_block (hash : Byte32) : outcome E BlockView :=
  b ← get_block store hash;
  expect b.

(** The steps that [alignment_fork] and [find_fork_until_latest_common] share:
    the block at the index joins [attached_blocks], its ext joins [dirty_exts] as
    long as no verified block was met, and the index moves to its parent. *)
Definition attach_index (st : ForkChanges * GlobalIndex) : outcome E (ForkChanges * GlobalIndex) :=
  let '(fork, index) := st in
  '(fork, index) ←
    (if gi_unseen index then
       ext ← expect (get_block_ext store (gi_hash index));
       match verified ext with
       | None => Ok (push_dirty_ext fork ext, index)
       | Some _ => Ok (fork, mkGlobalIndex (gi_number index) (gi_hash index) false)
       end
     else Ok (fork, index));
  new_block ← expect_block (gi_hash index);
  index ← GlobalIndex_forward index (parent_hash (BlockView_raw new_block));
  Ok (push_attached fork new_block, index).

Fixpoint iterate {A} (n : nat) (f : A -> outcome E A) (a : A) : outcome E A :=
  match n with
  | O => Ok a
  | S n' => a ← f a; iterate n' f a
  end.

(** The loop [while index.number > current_tip_number] lowers the number by one
    each time. *)
Definition alignment_fork (fork : ForkChanges) (index : GlobalIndex)
    (new_tip_number current_tip_number : Z) : outcome E (ForkChanges * GlobalIndex) :=
  if new_tip_number <=? current_tip_number then
    fork ← try_fold (fun fork bn =>
      hash ← expect (get_block_hash store bn);
      old_block ← expect_block hash;
      Ok (push_detached fork old_block)) fork
      (seqZ new_tip_number (current_tip_number + 1 - new_tip_number));
    Ok (fork, index)
  else iterate (Z.to_nat (gi_number index - current_tip_number)) attach_index (fork, index).

(** The loop ends at number 0, and every round lowers the number by one: [n] is
    the number. *)
Fixpoint latest_common_loop (n : nat) (fork : ForkChanges) (index : GlobalIndex) :
    outcome E (ForkChanges * GlobalIndex) :=
  match n with
  | O => Ok (fork, index)
  | S n' =>
      detached_hash ← expect (get_block_hash store (gi_number index));
      if bool_decide (detached_hash = gi_hash index) then Ok (fork, index)
      else
        detached_block ← expect_block detached_hash;
        '(fork, index) ← attach_index (push_detached fork detached_block, index);
        latest_common_loop n' fork index
  end.
Definition find_fork_until_latest_common (fork : ForkChanges) (index : GlobalIndex) :
    outcome E (ForkChanges * GlobalIndex) :=
  latest_common_loop (Z.to_nat (gi_number index)) fork index.

Definition find_fork (fork : ForkChanges) (current_tip_number : Z) (new_tip_block : BlockView)
    (new_tip_ext : BlockExt) : outcome E ForkChanges :=
  let new_tip_number := BlockView_number new_tip_block in
  let fork := push_dirty_ext fork new_tip_ext in
  let fork := push_attached fork new_tip_block in
  n ← u64_sub new_tip_number 1;
  let index := mkGlobalIndex n (parent_hash (BlockView_raw new_tip_block)) true in
  '(fork, index) ← alignment_fork fork index new_tip_number current_tip_number;
  '(fork, _) ← find_fork_until_latest_common fork index;
  Ok fork.
End fork.

(** ** The main chain *)

Definition map_some {E A B} (f : A -> B) (r : outcome E (option A)) : outcome E (option B) :=
  (fun o : option A => f <$> o) <$> r.

Section service.
Context `{NumExt} `{Hasher} `{LruCache Z} `{LruCache CacheEntry}.
Context (script_verify : Store -> ResolvedTransaction -> Z -> outcome Error Z).
Context (system_cell : option (gmap CellDep ResolvedDep)) (consensus : Consensus).
(** The order in which the transactions of a block happen to be verified. *)
Context (order : BlockView -> list nat).

Record ChainService := mkChainService {
  db : Store;
  snapshot : Snapshot;
  proposal_table : ProposalTable;
  txs_verify_cache : lru CacheEntry;
}.

(** *** reconcile_main_chain *)

(** The state of the loop: the database transaction, the cache, [found_error]. *)
Record Reconcile := mkReconcile {
  rc_txn : Store;
  rc_cache : lru CacheEntry;
  rc_error : option Error;
}.

Definition set_verified (ext : BlockExt) (v : option bool) : BlockExt :=
  mkBlockExt (received_at ext) (total_difficulty ext) (total_uncles_count ext) v (txs_fees ext).
Definition set_txs_fees (ext : BlockExt) (fees : list Capacity) : BlockExt :=
  mkBlockExt (received_at ext) (total_difficulty ext) (total_uncles_count ext) (verified ext) fees.

(** The transactions of [b], resolved against the block and the database transaction. *)
Definition resolve_block (txn : Store) (block_cp : BlockCellProvider) (b : BlockView) :
    outcome Error (list ResolvedTransaction) :=
  let cell_provider :=
    OverlayCellProvider_cell (BlockCellProvider_cell CellOutput_calc_data_hash block_cp)
      (store_cell CellOutput_calc_data_hash txn) in
  '(resolved, _) ← resolve_transactions system_cell cell_provider (check_valid txn consensus) ∅
                     (BlockView_transactions b);
  Ok resolved.

(** The verification of one block: the fees of its transactions. *)
Definition verify_block (txn : Store) (cache : lru CacheEntry) (switch : Z) (b : BlockView)
    (resolved : list ResolvedTransaction) :
    outcome Error (option (list Capacity)) * lru CacheEntry :=
  let '(r, cache) :=
    ContextualBlockVerifier_verify script_verify txn consensus (order b) resolved b cache
      (verification_switch switch) in
  (map_some (fun '(_, cache_entries) => fee <$> drop 1 cache_entries) r, cache).

Definition mark_invalid (rc : Reconcile) (b : BlockView) (ext : BlockExt) (cache : lru CacheEntry)
    (err : option Error) : Reconcile :=
  mkReconcile (insert_block_ext (rc_txn rc) (block_hash b) (set_verified ext (Some false))) cache err.
Definition attach_verified (rc : Reconcile) (b : BlockView) (ext : BlockExt)
    (cache : lru CacheEntry) : outcome Error Reconcile :=
  txn ← attach_main (rc_txn rc) b;
  Ok (mkReconcile (insert_block_ext txn (block_hash b) (set_verified ext (Some true))) cache
        (rc_error rc)).

(** One round of the loop over the dirty blocks. *)
Definition reconcile_step (switch : Z) (rc : Reconcile) (eb : BlockExt * BlockView) :
    outcome Error (option Reconcile) :=
  let '(ext, b) := eb in
  if negb (Switch_disable_all switch) then
    match rc_error rc with
    | None =>
        match BlockCellProvider_new b with
        | Panic => Panic
        | Err err => Ok (Some (mkReconcile (rc_txn rc) (rc_cache rc) (Some err)))
        | Ok block_cp =>
            match resolve_block (rc_txn rc) block_cp b with
            | Panic => Panic
            | Err err => Ok (Some (mark_invalid rc b ext (rc_cache rc) (Some err)))
            | Ok resolved =>
                let '(r, cache) := verify_block (rc_txn rc) (rc_cache rc) switch b resolved in
                match r with
                | Panic => Panic
                | Err err => Ok (Some (mark_invalid rc b ext cache (Some err)))
                | Ok None => Ok None
                | Ok (Some txs_fees) => Some <$> attach_verified rc b (set_txs_fees ext txs_fees) cache
                end
            end
        end
    | Some err => Ok (Some (mark_invalid rc b ext (rc_cache rc) (Some err)))
    end
  else Some <$> attach_verified rc b ext (rc_cache rc).

Fixpoint reconcile_loop (switch : Z) (rc : Reconcile) (l : list (BlockExt * BlockView)) :
    outcome Error (option Reconcile) :=
  match l with
  | [] => Ok (Some rc)
  | eb :: l' =>
      r ← reconcile_step switch rc eb;
      match r with
      | None => Ok None
      | Some rc => reconcile_loop switch rc l'
      end
  end.

(** The verdict and the cache. *)
Definition reconcile_main_chain (txn : Store) (cache : lru CacheEntry) (fork : ForkChanges)
    (switch : Z) : outcome Error (option Store) * lru CacheEntry :=
  match (verified_len ← ForkChanges_verified_len fork;
         txn ← try_fold attach_main txn (take verified_len (attached_blocks fork));
         reconcile_loop switch (mkReconcile txn cache None)
           (zip (dirty_exts fork) (drop verified_len (attached_blocks fork)))) with
  | Panic => (Panic, cache)
  | Err e => (Err e, cache)
  | Ok None => (Ok None, cache)
  | Ok (Some rc) =>
      (match rc_error rc with Some err => Err err | None => Ok (Some (rc_txn rc)) end, rc_cache rc)
  end.

(** *** insert_block *)

Definition update_proposal_table (t : ProposalTable) (fork : ForkChanges) : ProposalTable :=
  let t := foldl (fun t blk => (ProposalTable_remove t (BlockView_number blk)).2) t
             (detached_blocks fork) in
  foldl (fun t blk => (ProposalTable_insert t (BlockView_number blk)
                         (BlockView_union_proposal_ids blk)).2) t (attached_blocks fork).

(** What [insert_block] computes before it compares the difficulties: the
    transaction, the ext of the block, its epoch, and whether the epoch is new. *)
Definition prepare_block (s : ChainService) (now : Z) (block : BlockView) (switch : Z) :
    outcome Error (Store * BlockExt * EpochExt * bool) :=
  let parent_hash := parent_hash (BlockView_raw block) in
  _ ← (if Switch_disable_non_contextual switch then Ok tt else BlockVerifier_verify consensus block);
  parent_ext ← expect (get_block_ext (db s) parent_hash);
  parent_header ← expect (get_block_header (db s) parent_hash);
  difficulty ← HeaderView_difficulty (BlockView_header block);
  cannon_total_difficulty ← u256_add (total_difficulty parent_ext) difficulty;
  _ ← guard_err (bool_decide (verified parent_ext = Some false))
        (into (mkInvalidParentError (header_hash parent_header)));
  let db_txn := insert_block (db s) block in
  parent_header_epoch ← expect (get_block_epoch (db s) (header_hash parent_header));
  next_epoch_ext ← store_next_epoch_ext (db s) consensus parent_header_epoch parent_header;
  let epoch := default parent_header_epoch next_epoch_ext in
  uncles ← u64_add (total_uncles_count parent_ext) (zlen (block_uncles (block_data block)));
  let ext := mkBlockExt now cannon_total_difficulty uncles None [] in
  let db_txn := insert_block_epoch_index db_txn (block_hash block)
                  (last_block_hash_in_previous_epoch epoch) in
  let db_txn := insert_epoch_ext db_txn (last_block_hash_in_previous_epoch epoch) epoch in
  Ok (db_txn, ext, epoch, bool_decide (is_Some next_epoch_ext)).

(** The transaction of a new best block. *)
Definition switch_to (s : ChainService) (db_txn : Store) (block : BlockView) (ext : BlockExt)
    (epoch : EpochExt) (new_epoch : bool) (switch : Z) :
    outcome Error (option (Store * ForkChanges)) * lru CacheEntry :=
  match (fork ← find_fork (db s) ForkChanges_default (HeaderView_number (snap_tip_header (snapshot s)))
                  block ext;
         db_txn ← rollback (detached_blocks fork) db_txn;
         Ok (fork, db_txn)) with
  | Panic => (Panic, txs_verify_cache s)
  | Err e => (Err e, txs_verify_cache s)
  | Ok (fork, db_txn) =>
      let '(r, cache) := reconcile_main_chain db_txn (txs_verify_cache s) fork switch in
      (map_some (fun db_txn =>
         let db_txn := insert_tip_header db_txn (BlockView_header block) in
         (if new_epoch || ForkChanges_has_detached fork
          then insert_current_epoch_ext db_txn epoch else db_txn, fork)) r, cache)
  end.

Definition with_cache (s : ChainService) (cache : lru CacheEntry) : ChainService :=
  mkChainService (db s) (snapshot s) (proposal_table s) cache.

(** After the commit of a new best block. *)
Definition new_best (s : ChainService) (db_txn : Store) (fork : ForkChanges) (block : BlockView)
    (ext : BlockExt) (epoch : EpochExt) :
    outcome Error (option bool) * ChainService * list Notification :=
  let table := update_proposal_table (proposal_table s) fork in
  match ProposalTable_finalize table (snap_proposals (snapshot s)) (BlockView_number block) with
  | Panic => (Panic, mkChainService db_txn (snapshot s) table (txs_verify_cache s), [])
  | Err e => (Err e, mkChainService db_txn (snapshot s) table (txs_verify_cache s), [])
  | Ok (detached_ids, new_proposals, table) =>
      let fork := set_detached_proposal_id fork detached_ids in
      let new_snapshot :=
        mkSnapshot (BlockView_header block) (total_difficulty ext) epoch db_txn new_proposals in
      (Ok (Some true),
       mkChainService db_txn new_snapshot table (txs_verify_cache s),
       [UpdateTxPoolForReorg (detached_blocks fork) (attached_blocks fork)
          (detached_proposal_id fork) new_snapshot] ++
       ((fun b => NotifyNewUncle (BlockView_as_uncle b)) <$> detached_blocks fork) ++
       [NotifyNewBlock block])
  end.

Definition ChainService_insert_block (s : ChainService) (now : Z) (block : BlockView) (switch : Z) :
    outcome Error (option bool) * ChainService * list Notification :=
  if block_exists (db s) (block_hash block) then (Ok (Some false), s, [])
  else
    match prepare_block s now block switch with
    | Panic => (Panic, s, [])
    | Err e => (Err e, s, [])
    | Ok (db_txn, ext, epoch, new_epoch) =>
        if snap_total_difficulty (snapshot s) <? total_difficulty ext then
          let '(r, cache) := switch_to s db_txn block ext epoch new_epoch switch in
          let s := with_cache s cache in
          match r with
          | Panic => (Panic, s, [])
          | Err e => (Err e, s, [])
          | Ok None => (Ok None, s, [])
          | Ok (Some (db_txn, fork)) => new_best s db_txn fork block ext epoch
          end
        else
          let db_txn := insert_block_ext db_txn (block_hash block) ext in
          (Ok (Some true),
           mkChainService db_txn (Snapshot_refresh (snapshot s) db_txn) (proposal_table s)
             (txs_verify_cache s),
           [NotifyNewUncle (BlockView_as_uncle block)])
    end.

(** [process_block] adds logging only. *)
Definition process_block := ChainService_insert_block.
End service.

(** ** What switching the main chain leaves alone *)

(** Everything but the main chain columns and the cell set. *)
Definition same_rest (s s' : Store) : Prop :=
  s' = set_col_cell_set (set_main_chain s (col_index s') (col_index_hash s') (col_uncles s')
         (col_tx_info s')) (col_cell_set s').

Lemma same_rest_refl s : same_rest s s.
Proof. by destruct s. Qed.
Lemma same_rest_trans s1 s2 s3 : same_rest s1 s2 -> same_rest s2 s3 -> same_rest s1 s3.
Proof. unfold same_rest. intros H12 ->. by rewrite H12. Qed.
Lemma same_chain_rest s s' : same_chain s s' -> same_rest s s'.
Proof. unfold same_chain, same_rest. intros ->. by destruct s. Qed.
#[local] Hint Resolve same_rest_refl same_rest_trans same_chain_rest : core.

Lemma try_fold_rest {E A} (f : Store -> A -> outcome E Store) l s s' :
  (forall s a s', f s a = Ok s' -> same_rest s s') -> try_fold f s l = Ok s' -> same_rest s s'.
Proof.
  intros Hf Hl. apply (try_fold_inv (fun x _ => same_rest s x) _ _ _ _ Hl); [auto|].
  intros x a l' y Hx Hy. eauto.
Qed.

Lemma attach_main_rest {E} s b s' : attach_main (E:=E) s b = Ok s' -> same_rest s s'.
Proof.
  unfold attach_main, attach_block. intros Hs. inv_ok. unfold attach_block_cell.
  eapply same_rest_trans; [|apply same_chain_rest, attach_txs_same]. by destruct s.
Qed.

Lemma detach_input_rest {E} s o s' : detach_input (E:=E) s o = Ok s' -> same_rest s s'.
Proof.
  unfold detach_input. intros Hs. destruct (get_tx_meta s (op_tx_hash o)).
  - inv_ok. by destruct s.
  - inv_ok. case_match; inv_ok; [by destruct s|auto].
Qed.

Lemma detach_tx_rest {E} s tx s' : detach_tx (E:=E) s tx = Ok s' -> same_rest s s'.
Proof.
  unfold detach_tx. intros Hs. eapply same_rest_trans; [|eapply try_fold_rest; [|exact Hs]].
  - by destruct s.
  - apply detach_input_rest.
Qed.

Lemma detach_main_rest {E} s b s' : detach_main (E:=E) s b = Ok s' -> same_rest s s'.
Proof.
  unfold detach_main, detach_block. intros Hs. inv_ok. unfold detach_block_cell in *.
  eapply same_rest_trans; [|eapply try_fold_rest; [|eassumption]].
  - by destruct s.
  - apply detach_tx_rest.
Qed.

Lemma rollback_rest {E} bs s s' : rollback (E:=E) bs s = Ok s' -> same_rest s s'.
Proof. apply try_fold_rest, detach_main_rest. Qed.

(** ** The shape of a fork *)

(** The search only puts blocks in front, and at most one ext per block. *)
Definition extends (f f' : ForkChanges) : Prop :=
  exists a d, attached_blocks f' = a ++ attached_blocks f /\ dirty_exts f' = d ++ dirty_exts f /\
    (length d <= length a)%nat.

Lemma extends_refl f : extends f f.
Proof. by exists [], []. Qed.
Lemma extends_trans f1 f2 f3 : extends f1 f2 -> extends f2 f3 -> extends f1 f3.
Proof.
  intros (a & d & Ha & Hd & Hl) (a' & d' & Ha' & Hd' & Hl'). exists (a' ++ a), (d' ++ d).
  rewrite Ha', Hd', Ha, Hd, !app_assoc, !length_app. split_and!; [done..|lia].
Qed.
Lemma extends_detached f b : extends f (push_detached f b).
Proof. by exists [], []. Qed.

Lemma attach_index_extends {E} store f i f' i' :
  attach_index (E:=E) store (f, i) = Ok (f', i') -> extends f f'.
Proof.
  unfold attach_index. intros Hs. apply bind_Ok in Hs as ([f1 i1] & Hd & Hs). inv_ok. simplify_eq.
  destruct (gi_unseen i); [|inv_ok; simplify_eq; eexists [_], []; cbn; split_and!; [done..|lia]].
  inv_ok. case_match; inv_ok; simplify_eq.
  - eexists [_], []. cbn. split_and!; [done..|lia].
  - eexists [_], [_]. done.
Qed.

Lemma iterate_extends {E} store n f i f' i' :
  iterate n (attach_index (E:=E) store) (f, i) = Ok (f', i') -> extends f f'.
Proof.
  revert f i. induction n as [|n IH]; intros f i Hs; cbn [iterate] in Hs.
  - inv_ok. simplify_eq. apply extends_refl.
  - apply bind_Ok in Hs as ([f1 i1] & H1 & Hs). eapply extends_trans; [|by eapply IH].
    by eapply attach_index_extends.
Qed.

Lemma alignment_fork_extends {E} store f i n m f' i' :
  alignment_fork (E:=E) store f i n m = Ok (f', i') -> extends f f'.
Proof.
  unfold alignment_fork. case_match; [|apply iterate_extends]. intros Hs. inv_ok. simplify_eq.
  match goal with H : try_fold _ _ _ = Ok _ |- _ =>
    apply (try_fold_inv (fun x _ => extends f x) _ _ _ _ H); [apply extends_refl|] end.
  intros x a l y Hx Hy. inv_ok. eapply extends_trans; [done|apply extends_detached].
Qed.

Lemma latest_common_extends {E} store n f i f' i' :
  latest_common_loop (E:=E) store n f i = Ok (f', i') -> extends f f'.
Proof.
  revert f i. induction n as [|n IH]; intros f i Hs; cbn [latest_common_loop] in Hs.
  - inv_ok. simplify_eq. apply extends_refl.
  - inv_ok. case_match; [inv_ok; simplify_eq; apply extends_refl|]. inv_ok.
    match goal with x : ForkChanges * GlobalIndex |- _ => destruct x as [f1 i1] end.
    eapply extends_trans; [apply extends_detached|]. eapply extends_trans; [|by eapply IH].
    by eapply attach_index_extends.
Qed.

Lemma find_fork_extends {E} store n block ext f :
  find_fork (E:=E) store ForkChanges_default n block ext = Ok f ->
  exists a d, attached_blocks f = a ++ [block] /\ dirty_exts f = d ++ [ext] /\
    (length d <= length a)%nat.
Proof.
  unfold find_fork, find_fork_until_latest_common. intros Hs. inv_ok.
  repeat (match goal with x : ForkChanges * GlobalIndex |- _ => destruct x as [? ?] end; inv_ok).
  eapply (extends_trans (mkForkChanges [block] [] ∅ [ext])).
  - by eapply alignment_fork_extends.
  - by eapply latest_common_extends.
Qed.

Lemma finalize_not_Err {E} t origin n (e : E) : ProposalTable_finalize t origin n <> Err e.
Proof.
  unfold ProposalTable_finalize, u64_add, fit. case_match; cbn [mbind outcome_bind]; [|done].
  repeat case_match; cbn [mbind outcome_bind]; try done; by case_match.
Qed.

Section facts.
Context `{NumExt} `{Hasher} `{LruCache Z} `{LruCache CacheEntry}.
Context (script_verify : Store -> ResolvedTransaction -> Z -> outcome Error Z).
Context (system_cell : option (gmap CellDep ResolvedDep)) (consensus : Consensus).
Context (order : BlockView -> list nat).
Local Abbreviation insert_block := (ChainService_insert_block script_verify system_cell consensus order).

(** The ways [insert_block] ends. *)
Inductive inserted (s : ChainService) (now : Z) (block : BlockView) (switch : Z) :
    outcome Error (option bool) -> ChainService -> list Notification -> Prop :=
| inserted_known :
    block_exists (db s) (block_hash block) = true ->
    inserted s now block switch (Ok (Some false)) s []
| inserted_refused r cache :
    (exists e, r = Err e) \/ r = Panic \/ r = Ok None ->
    inserted s now block switch r (with_cache s cache) []
| inserted_side txn ext epoch new_epoch :
    prepare_block consensus s now block switch = Ok (txn, ext, epoch, new_epoch) ->
    total_difficulty ext <= snap_total_difficulty (snapshot s) ->
    let txn := insert_block_ext txn (block_hash block) ext in
    inserted s now block switch (Ok (Some true))
      (mkChainService txn (Snapshot_refresh (snapshot s) txn) (proposal_table s) (txs_verify_cache s))
      [NotifyNewUncle (BlockView_as_uncle block)]
| inserted_best txn ext epoch new_epoch cache txn' fork r s' messages :
    prepare_block consensus s now block switch = Ok (txn, ext, epoch, new_epoch) ->
    snap_total_difficulty (snapshot s) < total_difficulty ext ->
    switch_to script_verify system_cell consensus order s txn block ext epoch new_epoch switch =
      (Ok (Some (txn', fork)), cache) ->
    new_best (with_cache s cache) txn' fork block ext epoch = (r, s', messages) ->
    inserted s now block switch r s' messages.

Lemma insert_block_cases s now block switch r s' messages :
  insert_block s now block switch = (r, s', messages) ->
  inserted s now block switch r s' messages.
Proof.
  assert (with_cache s (txs_verify_cache s) = s) as Hself by (by destruct s).
  intros Hi. unfold ChainService_insert_block in Hi.
  destruct (block_exists _ _) eqn:Hex; [injection Hi as <- <- <-; by apply inserted_known|].
  destruct (prepare_block _ _ _ _ _) as [[[[txn ext] epoch] new_epoch]|e|] eqn:Hp.
  2: { injection Hi as <- <- <-. rewrite <- Hself at 2. constructor 2. eauto. }
  2: { injection Hi as <- <- <-. rewrite <- Hself at 2. constructor 2. eauto. }
  destruct (Z.ltb_spec (snap_total_difficulty (snapshot s)) (total_difficulty ext)) as [Hlt|Hge].
  2: { injection Hi as <- <- <-. by eapply inserted_side. }
  destruct (switch_to _ _ _ _ _ _ _ _ _ _ _) as [[[[txn' fork]|]|e|] cache] eqn:Hsw.
  - by eapply inserted_best.
  - injection Hi as <- <- <-. constructor 2. eauto.
  - injection Hi as <- <- <-. constructor 2. eauto.
  - injection Hi as <- <- <-. constructor 2. eauto.
Qed.

Lemma new_best_cases s txn fork block ext epoch r s' messages :
  new_best s txn fork block ext epoch = (r, s', messages) ->
  r = Panic \/
  exists detached proposals table,
    ProposalTable_finalize (E:=Error) (update_proposal_table (proposal_table s) fork)
      (snap_proposals (snapshot s)) (BlockView_number block) = Ok (detached, proposals, table) /\
    r = Ok (Some true) /\
    let snap := mkSnapshot (BlockView_header block) (total_difficulty ext) epoch txn proposals in
    s' = mkChainService txn snap table (txs_verify_cache s) /\
    messages = [UpdateTxPoolForReorg (detached_blocks fork) (attached_blocks fork) detached snap] ++
      ((fun b => NotifyNewUncle (BlockView_as_uncle b)) <$> detached_blocks fork) ++
      [NotifyNewBlock block].
Proof.
  unfold new_best. destruct (ProposalTable_finalize _ _ _) as [[[d v] t]|e|] eqn:Hf.
  - intros [= <- <- <-]. right. by exists d, v, t.
  - by destruct (finalize_not_Err _ _ _ _ Hf).
  - intros [= <- <- <-]. by left.
Qed.

(** *** Reconciling *)

(** The ext of a block that was attached. *)
Definition written (e e' : BlockExt) : Prop :=
  total_difficulty e' = total_difficulty e /\ total_uncles_count e' = total_uncles_count e /\
  received_at e' = received_at e /\ verified e' = Some true.
Definition attach_ext {E} (txn : Store) (eb : BlockExt * BlockView) : outcome E Store :=
  txn ← attach_main txn eb.2;
  Ok (insert_block_ext txn (block_hash eb.2) eb.1).

Lemma attach_verified_Ok rc b ext cache rc' :
  attach_verified rc b ext cache = Ok rc' ->
  rc_error rc' = rc_error rc /\
  attach_ext (rc_txn rc) (set_verified ext (Some true), b) = Ok (E:=Error) (rc_txn rc').
Proof.
  unfold attach_verified, attach_ext. intros Hs. apply bind_Ok in Hs as (txn & Ha & Hs).
  cbn [fst snd]. rewrite Ha. by simplify_eq.
Qed.

(** A round without error attaches its block. *)
Lemma reconcile_step_Ok switch rc ext b rc' :
  reconcile_step script_verify system_cell consensus order switch rc (ext, b) = Ok (Some rc') ->
  rc_error rc' = None ->
  rc_error rc = None /\
  exists e, written ext e /\ attach_ext (rc_txn rc) (e, b) = Ok (E:=Error) (rc_txn rc').
Proof.
  unfold reconcile_step. intros Hs He. destruct (negb _).
  - destruct (rc_error rc) eqn:Herr; [by simplify_eq|]. split; [done|].
    destruct (BlockCellProvider_new b); [|by simplify_eq|done].
    destruct (resolve_block _ _ _ _ _) as [rs| |]; [|by simplify_eq|done].
    destruct (verify_block _ _ _ _ _ _ _ _) as [[[fees|]| |] cache]; [|done|by simplify_eq|done].
    apply fmap_Ok in Hs as (rc1 & [Hr Ha]%attach_verified_Ok & [= ->]).
    by eexists; split; [|exact Ha].
  - apply fmap_Ok in Hs as (rc1 & [Hr Ha]%attach_verified_Ok & [= ->]).
    rewrite Hr in He. split; [done|]. by eexists; split; [|exact Ha].
Qed.

Lemma reconcile_loop_Ok switch l rc rc' :
  reconcile_loop script_verify system_cell consensus order switch rc l = Ok (Some rc') ->
  rc_error rc' = None ->
  exists exts, Forall2 written l.*1 exts /\
    try_fold attach_ext (rc_txn rc) (zip exts l.*2) = Ok (E:=Error) (rc_txn rc').
Proof.
  intros Hs He. enough (rc_error rc = None /\ exists exts, Forall2 written l.*1 exts /\
    try_fold attach_ext (rc_txn rc) (zip exts l.*2) = Ok (E:=Error) (rc_txn rc')) by tauto.
  revert rc Hs. induction l as [|[ext b] l IH]; intros rc Hs; cbn [reconcile_loop] in Hs.
  - simplify_eq. split; [done|]. by exists [].
  - apply bind_Ok in Hs as ([rc1|] & Hst & Hs); [|done].
    destruct (IH rc1 Hs) as (He1 & exts & Hw & Hl).
    apply reconcile_step_Ok in Hst as (He0 & e & We & Ha); [|done].
    split; [done|]. exists (e :: exts). split; [by constructor|].
    cbn [fmap list_fmap zip_with try_fold snd]. rewrite Ha. by step.
Qed.

(** What a successful [reconcile_main_chain] does: all blocks are attached, in
    order, and those that were not verified before get their ext. *)
Lemma reconcile_Ok txn cache fork switch txn' cache' :
  reconcile_main_chain script_verify system_cell consensus order txn cache fork switch =
    (Ok (Some txn'), cache') ->
  exists n exts txn1, length (attached_blocks fork) = (n + length (dirty_exts fork))%nat /\
    try_fold attach_main txn (take n (attached_blocks fork)) = Ok (E:=Error) txn1 /\
    Forall2 written (dirty_exts fork) exts /\
    try_fold attach_ext txn1 (zip exts (drop n (attached_blocks fork))) = Ok (E:=Error) txn'.
Proof.
  unfold reconcile_main_chain, ForkChanges_verified_len.
  destruct (Nat.ltb_spec (length (attached_blocks fork)) (length (dirty_exts fork))); [done|]. step.
  set (n := (length (attached_blocks fork) - length (dirty_exts fork))%nat).
  destruct (try_fold _ _ _) as [txn1| |] eqn:Hver; step; [|done|done].
  destruct (reconcile_loop _ _ _ _ _ _ _) as [[rc|]| |] eqn:Hdirty; [|done..].
  destruct (rc_error rc) eqn:He; [done|]. intros [= <- <-].
  apply reconcile_loop_Ok in Hdirty as (exts & Hw & Hl); [|done].
  assert (length (dirty_exts fork) = length (drop n (attached_blocks fork))) as Hlen
    by (rewrite length_drop; lia).
  rewrite fst_zip in Hw by lia. rewrite snd_zip in Hl by lia.
  exists n, exts, txn1. split_and!; [lia|done..].
Qed.

Lemma attach_ext_rest {E} s eb s' :
  attach_ext (E:=E) s eb = Ok s' -> same_rest (insert_block_ext s (block_hash eb.2) eb.1) s'.
Proof.
  unfold attach_ext. intros Hs. apply bind_Ok in Hs as (x & Ha%attach_main_rest & Hs).
  simplify_eq. unfold same_rest in *. rewrite Ha at 1. done.
Qed.
Lemma switch_to_Ok s txn block ext epoch ne switch txn' fork cache :
  switch_to script_verify system_cell consensus order s txn block ext epoch ne switch =
    (Ok (Some (txn', fork)), cache) ->
  find_fork (E:=Error) (db s) ForkChanges_default (HeaderView_number (snap_tip_header (snapshot s)))
    block ext = Ok fork /\
  exists txn1 txn2, rollback (E:=Error) (detached_blocks fork) txn = Ok txn1 /\
    reconcile_main_chain script_verify system_cell consensus order txn1 (txs_verify_cache s) fork
      switch = (Ok (Some txn2), cache) /\
    txn' = (if ne || ForkChanges_has_detached fork
            then insert_current_epoch_ext (insert_tip_header txn2 (BlockView_header block)) epoch
            else insert_tip_header txn2 (BlockView_header block)).
Proof.
  unfold switch_to. destruct (find_fork _ _ _ _ _) as [f| |]; step; [|done..].
  destruct (rollback _ _) as [txn1| |] eqn:Hr; step; [|done..].
  destruct (reconcile_main_chain _ _ _ _ _ _ _ _) as [[[txn2|]| |] c] eqn:Hrc; [|done..].
  intros [= <- <- <-]. split; [done|]. by exists txn1, txn2.
Qed.

Lemma prepare_block_Ok s now block switch txn ext epoch ne :
  prepare_block consensus s now block switch = Ok (txn, ext, epoch, ne) ->
  let h := block_hash block in
  let anchor := last_block_hash_in_previous_epoch epoch in
  txn = insert_epoch_ext (insert_block_epoch_index (Store.insert_block (db s) block) h anchor)
          anchor epoch /\
  verified ext = None /\
  exists pext d, get_block_ext (db s) (parent_hash (BlockView_raw block)) = Some pext /\
    verified pext <> Some false /\
    HeaderView_difficulty (E:=Error) (BlockView_header block) = Ok d /\
    u256_add (E:=Error) (total_difficulty pext) d = Ok (total_difficulty ext).
Proof.
  unfold prepare_block. intros Hp. inv_ok. reflect_bools. simplify_eq.
  split; [done|]. split; [done|]. eauto 10.
Qed.

(** The last of the attached blocks is the new one, and its ext is written last. *)
Lemma attach_exts_last {E} exts bs txn txn' e b :
  length exts = length bs ->
  try_fold (attach_ext (E:=E)) txn (zip (exts ++ [e]) (bs ++ [b])) = Ok txn' ->
  col_ext txn' !! block_hash b = Some e /\
  (forall h, h ∉ block_hash <$> bs ++ [b] -> col_ext txn' !! h = col_ext txn !! h) /\
  col_header txn' = col_header txn.
Proof.
  intros Hl Hs. rewrite zip_with_app in Hs by done. rewrite try_fold_app in Hs.
  apply bind_Ok in Hs as (x & Hx & Hs). cbn [zip_with try_fold] in Hs.
  apply bind_Ok in Hs as (y & Hy%attach_ext_rest & Hs). simplify_eq. rewrite Hy. cbn.
  rewrite lookup_insert_eq.
  enough (col_header x = col_header txn /\
    forall h, h ∉ block_hash <$> bs -> col_ext x !! h = col_ext txn !! h) as [Hh He].
  { split_and!; [done| |done]. intros h. rewrite fmap_app, not_elem_of_app. intros [H3 H4].
    rewrite lookup_insert_ne by (cbn in H4; set_solver). by apply He. }
  clear Hy. revert exts txn Hl Hx.
  induction bs as [|b' bs IH]; intros [|e' exts] txn Hl Hx; cbn [zip_with try_fold] in Hx; simplify_eq/=.
  { done. }
  apply bind_Ok in Hx as (z & Hz%attach_ext_rest & Hx).
  destruct (IH exts z) as [H3 H4]; [lia|done|]. rewrite H3, Hz. split; [done|].
  intros h. rewrite not_elem_of_cons. intros [Hne Hh]. rewrite (H4 h Hh), Hz. cbn.
  by apply lookup_insert_ne.
Qed.
(** *** The tip *)

(** The snapshot shows the committed store, and its tip is the one the store
    records, verified, with the total difficulty the store has for it. *)
Record consistent (s : ChainService) : Prop := {
  con_store : snap_store (snapshot s) = db s;
  con_meta : meta_tip (db s) = Some (header_hash (snap_tip_header (snapshot s)));
  con_header : get_block_header (db s) (header_hash (snap_tip_header (snapshot s))) =
    Some (snap_tip_header (snapshot s));
  con_ext : exists ext, get_block_ext (db s) (header_hash (snap_tip_header (snapshot s))) = Some ext /\
    total_difficulty ext = snap_total_difficulty (snapshot s) /\ verified ext = Some true;
}.

Lemma side_consistent s block h anchor epoch ext :
  consistent s -> block_exists (db s) (block_hash block) = false ->
  let txn := insert_block_ext (insert_epoch_ext (insert_block_epoch_index
    (Store.insert_block (db s) block) h anchor) anchor epoch) (block_hash block) ext in
  consistent (mkChainService txn (Snapshot_refresh (snapshot s) txn) (proposal_table s)
    (txs_verify_cache s)).
Proof.
  intros [C1 C2 C3 C4] Hex txn. unfold block_exists in Hex. reflect_bools.
  assert (block_hash block <> header_hash (snap_tip_header (snapshot s))) as Hne.
  { intros Heq. apply Hex. rewrite Heq. unfold get_block_header in C3. by rewrite C3. }
  split; unfold get_block_header, get_block_ext in *; cbn; [done|done| |].
  - by rewrite lookup_insert_ne.
  - by rewrite lookup_insert_ne.
Qed.

(** What [switch_to] writes for the new tip. *)
Lemma switch_to_tip s txn block ext epoch ne switch txn' fork cache :
  switch_to script_verify system_cell consensus order s txn block ext epoch ne switch =
    (Ok (Some (txn', fork)), cache) ->
  meta_tip txn' = Some (block_hash block) /\ col_header txn' = col_header txn /\
  exists e, col_ext txn' !! block_hash block = Some e /\ written ext e.
Proof.
  intros (Hff & txn1 & txn2 & Hrb & Hrc & ->)%switch_to_Ok.
  apply find_fork_extends in Hff as (a & d & Ha & Hd & Hle).
  apply reconcile_Ok in Hrc as (n & exts & txn3 & Hlen & Hver & Hw & Hl).
  apply rollback_rest in Hrb. apply try_fold_rest in Hver; [|apply attach_main_rest].
  rewrite Ha, Hd in *. apply Forall2_app_inv_l in Hw as (exts1 & exts2 & Hw1 & Hw2 & ->).
  apply Forall2_cons_inv_l in Hw2 as (e & exts3 & We & Hw3 & ->). apply Forall2_nil_inv_l in Hw3 as ->.
  apply Forall2_length in Hw1. rewrite !length_app in Hlen. cbn in Hlen.
  rewrite drop_app_le in Hl by lia.
  apply attach_exts_last in Hl as (He & _ & Hhd); [|rewrite length_drop; lia].
  assert (col_header txn2 = col_header txn) as Hh by (rewrite Hhd, Hver, Hrb; done).
  split_and!.
  - by case_match.
  - by case_match.
  - exists e. split; [|done]. by case_match.
Qed.

Lemma best_consistent s txn block ext epoch ne switch txn' fork cache h anchor e proposals table :
  txn = insert_epoch_ext (insert_block_epoch_index (Store.insert_block (db s) block) h anchor) anchor epoch ->
  switch_to script_verify system_cell consensus order s txn block ext epoch ne switch =
    (Ok (Some (txn', fork)), cache) ->
  consistent (mkChainService txn' (mkSnapshot (BlockView_header block) (total_difficulty ext) e txn' proposals)
    table cache).
Proof.
  intros -> (Hm & Hh & x & He & Wx & _ & _ & Wv)%switch_to_tip.
  split; cbn; [done|done| |by exists x]. unfold get_block_header. rewrite Hh. cbn. by rewrite lookup_insert_eq.
Qed.

(** C8: the tip is always a chain of greatest total difficulty.  A stored block gets
    the difficulty of its parent plus its own; it becomes the tip, verified,
    exactly when that exceeds the difficulty of the tip, which therefore never
    decreases; and the snapshot stays in step with the committed store. *)
Theorem insert_block_best_chain s now block switch s' messages :
  consistent s ->
  insert_block s now block switch = (Ok (Some true), s', messages) ->
  consistent s' /\
  snap_total_difficulty (snapshot s) <= snap_total_difficulty (snapshot s') /\
  exists pext d ext,
    get_block_ext (db s) (parent_hash (BlockView_raw block)) = Some pext /\
    HeaderView_difficulty (E:=Error) (BlockView_header block) = Ok d /\
    u256_add (E:=Error) (total_difficulty pext) d = Ok (total_difficulty ext) /\
    get_block_ext (db s') (block_hash block) = Some ext /\
    ((snap_total_difficulty (snapshot s) < total_difficulty ext /\ verified ext = Some true /\
      snap_tip_header (snapshot s') = BlockView_header block /\
      snap_total_difficulty (snapshot s') = total_difficulty ext) \/
     (total_difficulty ext <= snap_total_difficulty (snapshot s) /\ verified ext = None /\
      snap_tip_header (snapshot s') = snap_tip_header (snapshot s) /\
      snap_total_difficulty (snapshot s') = snap_total_difficulty (snapshot s))).
Proof.
  intros Hcon Hi. assert (block_exists (db s) (block_hash block) = false) as Hex.
  { unfold ChainService_insert_block in Hi. by destruct (block_exists _ _). }
  apply insert_block_cases in Hi. inversion Hi as [Hk Hr|r cache Hr|txn ext epoch ne Hp Hle
    |txn ext epoch ne cache txn' fork r s0 ms Hp Hlt Hsw Hb]; subst.
  - by destruct Hr as [[? ?]|[?|?]].
  - apply prepare_block_Ok in Hp as (-> & Hv & pext & d & Hpe & _ & Hd & Htd).
    split; [by apply side_consistent|]. split; [done|]. exists pext, d, ext.
    split_and!; [done..| |by right]. unfold get_block_ext. cbn. apply lookup_insert_eq.
  - apply prepare_block_Ok in Hp as (-> & Hv & pext & d & Hpe & _ & Hd & Htd).
    pose proof (switch_to_tip _ _ _ _ _ _ _ _ _ _ Hsw) as (_ & _ & e & He & We & _ & _ & Wv).
    apply new_best_cases in Hb as [?|(? & ? & ? & _ & _ & -> & _)]; [done|].
    split_and!; [by eapply best_consistent|cbn; lia|].
    + exists pext, d, e. rewrite We. split_and!; [done..|left]. by split_and!.
Qed.
(** *** Marks of invalid blocks *)

Definition never_invalid (s : Store) : Prop :=
  forall h e, col_ext s !! h = Some e -> verified e <> Some false.

Lemma never_invalid_insert s h e :
  never_invalid s -> verified e <> Some false -> never_invalid (insert_block_ext s h e).
Proof.
  intros Hs He h' e'. cbn. destruct (decide (h' = h)) as [->|].
  - rewrite lookup_insert_eq. by intros [= <-].
  - rewrite lookup_insert_ne by done. apply Hs.
Qed.

Lemma never_invalid_rest s s' : same_rest s s' -> never_invalid s -> never_invalid s'.
Proof. by intros ->. Qed.

Lemma attach_exts_never_invalid exts ds bs txn txn' :
  Forall2 written ds exts -> never_invalid txn ->
  try_fold (attach_ext (E:=Error)) txn (zip exts bs) = Ok txn' -> never_invalid txn'.
Proof.
  intros Hw Hn Hs.
  assert (Forall (fun e => verified e = Some true) exts) as Hv.
  { clear -Hw. induction Hw as [|e e' l l' (_ & _ & _ & He)]; by constructor. }
  clear Hw. revert bs txn Hn Hs. induction Hv as [|e exts He Hv IH]; intros [|b bs] txn Hn Hs;
    cbn [zip_with try_fold] in Hs; [by simplify_eq..|].
  apply bind_Ok in Hs as (x & Hx%attach_ext_rest & Hs). eapply IH; [|done].
  eapply never_invalid_rest; [done|]. apply never_invalid_insert; [done|]. cbn. by rewrite He.
Qed.

(** C40: no committed block is ever marked invalid.  [reconcile_main_chain] writes
    [verified = Some(false)] only into a transaction that [insert_block] then
    drops, so however [insert_block] ends the committed exts carry no such mark,
    and the check of the parent's mark never fires. *)
Theorem never_marked_invalid s now block switch r s' messages :
  never_invalid (db s) -> insert_block s now block switch = (r, s', messages) ->
  never_invalid (db s') /\
  (forall pext, get_block_ext (db s') (parent_hash (BlockView_raw block)) = Some pext ->
    bool_decide (verified pext = Some false) = false).
Proof.
  intros Hn Hi. enough (never_invalid (db s')) as Hn'.
  { split; [done|]. intros pext Hp. apply bool_decide_eq_false_2. by eapply Hn'. }
  apply insert_block_cases in Hi. destruct Hi as [|r cache _|txn ext epoch ne Hp _
    |txn ext epoch ne cache txn' fork r s' ms Hp _ Hsw Hb]; [done|done|..];
    apply prepare_block_Ok in Hp as (-> & Hv & _).
  - apply never_invalid_insert; [done|by rewrite Hv].
  - enough (never_invalid txn') as Hn'.
    { unfold new_best in Hb. repeat case_match; by simplify_eq. }
    apply switch_to_Ok in Hsw as (_ & txn1 & txn2 & Hrb%rollback_rest & Hrc & ->).
    apply reconcile_Ok in Hrc as (n & exts & txn3 & _ & Hver & Hw & Hl).
    apply try_fold_rest in Hver; [|apply attach_main_rest].
    enough (never_invalid txn2) by (by case_match).
    eapply attach_exts_never_invalid; [done| |done].
    eapply never_invalid_rest; [done|]. by eapply never_invalid_rest.
Qed.
End facts.

(** ** A concrete run

    Blocks [[1]] and [[2]] extend the genesis block [[0]]; block [[21]] is a
    competitor of [[1]], and [[22]] on top of it, of a greater difficulty, makes
    its branch the best one.  Both [[1]] and [[21]] spend the output of the
    genesis transaction. *)
Definition run_block (target n : Z) (hash parent : Byte32) (txs : list TransactionView) : BlockView :=
  BlockView_new_unchecked
    (mkHeaderView (mkHeader (mkRawHeader 0 target 0 n 0 parent [] [] [] []) 0) hash)
    (mkUncleBlockVecView [] []) txs [].
Definition run_spend (n : Z) : list TransactionView :=
  [cell_tx [n] [OutPoint_null] 1; cell_tx [n + 1] [mkOutPoint [10] 0] 2].
Definition run_block0 : BlockView := run_block 0x1d080000 0 [0] [] [cell_tx [10] [] 1].
Definition run_block1 : BlockView := run_block 0x1d080000 1 [1] [0] (run_spend 11).
Definition run_block2 : BlockView := run_block 0x1d080000 2 [2] [1] [cell_tx [13] [OutPoint_null] 1].
Definition run_block21 : BlockView := run_block 0x1d080000 1 [21] [0] (run_spend 31).
Definition run_block22 : BlockView := run_block 0x1c080000 2 [22] [21] [cell_tx [33] [OutPoint_null] 1].

Definition run_store : Store :=
  let s := insert_block empty_store run_block0 in
  let s := insert_block_ext s [0] (mkBlockExt 0 0x20000000 0 (Some true) []) in
  let s := insert_epoch_ext (insert_block_epoch_index s [0] []) [] sample_epoch in
  let s := insert_tip_header s (BlockView_header run_block0) in
  match attach_main (E:=unit) s run_block0 with Ok s => s | _ => s end.
Definition run_service : @ChainService entry_cache :=
  mkChainService run_store
    (mkSnapshot (BlockView_header run_block0) 0x20000000 sample_epoch run_store (mkProposalView ∅ ∅))
    (mkProposalTable ∅ TX_PROPOSAL_WINDOW) ∅.
Definition run_insert (s : ChainService) (b : BlockView) (switch : Z) :=
  ChainService_insert_block (H:=numext_ref) (H0:=toy_hasher) (H1:=map_cache) (H2:=entry_cache)
    toy_scripts None toy_consensus (fun _ => []) s 7 b switch.
(** After the blocks [[1]], [[2]] and [[21]]. *)
Definition run_before : ChainService :=
  foldl (fun s b => (run_insert s b DISABLE_ALL).1.2) run_service [run_block1; run_block2; run_block21].
Definition run_after : ChainService := (run_insert run_before run_block22 DISABLE_ALL).1.2.


Lemma run_result {A B C} (x : A * B * C) (a : A) : x.1.1 = a -> x = (a, x.1.2, x.2).
Proof. by intros <-; destruct x as [[? ?] ?]. Qed.

Lemma run_consistent : consistent run_before.
Proof.
  assert (exists ext, get_block_ext (db run_before) [2] = Some ext /\
    total_difficulty ext = 1610612736 /\ verified ext = Some true) as He.
  { eexists. split; [vm_compute; reflexivity|]. by split. }
  assert (header_hash (snap_tip_header (snapshot run_before)) = [2]) as Hh by (by vm_compute).
  split; rewrite ?Hh; [vm_compute; reflexivity..|].
  assert (snap_total_difficulty (snapshot run_before) = 1610612736) as -> by (by vm_compute). done.
Qed.


Lemma insert_block_best_chain_witness :
  consistent run_after /\
  snap_total_difficulty (snapshot run_before) <= snap_total_difficulty (snapshot run_after).
Proof.
  destruct (insert_block_best_chain (H:=numext_ref) (H0:=toy_hasher) (H1:=map_cache) (H2:=entry_cache)
    toy_scripts None toy_consensus (fun _ => []) run_before 7 run_block22 DISABLE_ALL run_after
    (run_insert run_before run_block22 DISABLE_ALL).2) as (H1 & H2 & _).
  - exact run_consistent.
  - unfold run_after, run_insert. refine (run_result _ (Ok (Some true)) _). by vm_compute.
  - by split.
Defined.

Lemma never_marked_invalid_witness : never_invalid (db run_after).
Proof.
  apply (never_marked_invalid (H:=numext_ref) (H0:=toy_hasher) (H1:=map_cache) (H2:=entry_cache)
    toy_scripts None toy_consensus (fun _ => []) run_before 7 run_block22 DISABLE_ALL
    (run_insert run_before run_block22 DISABLE_ALL).1.1 run_after
    (run_insert run_before run_block22 DISABLE_ALL).2).
  - assert (map_Forall (fun _ e => verified e <> Some false) (col_ext (db run_before))) as Hn.
    { apply (bool_decide_unpack _). by vm_compute. }
    exact Hn.
  - unfold run_after, run_insert. exact (run_result _ _ eq_refl).
Defined.
