(* ===== verification/Reorg.v ===== *)
(** * Reorganisations: what [find_fork], [rollback] and [reconcile_main_chain] of
    src/chain/src/chain.rs do to the main chain

    A path is the list of the blocks from the genesis block to some block, every
    one stored.  [find_fork_spec] shows that the search of the common ancestor is
    total on a well-formed store and splits the two paths at a common prefix;
    [reorg_replays] that after [insert_block] switches to a new best block the
    main chain columns and the cell set of the store are exactly those of
    attaching the path of the new tip, block by block, to an empty chain. *)

From S2P Require Import Prelude Capacity NumExt Rational Difficulty Types Molecule BlockCodec.
From S2P Require Import Errors Epoch Cell Consensus Hashes Store Dao Reward ProposalTable.
From S2P Require Import HeaderVerifier BlockVerifier UnclesVerifier TransactionVerifier.
From S2P Require Import ContextualVerifier ChainCell Chain.

(** ** Paths *)

(** The block is stored, and reads back as itself. *)
Record in_store (s : Store) (b : BlockView) : Prop := {
  is_stored : stored s b;
  is_uncles : col_block_uncle s !! block_hash b = Some (BlockView_uncles b);
  is_proposals : col_proposal_ids s !! block_hash b = Some (block_proposals (block_data b));
  is_view : BlockView_new_unchecked (BlockView_header b) (BlockView_uncles b)
    (BlockView_transactions b) (block_proposals (block_data b)) = b;
}.

Lemma in_store_get {E} s b : in_store s b -> expect_block (E:=E) s (block_hash b) = Ok b.
Proof.
  intros [[Hh Hb] Hu Hp Hv]. unfold expect_block, get_block, get_block_header, get_block_body,
    get_block_uncles, get_block_proposal_txs_ids.
  rewrite Hh, Hb, Hu. step. rewrite Hp. step. f_equal. exact Hv.
Qed.

Lemma in_store_inj s b b' : in_store s b -> in_store s b' -> block_hash b = block_hash b' -> b = b'.
Proof.
  intros Hb Hb' Heq. apply (in_store_get (E:=unit)) in Hb, Hb'. rewrite Heq in Hb. congruence.
Qed.

Record path (s : Store) (p : list BlockView) : Prop := {
  path_store : Forall (in_store s) p;
  path_number i b : p !! i = Some b -> BlockView_number b = Z.of_nat i;
  path_link i b b' : p !! i = Some b -> p !! S i = Some b' ->
    parent_hash (BlockView_raw b') = block_hash b;
}.

Lemma path_lookup_store s p i b : path s p -> p !! i = Some b -> in_store s b.
Proof. intros Hp Hi. by eapply Forall_lookup_1; [apply Hp|]. Qed.

(** Two paths that meet agree below. *)
Lemma path_agree s p q k b :
  path s p -> path s q -> p !! k = Some b -> q !! k = Some b -> take (S k) p = take (S k) q.
Proof.
  intros Hp Hq. revert b. induction k as [|k IH]; intros b Hpk Hqk.
  { destruct p, q; by simplify_eq/=. }
  destruct (lookup_lt_is_Some_2 p k) as [bp Hbp]; [apply lookup_lt_Some in Hpk; lia|].
  destruct (lookup_lt_is_Some_2 q k) as [bq Hbq]; [apply lookup_lt_Some in Hqk; lia|].
  rewrite (take_S_r p (S k) b), (take_S_r q (S k) b) by done. f_equal.
  apply (IH bp); [done|]. rewrite Hbq. f_equal.
  apply (in_store_inj s); [exact (path_lookup_store s q k bq Hq Hbq)|
    exact (path_lookup_store s p k bp Hp Hbp)|].
  by rewrite <- (path_link _ _ Hp k bp b Hbp Hpk), <- (path_link _ _ Hq k bq b Hbq Hqk).
Qed.

(** The main chain is [p]. *)
Definition indexed (s : Store) (p : list BlockView) : Prop :=
  forall n, 0 <= n -> col_index s !! n = block_hash <$> p !! Z.to_nat n.

Section find_fork.
Context {E : Type} (s : Store) (p q : list BlockView) (block : BlockView) (new_ext : BlockExt).
Hypothesis Hp : path s p.
Hypothesis Hq : path s q.
Hypothesis Hindex : indexed s p.
(** [q] is the path of the parent; both start at the genesis block. *)
Hypothesis Hgenesis : p !! 0%nat = q !! 0%nat.
Hypothesis Hnumber : BlockView_number block = Z.of_nat (length q).
Hypothesis Hparent : (fun b => block_hash b) <$> last q = Some (parent_hash (BlockView_raw block)).
Hypothesis Hexts : forall b, b ∈ q -> is_Some (col_ext s !! block_hash b).
Hypothesis Hwidth : Z.of_nat (length q) < 2 ^ 64.

(** The dirty exts are those of the last attached blocks. *)
Definition own_ext (e : BlockExt) (b : BlockView) : Prop :=
  (e = new_ext /\ b = block) \/ col_ext s !! block_hash b = Some e.
Definition exts_match (f : ForkChanges) : Prop :=
  (length (dirty_exts f) <= length (attached_blocks f))%nat /\
  Forall2 own_ext (dirty_exts f)
    (drop (length (attached_blocks f) - length (dirty_exts f)) (attached_blocks f)).
(** The one below them was verified before. *)
Definition seen_below (f : ForkChanges) : Prop :=
  exists l b r e, attached_blocks f = l ++ b :: r /\ length r = length (dirty_exts f) /\
    col_ext s !! block_hash b = Some e /\ verified e <> None.

(** The state of the search when the index is at block [k] of [q]. *)
Record at_index (k : nat) (f : ForkChanges) (i : GlobalIndex) : Prop := {
  ai_number : gi_number i = Z.of_nat k;
  ai_hash : Some (gi_hash i) = block_hash <$> q !! k;
  ai_attached : attached_blocks f = drop (S k) q ++ [block];
  ai_exts : exts_match f;
  ai_unseen : gi_unseen i = true -> length (dirty_exts f) = length (attached_blocks f);
  ai_seen : gi_unseen i = false -> seen_below f;
}.

Lemma attach_index_step k f i :
  at_index (S k) f i ->
  exists f' i', attach_index (E:=E) s (f, i) = Ok (f', i') /\ at_index k f' i' /\
    detached_blocks f' = detached_blocks f.
Proof.
  intros [Hn Hh Ha [Hle He] Hu Hse]. unfold attach_index.
  destruct (q !! S k) as [b|] eqn:Hb; [|done]. injection Hh as Hh.
  destruct (lookup_lt_is_Some_2 q k) as [b0 Hb0]; [apply lookup_lt_Some in Hb; lia|].
  assert (k < length q)%nat by (by eapply lookup_lt_Some).
  pose proof (path_link _ _ Hq k b0 b Hb0 Hb) as Hpar.
  assert (forall i, gi_number i = Z.of_nat (S k) -> GlobalIndex_forward (E:=E) i (block_hash b0) =
    Ok (mkGlobalIndex (Z.of_nat k) (block_hash b0) (gi_unseen i))) as Hfw.
  { intros i' Hi. unfold GlobalIndex_forward, u64_sub. rewrite Hi, fit_in_range by zlia. step.
    do 2 f_equal. lia. }
  assert (expect_block (E:=E) s (gi_hash i) = Ok b) as Hget.
  { rewrite Hh. eapply in_store_get, path_lookup_store; [exact Hq|exact Hb]. }
  assert (drop (S k) q = b :: drop (S (S k)) q) as Hdrop by (by apply drop_S).
  assert (forall d u, Forall2 own_ext d (drop (S (length (attached_blocks f)) - length d)
      (b :: attached_blocks f)) -> (length d <= S (length (attached_blocks f)))%nat ->
    (u = true -> length d = S (length (attached_blocks f))) ->
    (u = false -> seen_below (mkForkChanges (b :: attached_blocks f) (detached_blocks f)
      (detached_proposal_id f) d)) ->
    at_index k (mkForkChanges (b :: attached_blocks f) (detached_blocks f) (detached_proposal_id f) d)
      (mkGlobalIndex (Z.of_nat k) (block_hash b0) u)) as Hat.
  { intros d u Hd Hl Hu' Hse'. split; cbn; [done|by rewrite Hb0|by rewrite Hdrop, Ha|by split|done|done]. }
  assert (Forall2 own_ext (dirty_exts f) (drop (S (length (attached_blocks f)) - length (dirty_exts f))
      (b :: attached_blocks f))) as Hsame by (by rewrite Nat.sub_succ_l).
  destruct (gi_unseen i) eqn:Hun; step.
  - destruct (Hexts b) as [ext Hext]; [by eapply list_elem_of_lookup_2|].
    unfold get_block_ext. rewrite Hh, Hext. step. destruct (verified ext) eqn:Hver; step;
      cbn [gi_hash]; rewrite ?Hh; rewrite Hh in Hget; rewrite Hget; step.
    + rewrite Hpar, Hfw by done. step. do 2 eexists.
      split; [reflexivity|]. split; [|done]. apply Hat; [done|lia|done|]. intros _.
      exists [], b, (attached_blocks f), ext. split_and!; [done|cbn; by rewrite Hu|done|by rewrite Hver].
    + rewrite Hpar, Hfw by done. step. rewrite Hun. do 2 eexists.
      split; [reflexivity|]. split; [|done]. specialize (Hu eq_refl). apply Hat; cbn; [|lia|lia|done].
      rewrite Hu, Nat.sub_diag in *. constructor; [by right|done].
  - rewrite Hget. step. rewrite Hpar, Hfw by done. step. rewrite Hun. do 2 eexists.
    split; [reflexivity|]. split; [|done]. apply Hat; [done|lia|done|]. intros _.
    destruct (Hse eq_refl) as (l & b1 & r & e & Hl & Hr & Hx). exists (b :: l), b1, r, e.
    cbn. by rewrite Hl.
Qed.

Lemma iterate_index n k f i :
  at_index (n + k) f i ->
  exists f' i', iterate (E:=E) n (attach_index s) (f, i) = Ok (f', i') /\ at_index k f' i' /\
    detached_blocks f' = detached_blocks f.
Proof.
  revert f i. induction n as [|n IH]; intros f i Hi; cbn [iterate]; [by eauto|].
  destruct (attach_index_step (n + k) f i Hi) as (f1 & i1 & -> & Hi1 & Hd1). step.
  destruct (IH f1 i1 Hi1) as (f2 & i2 & -> & Hi2 & Hd2). exists f2, i2. by rewrite Hd2, Hd1.
Qed.

Lemma drop_lookup_cons {A} (l : list A) k x : l !! k = Some x -> drop k l = x :: drop (S k) l.
Proof. intros. by apply drop_S. Qed.

(** The walk down both chains stops at a common block. *)
Lemma latest_common_Ok k f i :
  (k < length p)%nat -> at_index k f i -> detached_blocks f ≡ₚ drop (S k) p ->
  exists f' i' c, latest_common_loop (E:=E) s k f i = Ok (f', i') /\ at_index c f' i' /\
    p !! c = q !! c /\ (c = k \/ (c < k)%nat /\ p !! S c <> q !! S c) /\
    detached_blocks f' ≡ₚ drop (S c) p.
Proof.
  revert f i. induction k as [|k IH]; intros f i Hk Hi Hd; cbn [latest_common_loop].
  { exists f, i, 0%nat. split_and!; [done..|by left|done]. }
  destruct (lookup_lt_is_Some_2 p (S k) Hk) as [b Hb].
  unfold get_block_hash. rewrite (ai_number _ _ _ Hi), Hindex by lia. rewrite Nat2Z.id, Hb.
  cbn [fmap option_fmap option_map]. step. pose proof (path_lookup_store s p _ b Hp Hb) as Hst.
  destruct (q !! S k) as [b'|] eqn:Hb'; [|pose proof (ai_hash _ _ _ Hi) as Hx; by rewrite Hb' in Hx].
  pose proof (ai_hash _ _ _ Hi) as Hh. rewrite Hb' in Hh. injection Hh as Hh.
  case_bool_decide as Heq.
  - exists f, i, (S k). split_and!; [done|done| |by left|done]. rewrite Hb, Hb'. f_equal.
    apply (in_store_inj s); [done|by eapply (path_lookup_store s q)|]. by rewrite <- Hh.
  - rewrite (in_store_get (E:=E) s b Hst). step.
    destruct (attach_index_step k (push_detached f b) i) as (f1 & i1 & -> & Hi1 & Hd1).
    { destruct Hi as [H1 H2 H3 H4 H5 H6]. by split. }
    step. destruct (IH f1 i1) as (f2 & i2 & c & -> & Hi2 & Hc & Hle & Hd2); [lia|done| |].
    { rewrite Hd1. cbn. rewrite Hd. symmetry. by rewrite (drop_lookup_cons p (S k) b). }
    exists f2, i2, c. split_and!; [done..| |done]. right.
    destruct Hle as [->|[? ?]]; split; [lia| |lia|done].
    rewrite Hb, Hb'. intros [= ->]. by destruct Heq.
Qed.

(** The detached part of [alignment_fork]. *)
Lemma align_detached f n :
  (n <= length p)%nat ->
  exists f', try_fold (fun fork bn =>
      hash ← expect (get_block_hash s bn);
      old_block ← expect_block s hash;
      Ok (push_detached fork old_block)) f
    (seqZ (Z.of_nat n) (Z.of_nat (length p) - Z.of_nat n)) = Ok (E:=E) f' /\
  detached_blocks f' ≡ₚ drop n p ++ detached_blocks f /\
  attached_blocks f' = attached_blocks f /\ dirty_exts f' = dirty_exts f.
Proof.
  intros Hn. remember (length p - n)%nat as m eqn:Hm. revert n f Hn Hm.
  induction m as [|m IH]; intros n f Hn Hm.
  { replace (Z.of_nat (length p) - Z.of_nat n) with 0 by lia. rewrite drop_ge by lia. by exists f. }
  destruct (lookup_lt_is_Some_2 p n) as [b Hb]; [lia|].
  rewrite (seqZ_cons _ (Z.of_nat (length p) - Z.of_nat n)) by lia. cbn [try_fold].
  assert (get_block_hash s (Z.of_nat n) = Some (block_hash b)) as ->.
  { unfold get_block_hash. by rewrite Hindex, Nat2Z.id, Hb by lia. }
  step.
  rewrite (in_store_get (E:=E) s b) by (by eapply (path_lookup_store s p)). step.
  replace (Z.succ (Z.of_nat n)) with (Z.of_nat (S n)) by lia.
  replace (Z.pred (Z.of_nat (length p) - Z.of_nat n)) with (Z.of_nat (length p) - Z.of_nat (S n)) by lia.
  destruct (IH (S n) (push_detached f b)) as (f' & -> & Hd & Ha & He); [lia..|].
  exists f'. split_and!; [done| |done|done]. rewrite Hd, (drop_lookup_cons p n b) by done.
  cbn. by rewrite Permutation_middle.
Qed.

Lemma find_fork_Ok :
  p <> [] ->
  exists f common old_branch new_branch,
    find_fork (E:=E) s ForkChanges_default (Z.of_nat (length p) - 1) block new_ext = Ok f /\
    p = common ++ old_branch /\ q = common ++ new_branch /\ common <> [] /\
    (old_branch = [] \/ new_branch = [] \/ head old_branch <> head new_branch) /\
    attached_blocks f = new_branch ++ [block] /\ detached_blocks f ≡ₚ old_branch /\ exts_match f /\
    (length (dirty_exts f) = length (attached_blocks f) \/ seen_below f).
Proof.
  intros Hpne. assert (0 < length p)%nat by (destruct p; [done|cbn; lia]).
  assert (0 < length q)%nat.
  { destruct q; [|cbn; lia]. destruct p; [done|]. discriminate Hgenesis. }
  unfold find_fork, u64_sub. rewrite Hnumber, fit_in_range by zlia. step.
  set (f0 := push_attached (push_dirty_ext ForkChanges_default new_ext) block).
  set (i0 := mkGlobalIndex _ _ _).
  assert (at_index (length q - 1) f0 i0) as Hi0.
  { split; cbn; [lia| | |split; cbn; [lia|]|done|done].
    - rewrite last_lookup in Hparent. rewrite <- Hparent. by rewrite Nat.sub_1_r.
    - by rewrite drop_ge by lia.
    - constructor; [by left|constructor]. }
  assert (exists f1 i1 k, alignment_fork (E:=E) s f0 i0 (Z.of_nat (length q))
      (Z.of_nat (length p) - 1) = Ok (f1, i1) /\ (k < length p)%nat /\ at_index k f1 i1 /\
      detached_blocks f1 ≡ₚ drop (S k) p /\ (S k = length p \/ S k = length q))
    as (f1 & i1 & k & -> & Hk & Hi1 & Hd1 & Hshort).
  { unfold alignment_fork. destruct (Z.leb_spec (Z.of_nat (length q)) (Z.of_nat (length p) - 1)).
    - replace (Z.of_nat (length p) - 1 + 1 - Z.of_nat (length q))
        with (Z.of_nat (length p) - Z.of_nat (length q)) by lia.
      destruct (align_detached f0 (length q)) as (f1 & -> & Hd & Ha & He); [lia|]. step.
      exists f1, i0, (length q - 1)%nat. split_and!; [done|lia| | |lia].
      + destruct Hi0 as [A1 A2 A3 [A4 A5] A6 A7]. unfold exts_match, seen_below in *.
        split; unfold exts_match, seen_below; by rewrite ?Ha, ?He.
      + rewrite Hd, app_nil_r. by replace (S (length q - 1)) with (length q) by lia.
    - destruct (iterate_index (length q - length p) (length p - 1) f0 i0) as (f1 & i1 & Hit & Hi1 & Hd).
      { by replace (length q - length p + (length p - 1))%nat with (length q - 1)%nat by lia. }
      exists f1, i1, (length p - 1)%nat. split_and!; [|lia|done| |lia].
      + rewrite <- Hit. f_equal. cbn. lia.
      + rewrite Hd, drop_ge by lia. done. }
  step. unfold find_fork_until_latest_common. rewrite (ai_number _ _ _ Hi1), Nat2Z.id.
  destruct (latest_common_Ok k f1 i1 Hk Hi1 Hd1) as (f2 & i2 & c & -> & Hi2 & Hc & Hle & Hd2). step.
  destruct (lookup_lt_is_Some_2 p c) as [b Hb]; [lia|]. pose proof Hb as Hb'. rewrite Hc in Hb'.
  exists f2, (take (S c) p), (drop (S c) p), (drop (S c) q). split_and!; [done|..].
  - by rewrite take_drop.
  - rewrite (path_agree s p q c b) by done. by rewrite take_drop.
  - intros Hn. apply (f_equal length) in Hn. rewrite length_take in Hn. cbn [length] in Hn. lia.
  - destruct Hle as [->|[_ Hne]]; [|right; right; by rewrite !head_lookup, !lookup_drop, !Nat.add_0_r].
    destruct Hshort; [left|right; left]; apply drop_ge; lia.
  - apply Hi2.
  - done.
  - apply Hi2.
  - destruct (gi_unseen i2) eqn:Hu; [left|right]; by apply Hi2.
Qed.
End find_fork.

(** C10: the search of the fork is total and exact.  Let the main chain be the path
    [p] and the parent of the new block be the end of the path [q], from the same
    genesis block.  Then [find_fork] does not panic; it detaches what [p] has, and
    attaches what [q] and the block have, beyond their longest common prefix; and
    the exts it collects are those of the last attached blocks, in order. *)
Theorem find_fork_spec {E} s p q block new_ext :
  path s p -> path s q -> indexed s p -> p <> [] -> p !! 0%nat = q !! 0%nat ->
  BlockView_number block = Z.of_nat (length q) ->
  block_hash <$> last q = Some (parent_hash (BlockView_raw block)) ->
  (forall b, b ∈ q -> is_Some (col_ext s !! block_hash b)) ->
  Z.of_nat (length q) < 2 ^ 64 ->
  exists f common old_branch new_branch,
    find_fork (E:=E) s ForkChanges_default (Z.of_nat (length p) - 1) block new_ext = Ok f /\
    p = common ++ old_branch /\ q = common ++ new_branch /\ common <> [] /\
    (old_branch = [] \/ new_branch = [] \/ head old_branch <> head new_branch) /\
    attached_blocks f = new_branch ++ [block] /\ detached_blocks f ≡ₚ old_branch /\
    exts_match s block new_ext f.
Proof.
  intros. destruct (find_fork_Ok (E:=E) s p q block new_ext) as
    (f & common & old & new & Hf & Hc & Hn & Hne & Hfork & Ha & Hd & He & _); eauto 20.
Qed.


(** ** The main chain as a replay *)

(** The main chain columns and the cell set of [s], the rest of [r]. *)
Definition with_rest (s r : Store) : Store :=
  set_col_cell_set (set_main_chain r (col_index s) (col_index_hash s) (col_uncles s) (col_tx_info s))
    (col_cell_set s).
Definition blank (s : Store) : Store := set_col_cell_set (set_main_chain s ∅ ∅ ∅ ∅) ∅.

(** The main chain columns and the cell set are those of attaching [p], block by
    block, to an empty chain. *)
Definition replays (s : Store) (p : list BlockView) : Prop :=
  try_fold (attach_main (E:=Error)) (blank s) p = Ok s.

Lemma attach_input_with s r o : attach_input (with_rest s r) o = with_rest (attach_input s o) r.
Proof. unfold attach_input, get_tx_meta. cbn. by repeat case_match. Qed.

Lemma attach_tx_with b s r tx : attach_tx b (with_rest s r) tx = with_rest (attach_tx b s tx) r.
Proof.
  unfold attach_tx. enough (forall os s, foldl attach_input (with_rest s r) os =
    with_rest (foldl attach_input s os) r) as -> by done.
  induction os as [|o os IH]; intros s0; cbn [foldl]; [done|]. by rewrite attach_input_with, IH.
Qed.

(** Attaching neither reads nor writes the rest. *)
Lemma attach_main_with {E} s r b :
  attach_main (E:=E) (with_rest s r) b = (fun s' => with_rest s' r) <$> attach_main s b.
Proof.
  unfold attach_main, attach_block. destruct (UncleBlockVecView_into_iter _); [|done..]. step.
  unfold attach_block_cell. cbn [fmap outcome_fmap]. f_equal. set (s0 := set_main_chain s _ _ _ _).
  change (set_main_chain (with_rest s r) _ _ _ _) with (with_rest s0 r). generalize s0. clear.
  induction (BlockView_transactions b) as [|tx txs IH]; intros s; cbn [foldl]; [done|].
  by rewrite attach_tx_with, IH.
Qed.

Lemma attach_blocks_with {E} p s r :
  try_fold (attach_main (E:=E)) (with_rest s r) p =
  (fun s' => with_rest s' r) <$> try_fold attach_main s p.
Proof.
  revert s. induction p as [|b p IH]; intros s; cbn [try_fold]; [done|].
  rewrite attach_main_with. destruct (attach_main s b); [|done..]. step. apply IH.
Qed.

Lemma replays_rest s r p : replays s p -> replays (with_rest s r) p.
Proof.
  unfold replays. intros Hs. change (blank (with_rest s r)) with (with_rest (blank s) r).
  by rewrite attach_blocks_with, Hs.
Qed.

Lemma same_rest_blank s s' : same_rest s s' -> blank s' = blank s.
Proof. by intros ->. Qed.

Lemma attach_blocks_rest {E} p s s' : try_fold (attach_main (E:=E)) s p = Ok s' -> same_rest s s'.
Proof. apply try_fold_rest, attach_main_rest. Qed.

(** Any prefix is a replay of its own. *)
Lemma replays_prefix s p q :
  replays s (p ++ q) ->
  exists s1, replays s1 p /\ same_rest s s1 /\ blank s1 = blank s /\
    try_fold (attach_main (E:=Error)) s1 q = Ok s.
Proof.
  unfold replays. rewrite try_fold_app. intros Hs. apply bind_Ok in Hs as (s1 & H1 & Hs).
  exists s1. pose proof (attach_blocks_rest _ _ _ H1) as Hr. pose proof (same_rest_blank _ _ Hr) as Hb.
  by rewrite Hb.
Qed.

Lemma replays_app s p q s' :
  replays s p -> try_fold (attach_main (E:=Error)) s q = Ok s' -> replays s' (p ++ q).
Proof.
  unfold replays. intros Hs Hq. rewrite try_fold_app.
  rewrite (same_rest_blank s s') by (by eapply attach_blocks_rest). rewrite Hs. by step.
Qed.

Lemma replays_exts s p exts q s' :
  length exts = length q ->
  replays s p -> try_fold (attach_ext (E:=Error)) s (zip exts q) = Ok s' -> replays s' (p ++ q).
Proof.
  revert exts s p. induction q as [|b q IH]; intros [|e exts] s p Hl Hs Hq; try done;
    cbn [zip_with try_fold] in Hq.
  { simplify_eq. by rewrite app_nil_r. }
  apply bind_Ok in Hq as (s1 & H1 & Hq). unfold attach_ext in H1.
  apply bind_Ok in H1 as (s0 & H0 & H1). cbn [fst snd] in H1.
  assert (insert_block_ext s0 (block_hash b) e = s1) as <- by congruence. clear H1.
  rewrite (cons_middle b p q), app_assoc.
  apply (IH exts (insert_block_ext s0 (block_hash b) e)); [by injection Hl|  |done].
  apply (replays_rest s0 (insert_block_ext s0 (block_hash b) e)).
  apply (replays_app s p [b] s0); [done|]. cbn [try_fold]. cbn [snd] in H0. by rewrite H0.
Qed.

(** ** What rolling back needs of the main chain *)

(** The blocks of the main chain, each spending outputs that are live where it
    is attached. *)
Record attached_chain (s : Store) (p : list BlockView) : Prop := {
  mc_path : path s p;
  mc_replays : replays s p;
  mc_views : Forall view_ok p;
  mc_hashes : NoDup (hashes_of p);
  mc_uncles : NoDup (uncles_of p);
  mc_spends l b r sl : p = l ++ b :: r ->
    try_fold (attach_main (E:=Error)) (blank s) l = Ok sl -> spends sl [b];
}.

Lemma spends_with s r bs : spends s bs -> spends (with_rest s r) bs.
Proof. by intros []. Qed.

Lemma main_chain_rest s r p : attached_chain s p -> path (with_rest s r) p -> attached_chain (with_rest s r) p.
Proof.
  intros [M1 M2 M3 M4 M5 M6] Hp. split; [done|by apply replays_rest|done..|].
  intros l b r' sl ->. change (blank (with_rest s r)) with (with_rest (blank s) r).
  rewrite attach_blocks_with. intros (sl' & Hsl & ->)%fmap_Ok. by eapply spends_with, M6.
Qed.

(** Spending only removes. *)
Lemma attach_entry_live x L m i :
  foldl attach_idx x L = Some m -> dead_cell m !! i = Some false ->
  exists m0, x = Some m0 /\ dead_cell m0 !! i = Some false /\ i ∉ L.
Proof.
  revert x. induction L as [|j L IH]; intros x Hx Hi; cbn [foldl] in Hx.
  { exists m. split_and!; [done..|set_solver]. }
  destruct (IH _ Hx Hi) as (m1 & Hm1 & Hd & Hj). unfold attach_idx in Hm1.
  destruct x as [m0|]; [|done]. exists m0. rewrite set_dead_mark in Hm1. case_match; [done|].
  apply (inj Some) in Hm1 as <-. cbn [dead_cell set_dead_cell] in Hd. rewrite mark_lookup in Hd.
  case_decide as Hin; [by destruct (dead_cell m0 !! i)|]. split_and!; [done..|set_solver].
Qed.

Lemma NoDup_filter_sub {A} (P Q : A -> Prop) `{!forall x, Decision (P x)} `{!forall x, Decision (Q x)} l :
  (forall x, x ∈ l -> P x -> Q x) -> NoDup (filter Q l) -> NoDup (filter P l).
Proof.
  intros HPQ Hnd. induction l as [|x l IH]; [constructor|]. rewrite filter_cons in Hnd |- *.
  assert (NoDup (filter P l)) as Hl.
  { apply IH; [intros y Hy; apply HPQ; by right|]. case_decide; [by apply NoDup_cons in Hnd as []|done]. }
  destruct (decide (P x)) as [HP|]; [|done]. rewrite decide_True in Hnd by (apply HPQ; [left|done]).
  apply NoDup_cons in Hnd as [Hx _]. constructor; [|done].
  rewrite list_elem_of_filter in *. intros [_ Hin]. apply Hx. split; [apply HPQ; [left|done]|done].
Qed.

(** Blocks that each spend live outputs do so together. *)
Lemma spends_cons {E} s b bs s1 :
  cells_wf s -> view_ok b -> attach_main (E:=E) s b = Ok s1 -> cells_cleared (b :: bs) s ->
  spends s [b] -> spends s1 bs -> spends s (b :: bs).
Proof.
  intros Hwf Hv Ha Hcc [B1 B2 B3] [S1 S2 S3].
  destruct (attach_main_Ok (E:=E) s b s1 Hv Ha) as [Hag Hl].
  change (hashes_of (b :: bs)) with (block_tx_hashes b ++ hashes_of bs) in *.
  assert (inputs_of [b] = block_inputs (BlockView_transactions b)) as Hin by apply app_nil_r.
  assert (hashes_of [b] = block_tx_hashes b) as Hhb by apply app_nil_r. rewrite Hin, ?Hhb in *.
  (* an output spent later is live now, and not spent by [b] *)
  assert (forall o, o ∈ inputs_of bs -> op_tx_hash o ∉ block_tx_hashes b ++ hashes_of bs ->
    (exists m, col_cell_set s !! op_tx_hash o = Some m /\
      dead_cell m !! Z.to_nat (op_index o) = Some false /\ is_Some (col_cell_set s1 !! op_tx_hash o) /\
      Z.to_nat (op_index o) ∉ indices (op_tx_hash o) (block_inputs (BlockView_transactions b))) \/
    (col_cell_set s !! op_tx_hash o = None /\ col_tx_info s !! op_tx_hash o = None)) as Hlater.
  { intros o Ho [Hob Hobs]%not_elem_of_app. destruct (S1 o Ho Hobs) as [(m & Hm & Hd)|[_ Hi]].
    - left. pose proof Hm as Hm'. rewrite Hl in Hm' by done.
      destruct (attach_entry_live _ _ _ _ Hm' Hd) as (m0 & H0 & Hd0 & Hi). exists m0. rewrite Hm. eauto.
    - right. rewrite (ao_info _ _ _ Hag) in Hi by (by rewrite Hhb). split; [|done].
      destruct (col_cell_set s !! _) as [m|] eqn:Hm; [|done]. apply (wf_cells s Hwf) in Hm.
      unfold recovered, get_transaction_info in Hm. by rewrite Hi in Hm. }
  assert (forall o, is_Some (col_cell_set s !! op_tx_hash o) ->
    op_tx_hash o ∉ block_tx_hashes b ++ hashes_of bs) as Hfresh.
  { intros o Hs Ho. rewrite (Hcc _ Ho) in Hs. by destruct Hs. }
  change (inputs_of (b :: bs)) with (block_inputs (BlockView_transactions b) ++ inputs_of bs).
  split; change (inputs_of (b :: bs)) with (block_inputs (BlockView_transactions b) ++ inputs_of bs).
  - intros o [Ho|Ho]%elem_of_app Hh; [|destruct (Hlater o Ho Hh) as [(m & ? & ? & _)|?]; eauto].
    apply not_elem_of_app in Hh as [Hh _]. by apply B1.
  - rewrite filter_app. apply NoDup_app. split_and!; [done| |].
    + intros o [Hs Hob]%list_elem_of_filter [_ Ho]%list_elem_of_filter.
      destruct (Hlater o Ho (Hfresh o Hs)) as [(m & _ & _ & _ & Hi)|[Hn _]]; [|rewrite Hn in Hs; by destruct Hs].
      apply Hi. unfold indices. apply list_elem_of_fmap. exists o. split; [done|].
      by apply list_elem_of_filter.
    + eapply NoDup_filter_sub; [|exact S2]. intros o Ho Hs.
      destruct (Hlater o Ho (Hfresh o Hs)) as [(m & _ & _ & ? & _)|[Hn _]]; [done|].
      rewrite Hn in Hs. by destruct Hs.
  - intros o [?|?]%elem_of_app; auto.
Qed.

(** ** Rolling back a branch *)

Lemma elem_of_app_NoDup {A} (l k : list A) x : NoDup (l ++ k) -> x ∈ k -> x ∉ l.
Proof. intros (_ & Hd & _)%NoDup_app Hk Hl. by eapply Hd. Qed.

Lemma path_numbers s p : path s p -> NoDup (BlockView_number <$> p).
Proof.
  intros Hp. apply NoDup_alt. intros i j x Hi Hj.
  apply list_lookup_fmap_Some in Hi as (bi & -> & Hi). apply list_lookup_fmap_Some in Hj as (bj & Hx & Hj).
  apply (path_number _ _ Hp) in Hi, Hj. lia.
Qed.

Lemma path_hashes s p : path s p -> NoDup (block_hash <$> p).
Proof.
  intros Hp. apply NoDup_fmap_2_strong; [|eapply NoDup_fmap_1, path_numbers, Hp].
  intros b b' Hb Hb' Heq. pose proof (path_store _ _ Hp) as Hst. rewrite Forall_forall in Hst.
  by apply (in_store_inj s); auto.
Qed.

(** Below a branch the main chain has none of its rows. *)
Lemma replay_cleared s l r sl :
  attached_chain s (l ++ r) -> try_fold (attach_main (E:=Error)) (blank s) l = Ok sl ->
  cleared r sl /\ cells_cleared r sl.
Proof.
  intros [Hp Hr Hv Hh Hu _] Hl.
  pose proof (path_numbers _ _ Hp) as Hn. pose proof (path_hashes _ _ Hp) as Hb.
  rewrite fmap_app in Hn. rewrite fmap_app in Hb. unfold hashes_of, uncles_of in Hh, Hu.
  rewrite bind_app in Hh. rewrite bind_app in Hu.
  apply Forall_app in Hv as [Hv _]. destruct (attach_blocks_Ok l (blank s) sl Hv Hl) as [[_ A1 A2 A3 A4] Hc].
  split; [split; intros x Hx; [rewrite A1|rewrite A2|rewrite A3|rewrite A4]|]; try apply lookup_empty;
    try (by eapply elem_of_app_NoDup).
  intros h Hx. rewrite Hc by (by eapply elem_of_app_NoDup). cbn [blank col_cell_set set_col_cell_set].
  rewrite lookup_empty. generalize (indices h (inputs_of l)). by induction l0.
Qed.

Lemma replay_stored s l r sl :
  attached_chain s (l ++ r) -> try_fold (attach_main (E:=Error)) (blank s) l = Ok sl ->
  Forall (stored sl) r /\ Forall view_ok r.
Proof.
  intros Hm Hl. apply attach_blocks_rest in Hl. destruct Hm as [Hp _ Hv _ _ _].
  apply Forall_app in Hv as [_ Hv]. split; [|done]. pose proof (path_store _ _ Hp) as Hst.
  apply Forall_app in Hst as [_ Hst]. eapply Forall_impl; [exact Hst|]. intros b [[H1 H2] _ _ _].
  rewrite Hl. by split.
Qed.

Lemma replay_wf s l r sl :
  attached_chain s (l ++ r) -> try_fold (attach_main (E:=Error)) (blank s) l = Ok sl -> cells_wf sl.
Proof.
  revert r sl. induction l as [|b l IH] using rev_ind; intros r sl Hm Hl.
  { injection Hl as <-. split; intros h x Hx; by destruct (lookup_empty_Some (M:=gmap Byte32) h x). }
  rewrite <- app_assoc in Hm. rewrite try_fold_app in Hl. apply bind_Ok in Hl as (s1 & Hl & Hb).
  cbn [try_fold] in Hb. apply bind_Ok in Hb as (s2 & Hb & Hs). simplify_eq.
  destruct (replay_stored _ _ _ _ Hm Hl) as [Hst Hv]. apply Forall_cons in Hst as [Hst _].
  apply Forall_cons in Hv as [Hv _]. destruct (replay_cleared _ _ _ _ Hm Hl) as [_ Hcc].
  eapply attach_main_wf; [exact Hv|exact Hst| | |exact Hb|by eapply IH].
  - pose proof (mc_hashes _ _ Hm) as Hn. unfold hashes_of in Hn. rewrite bind_app in Hn.
    apply NoDup_app in Hn as (_ & _ & Hn). cbn in Hn. by apply NoDup_app in Hn as [Hn _].
  - intros h Hh. apply Hcc. unfold hashes_of in *. cbn in *. rewrite app_nil_r in Hh.
    apply elem_of_app. by left.
Qed.

Lemma replay_spends s r l sl :
  attached_chain s (l ++ r) -> try_fold (attach_main (E:=Error)) (blank s) l = Ok sl -> spends sl r.
Proof.
  revert l sl. induction r as [|b r IH]; intros l sl Hm Hl.
  { split; [intros o Ho; by apply not_elem_of_nil in Ho|constructor|intros o Ho; by apply not_elem_of_nil in Ho]. }
  destruct (replays_prefix _ _ _ (mc_replays _ _ Hm)) as (s1 & Hs1 & _ & Hbl & Hbr).
  unfold replays in Hs1. rewrite Hbl, Hl in Hs1. simplify_eq. cbn [try_fold] in Hbr.
  apply bind_Ok in Hbr as (s2 & Hb & Hbr).
  destruct (replay_stored _ _ _ _ Hm Hl) as [_ Hv]. apply Forall_cons in Hv as [Hv _].
  eapply spends_cons; [by eapply replay_wf|exact Hv|exact Hb|by eapply replay_cleared|
    by eapply (mc_spends _ _ Hm)|].
  apply (IH (l ++ [b])); [by rewrite <- app_assoc|]. rewrite try_fold_app, Hl. step.
  cbn [try_fold]. by rewrite Hb.
Qed.

Lemma rollback_branch s common old detached :
  attached_chain s (common ++ old) -> detached ≡ₚ old ->
  exists sc, rollback (E:=Error) detached s = Ok sc /\ replays sc common.
Proof.
  intros Hm Hd. destruct (replays_prefix _ _ _ (mc_replays _ _ Hm)) as (sc & Hsc & _ & Hbl & Hold).
  exists sc. split; [|done]. unfold replays in Hsc. rewrite Hbl in Hsc.
  destruct (replay_stored _ _ _ _ Hm Hsc). destruct (replay_cleared _ _ _ _ Hm Hsc).
  eapply (rollback_attached old); [by eapply replay_wf|done..|by eapply replay_spends|exact Hold|done].
Qed.

(** The number index of a replayed path. *)
Lemma replays_indexed s p : path s p -> replays s p -> indexed s p.
Proof.
  intros Hp Hr. pose proof (path_number _ _ Hp) as Hn. clear Hp. revert s Hr.
  induction p as [|b p IH] using rev_ind; intros s Hr n Hn0.
  { unfold replays in Hr. injection Hr as Hr. rewrite <- Hr. cbn. by rewrite lookup_empty. }
  destruct (replays_prefix _ _ _ Hr) as (s1 & Hs1 & _ & _ & Hb). cbn [try_fold] in Hb.
  apply bind_Ok in Hb as (s2 & Hb & [= <-]).
  assert (col_index s2 = <[BlockView_number b := block_hash b]> (col_index s1)) as ->.
  { unfold attach_main, attach_block in Hb. inv_ok. unfold attach_block_cell.
    by rewrite (attach_txs_same b (BlockView_transactions b)). }
  rewrite (Hn (length p) b) by (by rewrite lookup_app_r, Nat.sub_diag).
  destruct (decide (n = Z.of_nat (length p))) as [->|Hne].
  - rewrite lookup_insert_eq, Nat2Z.id, lookup_app_r, Nat.sub_diag by done. done.
  - rewrite lookup_insert_ne by done. rewrite IH; [| |done|done].
    + destruct (decide (Z.to_nat n < length p)%nat); [by rewrite lookup_app_l|].
      rewrite !(lookup_ge_None_2 _ (Z.to_nat n)); [done|rewrite length_app; cbn; lia|lia].
    + intros i b' Hi. apply Hn. rewrite lookup_app_l; [done|by eapply lookup_lt_Some].
Qed.

(** ** insert_block *)

Lemma path_kept s s' p :
  path s p -> (forall b, in_store s b -> in_store s' b) -> path s' p.
Proof. intros [P1 P2 P3] Hs. split; [|done..]. eapply Forall_impl; [exact P1|auto]. Qed.

Lemma prepared_in_store s block h anchor epoch b :
  block_exists s (block_hash block) = false -> in_store s b ->
  in_store (insert_epoch_ext (insert_block_epoch_index (Store.insert_block s block) h anchor) anchor
    epoch) b.
Proof.
  intros Hex [[Hh Hb] Hu Hp Hv]. unfold block_exists in Hex. reflect_bools.
  assert (block_hash block <> block_hash b) as Hne.
  { intros Heq. apply Hex. rewrite Heq. by rewrite Hh. }
  split; [split|..]; cbn; try rewrite lookup_insert_ne by done; done.
Qed.

Section reorg.
Context `{NumExt} `{Hasher} `{LruCache Z} `{LruCache CacheEntry}.
Context (script_verify : Store -> ResolvedTransaction -> Z -> outcome Error Z).
Context (system_cell : option (gmap CellDep ResolvedDep)) (consensus : Consensus).
Context (order : BlockView -> list nat).
Local Abbreviation insert_block := (ChainService_insert_block script_verify system_cell consensus order).

Lemma reconcile_replays txn cache fork switch txn' cache' common :
  replays txn common ->
  reconcile_main_chain script_verify system_cell consensus order txn cache fork switch =
    (Ok (Some txn'), cache') ->
  replays txn' (common ++ attached_blocks fork).
Proof.
  intros Hr (n & exts & txn1 & Hlen & Hver & Hw & Hl)%reconcile_Ok.
  rewrite <- (take_drop n (attached_blocks fork)), app_assoc.
  apply (replays_exts txn1 _ exts); [|by eapply replays_app|done].
  apply Forall2_length in Hw. rewrite length_drop. lia.
Qed.

Lemma switch_to_replays s txn block ext epoch ne switch txn' fork cache common old :
  switch_to script_verify system_cell consensus order s txn block ext epoch ne switch =
    (Ok (Some (txn', fork)), cache) ->
  attached_chain txn (common ++ old) -> detached_blocks fork ≡ₚ old ->
  replays txn' (common ++ attached_blocks fork).
Proof.
  intros (_ & txn1 & txn2 & Hrb & Hrc & ->)%switch_to_Ok Hm Hd.
  destruct (rollback_branch _ _ _ _ Hm Hd) as (sc & Hsc & Hr). rewrite Hrb in Hsc. simplify_eq.
  pose proof (reconcile_replays _ _ _ _ _ _ _ Hr Hrc) as Hr2.
  case_match; match goal with |- replays ?r _ => exact (replays_rest txn2 r _ Hr2) end.
Qed.

(** C1: a reorganisation leaves exactly the new chain.  Let the main chain of the
    service be [p], and [q] the path of the parent of a block that is inserted.
    When the block becomes the best one, the number index, the uncle and
    transaction indices and the cell set end as if the blocks of [q] and the block
    had been attached in order to an empty chain, whatever [p] was; otherwise they
    stay those of [p]. *)
Theorem insert_block_replays s now block switch s' messages p q :
  attached_chain (db s) p -> p <> [] ->
  HeaderView_number (snap_tip_header (snapshot s)) = Z.of_nat (length p) - 1 ->
  path (db s) q -> p !! 0%nat = q !! 0%nat ->
  BlockView_number block = Z.of_nat (length q) -> Z.of_nat (length q) < 2 ^ 64 ->
  block_hash <$> last q = Some (parent_hash (BlockView_raw block)) ->
  (forall b, b ∈ q -> is_Some (col_ext (db s) !! block_hash b)) ->
  insert_block s now block switch = (Ok (Some true), s', messages) ->
  replays (db s') (if snap_total_difficulty (snapshot s) <? snap_total_difficulty (snapshot s')
                   then q ++ [block] else p).
Proof.
  intros Hm Hne Htip Hq Hg Hn Hw Hpar Hexts Hi.
  assert (block_exists (db s) (block_hash block) = false) as Hex.
  { unfold ChainService_insert_block in Hi. by destruct (block_exists _ _). }
  apply insert_block_cases in Hi. inversion Hi as [Hk Hr|r cache Hr|txn ext epoch ne Hp Hle
    |txn ext epoch ne cache txn' fork r s0 ms Hp Hlt Hsw Hb]; subst.
  - by destruct Hr as [[? ?]|[?|?]].
  - apply prepare_block_Ok in Hp as (-> & _). cbn [snapshot Snapshot_refresh snap_total_difficulty db].
    rewrite Z.ltb_irrefl.
    match goal with |- replays ?r _ => exact (replays_rest (db s) r _ (mc_replays _ _ Hm)) end.
  - apply prepare_block_Ok in Hp as (-> & _). set (txn := insert_epoch_ext _ _ _) in *.
    pose proof (main_chain_rest _ txn _ Hm) as Hm'. change (with_rest (db s) txn) with txn in Hm'.
    specialize (Hm' (path_kept _ _ _ (mc_path _ _ Hm)
      (fun b => prepared_in_store _ _ _ _ _ b Hex))).
    pose proof (switch_to_Ok _ _ _ _ _ _ _ _ _ _ _ _ _ _ Hsw) as (Hff & _).
    destruct (find_fork_Ok (E:=Error) (db s) p q block ext) as
      (f & common & old & new & Hf & -> & -> & _ & _ & Ha & Hd & _); try done; [apply Hm|..].
    { apply replays_indexed; apply Hm. }
    rewrite Htip, Hf in Hff. simplify_eq.
    apply new_best_cases in Hb as [?|(? & ? & ? & _ & _ & -> & _)]; [done|].
    cbn [snapshot snap_total_difficulty db]. rewrite (proj2 (Z.ltb_lt _ _) Hlt).
    rewrite <- app_assoc, <- Ha. by eapply switch_to_replays.
Qed.
End reorg.

(** ** Resolution and the cell set *)

Lemma collect_map_None {K V} `{Countable K} (l : list (K * V)) k : k ∉ l.*1 -> collect_map l !! k = None.
Proof.
  intros Hk. unfold collect_map. rewrite (foldl_insert_ne fst (fun m kv => <[kv.1 := kv.2]> m)) by
    first [done | intros; by apply lookup_insert_ne]. apply lookup_empty.
Qed.

Lemma block_cell_outside calc b p o wd :
  BlockCellProvider_new b = Ok p -> op_tx_hash o ∉ tx_hash <$> BlockView_transactions b ->
  BlockCellProvider_cell calc p o wd = Ok CellStatus_Unknown.
Proof.
  unfold BlockCellProvider_new. intros (? & _ & Hp)%bind_Ok Ho.
  assert (output_indices p !! op_tx_hash o = None) as Hn.
  { simplify_eq. apply collect_map_None. intros Hin. apply Ho.
    rewrite <- (snd_enumerate (BlockView_transactions b)), <- list_fmap_compose.
    rewrite <- list_fmap_compose in Hin. apply list_elem_of_fmap in Hin as ([i tx] & -> & Hin).
    apply list_elem_of_fmap. by exists (i, tx). }
  unfold BlockCellProvider_cell. by rewrite Hn.
Qed.

Lemma store_cell_live calc s o wd m :
  store_cell calc s o wd = Ok (CellStatus_Live m) ->
  exists meta, col_cell_set s !! op_tx_hash o = Some meta /\
    dead_cell meta !! Z.to_nat (op_index o) = Some false.
Proof.
  unfold store_cell, get_tx_meta, TransactionMeta_is_dead.
  destruct (col_cell_set s !! op_tx_hash o) as [meta|]; [|done]. intros Hs. exists meta.
  by destruct (dead_cell meta !! _) as [[]|].
Qed.

Lemma cellbase_inputs tx :
  TransactionView_is_cellbase tx = true -> exists o, TransactionView_input_pts_iter tx = [o] /\
    Byte32_is_zero (op_tx_hash o) = true.
Proof.
  unfold TransactionView_is_cellbase, Transaction_is_cellbase, TransactionView_input_pts_iter,
    TransactionView_inputs.
  destruct (inputs _) as [|i [|]]; [done| |done]. destruct (witnesses _) as [|? [|]]; [done| |done].
  intros Hn. exists (previous_output i). split; [done|]. unfold OutPoint_is_null in Hn. by apply andb_prop in Hn as [? _].
Qed.

Section resolution.
Context `{NumExt} `{Hasher} (system_cell : option (gmap CellDep ResolvedDep)) (consensus : Consensus).

Lemma resolve_block_Ok txn b p resolved :
  view_ok b -> BlockCellProvider_new b = Ok p ->
  resolve_block system_cell consensus txn p b = Ok resolved ->
  (forall o, o ∈ inputs_of [b] -> 0 <= op_index o) ->
  (forall h, Byte32_is_zero h = true -> col_cell_set txn !! h = None /\ col_tx_info txn !! h = None) ->
  spends txn [b].
Proof.
  intros Hv Hp Hr Hidx Hz. unfold resolve_block in Hr. apply bind_Ok in Hr as ([rs seen] & Hr & _).
  apply resolve_transactions_Ok in Hr as (Hrs & Hnd & _ & _ & Hall).
  assert (inputs_of [b] = block_inputs (BlockView_transactions b)) as Hin by apply app_nil_r.
  assert (hashes_of [b] = tx_hash <$> BlockView_transactions b) as Hh.
  { rewrite (view_txs b Hv). apply app_nil_r. }
  rewrite Hin in *. split; rewrite ?Hin, ?Hh; [| |done].
  - intros o Ho Hob. unfold block_inputs in Ho. apply list_elem_of_bind in Ho as (tx & Ho & Htx).
    destruct (TransactionView_is_cellbase tx) eqn:Hcb.
    + apply cellbase_inputs in Hcb as (o' & Heq & Hzero). rewrite Heq, list_elem_of_singleton in Ho.
      subst o'. right. by apply Hz.
    + left. rewrite <- Hrs in Htx. apply list_elem_of_fmap in Htx as (rtx & -> & Hrtx).
      rewrite Forall_forall in Hall. destruct (Hall _ Hrtx) as [Hlive _]. unfold spent_inputs in Hlive.
      rewrite Hcb in Hlive. apply list_elem_of_lookup in Ho as [i Hi].
      destruct (Forall2_lookup_l _ _ _ _ _ Hlive Hi) as (m & _ & Hm). unfold OverlayCellProvider_cell in Hm.
      rewrite (block_cell_outside _ b) in Hm by done. by apply store_cell_live in Hm.
  - clear -Hz Hnd. induction (BlockView_transactions b) as [|tx txs IH]; [constructor|].
    rewrite block_inputs_cons, filter_app. rewrite bind_cons in Hnd. unfold spent_inputs in Hnd at 1.
    destruct (TransactionView_is_cellbase tx) eqn:Hcb.
    + apply cellbase_inputs in Hcb as (o & -> & Ho). cbn. rewrite decide_False; [by apply IH|].
      rewrite (proj1 (Hz _ Ho)). by intros [].
    + apply NoDup_app in Hnd as (Hnd1 & Hd & Hnd2). apply NoDup_app. split_and!;
        [by apply NoDup_filter| |by apply IH].
      intros o [Hs Ho]%list_elem_of_filter [_ Ho']%list_elem_of_filter. apply (Hd o Ho).
      unfold block_inputs in Ho'. apply list_elem_of_bind in Ho' as (tx' & Ho' & Htx').
      apply list_elem_of_bind. exists tx'. split; [|done]. unfold spent_inputs.
      destruct (TransactionView_is_cellbase tx') eqn:Hcb'; [|done].
      apply cellbase_inputs in Hcb' as (o' & Heq & Hzero). rewrite Heq, list_elem_of_singleton in Ho'.
      subst o'. rewrite (proj1 (Hz _ Hzero)) in Hs. by destruct Hs.
Qed.

(** C14: a block that resolves spends what the cell set has.  When the transactions
    of a block resolve against a store, each output they spend is either of the
    block itself, or has a live mark in the cell set, and none is spent twice;
    these are the conditions under which detaching the block undoes attaching it. *)
Theorem resolve_block_spends txn b p resolved :
  view_ok b -> BlockCellProvider_new b = Ok p ->
  resolve_block system_cell consensus txn p b = Ok resolved ->
  (forall o, o ∈ inputs_of [b] -> 0 <= op_index o) ->
  (forall h, Byte32_is_zero h = true -> col_cell_set txn !! h = None /\ col_tx_info txn !! h = None) ->
  spends txn [b].
Proof. apply resolve_block_Ok. Qed.
End resolution.

(** ** The concrete run of the chain service *)

Lemma run_path_main : path (db run_before) [run_block0; run_block1; run_block2].
Proof.
  split.
  - repeat constructor; vm_compute; reflexivity.
  - intros [|[|[|]]] b; cbn; by intros [= <-].
  - intros [|[|[|]]] b b'; cbn; try done; by intros [= <-] [= <-].
Qed.
Lemma run_path_side : path (db run_before) [run_block0; run_block21].
Proof.
  split.
  - repeat constructor; vm_compute; reflexivity.
  - intros [|[|[|]]] b; cbn; by intros [= <-].
  - intros [|[|[|]]] b b'; cbn; try done; by intros [= <-] [= <-].
Qed.
Lemma run_side_exts b :
  b ∈ [run_block0; run_block21] -> is_Some (col_ext (db run_before) !! block_hash b).
Proof. revert b. apply Forall_forall. repeat constructor; eexists; vm_compute; reflexivity. Qed.

Lemma run_replays : replays (db run_before) [run_block0; run_block1; run_block2].
Proof. unfold replays. vm_compute. reflexivity. Qed.

Lemma fork_split {A} (a b c d : A) common old new :
  b <> d -> common <> [] -> [a; b; c] = common ++ old -> [a; d] = common ++ new ->
  old = [b; c] /\ new = [d].
Proof. intros Hbd Hne H1 H2. destruct common as [|? [|? ?]]; by simplify_eq/=. Qed.
Lemma run_blocks_differ : run_block1 <> run_block21.
Proof. intros Heq. by apply (f_equal block_hash) in Heq. Qed.

(** The last block detaches two blocks and attaches two. *)
Lemma find_fork_spec_witness :
  exists f, find_fork (E:=Error) (db run_before) ForkChanges_default 2 run_block22
      (mkBlockExt 0 0 0 None []) = Ok f /\
    attached_blocks f = [run_block21; run_block22] /\
    detached_blocks f ≡ₚ [run_block1; run_block2].
Proof.
  destruct (find_fork_spec (E:=Error) (db run_before) [run_block0; run_block1; run_block2]
    [run_block0; run_block21] run_block22 (mkBlockExt 0 0 0 None []))
    as (f & common & old & new & Hf & H1 & H2 & Hne & Hfork & Ha & Hd & _).
  - exact run_path_main.
  - exact run_path_side.
  - exact (replays_indexed _ _ run_path_main run_replays).
  - done.
  - done.
  - done.
  - done.
  - exact run_side_exts.
  - by vm_compute.
  - exists f. split; [exact Hf|].
    destruct (fork_split _ _ _ _ _ _ _ run_blocks_differ Hne H1 H2) as [-> ->].
    split; [exact Ha|exact Hd].
Defined.

(** Decides [spends] on a concrete store. *)
Definition spends_check (s : Store) (bs : list BlockView) : bool :=
  forallb (fun o => (0 <=? op_index o) && (bool_decide (op_tx_hash o ∈ hashes_of bs) ||
    match col_cell_set s !! op_tx_hash o with
    | Some m => bool_decide (dead_cell m !! Z.to_nat (op_index o) = Some false)
    | None => bool_decide (col_tx_info s !! op_tx_hash o = None)
    end)) (inputs_of bs) &&
  bool_decide (NoDup (filter (fun o => is_Some (col_cell_set s !! op_tx_hash o)) (inputs_of bs))).
Lemma spends_check_sound s bs : spends_check s bs = true -> spends s bs.
Proof.
  intros [Hall Hnd%bool_decide_eq_true]%andb_prop. rewrite forallb_forall in Hall.
  split; [|done|]; intros o Ho; specialize (Hall o (proj1 (list_elem_of_In _ _) Ho));
    apply andb_prop in Hall as [Hi Ho']; [|lia].
  intros Hn. apply orb_prop in Ho' as [?%bool_decide_eq_true|Ho']; [done|].
  destruct (col_cell_set s !! op_tx_hash o) as [m|]; apply bool_decide_eq_true in Ho'; eauto.
Qed.

Lemma split3 {A} (a b c x : A) l r :
  [a; b; c] = l ++ x :: r -> (l, x) = ([], a) \/ (l, x) = ([a], b) \/ (l, x) = ([a; b], c).
Proof.
  destruct l as [|? [|? [|? l]]]; cbn; intros [=]; subst; [by left|by right; left|by right; right|].
  by destruct l.
Qed.

Lemma run_attached_chain : attached_chain (db run_before) [run_block0; run_block1; run_block2].
Proof.
  split; [exact run_path_main|exact run_replays|repeat constructor|
    apply (bool_decide_eq_true_1 _); by vm_compute..|].
  assert (forall l b, match try_fold (attach_main (E:=Error)) (blank (db run_before)) l with
    | Ok sl => spends_check sl [b] | _ => false end = true ->
    forall sl, try_fold (attach_main (E:=Error)) (blank (db run_before)) l = Ok sl -> spends sl [b]) as Hs.
  { intros l b Hc sl Hl. apply spends_check_sound. by rewrite Hl in Hc. }
  intros l b r sl [Hl|[Hl|Hl]]%split3; apply (f_equal fst) in Hl as Hl1; apply (f_equal snd) in Hl as Hl2;
    cbn [fst snd] in Hl1, Hl2; rewrite Hl1, Hl2; apply Hs; by vm_compute.
Qed.

(** The branch of block [[22]] replaces that of block [[2]]. *)
Lemma insert_block_replays_witness :
  replays (db run_after) [run_block0; run_block21; run_block22].
Proof.
  assert (snap_total_difficulty (snapshot run_before) <? snap_total_difficulty (snapshot run_after) = true)
    as Hlt by (by vm_compute).
  pose proof (insert_block_replays (H:=numext_ref) (H0:=toy_hasher) (H1:=map_cache) (H2:=entry_cache)
    toy_scripts None toy_consensus (fun _ => []) run_before 7 run_block22 DISABLE_ALL run_after
    (run_insert run_before run_block22 DISABLE_ALL).2 [run_block0; run_block1; run_block2]
    [run_block0; run_block21] run_attached_chain) as Hr.
  rewrite Hlt in Hr. apply Hr.
  - done.
  - by vm_compute.
  - exact run_path_side.
  - done.
  - done.
  - by vm_compute.
  - done.
  - exact run_side_exts.
  - unfold run_after, run_insert. refine (run_result _ (Ok (Some true)) _). by vm_compute.
Defined.

(** Block [[1]] of the run resolves on top of the genesis block. *)
Lemma resolve_block_spends_witness : spends run_store [run_block1].
Proof.
  assert (exists p, BlockCellProvider_new run_block1 = Ok p) as [p Hp] by (eexists; vm_compute; reflexivity).
  destruct (resolve_block (H:=numext_ref) (H0:=toy_hasher) None toy_consensus run_store
    p run_block1) as [resolved| |] eqn:Hr.
  2-3: injection Hp as <-; vm_compute in Hr; discriminate Hr.
  refine (resolve_block_spends (H:=numext_ref) (H0:=toy_hasher) None toy_consensus run_store run_block1
    p resolved _ Hp Hr _ _).
  - by split.
  - refine (proj1 (Forall_forall _ _) _). repeat constructor; done.
  - intros h Hh. assert (h <> [10]) by (by intros ->).
    assert (exists m i, col_cell_set run_store = {[ [10] := m ]} /\ col_tx_info run_store = {[ [10] := i ]})
      as (m & i & -> & ->) by (do 2 eexists; split; vm_compute; reflexivity).
    by rewrite !lookup_singleton_ne.
Defined.

(** The header dependencies of a transaction are not restricted to the main
    chain.  The check that the contextual verifier hands to the resolution only
    asks that the header is stored and mature; its verdict does not depend on the
    columns of the main chain, and on the store of the run it accepts block
    [[21]], which was never attached. *)
Theorem check_valid_accepts_fork_header :
  (forall `{NumExt} s r c h, check_valid (with_rest s r) c h = check_valid r c h) /\
  check_valid (H:=numext_ref) (db run_before) toy_consensus [21] = Ok tt /\
  is_main_chain (db run_before) [21] = false.
Proof. split; [done|]. split; vm_compute; reflexivity. Qed.
