(* ===== verification/ChainIndex.v ===== *)
(** * The index of the main chain: src/chain/src/chain.rs, src/store/src/transaction.rs

    In every state of the chain service that is reached from a well-formed one
    by [insert_block], the index is the path of stored blocks from the genesis
    block to the tip of the snapshot, in both directions, and every stored block
    is at the end of a path from the genesis block. *)

From S2P Require Import Prelude Capacity NumExt Difficulty Types Errors Epoch Cell Consensus Hashes Store.
From S2P Require Import TransactionVerifier ContextualVerifier ChainCell Chain Reorg.

(** ** Index and blocks *)

(** The map sends the key of each block of the list to its value, and no other. *)
Definition indexes {K V} `{Countable K} (k : BlockView -> K) (v : BlockView -> V) (m : gmap K V)
    (l : list BlockView) : Prop :=
  forall i x, m !! i = Some x <-> exists b, b ∈ l /\ k b = i /\ v b = x.

Section indexes.
Context {K V} `{Countable K} (k : BlockView -> K) (v : BlockView -> V).

Lemma indexes_insert m l b : indexes k v m l -> k b ∉ k <$> l -> indexes k v (<[k b := v b]> m) (l ++ [b]).
Proof.
  intros Hm Hk i x. rewrite lookup_insert_Some, (Hm i x). split.
  - intros [[<- <-]|[Hne (b' & Hb' & ?)]]; [exists b|exists b']; rewrite elem_of_app, list_elem_of_singleton; auto.
  - intros (b' & [Hb'| ->%list_elem_of_singleton]%elem_of_app & <- & <-); [right|by left]. split; [|by exists b'].
    intros Heq. apply Hk. rewrite Heq. by apply list_elem_of_fmap_2.
Qed.

Lemma indexes_delete m l b : indexes k v m (b :: l) -> k b ∉ k <$> l -> indexes k v (delete (k b) m) l.
Proof.
  intros Hm Hk i x. rewrite lookup_delete_Some, (Hm i x). split.
  - intros [Hne (b' & [->|Hb']%elem_of_cons & <- & <-)]; [done|]. by exists b'.
  - intros (b' & Hb' & <- & <-). split; [|exists b'; by rewrite elem_of_cons; auto].
    intros Heq. apply Hk. rewrite Heq. by apply list_elem_of_fmap_2.
Qed.

Lemma indexes_perm m l l' : l ≡ₚ l' -> indexes k v m l -> indexes k v m l'.
Proof.
  intros Hl Hm i x. rewrite (Hm i x). split; intros (b & Hb & ?); exists b; (split; [|done]);
    [by rewrite <- Hl|by rewrite Hl].
Qed.
End indexes.

(** The index holds the blocks of a list, by number and by hash. *)
Record idx (s : Store) (l : list BlockView) : Prop := {
  idx_number : indexes BlockView_number block_hash (col_index s) l;
  idx_hash : indexes block_hash BlockView_number (col_index_hash s) l;
}.
(** No two blocks have a number or a hash in common. *)
Record apart (l : list BlockView) : Prop := {
  ap_number : NoDup (BlockView_number <$> l);
  ap_hash : NoDup (block_hash <$> l);
}.

Lemma apart_perm l l' : l ≡ₚ l' -> apart l -> apart l'.
Proof. intros Hl [A1 A2]. by split; rewrite <- Hl. Qed.

Lemma apart_cons b l : apart (b :: l) ->
  BlockView_number b ∉ BlockView_number <$> l /\ block_hash b ∉ block_hash <$> l /\ apart l.
Proof. intros [[? ?]%NoDup_cons [? ?]%NoDup_cons]. by split_and!. Qed.

Lemma path_apart s p : path s p -> apart p.
Proof. intros Hp. split; [by eapply path_numbers|by eapply path_hashes]. Qed.

(** *** Attaching and detaching *)

Lemma attach_main_columns {E} s b s' : attach_main (E:=E) s b = Ok s' ->
  col_index s' = <[BlockView_number b := block_hash b]> (col_index s) /\
  col_index_hash s' = <[block_hash b := BlockView_number b]> (col_index_hash s).
Proof.
  unfold attach_main, attach_block. intros Hs. inv_ok. unfold attach_block_cell.
  by rewrite (attach_txs_same b (BlockView_transactions b)).
Qed.

Lemma detach_input_same {E} s o s' : detach_input (E:=E) s o = Ok s' -> same_chain s s'.
Proof.
  unfold detach_input. intros Hs. destruct (get_tx_meta s (op_tx_hash o)).
  - inv_ok. by destruct s.
  - inv_ok. case_match; inv_ok; [by destruct s|apply same_chain_refl].
Qed.
Lemma detach_block_cell_same {E} s b s' : detach_block_cell (E:=E) s b = Ok s' -> same_chain s s'.
Proof.
  intros Hs. apply (try_fold_inv (fun x _ => same_chain s x) _ _ _ _ Hs); [apply same_chain_refl|].
  intros x tx l y Hx Hy. unfold detach_tx in Hy.
  apply (try_fold_inv (fun z _ => same_chain s z) _ _ _ _ Hy).
  - eapply same_chain_trans; [exact Hx|apply same_chain_delete].
  - intros z o l' w Hz Hw%detach_input_same. by eapply same_chain_trans.
Qed.
Lemma detach_main_columns {E} s b s' : detach_main (E:=E) s b = Ok s' ->
  col_index s' = delete (BlockView_number b) (col_index s) /\
  col_index_hash s' = delete (block_hash b) (col_index_hash s).
Proof.
  unfold detach_main, detach_block. intros Hs. inv_ok.
  match goal with Hd : detach_block_cell _ _ = Ok _ |- _ => apply detach_block_cell_same in Hd; by rewrite Hd end.
Qed.

Lemma attach_blocks_idx {E} bs s s' l :
  try_fold (attach_main (E:=E)) s bs = Ok s' -> idx s l -> apart (l ++ bs) -> idx s' (l ++ bs).
Proof.
  revert s l. induction bs as [|b bs IH]; intros s l Hs Hi Ha; cbn [try_fold] in Hs.
  { injection Hs as <-. by rewrite app_nil_r. }
  apply bind_Ok in Hs as (x & [Hx1 Hx2]%attach_main_columns & Hs).
  replace (l ++ b :: bs) with ((l ++ [b]) ++ bs) in * by (by rewrite <- app_assoc).
  apply (IH x); [done| |done].
  destruct (apart_cons b (l ++ bs)) as (Hn & Hh & _).
  { eapply apart_perm; [|exact Ha]. rewrite <- app_assoc. symmetry. apply Permutation_middle. }
  destruct Hi as [I1 I2].
  split; [rewrite Hx1|rewrite Hx2]; (apply indexes_insert; [done|set_solver]).
Qed.

Lemma rollback_idx {E} bs s s' l :
  rollback (E:=E) bs s = Ok s' -> idx s (bs ++ l) -> apart (bs ++ l) -> idx s' l.
Proof.
  unfold rollback. intros Hs Hi Ha.
  assert (forall r t, try_fold (detach_main (E:=E)) t r = Ok s' -> idx t (r ++ l) -> apart (r ++ l) -> idx s' l) as Hgen.
  { intros r. induction r as [|b r IH]; intros t Ht Hi' Ha'; cbn [try_fold] in Ht; [by injection Ht as <-|].
    apply bind_Ok in Ht as (x & [Hx1 Hx2]%detach_main_columns & Ht). cbn [app] in Hi', Ha'.
    apply apart_cons in Ha' as (Hn & Hh & Ha'). apply (IH x); [done| |done]. destruct Hi' as [I1 I2].
    split; [rewrite Hx1|rewrite Hx2]; by apply indexes_delete. }
  assert (bs ++ l ≡ₚ rev bs ++ l) as Hr by (apply Permutation_app_tail, Permutation_rev).
  apply (Hgen (rev bs) s Hs); [|by eapply apart_perm].
  destruct Hi as [I1 I2]. split; by eapply indexes_perm.
Qed.

(** *** What is stored *)

Record same_blocks (s s' : Store) : Prop := {
  sb_header : col_header s' = col_header s;
  sb_body : col_body s' = col_body s;
  sb_uncle : col_block_uncle s' = col_block_uncle s;
  sb_proposals : col_proposal_ids s' = col_proposal_ids s;
}.

Lemma same_rest_blocks s s' : same_rest s s' -> same_blocks s s'.
Proof. intros ->. by split. Qed.
Lemma same_blocks_trans s1 s2 s3 : same_blocks s1 s2 -> same_blocks s2 s3 -> same_blocks s1 s3.
Proof. intros [] []. split; congruence. Qed.

Lemma in_store_same s s' b : same_blocks s s' -> in_store s b -> in_store s' b.
Proof.
  intros [S1 S2 S3 S4] [[I1 I2] I3 I4 I5]. split; [split|..]; rewrite ?S1, ?S2, ?S3, ?S4; done.
Qed.

Lemma attach_exts_idx {E} exts bs s s' l :
  length exts = length bs -> try_fold (attach_ext (E:=E)) s (zip exts bs) = Ok s' ->
  idx s l -> apart (l ++ bs) ->
  idx s' (l ++ bs) /\ same_blocks s s' /\
  forall h, is_Some (col_ext s' !! h) <-> is_Some (col_ext s !! h) \/ h ∈ block_hash <$> bs.
Proof.
  revert exts s l. induction bs as [|b bs IH]; intros [|e exts] s l Hl Hs Hi Ha; try discriminate Hl;
    cbn [zip_with try_fold] in Hs.
  { injection Hs as <-. rewrite app_nil_r. split_and!; [done|by split|]. intros h. set_solver. }
  apply bind_Ok in Hs as (x & Hx & Hs). pose proof (attach_ext_rest _ _ _ Hx) as Hr. unfold attach_ext in Hx.
  apply bind_Ok in Hx as (y & [Hy1 Hy2]%attach_main_columns & Hx). injection Hx as <-.
  replace (l ++ b :: bs) with ((l ++ [b]) ++ bs) in * by (by rewrite <- app_assoc).
  destruct (IH exts (insert_block_ext y (block_hash b) e) (l ++ [b])) as (Hi' & Hb' & He');
    [by injection Hl|done| |done|].
  { destruct (apart_cons b (l ++ bs)) as (Hn & Hh & _).
    { eapply apart_perm; [|exact Ha]. rewrite <- app_assoc. symmetry. apply Permutation_middle. }
    destruct Hi as [I1 I2].
    split; cbn; [rewrite Hy1|rewrite Hy2]; (apply indexes_insert; [done|set_solver]). }
  cbn [fst snd] in Hr. split_and!; [done| |].
  - eapply same_blocks_trans; [|exact Hb']. eapply same_blocks_trans; [|by apply same_rest_blocks]. by split.
  - intros h. rewrite He', Hr. cbn. rewrite lookup_insert_is_Some, elem_of_cons.
    destruct (decide (block_hash b = h)); naive_solver.
Qed.

Section chain_inv.
Context `{NumExt} `{Hasher} `{LruCache Z} `{LruCache CacheEntry}.
Context (script_verify : Store -> ResolvedTransaction -> Z -> outcome Error Z).
Context (system_cell : option (gmap CellDep ResolvedDep)) (consensus : Consensus).
Context (order : BlockView -> list nat).

(** The index of the store after a switch, from the branches of the fork. *)
Lemma switch_to_idx s txn block ext epoch ne switch txn' fork cache common old :
  switch_to script_verify system_cell consensus order s txn block ext epoch ne switch =
    (Ok (Some (txn', fork)), cache) ->
  detached_blocks fork ≡ₚ old -> idx txn (common ++ old) -> apart (common ++ old) ->
  apart (common ++ attached_blocks fork) ->
  idx txn' (common ++ attached_blocks fork) /\ same_blocks txn txn' /\
  forall h, (is_Some (col_ext txn' !! h) -> is_Some (col_ext txn !! h) \/ h ∈ block_hash <$> attached_blocks fork) /\
    (is_Some (col_ext txn !! h) -> is_Some (col_ext txn' !! h)).
Proof.
  intros (_ & txn1 & txn2 & Hrb & Hrc & ->)%switch_to_Ok Hd Hi Ha Ha'.
  apply reconcile_Ok in Hrc as (n & exts & txn3 & Hlen & Hver & Hw & Hl).
  assert (common ++ old ≡ₚ detached_blocks fork ++ common) as Hperm by (by rewrite Hd, Permutation_app_comm).
  pose proof (rollback_rest _ _ _ Hrb) as Hr1.
  pose proof (try_fold_rest _ _ _ _ (fun s b s' => attach_main_rest s b s') Hver) as Hr3.
  assert (idx txn1 common) as Hi1.
  { eapply rollback_idx; [exact Hrb| |by eapply apart_perm].
    destruct Hi as [I1 I2]. split; by eapply indexes_perm. }
  set (a := attached_blocks fork) in *. rewrite <- (take_drop n a), app_assoc in Ha'.
  assert (apart (common ++ take n a)) as Ha1.
  { destruct Ha' as [A1 A2]. rewrite fmap_app in A1. rewrite fmap_app in A2. apply NoDup_app in A1 as [? _], A2 as [? _]. by split. }
  pose proof (attach_blocks_idx _ _ _ _ Hver Hi1 Ha1) as Hi3.
  destruct (attach_exts_idx (E:=Error) exts (drop n a) txn3 txn2 (common ++ take n a)) as (Hi2 & Hb2 & He2); [|exact Hl|exact Hi3|exact Ha'|].
  { apply Forall2_length in Hw. rewrite length_drop. lia. }
  rewrite <- app_assoc, take_drop in Hi2.
  assert (same_blocks txn txn2) as Hsb.
  { do 2 (eapply same_blocks_trans; [by apply same_rest_blocks|]). done. }
  assert (col_ext txn3 = col_ext txn) as Hext by (rewrite Hr3, Hr1; done).
  assert (forall h, (is_Some (col_ext txn2 !! h) -> is_Some (col_ext txn !! h) \/ h ∈ block_hash <$> a) /\
    (is_Some (col_ext txn !! h) -> is_Some (col_ext txn2 !! h))) as He.
  { intros h. rewrite He2, Hext. split; [|by left]. intros [?|Hin]; [by left|right].
    rewrite <- (take_drop n a), fmap_app. apply elem_of_app. by right. }
  case_match; (split_and!; [destruct Hi2; by split|destruct Hsb; by split|exact He]).
Qed.

(** ** The invariant *)

(** [p] is the main chain. *)
Record chain_inv (s : ChainService) (p : list BlockView) : Prop := {
  ci_consistent : consistent s;
  ci_path : path (db s) p;
  ci_index : idx (db s) p;
  ci_tip : BlockView_header <$> last p = Some (snap_tip_header (snapshot s));
  ci_exts hash : is_Some (col_header (db s) !! hash) <-> is_Some (col_ext (db s) !! hash);
  ci_rooted hash : is_Some (col_header (db s) !! hash) ->
    exists q, path (db s) q /\ q !! 0%nat = p !! 0%nat /\ block_hash <$> last q = Some hash;
}.

(** What the verification of its header gives for a block, and that the block is
    the view of its parts. *)
Record insertable (s : Store) (b : BlockView) : Prop := {
  in_view : BlockView_new_unchecked (BlockView_header b) (BlockView_uncles b)
    (BlockView_transactions b) (block_proposals (block_data b)) = b;
  in_parent : exists h, col_header s !! parent_hash (BlockView_raw b) = Some h /\
    BlockView_number b = HeaderView_number h + 1;
  in_width : BlockView_number b < 2 ^ 64;
}.

Lemma idx_indexed s p : path s p -> idx s p -> indexed s p.
Proof.
  intros Hp [Hi _] n Hn. apply option_eq. intros h. rewrite (Hi n h), fmap_Some. split.
  - intros (b & [i Hb]%list_elem_of_lookup & <- & <-). exists b. split; [|done].
    by rewrite (path_number _ _ Hp _ _ Hb), Nat2Z.id.
  - intros (b & Hb & ->). exists b. split_and!; [by eapply list_elem_of_lookup_2| |done].
    rewrite (path_number _ _ Hp _ _ Hb). lia.
Qed.

Lemma path_snoc s q b :
  path s q -> in_store s b -> BlockView_number b = Z.of_nat (length q) ->
  block_hash <$> last q = Some (parent_hash (BlockView_raw b)) -> path s (q ++ [b]).
Proof.
  intros [P1 P2 P3] Hb Hn Hl. split.
  - by apply Forall_app_2; [|constructor].
  - intros i b'. rewrite lookup_snoc_Some. intros [[_ Hi]|[-> <-]]; [by apply P2|done].
  - intros i b1 b2 H1' H2'. apply lookup_snoc_Some in H2' as [[Hlt H2']|[Hi <-]].
    + apply lookup_snoc_Some in H1' as [[_ H1']|[-> _]]; [by eapply P3|]. lia.
    + apply lookup_snoc_Some in H1' as [[_ H1']|[-> _]]; [|lia].
      rewrite last_lookup, <- Hi in Hl. cbn in Hl. rewrite H1' in Hl. by injection Hl.
Qed.

(** The path of a stored block ends with it. *)
Lemma path_last s q hash h :
  path s q -> block_hash <$> last q = Some hash -> col_header s !! hash = Some h ->
  HeaderView_number h = Z.of_nat (length q) - 1 /\ header_hash h = hash.
Proof.
  intros Hq (b & Hl & ->)%fmap_Some Hh. rewrite last_lookup in Hl.
  pose proof (path_lookup_store _ _ _ _ Hq Hl) as [[Hb _] _ _ _]. rewrite Hh in Hb. injection Hb as ->.
  split; [|done]. change (HeaderView_number (BlockView_header b)) with (BlockView_number b).
  rewrite (path_number _ _ Hq _ _ Hl). apply lookup_lt_Some in Hl. lia.
Qed.

Lemma prepared_block_in_store s block h anchor epoch :
  insertable (db s) block ->
  in_store (insert_epoch_ext (insert_block_epoch_index (Store.insert_block (db s) block) h anchor) anchor
    epoch) block.
Proof.
  intros [Hv _ _]. split; [split|..]; cbn; by rewrite ?lookup_insert_eq.
Qed.

(** The stored blocks have their paths, the new one too. *)
Lemma rooted_insert s txn block p :
  chain_inv s p -> insertable (db s) block ->
  (forall b, in_store (db s) b -> in_store txn b) -> in_store txn block ->
  col_header txn = <[block_hash block := BlockView_header block]> (col_header (db s)) ->
  exists q, path txn q /\ q !! 0%nat = p !! 0%nat /\ BlockView_number block = Z.of_nat (length q) /\
    block_hash <$> last q = Some (parent_hash (BlockView_raw block)) /\ path (db s) q /\
    forall hash, is_Some (col_header txn !! hash) ->
      exists q, path txn q /\ q !! 0%nat = p !! 0%nat /\ block_hash <$> last q = Some hash.
Proof.
  intros Hinv [_ (ph & Hph & Hn) _] Hkeep Hb Hh.
  destruct (ci_rooted _ _ Hinv (parent_hash (BlockView_raw block))) as (q & Hq & Hg & Hl); [by rewrite Hph|].
  destruct (path_last _ _ _ _ Hq Hl Hph) as [Hlen _].
  assert (path txn q) as Hq' by (by eapply path_kept).
  exists q. split_and!; [done|done|lia|done|done|]. intros hash. rewrite Hh, lookup_insert_is_Some.
  intros [<-|[_ Hs]].
  - exists (q ++ [block]). split_and!; [apply path_snoc; [done|done|lia|done]| |by rewrite last_snoc].
    rewrite <- Hg. apply lookup_app_l. destruct q; [done|cbn; lia].
  - destruct (ci_rooted _ _ Hinv _ Hs) as (r & Hr & ? & ?). exists r. split; [by eapply path_kept|done].
Qed.

Local Abbreviation insert_block := (ChainService_insert_block script_verify system_cell consensus order).

(** A block beside the main chain. *)
Lemma side_inv s block h anchor epoch ext p :
  chain_inv s p -> insertable (db s) block -> block_exists (db s) (block_hash block) = false ->
  let txn := insert_block_ext (insert_epoch_ext (insert_block_epoch_index
    (Store.insert_block (db s) block) h anchor) anchor epoch) (block_hash block) ext in
  chain_inv (mkChainService txn (Snapshot_refresh (snapshot s) txn) (proposal_table s) (txs_verify_cache s)) p.
Proof.
  intros Hinv Hin Hex txn.
  assert (forall b, in_store (db s) b -> in_store txn b) as Hkeep.
  { intros b Hb. eapply in_store_same; [|by apply (prepared_in_store (db s) block h anchor epoch)]. by split. }
  assert (in_store txn block) as Hb.
  { eapply in_store_same; [|by apply (prepared_block_in_store s block h anchor epoch)]. by split. }
  destruct (rooted_insert s txn block p) as (_ & _ & _ & _ & _ & _ & Hroot); [done..|].
  split; cbn.
  - apply side_consistent; [apply Hinv|done].
  - eapply path_kept; [apply Hinv|done].
  - destruct (ci_index _ _ Hinv). by split.
  - apply Hinv.
  - intros hash. rewrite !lookup_insert_is_Some. by rewrite (ci_exts _ _ Hinv).
  - exact Hroot.
Qed.

(** A new tip. *)
Lemma best_inv s txn block ext epoch ne switch txn' fork cache h anchor e proposals table p :
  chain_inv s p -> insertable (db s) block -> block_exists (db s) (block_hash block) = false ->
  txn = insert_epoch_ext (insert_block_epoch_index (Store.insert_block (db s) block) h anchor) anchor epoch ->
  switch_to script_verify system_cell consensus order s txn block ext epoch ne switch =
    (Ok (Some (txn', fork)), cache) ->
  exists common old new,
    p = common ++ old /\ path (db s) (common ++ new) /\ (common ++ new) !! 0%nat = p !! 0%nat /\
    path txn (common ++ attached_blocks fork) /\
    attached_blocks fork = new ++ [block] /\ detached_blocks fork ≡ₚ old /\
    (length (dirty_exts fork) = length (attached_blocks fork) \/ seen_below (db s) fork) /\
    (common ++ attached_blocks fork) !! 0%nat = p !! 0%nat /\
    chain_inv (mkChainService txn'
      (mkSnapshot (BlockView_header block) (total_difficulty ext) e txn' proposals) table cache)
      (common ++ attached_blocks fork).
Proof.
  intros Hinv Hin Hex Htxn Hsw.
  assert (forall b, in_store (db s) b -> in_store txn b) as Hkeep
    by (intros b; subst txn; by apply prepared_in_store).
  assert (in_store txn block) as Hb by (subst txn; by apply prepared_block_in_store).
  destruct (rooted_insert s txn block p) as (q & Hq & Hg & Hn & Hl & Hq0 & Hroot); [done..|by subst txn|].
  pose proof (path_snoc _ _ _ Hq Hb Hn Hl) as Hqb.
  assert (p <> []) as Hpne.
  { intros ->. by pose proof (ci_tip _ _ Hinv). }
  pose proof (switch_to_Ok _ _ _ _ _ _ _ _ _ _ _ _ _ _ Hsw) as (Hff & _).
  assert (HeaderView_number (snap_tip_header (snapshot s)) = Z.of_nat (length p) - 1) as Htip.
  { pose proof (ci_tip _ _ Hinv) as Ht. apply fmap_Some in Ht as (b & Hlb & ->). rewrite last_lookup in Hlb.
    change (BlockView_number b = Z.of_nat (length p) - 1).
    rewrite (path_number _ _ (ci_path _ _ Hinv) _ _ Hlb). apply lookup_lt_Some in Hlb. lia. }
  destruct (find_fork_Ok (E:=Error) (db s) p q block ext) as
    (f & common & old & new & Hf & Hp & Hqn & _ & _ & Ha & Hd & _ & Hseen);
    [apply Hinv|done|by apply idx_indexed; apply Hinv|done|done|done| |rewrite <- Hn; apply Hin|done|].
  { intros b [i Hi]%list_elem_of_lookup. apply (ci_exts _ _ Hinv).
    by destruct (path_lookup_store _ _ _ _ Hq0 Hi) as [[-> _] _ _ _]. }
  rewrite Htip, Hf in Hff. injection Hff as ->.
  assert (common ++ attached_blocks fork = q ++ [block]) as Hnew by (by rewrite Ha, Hqn, app_assoc).
  destruct (switch_to_idx _ _ _ _ _ _ _ _ _ _ common old Hsw Hd) as (Hi' & Hb' & He').
  { rewrite <- Hp. destruct (ci_index _ _ Hinv). subst txn. by split. }
  { rewrite <- Hp. eapply path_apart, Hinv. }
  { rewrite Hnew. by eapply path_apart. }
  exists common, old, new. rewrite Hnew. rewrite Hnew in Hi'.
  assert (forall r, path txn r -> path txn' r) as Hkeep'.
  { intros r Hr. eapply path_kept; [exact Hr|]. intros b. by apply in_store_same. }
  assert ((q ++ [block]) !! 0%nat = p !! 0%nat) as Hg'.
  { rewrite <- Hg. apply lookup_app_l. destruct q; [|cbn; lia]. by destruct p. }
  do 8 (split; [first [done|by rewrite <- Hqn]|]). split; cbn [db snapshot snap_tip_header].
  - by eapply best_consistent.
  - by apply Hkeep'.
  - done.
  - by rewrite last_snoc.
  - intros hash. rewrite (sb_header _ _ Hb'). split.
    + subst txn. cbn. rewrite lookup_insert_is_Some. intros [<-|[_ Hs]].
      * apply (switch_to_tip _ _ _ _ _ _ _ _ _ _ _ _ _ _) in Hsw as (_ & _ & x & -> & _). done.
      * apply He'. cbn. by apply (ci_exts _ _ Hinv).
    + intros [Hs|Hs]%He'.
      * subst txn. cbn in *. rewrite lookup_insert_is_Some. destruct (decide (block_hash block = hash)); [by left|].
        right. split; [done|]. by apply (ci_exts _ _ Hinv).
      * apply list_elem_of_fmap in Hs as (b & -> & Hbin).
        assert (b ∈ q ++ [block]) as [i Hbi]%list_elem_of_lookup by (rewrite <- Hnew; set_solver).
        by destruct (path_lookup_store _ _ _ _ Hqb Hbi) as [[-> _] _ _ _].
  - intros hash. rewrite (sb_header _ _ Hb'). intros (r & Hr & Hr0 & Hrl)%Hroot. exists r.
    split_and!; [auto|congruence|done].
Qed.

(** Every block keeps the invariant, whether it joins the main chain, stays
    beside it or is refused. *)
Lemma insert_block_inv s now block switch r s' messages p :
  chain_inv s p -> insertable (db s) block ->
  insert_block s now block switch = (r, s', messages) -> r <> Panic ->
  exists p', p' !! 0%nat = p !! 0%nat /\ chain_inv s' p'.
Proof.
  intros Hinv Hin Hi Hr. assert (r = Ok (Some true) -> block_exists (db s) (block_hash block) = false) as Hex.
  { unfold ChainService_insert_block in Hi. intros ->. by destruct (block_exists _ _). }
  apply insert_block_cases in Hi.
  destruct Hi as [Hk|r cache Hr'|txn ext epoch ne Hp Hle|txn ext epoch ne cache txn' fork r s' ms Hp Hlt Hsw Hb].
  - by exists p.
  - exists p. split; [done|]. by destruct Hinv as [[] ? ? ? ? ?].
  - exists p. split; [done|]. apply prepare_block_Ok in Hp as (-> & _). by apply side_inv; auto.
  - apply new_best_cases in Hb as [?|(? & ? & ? & _ & -> & -> & _)]; [done|].
    apply prepare_block_Ok in Hp as (Htxn & _).
    edestruct best_inv as (c & old & new & _ & _ & _ & _ & _ & _ & _ & Hg & Hc); eauto.
Qed.

(** A run of the chain service. *)
Inductive reached : ChainService -> ChainService -> Prop :=
| reached_here s : reached s s
| reached_block s now block switch r s' messages s'' :
    insertable (db s) block -> insert_block s now block switch = (r, s', messages) -> r <> Panic ->
    reached s' s'' -> reached s s''.

Lemma reached_inv s s' p :
  reached s s' -> chain_inv s p -> exists p', p' !! 0%nat = p !! 0%nat /\ chain_inv s' p'.
Proof.
  intros Hr. revert p. induction Hr as [s|s now block switch r s' ms s'' Hin Hi Hr _ IH]; intros p Hp; [eauto|].
  destruct (insert_block_inv _ _ _ _ _ _ _ _ Hp Hin Hi Hr) as (p' & Hg & Hp').
  destruct (IH p' Hp') as (p'' & Hg' & ?). exists p''. split; [congruence|done].
Qed.

(** C5: In every state of a run, whatever forks and refused blocks it had, the index
    is the chain of the tip: a path of stored blocks from the genesis block to the
    tip of the snapshot, each the parent of the next, one number per block; it
    answers by number and by hash alike, and no block of an abandoned branch is
    left in it.  Every stored block is still reachable from the genesis block. *)
Theorem index_is_chain s s' p :
  chain_inv s p -> reached s s' ->
  exists chain, path (db s') chain /\ chain !! 0%nat = p !! 0%nat /\
    BlockView_header <$> last chain = Some (snap_tip_header (snapshot s')) /\
    (forall n h, 0 <= n -> get_block_hash (db s') n = Some h <->
      exists b, chain !! Z.to_nat n = Some b /\ block_hash b = h) /\
    (forall h n, get_block_number (db s') h = Some n <-> get_block_hash (db s') n = Some h) /\
    (forall h, is_Some (get_block_header (db s') h) -> exists q, path (db s') q /\
      q !! 0%nat = p !! 0%nat /\ block_hash <$> last q = Some h).
Proof.
  intros Hp Hr. destruct (reached_inv _ _ _ Hr Hp) as (c & Hg & Hc). exists c.
  split_and!; [apply Hc|done|apply Hc| | |].
  - intros n h Hn. unfold get_block_hash. rewrite (idx_indexed _ _ (ci_path _ _ Hc) (ci_index _ _ Hc) n Hn).
    rewrite fmap_Some. naive_solver.
  - intros h n. destruct (ci_index _ _ Hc) as [I1 I2]. unfold get_block_number, get_block_hash.
    rewrite (I1 n h), (I2 h n). naive_solver.
  - intros h Hh. destruct (ci_rooted _ _ Hc h Hh) as (q & Hq & Hq0 & Hl). exists q. by rewrite <- Hg.
Qed.
End chain_inv.

(** ** The concrete run of the chain service *)

Lemma run_genesis_path : path (db run_service) [run_block0].
Proof.
  split; [repeat constructor; vm_compute; reflexivity|by intros [|] b; [intros [= <-]|]|by intros [|] ? ?].
Qed.

Lemma run_inv : chain_inv run_service [run_block0].
Proof.
  assert (col_header (db run_service) = {[ [0] := BlockView_header run_block0 ]}) as Hheader by (by vm_compute).
  assert (col_ext (db run_service) = {[ [0] := mkBlockExt 0 0x20000000 0 (Some true) [] ]}) as Hext by (by vm_compute).
  split; rewrite ?Hheader, ?Hext.
  - split; [done|by vm_compute|by vm_compute|]. eexists. split; [vm_compute; reflexivity|]. by split.
  - exact run_genesis_path.
  - assert (col_index (db run_service) = {[ 0 := [0] ]}) as Hindex by (by vm_compute).
    assert (col_index_hash (db run_service) = {[ [0] := 0 ]}) as Hhash by (by vm_compute).
    split; intros i x; rewrite ?Hindex, ?Hhash, lookup_singleton_Some; split.
    1,3: intros [<- <-]; exists run_block0; by split; [left|].
    all: by intros (b & ->%list_elem_of_singleton & <- & <-).
  - done.
  - intros hash. rewrite !lookup_singleton_is_Some. done.
  - intros hash <-%lookup_singleton_is_Some. exists [run_block0]. split; [exact run_genesis_path|done].
Qed.

(** A decidable part of [insertable]. *)
Definition is_child (s : Store) (b : BlockView) : bool :=
  match col_header s !! parent_hash (BlockView_raw b) with
  | Some h => (BlockView_number b =? HeaderView_number h + 1) && (BlockView_number b <? 2 ^ 64)
  | None => false
  end.
(** The run from the genesis block to the reorganisation. *)
Local Abbreviation run_reached := (reached (H:=numext_ref) (H0:=toy_hasher) (H1:=map_cache) (H2:=entry_cache)
  toy_scripts None toy_consensus (fun _ => [])).
Lemma run_step s b s' :
  BlockView_new_unchecked (BlockView_header b) (BlockView_uncles b) (BlockView_transactions b)
    (block_proposals (block_data b)) = b ->
  is_child (db s) b = true -> (run_insert s b DISABLE_ALL).1.1 = Ok (Some true) ->
  run_reached (run_insert s b DISABLE_ALL).1.2 s' -> run_reached s s'.
Proof.
  intros Hv Hc Hr Hs. eapply reached_block; [|exact (run_result _ _ Hr)|done|exact Hs].
  unfold is_child in Hc. destruct (col_header (db s) !! _) as [h|] eqn:Hh; [|done]. reflect_bools.
  split; [done|by exists h|done].
Qed.
Lemma run_reaches : run_reached run_service run_after.
Proof.
  unfold run_after, run_before. cbn [foldl].
  apply (run_step _ run_block1); [vm_compute; reflexivity..|].
  apply (run_step _ run_block2); [vm_compute; reflexivity..|].
  apply (run_step _ run_block21); [vm_compute; reflexivity..|].
  apply (run_step _ run_block22); [vm_compute; reflexivity..|]. apply reached_here.
Qed.

Lemma index_is_chain_witness :
  (forall h n, get_block_number (db run_after) h = Some n <-> get_block_hash (db run_after) n = Some h) /\
  get_block_hash (db run_after) 1 = Some [21].
Proof.
  destruct (index_is_chain _ _ _ _ run_service run_after [run_block0] run_inv run_reaches)
    as (c & _ & _ & _ & _ & Hh & _).
  split; [exact Hh|by vm_compute].
Defined.
