(* ===== verification/NodeStart.v ===== *)
(** * The start of the node: src/store/src/db.rs and src/shared/src/shared.rs

    On an empty database the genesis block of the consensus is written; on one
    that has a chain, the tip and the epoch are read back; the table of proposals
    is built from the blocks of the window.  The result is the state of the chain
    service with which all runs begin. *)

From S2P Require Import Prelude Capacity NumExt Difficulty Types Molecule Errors Epoch Cell Consensus Hashes Store Dao.
From S2P Require Import ProposalTable TransactionVerifier ContextualVerifier ChainCell Chain Reorg ChainIndex.

Section start.
Context `{NumExt} `{LruCache CacheEntry}.

(** The loop over the transactions of the genesis block. *)
Definition genesis_cells (s : Store) (genesis : BlockView) : Store :=
  foldl (fun s tx => update_cell_set s (tx_hash tx) (tx_meta (BlockView_header genesis) tx false)) s
    (BlockView_transactions genesis).

Definition ChainDB_init (s : Store) (consensus : Consensus) : outcome Error Store :=
  let genesis := genesis_block consensus in
  let epoch := genesis_epoch_ext consensus in
  difficulty ← HeaderView_difficulty (BlockView_header genesis);
  let ext := mkBlockExt (HeaderView_timestamp (BlockView_header genesis)) difficulty 0 (Some true) [] in
  let s := genesis_cells s genesis in
  let s := insert_block s genesis in
  let s := insert_block_ext s (block_hash genesis) ext in
  let s := insert_tip_header s (BlockView_header genesis) in
  let s := insert_current_epoch_ext s epoch in
  let s := insert_block_epoch_index s (block_hash genesis) (last_block_hash_in_previous_epoch epoch) in
  let s := insert_epoch_ext s (last_block_hash_in_previous_epoch epoch) epoch in
  attach_block s genesis.

Definition init_store (s : Store) (consensus : Consensus) : outcome Error (HeaderView * EpochExt * Store) :=
  match get_tip_header s ≫= fun header => (fun epoch => (header, epoch)) <$> get_current_epoch_ext s with
  | Some (tip_header, epoch) =>
      match get_block_hash s 0 with
      | Some hash =>
          if decide (hash = genesis_hash consensus) then Ok (tip_header, epoch, s)
          else Err (into (GenesisMismatch (genesis_hash consensus) hash))
      | None => Err (into Database)
      end
  | None =>
      s ← ChainDB_init s consensus;
      Ok (BlockView_header (genesis_block consensus), genesis_epoch_ext consensus, s)
  end.

(** The proposals of a stored block and its uncles. *)
Definition stored_proposals (s : Store) (hash : Byte32) : gset bytes :=
  let ids := list_to_set (default [] (get_block_proposal_txs_ids s hash)) in
  match get_block_uncles s hash with
  | Some us => ids ∪ list_to_set (uncles_data us ≫= uncle_proposals)
  | None => ids
  end.

Definition init_row (s : Store) (t : ProposalTable) (bn : Z) : ProposalTable :=
  match get_block_hash s bn with
  | Some hash => (ProposalTable_insert t bn (stored_proposals s hash)).2
  | None => t
  end.

Definition init_proposal_table (s : Store) (consensus : Consensus) :
    outcome Error (ProposalTable * ProposalView) :=
  tip ← expect (get_tip_header s);
  let tip_number := HeaderView_number tip in
  let window := tx_proposal_window consensus in
  let proposal_start := saturating_sub tip_number (farthest window) in
  let proposal_ids := foldl (init_row s) (ProposalTable_new window)
                        (seqZ proposal_start (tip_number + 1 - proposal_start)) in
  '(_, proposals, proposal_ids) ← ProposalTable_finalize proposal_ids (mkProposalView ∅ ∅) tip_number;
  Ok (proposal_ids, proposals).

(** [Shared::init] up to the services it starts: the state of the chain service. *)
Definition Shared_init (s : Store) (consensus : Consensus) (cache_size : nat) : outcome Error ChainService :=
  '(tip_header, epoch, s) ← init_store s consensus;
  ext ← ok_or (into Database) (get_block_ext s (header_hash tip_header));
  '(table, proposals) ← init_proposal_table s consensus;
  Ok (mkChainService s (mkSnapshot tip_header (total_difficulty ext) epoch s proposals) table
        (lru_new cache_size)).
End start.

(** ** The cell set of the genesis block *)

Definition put_cells (genesis : BlockView) (m : gmap Byte32 TransactionMeta) (txs : list TransactionView) :
    gmap Byte32 TransactionMeta :=
  foldl (fun m tx => <[tx_hash tx := tx_meta (BlockView_header genesis) tx false]> m) m txs.

Lemma genesis_cells_put s g :
  genesis_cells s g = set_col_cell_set s (put_cells g (col_cell_set s) (BlockView_transactions g)).
Proof.
  unfold genesis_cells. generalize (BlockView_transactions g). intros txs. revert s.
  induction txs as [|tx txs IH]; intros s; unfold put_cells; cbn [foldl]; [by destruct s|]; fold (put_cells g). by rewrite IH.
Qed.

(** Attaching adds the same cells when no transaction spends an output of another. *)
Lemma attach_cells_put g txs s :
  (forall o, o ∈ block_inputs txs -> op_tx_hash o ∉ tx_hash <$> txs /\ col_cell_set s !! op_tx_hash o = None) ->
  foldl (attach_tx g) s txs = set_col_cell_set s (put_cells g (col_cell_set s) txs).
Proof.
  revert s. induction txs as [|tx txs IH]; intros s Hin; unfold put_cells; cbn [foldl]; [by destruct s|]; fold (put_cells g).
  assert (foldl attach_input s (TransactionView_input_pts_iter tx) = s) as Hs.
  { assert (forall o, o ∈ TransactionView_input_pts_iter tx -> col_cell_set s !! op_tx_hash o = None) as Hno.
    { intros o Ho. apply Hin. rewrite block_inputs_cons, elem_of_app. by left. }
    clear IH Hin. induction (TransactionView_input_pts_iter tx) as [|o os IHo]; [done|]. cbn [foldl].
    assert (attach_input s o = s) as ->.
    { unfold attach_input, get_tx_meta. rewrite Hno; [done|by left]. }
    apply IHo. intros o' Ho'. apply Hno. by right. }
  unfold attach_tx at 2. rewrite Hs, IH; [done|]. intros o Ho.
  destruct (Hin o) as [Hh Hc]; [rewrite block_inputs_cons, elem_of_app; by right|].
  rewrite fmap_cons, not_elem_of_cons in Hh. split; [apply Hh|]. cbn. rewrite lookup_insert_ne; [done|].
  destruct Hh. congruence.
Qed.

(** ** Starting on an empty database *)

(** What is asked of the genesis block: it is the view of its parts, at height 0,
    and none of its transactions spends an output of another. *)
Record genesis_ok (consensus : Consensus) : Prop := {
  go_view : BlockView_new_unchecked (BlockView_header (genesis_block consensus))
    (BlockView_uncles (genesis_block consensus)) (BlockView_transactions (genesis_block consensus))
    (block_proposals (block_data (genesis_block consensus))) = genesis_block consensus;
  go_ok : view_ok (genesis_block consensus);
  go_number : BlockView_number (genesis_block consensus) = 0;
  go_hash : genesis_hash consensus = block_hash (genesis_block consensus);
  go_target : is_u32 (compact_target (BlockView_raw (genesis_block consensus)));
  go_spends o : o ∈ block_inputs (BlockView_transactions (genesis_block consensus)) ->
    op_tx_hash o ∉ tx_hash <$> BlockView_transactions (genesis_block consensus);
}.

Section fresh.
Context `{NumExt} `{NS : !NumExtSpec H} `{LruCache CacheEntry} (consensus : Consensus).
Hypothesis Hg : genesis_ok consensus.
Abbreviation genesis := (genesis_block consensus).

(** The rows that [attach_block] writes, and the cells, are those of a replay. *)
Lemma attach_is_replay r s :
  col_cell_set r = put_cells genesis ∅ (BlockView_transactions genesis) ->
  col_index r = ∅ -> col_index_hash r = ∅ -> col_uncles r = ∅ -> col_tx_info r = ∅ ->
  attach_block (E:=Error) r genesis = Ok s ->
  attach_main (E:=Error) (blank s) genesis = Ok s.
Proof.
  intros Hc R1 R2 R3 R4 Hs. unfold attach_block in Hs. rewrite R1, R2, R3, R4 in Hs.
  apply bind_Ok in Hs as (us & Hus & Hs). injection Hs as <-.
  unfold attach_main, attach_block. rewrite Hus. step. f_equal. unfold attach_block_cell.
  set (s1 := set_main_chain (blank _) _ _ _ _).
  assert (col_cell_set s1 = ∅) as H1 by done.
  rewrite (attach_cells_put genesis (BlockView_transactions genesis) s1), H1.
  - subst s1. rewrite <- Hc. by destruct r.
  - intros o Ho. rewrite H1, lookup_empty. split; [by apply Hg|done].
Qed.

Lemma init_fresh :
  exists s, ChainDB_init empty_store consensus = Ok s /\ attach_main (E:=Error) (blank s) genesis = Ok s /\
    col_header s = {[ block_hash genesis := BlockView_header genesis ]} /\
    col_body s = {[ block_hash genesis := BlockView_transactions genesis ]} /\
    col_block_uncle s = {[ block_hash genesis := BlockView_uncles genesis ]} /\
    col_proposal_ids s = {[ block_hash genesis := block_proposals (block_data genesis) ]} /\
    (exists ext, col_ext s = {[ block_hash genesis := ext ]} /\ verified ext = Some true) /\
    col_index s = {[ 0 := block_hash genesis ]} /\ col_index_hash s = {[ block_hash genesis := 0 ]} /\
    meta_tip s = Some (block_hash genesis).
Proof.
  unfold ChainDB_init, HeaderView_difficulty.
  destruct (compact_to_difficulty_Ok (E:=Error) _ (go_target _ Hg)) as (d & Hd & _).
  change (compact_target (BlockView_raw genesis)) with (compact_target (HeaderView_raw (BlockView_header genesis))) in Hd.
  rewrite Hd. step. rewrite genesis_cells_put.
  destruct (view_uncles_Ok (E:=Error) _ (go_ok _ Hg)) as (us & Hus & _).
  set (r := insert_epoch_ext _ _ _).
  assert (attach_block (E:=Error) r genesis = Ok (set_main_chain r (<[0 := block_hash genesis]> ∅)
    (<[block_hash genesis := 0]> ∅) (foldl (fun m u => <[uncle_hash u := UncleBlockView_header u]> m) ∅ us)
    (foldl (fun m '(index, h) => <[h := mkTransactionInfo (block_hash genesis) 0
      (HeaderView_epoch (BlockView_header genesis)) index]> m) ∅ (enumerate (block_tx_hashes genesis))))) as Ha.
  { unfold attach_block. rewrite Hus, (go_number _ Hg). reflexivity. }
  rewrite Ha. eexists. split; [reflexivity|]. split.
  { apply (attach_is_replay r).
    6: exact Ha. all: unfold r; cbn; reflexivity. }
  cbn. rewrite !insert_empty. split_and!; try reflexivity. by eexists.
Qed.

(** The table of a chain that has the genesis block only. *)
Lemma fresh_table s :
  col_index s = {[ 0 := block_hash genesis ]} -> get_tip_header s = Some (BlockView_header genesis) ->
  window_wf (tx_proposal_window consensus) ->
  exists t v, init_proposal_table s consensus = Ok (t, v).
Proof.
  intros Hi Ht [Hc Hf]. unfold init_proposal_table. rewrite Ht. step.
  change (HeaderView_number (BlockView_header genesis)) with (BlockView_number genesis). rewrite (go_number _ Hg).
  set (t := foldl _ _ _).
  assert (proposal_window t = tx_proposal_window consensus) as Hw.
  { subst t. generalize (seqZ (saturating_sub 0 (farthest (tx_proposal_window consensus)))
      (0 + 1 - saturating_sub 0 (farthest (tx_proposal_window consensus)))). intros l.
    change (tx_proposal_window consensus) with (proposal_window (ProposalTable_new (tx_proposal_window consensus))) at 2.
    generalize (ProposalTable_new (tx_proposal_window consensus)). induction l as [|n l IH]; intros t; [done|].
    cbn [foldl]. rewrite IH. unfold init_row. by destruct (get_block_hash s n). }
  unfold ProposalTable_finalize. rewrite Hw. unfold u64_add. rewrite fit_in_range by zlia. step.
  rewrite (proj2 (Z.leb_le _ _)) by lia. step. by eexists _, _.
Qed.

(** The node starts: the chain service has the genesis block as its main chain. *)
Lemma start_fresh_Ok size :
  window_wf (tx_proposal_window consensus) ->
  exists s, Shared_init empty_store consensus size = Ok s /\ chain_inv s [genesis] /\
    replays (db s) [genesis] /\ snap_epoch_ext (snapshot s) = genesis_epoch_ext consensus.
Proof.
  intros Hw. destruct init_fresh as (s & Hs & Ha & Hh & Hb & Hu & Hp & (ext & He & Hv) & Hi & Hih & Ht).
  assert (get_tip_header s = Some (BlockView_header genesis)) as Htip.
  { unfold get_tip_header, get_block_header. rewrite Ht, Hh. cbn. apply lookup_singleton_eq. }
  destruct (fresh_table s Hi Htip Hw) as (t & v & Htv).
  assert (init_store empty_store consensus = Ok (BlockView_header genesis, genesis_epoch_ext consensus, s)) as His.
  { unfold init_store. change (get_tip_header empty_store) with (@None HeaderView). by rewrite Hs. }
  unfold Shared_init. rewrite His. step.
  assert (get_block_ext s (header_hash (BlockView_header genesis)) = Some ext) as Hext.
  { unfold get_block_ext. rewrite He. apply lookup_singleton_eq. }
  rewrite Hext. step. rewrite Htv. step. eexists. split; [reflexivity|].
  assert (path s [genesis]) as Hpath.
  { split.
    - repeat constructor; rewrite ?Hh, ?Hb, ?Hu, ?Hp; try apply lookup_singleton_eq. apply Hg.
    - intros [|i] b; [|done]. cbn. intros [= <-]. apply Hg.
    - intros [|i] b b'; done. }
  split_and!; [|unfold replays; cbn [db try_fold]; rewrite Ha; reflexivity|done]. split; cbn; try done.
  - split; cbn; [done|done|by rewrite <- Htip; unfold get_tip_header; rewrite Ht|].
    exists ext. unfold get_block_ext. by rewrite He, lookup_singleton_eq.
  - split; intros i x; rewrite ?Hi, ?Hih, lookup_singleton_Some; split.
    + intros [<- <-]. exists genesis. split_and!; [by left|by apply Hg|done].
    + intros (b & ->%list_elem_of_singleton & <- & <-). by rewrite (go_number _ Hg).
    + intros [<- <-]. exists genesis. split_and!; [by left|done|by apply Hg].
    + intros (b & ->%list_elem_of_singleton & <- & <-). by rewrite (go_number _ Hg).
  - intros hash. by rewrite Hh, He, !lookup_singleton_is_Some.
  - intros hash. rewrite Hh, lookup_singleton_is_Some. intros <-. by exists [genesis].
Qed.
End fresh.
