(* ===== verification/ChainSafety.v ===== *)
(** * The ledger of the main chain

    A ledger is a list of transactions, none committed twice, each spending
    outputs that earlier ones made and none spent.  From a fresh start of the node
    (src/shared/src/shared.rs) and through any run of [insert_block]
    (src/chain/src/chain.rs), whatever forks it had, the transactions of the main
    chain are a ledger, and the cell set of the store is exactly the set of its
    unspent outputs. *)

From S2P Require Import Prelude Capacity NumExt Rational Difficulty Types Molecule BlockCodec.
From S2P Require Import Errors Epoch Cell Consensus Hashes Store Dao Reward ProposalTable.
From S2P Require Import HeaderVerifier BlockVerifier UnclesVerifier TransactionVerifier.
From S2P Require Import ContextualVerifier ChainCell Chain Reorg ChainIndex NodeStart.

(** ** Ledgers *)

(** [o] is an output of a transaction of [T]. *)
Definition made (T : list TransactionView) (o : OutPoint) : Prop :=
  exists tx, tx ∈ T /\ tx_hash tx = op_tx_hash o /\
    (Z.to_nat (op_index o) < length (TransactionView_outputs tx))%nat.
Definition unspent (T : list TransactionView) (o : OutPoint) : Prop :=
  made T o /\ o ∉ T ≫= spent_inputs.

Inductive ledger : list TransactionView -> Prop :=
| ledger_nil : ledger []
| ledger_tx T tx :
    ledger T -> tx_hash tx ∉ tx_hash <$> T -> NoDup (spent_inputs tx) ->
    Forall (unspent T) (spent_inputs tx) -> ledger (T ++ [tx]).

Lemma made_hash T o : made T o -> op_tx_hash o ∈ tx_hash <$> T.
Proof. intros (tx & Htx & <- & _). by apply list_elem_of_fmap_2. Qed.
Lemma made_app T T' o : made (T ++ T') o <-> made T o \/ made T' o.
Proof. unfold made. setoid_rewrite elem_of_app. naive_solver. Qed.
Lemma made_singleton tx o :
  made [tx] o <-> tx_hash tx = op_tx_hash o /\ (Z.to_nat (op_index o) < length (TransactionView_outputs tx))%nat.
Proof. unfold made. setoid_rewrite list_elem_of_singleton. naive_solver. Qed.
Lemma spent_app (T T' : list TransactionView) o :
  o ∈ (T ++ T') ≫= spent_inputs <-> o ∈ T ≫= spent_inputs \/ o ∈ T' ≫= spent_inputs.
Proof. by rewrite bind_app, elem_of_app. Qed.
Lemma spent_singleton tx : [tx] ≫= spent_inputs = spent_inputs tx.
Proof. apply app_nil_r. Qed.

Lemma ledger_prefix T T' : ledger (T ++ T') -> ledger T.
Proof.
  induction T' as [|tx T' IH] using rev_ind; [by rewrite app_nil_r|].
  rewrite app_assoc. intros Hl. inversion Hl as [Hn|T0 tx0 H0 _ _ _ Heq].
  - by destruct (app_cons_not_nil (T ++ T') [] tx).
  - apply app_inj_tail in Heq as [-> _]. by apply IH.
Qed.

(** The inputs of a ledger are outputs of it. *)
Lemma ledger_made T o : ledger T -> o ∈ T ≫= spent_inputs -> made T o.
Proof.
  induction 1 as [|T tx Hl IH _ _ Hu]; [intros Ho; by apply not_elem_of_nil in Ho|].
  rewrite spent_app, spent_singleton, made_app. intros [Ho|Ho]; left; [by apply IH|].
  rewrite Forall_forall in Hu. by apply Hu.
Qed.

Lemma ledger_hashes T : ledger T -> NoDup (tx_hash <$> T).
Proof.
  induction 1 as [|T tx Hl IH Hh _ _]; [constructor|]. rewrite fmap_app. apply NoDup_app.
  split_and!; [done| |apply NoDup_singleton]. intros h Hin ->%list_elem_of_singleton. done.
Qed.

(** No output is spent twice. *)
Lemma ledger_spent T : ledger T -> NoDup (T ≫= spent_inputs).
Proof.
  induction 1 as [|T tx Hl IH _ Hn Hu]; [constructor|]. rewrite bind_app, spent_singleton.
  apply NoDup_app. split_and!; [done| |done]. intros o Ho Ho'. rewrite Forall_forall in Hu.
  by apply (Hu o Ho').
Qed.

(** ** The cell set *)

Definition live (s : Store) (o : OutPoint) : Prop :=
  exists m, col_cell_set s !! op_tx_hash o = Some m /\
    dead_cell m !! Z.to_nat (op_index o) = Some false.

(** The cell set is that of the unspent outputs, and knows no other transaction. *)
Record unspent_set (T : list TransactionView) (s : Store) : Prop := {
  us_live o : 0 <= op_index o -> live s o <-> unspent T o;
  us_known h : is_Some (col_cell_set s !! h) -> h ∈ tx_hash <$> T;
}.

(** What is not spent stays. *)
Lemma attach_entry_keeps m L i :
  dead_cell m !! i = Some false -> i ∉ L ->
  exists m', foldl attach_idx (Some m) L = Some m' /\ dead_cell m' !! i = Some false.
Proof.
  revert m. induction L as [|j L IH]; intros m Hm Hi; cbn [foldl]; [by exists m|].
  apply not_elem_of_cons in Hi as [Hj Hi]. cbn [attach_idx]. rewrite set_dead_mark.
  assert (dead_cell (set_dead_cell m (mark true [j] (dead_cell m))) !! i = Some false) as Hd.
  { cbn [dead_cell set_dead_cell]. rewrite mark_lookup, decide_False; [done|]. by rewrite list_elem_of_singleton. }
  unfold TransactionMeta_all_dead. rewrite (live_not_all_dead _ i Hd). by apply IH.
Qed.

Lemma elem_of_indices h i os : i ∈ indices h os <-> exists o, o ∈ os /\ op_tx_hash o = h /\ Z.to_nat (op_index o) = i.
Proof.
  unfold indices. rewrite list_elem_of_fmap. setoid_rewrite list_elem_of_filter. naive_solver.
Qed.

Lemma attach_tx_lookup b s tx h :
  col_cell_set (attach_tx b s tx) !! h =
  if decide (h = tx_hash tx) then Some (tx_meta (BlockView_header b) tx false)
  else foldl attach_idx (col_cell_set s !! h) (indices h (TransactionView_input_pts_iter tx)).
Proof.
  unfold attach_tx, update_cell_set. cbn [col_cell_set set_col_cell_set]. case_decide as Hh.
  - subst h. by rewrite lookup_insert_eq.
  - by rewrite lookup_insert_ne, attach_inputs_lookup by done.
Qed.

Lemma live_attach_tx b s tx o :
  0 <= op_index o -> Forall (fun o => 0 <= op_index o) (TransactionView_input_pts_iter tx) ->
  live (attach_tx b s tx) o <->
  if decide (op_tx_hash o = tx_hash tx)
  then (Z.to_nat (op_index o) < length (TransactionView_outputs tx))%nat
  else live s o /\ o ∉ TransactionView_input_pts_iter tx.
Proof.
  intros Ho Hin. rewrite Forall_forall in Hin. unfold live. rewrite attach_tx_lookup. case_decide as Hh.
  - assert (dead_cell (tx_meta (BlockView_header b) tx false) =
      replicate (length (TransactionView_outputs tx)) false) as Hd.
    { unfold tx_meta. by case_match. }
    split; [intros (m & [= <-] & Hm)|intros Hl; eexists; split; [reflexivity|]]; rewrite Hd in *.
    + by apply lookup_replicate in Hm as [_ ?].
    + by apply lookup_replicate_2.
  - split.
    + intros (m & Hm & Hd). destruct (attach_entry_live _ _ _ _ Hm Hd) as (m0 & H0 & Hd0 & Hi).
      split; [by exists m0|]. intros Hoin. apply Hi, elem_of_indices. by exists o.
    + intros [(m & Hm & Hd) Hni]. rewrite Hm. apply attach_entry_keeps; [done|].
      intros (o' & Ho' & Hh' & Hi')%elem_of_indices. apply Hni. specialize (Hin o' Ho').
      enough (o = o') as -> by done. destruct o, o'; cbn in *. f_equal; [congruence|lia].
Qed.

(** ** Transactions *)

(** What is asked of the transactions of a run: they have inputs (EmptyVerifier),
    the indices of the inputs are unsigned, and their hashes are not zero. *)
Record tx_ok (tx : TransactionView) : Prop := {
  tk_inputs : TransactionView_inputs tx <> [];
  tk_index : Forall (fun o => 0 <= op_index o) (TransactionView_input_pts_iter tx);
  tk_hash : Byte32_is_zero (tx_hash tx) = false;
}.

Lemma made_nonzero T o : Forall tx_ok T -> made T o -> Byte32_is_zero (op_tx_hash o) = false.
Proof. intros HT (tx & Htx & <- & _). rewrite Forall_forall in HT. by apply HT. Qed.

(** One transaction: the cell set follows the ledger. *)
Lemma attach_tx_unspent b s T tx :
  ledger (T ++ [tx]) -> Forall tx_ok (T ++ [tx]) -> unspent_set T s -> unspent_set (T ++ [tx]) (attach_tx b s tx).
Proof.
  intros Hl [HT [Htx _]%Forall_cons]%Forall_app [Hlive Hknown].
  pose proof (ledger_prefix _ _ Hl) as HlT. inversion Hl as [Hn|T0 tx0 _ Hfresh Hnd Hu Heq].
  { by destruct (app_cons_not_nil T [] tx). }
  apply app_inj_tail in Heq as [-> ->]. rewrite Forall_forall in Hu. split.
  - intros o Ho. rewrite live_attach_tx by (done || apply Htx). unfold unspent.
    rewrite made_app, made_singleton, spent_app, spent_singleton. case_decide as Hh.
    + split; [|intros [[Hm%made_hash|[_ Hm]] _]; [by rewrite Hh in Hm|done]]. intros Hlen.
      split; [by right|]. intros [Hs%ledger_made%made_hash|Hs]; [by rewrite Hh in Hs|done|].
      destruct (Hu o Hs) as [Hm%made_hash _]. by rewrite Hh in Hm.
    + rewrite (Hlive o Ho). unfold unspent, spent_inputs at 3.
      destruct (TransactionView_is_cellbase tx) eqn:Hcb.
      * apply cellbase_inputs in Hcb as (z & -> & Hz). rewrite list_elem_of_singleton.
        assert (made T o -> o <> z) as Hne by (intros Hm ->; by rewrite (made_nonzero T z HT Hm) in Hz).
        split; [intros [[Hm Hn] _]; split; [by left|by intros [?|?%not_elem_of_nil]]|].
        intros [[Hm|[? _]] Hn]; [|by destruct Hh]. split; [split; [done|]|by apply Hne]. by intros ?; apply Hn; left.
      * split; [intros [[Hm Hn] Hi]; split; [by left|by intros [?|?]]|].
        intros [[Hm|[? _]] Hn]; [|by destruct Hh]. split; [split; [done|]|]; intros ?; apply Hn; [by left|by right].
  - intros h. rewrite attach_tx_lookup, fmap_app, elem_of_app.
    case_decide as Hh; [subst h; right; by left|]. intros [m Hm]. left. apply Hknown.
    revert Hm. generalize (indices h (TransactionView_input_pts_iter tx)).
    destruct (col_cell_set s !! h) as [m0|]; [by eexists|]. by induction l.
Qed.

(** ** Blocks *)

(** The transactions of a block over a ledger: each input is of an earlier
    transaction of the block, or of the ledger and not spent there; none is spent
    twice; a cellbase has an input that no other has. *)
Record extends (T txs : list TransactionView) : Prop := {
  ex_hashes : NoDup (tx_hash <$> txs);
  ex_spent : NoDup (txs ≫= spent_inputs);
  ex_inputs l tx r o : txs = l ++ tx :: r -> o ∈ spent_inputs tx -> made l o \/ unspent T o;
  ex_cellbase t tx : t ∈ T -> tx ∈ txs -> TransactionView_is_cellbase t = true ->
    TransactionView_is_cellbase tx = true -> TransactionView_inputs t <> TransactionView_inputs tx;
}.

(** Transactions of the same hash have the same inputs. *)
Definition collision_free (U : TransactionView -> Prop) : Prop :=
  forall t t', U t -> U t' -> tx_hash t = tx_hash t' -> TransactionView_inputs t = TransactionView_inputs t'.

Section block.
Context (U : TransactionView -> Prop).
Hypothesis HU : forall t, U t -> tx_ok t.
Hypothesis Hfree : collision_free U.

Lemma U_ok T : Forall U T -> Forall tx_ok T.
Proof. intros HT. eapply Forall_impl; [exact HT|auto]. Qed.

(** The inputs of a transaction tell it from those of the ledger. *)
Lemma inputs_fresh T l tx :
  ledger (T ++ l) -> Forall U (T ++ l) -> U tx -> Forall (unspent (T ++ l)) (spent_inputs tx) ->
  (forall t, t ∈ T -> TransactionView_is_cellbase t = true -> TransactionView_is_cellbase tx = true ->
    TransactionView_inputs t <> TransactionView_inputs tx) ->
  tx_hash tx ∉ tx_hash <$> T.
Proof.
  intros Hl HUT HUtx Hu Hcb (t & Heq & Ht)%list_elem_of_fmap.
  pose proof (U_ok _ HUT) as Hok. assert (U t) as HUt.
  { rewrite Forall_app in HUT. destruct HUT as [HT _]. rewrite Forall_forall in HT. auto. }
  pose proof (Hfree tx t HUtx HUt Heq) as Hin.
  assert (TransactionView_input_pts_iter tx = TransactionView_input_pts_iter t) as Hpts.
  { unfold TransactionView_input_pts_iter. by rewrite Hin. }
  assert (forall o, o ∈ spent_inputs t -> o ∈ (T ++ l) ≫= spent_inputs) as Hspent.
  { intros o Ho. apply spent_app. left. apply list_elem_of_bind. by exists t. }
  assert (exists o, o ∈ TransactionView_input_pts_iter tx) as [o Ho].
  { unfold TransactionView_input_pts_iter. pose proof (tk_inputs _ (HU tx HUtx)) as Hne.
    destruct (TransactionView_inputs tx) as [|i ins]; [done|]. exists (previous_output i). by left. }
  assert (forall o, made (T ++ l) o -> Byte32_is_zero (op_tx_hash o) = false) as Hnz
    by (intros; by eapply made_nonzero).
  rewrite Forall_forall in Hu. unfold spent_inputs in Hu, Hspent.
  destruct (TransactionView_is_cellbase tx) eqn:Hctx, (TransactionView_is_cellbase t) eqn:Hct.
  - by apply (Hcb t Ht Hct eq_refl).
  - apply cellbase_inputs in Hctx as (z & Hz & Hzero). rewrite <- Hpts, Hz in Hspent.
    rewrite Hnz in Hzero; [done|]. apply ledger_made; [done|]. apply Hspent. by left.
  - apply cellbase_inputs in Hct as (z & Hz & Hzero). rewrite Hpts, Hz in Hu.
    rewrite Hnz in Hzero; [done|]. apply Hu. by left.
  - destruct (Hu o Ho) as [_ Hno]. apply Hno, Hspent. by rewrite <- Hpts.
Qed.

Lemma extends_ledger T txs :
  ledger T -> extends T txs -> Forall U (T ++ txs) -> ledger (T ++ txs).
Proof.
  intros HlT [Hh Hs Hin Hcb] HUT.
  enough (forall l r, txs = l ++ r -> ledger (T ++ l)) as Hall by (apply (Hall txs []); by rewrite app_nil_r).
  induction l as [|tx l IH] using rev_ind; intros r Hr; [by rewrite app_nil_r|].
  rewrite <- app_assoc in Hr. cbn in Hr. specialize (IH _ Hr). rewrite app_assoc.
  assert (NoDup (l ≫= spent_inputs) /\ NoDup (spent_inputs tx) /\
    forall o, o ∈ spent_inputs tx -> o ∉ l ≫= spent_inputs) as (_ & Hnd & Hapart).
  { rewrite Hr, bind_app, bind_cons, NoDup_app, NoDup_app in Hs. set_solver. }
  assert (tx_hash tx ∉ tx_hash <$> l) as Hl.
  { rewrite Hr, fmap_app, NoDup_app in Hh. intros Hx. apply (proj1 (proj2 Hh) _ Hx). by left. }
  assert (Forall (unspent (T ++ l)) (spent_inputs tx)) as Hu.
  { apply Forall_forall. intros o Ho. unfold unspent. rewrite made_app, spent_app. specialize (Hapart o Ho).
    destruct (Hin _ _ _ o Hr Ho) as [Hm|[Hm Hns]]; [|by split; [left|intros [?|?]]].
    split; [by right|]. intros [Hx|?]; [|done]. apply ledger_made, made_hash in Hx; [|done].
    apply ledger_hashes in IH. rewrite fmap_app, NoDup_app in IH.
    by apply (proj1 (proj2 IH) _ Hx), made_hash. }
  rewrite Hr, app_assoc in HUT. apply Forall_app in HUT as [HUT [HUtx _]%Forall_cons].
  constructor; [done| |done|done]. rewrite fmap_app, not_elem_of_app. split; [|done].
  apply (inputs_fresh T l); try done. intros t Ht Hct Hctx. apply Hcb; [done| |done|done].
  rewrite Hr. set_solver.
Qed.

Lemma attach_txs_unspent b s T txs :
  ledger (T ++ txs) -> Forall U (T ++ txs) -> unspent_set T s ->
  unspent_set (T ++ txs) (foldl (attach_tx b) s txs).
Proof.
  intros Hl HUT%U_ok Hs.
  enough (forall l r, txs = l ++ r -> unspent_set (T ++ l) (foldl (attach_tx b) s l)) as Hall
    by (apply (Hall txs []); by rewrite app_nil_r).
  induction l as [|tx l IH] using rev_ind; intros r Hr; [by rewrite app_nil_r|].
  rewrite <- app_assoc in Hr. cbn in Hr. rewrite foldl_app, app_assoc. cbn [foldl].
  rewrite Hr, cons_middle, !app_assoc in Hl, HUT. apply ledger_prefix in Hl. apply Forall_app in HUT as [HUT _].
  apply attach_tx_unspent; [done|done|]. by eapply IH.
Qed.
End block.

(** ** Verified blocks *)

(** The block is the view of its parts, with uncles as the codec gives them. *)
Record block_ok (U : TransactionView -> Prop) (b : BlockView) : Prop := {
  bo_view : view_ok b;
  bo_txs : Forall U (BlockView_transactions b);
  bo_uncles us : UncleBlockVecView_into_iter (E:=Error) (BlockView_uncles b) = Ok us ->
    Forall (fun u => 0 <= number (UncleBlockView_raw u)) us /\ zlen us < 2 ^ 32;
  bo_number : is_u64 (BlockView_number b);
}.

Lemma view_data b i tx :
  BlockView_transactions b !! i = Some tx -> block_transactions (block_data b) !! i = Some (tx_data tx).
Proof.
  unfold BlockView_transactions. intros ([[d h] w] & -> & Hz)%list_lookup_fmap_Some.
  apply lookup_zip_with_Some in Hz as ([d' h'] & w' & [= <- <- <-] & Hz & _).
  by apply lookup_zip_with_Some in Hz as (d'' & h'' & [= <- <-] & Hd & _).
Qed.

Lemma cell_provider_indices b p :
  BlockCellProvider_new b = Ok p ->
  output_indices p = collect_map (indices_of (BlockView_transactions b)) /\ bcp_block p = b.
Proof. unfold BlockCellProvider_new. intros (? & _ & [= <-])%bind_Ok. done. Qed.

(** An output that the block or the store gives is of an earlier transaction of
    the block, or live. *)
Lemma overlay_live calc b p s l tx r o m :
  BlockCellProvider_new b = Ok p -> NoDup (tx_hash <$> BlockView_transactions b) ->
  BlockView_transactions b = l ++ tx :: r -> o ∈ TransactionView_input_pts_iter tx ->
  OverlayCellProvider_cell (BlockCellProvider_cell calc p) (store_cell calc s) o false =
    Ok (CellStatus_Live m) -> made l o \/ live s o.
Proof.
  intros Hp Hnd Hb Ho Hm. destruct (cell_provider_indices b p Hp) as [Hidx Hblk].
  unfold OverlayCellProvider_cell, BlockCellProvider_cell in Hm. rewrite Hblk, Hidx in Hm.
  destruct (collect_map _ !! op_tx_hash o) as [i|] eqn:Hi; [|right; by apply store_cell_live in Hm].
  apply indices_lookup in Hi as (tx' & Hi & Hh); [|done].
  apply bind_Ok in Hm as (st & Hst & Hm). apply bind_Ok in Hst as (t & _ & Hst).
  apply bind_Ok in Hst as (t' & _ & Hst). unfold BlockView_output in Hst.
  rewrite (view_data b i tx' Hi) in Hst. cbn [mbind option_bind] in Hst.
  destruct (outputs _ !! _) as [out|] eqn:Hout; [|injection Hst as <-; right; by apply store_cell_live in Hm].
  left. assert (i < length l)%nat as Hlt.
  { eapply (proj1 (BlockCellProvider_new_ordered b Hnd) (ex_intro _ p Hp) (length l) i tx tx' o).
    - rewrite Hb. by apply list_lookup_middle.
    - done.
    - apply elem_of_app. by right.
    - done. }
  exists tx'. split_and!; [|done|by eapply lookup_lt_Some].
  rewrite Hb, lookup_app_l in Hi by done. by eapply list_elem_of_lookup_2.
Qed.

Section verified.
Context `{NumExt} `{Hasher} `{LruCache Z} `{LruCache CacheEntry}.
Context (script_verify : Store -> ResolvedTransaction -> Z -> outcome Error Z).
Context (system_cell : option (gmap CellDep ResolvedDep)) (consensus : Consensus).
Context (order : BlockView -> list nat).
Context (U : TransactionView -> Prop).
Hypothesis HU : forall t, U t -> tx_ok t.
Hypothesis Hfree : collision_free U.

(** What the checks of [BlockVerifier] give, past the genesis block. *)
Record checked_block (b : BlockView) : Prop := {
  cb_ok : block_ok U b;
  cb_hashes : NoDup (tx_hash <$> BlockView_transactions b);
  cb_cellbase tx : tx ∈ BlockView_transactions b -> TransactionView_is_cellbase tx = true ->
    TransactionView_inputs tx = [CellInput_new_cellbase_input (BlockView_number b)];
}.

Lemma verified_checked b :
  block_ok U b -> BlockView_number b <> 0 -> BlockVerifier_verify consensus b = Ok tt -> checked_block b.
Proof.
  intros Hb Hn [_ _ Hc Hh _ _ _]%block_verifier_spec. split; [done|done|]. intros tx Htx Hcb.
  assert (BlockView_is_genesis b = false) as Hg by (by apply Z.eqb_neq).
  destruct (Hc Hg) as (cellbase & rest & Heq & Hv & Hrest). rewrite Heq in Htx.
  apply elem_of_cons in Htx as [->|Htx]; [apply Hv|]. rewrite Forall_forall in Hrest.
  by rewrite (Hrest tx Htx) in Hcb.
Qed.

Lemma resolve_extends b T s p resolved :
  checked_block b -> unspent_set T s -> BlockCellProvider_new b = Ok p ->
  resolve_block system_cell consensus s p b = Ok resolved ->
  (forall t, t ∈ T -> TransactionView_is_cellbase t = true ->
    TransactionView_inputs t <> [CellInput_new_cellbase_input (BlockView_number b)]) ->
  extends T (BlockView_transactions b).
Proof.
  intros [[Hv HUb _ _] Hnd Hcb] Hs Hp Hr Hc. unfold resolve_block in Hr. apply bind_Ok in Hr as ([rs seen] & Hr & _).
  apply resolve_transactions_Ok in Hr as (Hrs & Hsp & _ & _ & Hall). split; [done|done| |].
  - intros l tx r o Hb Ho. assert (o ∈ TransactionView_input_pts_iter tx) as Hin.
    { unfold spent_inputs in Ho. case_match; [by apply not_elem_of_nil in Ho|done]. }
    assert (tx ∈ BlockView_transactions b) as Htx by (rewrite Hb; set_solver).
    assert (U tx) as HUtx by (rewrite Forall_forall in HUb; auto).
    rewrite <- Hrs in Htx. apply list_elem_of_fmap in Htx as (rtx & -> & Hrtx). rewrite Forall_forall in Hall.
    destruct (Hall _ Hrtx) as [Hlive _]. apply list_elem_of_lookup in Ho as [i Hi].
    destruct (Forall2_lookup_l _ _ _ _ _ Hlive Hi) as (m & _ & Hm).
    destruct (overlay_live _ b p s l _ r o m Hp Hnd Hb Hin Hm) as [?|Hl]; [by left|right].
    apply (us_live _ _ Hs); [|done]. pose proof (tk_index _ (HU _ HUtx)) as Hidx.
    rewrite Forall_forall in Hidx. auto.
  - intros t tx Ht Htx Hct Hctx. rewrite (Hcb tx Htx Hctx). auto.
Qed.

(** *** The uncles *)

Lemma verify_block_checks s cache switch b resolved fees cache' :
  verify_block script_verify consensus order s cache switch b resolved = (Ok (Some fees), cache') ->
  contextual_checks s consensus resolved b (verification_switch switch) = Ok (Some tt).
Proof.
  unfold verify_block, ContextualBlockVerifier_verify.
  by destruct (contextual_checks _ _ _ _ _) as [[[]|]| |].
Qed.

Lemma contextual_uncles s resolved b switch :
  contextual_checks s consensus resolved b switch = Ok (Some tt) -> disable_uncles switch = false ->
  exists epoch, UnclesVerifier_verify (UncleVerifierContext_new s consensus epoch) b = Ok tt.
Proof.
  unfold contextual_checks. intros Hc Hu. rewrite Hu in Hc.
  apply bind_Ok in Hc as (parent & _ & Hc). apply bind_Ok in Hc as (epoch & _ & Hc).
  apply bind_Ok in Hc as ([] & _ & Hc). apply bind_Ok in Hc as ([] & Hv & _). by exists epoch.
Qed.

(** The uncles of a block that passes are new to the chain, each listed once. *)
Lemma uncles_fresh s b epoch :
  block_ok U b -> Z.of_nat (max_uncles_num consensus) < 2 ^ 32 ->
  UnclesVerifier_verify (UncleVerifierContext_new s consensus epoch) b = Ok tt ->
  NoDup (block_uncle_hashes b) /\ forall h, h ∈ block_uncle_hashes b -> col_uncles s !! h = None.
Proof.
  intros [Hv _ Hus Hnum] Hmax Hu. destruct (view_uncles_Ok (E:=Error) b Hv) as (us & Hi & Hh).
  destruct (Hus us Hi) as [Hn Hl].
  destruct (proj1 (UnclesVerifier_Ok (UncleVerifierContext_new s consensus epoch) b Hnum us Hi Hn Hl Hmax) Hu) as [_ Hu'].
  clear Hu. rewrite <- Hh. destruct Hu' as [->|(_ & _ & Hu)].
  { split; [constructor|]. intros h Hin. by apply not_elem_of_nil in Hin. }
  assert (forall i u, us !! i = Some u -> uncle_hash u ∉ uncle_hash <$> take i us /\
    col_uncles s !! uncle_hash u = None) as Hall.
  { intros i u Hiu. destruct (Hu i u Hiu). split; [done|]. rename select (double_inclusion _ _ = _) into Hd.
    cbn in Hd. unfold context_double_inclusion, is_uncle in Hd. apply orb_false_iff in Hd as [_ Hd].
    apply bool_decide_eq_false in Hd. by apply eq_None_not_Some. }
  split.
  - apply NoDup_alt. intros i j h (u & -> & Hiu)%list_lookup_fmap_Some (u' & Heq & Hju)%list_lookup_fmap_Some.
    assert (forall i j u u', (i < j)%nat -> us !! i = Some u -> us !! j = Some u' -> uncle_hash u <> uncle_hash u')
      as Hlt.
    { clear -Hall. intros i j u u' Hij Hi Hj Heq. destruct (Hall j u' Hj) as [Hx _]. apply Hx.
      rewrite <- Heq. apply list_elem_of_fmap_2, list_elem_of_lookup. exists i. by rewrite lookup_take_lt. }
    destruct (Nat.lt_trichotomy i j) as [?|[?|?]]; [|done|]; exfalso; by eapply Hlt.
  - intros h (u & -> & [i Hiu]%list_elem_of_lookup)%list_elem_of_fmap. by apply (Hall i u).
Qed.

Lemma foldl_uncles_known (us : list UncleBlockView) (m : gmap Byte32 HeaderView) h :
  h ∈ uncle_hash <$> us \/ is_Some (m !! h) ->
  is_Some (foldl (fun m u => <[uncle_hash u := UncleBlockView_header u]> m) m us !! h).
Proof.
  revert m. induction us as [|u us IH]; intros m; cbn [foldl]; [intros [Hx|?]; [by apply not_elem_of_nil in Hx|done]|].
  rewrite fmap_cons, elem_of_cons. intros Hx. apply IH. rewrite lookup_insert_is_Some.
  destruct (decide (uncle_hash u = h)); [by auto|]. destruct Hx as [[?|?]|?]; [congruence|by left|by right; right].
Qed.

Lemma attach_uncles_known p s s' h :
  Forall view_ok p -> try_fold (attach_main (E:=Error)) s p = Ok s' ->
  h ∈ uncles_of p \/ is_Some (col_uncles s !! h) -> is_Some (col_uncles s' !! h).
Proof.
  intros Hv. revert s. induction Hv as [|b p Hb Hv IH]; intros s Hs Hh; cbn [try_fold] in Hs.
  { injection Hs as <-. destruct Hh as [Hx|?]; [by apply not_elem_of_nil in Hx|done]. }
  apply bind_Ok in Hs as (s1 & H1' & Hs). apply (IH s1 Hs).
  unfold uncles_of in Hh. rewrite bind_cons, elem_of_app in Hh.
  enough (h ∈ block_uncle_hashes b \/ is_Some (col_uncles s !! h) -> is_Some (col_uncles s1 !! h)) by tauto.
  unfold attach_main, attach_block in H1'. destruct (view_uncles_Ok (E:=Error) b Hb) as (us & Hi & Hus).
  rewrite Hi in H1'. cbn in H1'. injection H1' as <-. unfold attach_block_cell.
  rewrite (attach_txs_same b (BlockView_transactions b)). cbn. rewrite <- Hus. apply foldl_uncles_known.
Qed.

(** *** Sound chains *)

Definition txs_of (p : list BlockView) : list TransactionView := p ≫= BlockView_transactions.
Definition state_of (p : list BlockView) (s : Store) : Prop :=
  try_fold (attach_main (E:=Error)) empty_store p = Ok s.

Record sound (p : list BlockView) : Prop := {
  so_checked : Forall checked_block p;
  so_ledger : ledger (txs_of p);
  so_uncles : NoDup (uncles_of p);
  so_spends l b r sl : p = l ++ b :: r -> state_of l sl -> spends sl [b];
}.

Lemma sound_prefix p q : sound (p ++ q) -> sound p.
Proof.
  intros [S1 S2 S3 S4]. apply Forall_app in S1 as [S1 _]. unfold txs_of in S2. rewrite bind_app in S2.
  unfold uncles_of in S3. rewrite bind_app in S3. split; [done|by eapply ledger_prefix| |].
  - by apply NoDup_app in S3 as [S3 _].
  - intros l b r sl ->. apply (S4 l b (r ++ q)). by rewrite <- app_assoc.
Qed.

(** A store that replays [p], but for its rest. *)
Lemma replays_state s p : replays s p <-> exists sl, state_of p sl /\ s = with_rest sl s.
Proof.
  unfold replays, state_of. change (blank s) with (with_rest empty_store s). rewrite attach_blocks_with. split.
  - intros (sl & Hs & ->)%fmap_Ok. by exists sl.
  - intros (sl & -> & ->). done.
Qed.
Lemma with_rest_back s r : with_rest (with_rest s r) s = s.
Proof. by destruct s. Qed.

Lemma sound_views p : sound p -> Forall view_ok p.
Proof. intros [S _ _ _]. eapply Forall_impl; [exact S|]. by intros b [[? _ _ _] _ _]. Qed.
Lemma sound_txs p : sound p -> Forall U (txs_of p).
Proof.
  intros [S _ _ _]. apply Forall_bind. eapply Forall_impl; [exact S|]. by intros b [[_ ? _ _] _ _].
Qed.

(** The cell set of a sound chain. *)
Lemma sound_unspent p s : sound p -> state_of p s -> unspent_set (txs_of p) s.
Proof.
  revert s. induction p as [|b p IH] using rev_ind; intros s Hp Hs.
  { injection Hs as <-. assert (col_cell_set empty_store = ∅) as He by done. split.
    - intros o _. unfold live. rewrite He, lookup_empty. split; [by intros (m & ? & _)|].
      intros [(tx & Hx & _) _]. by apply not_elem_of_nil in Hx.
    - intros h. rewrite He, lookup_empty. by intros []. }
  unfold state_of in Hs. rewrite try_fold_app in Hs. apply bind_Ok in Hs as (s1 & H1' & Hb).
  cbn [try_fold] in Hb. apply bind_Ok in Hb as (s2 & Hb & [= <-]).
  specialize (IH s1 (sound_prefix _ _ Hp) H1'). pose proof (so_ledger _ Hp) as Hl. pose proof (sound_txs _ Hp) as HUp.
  unfold txs_of in *. rewrite bind_app, bind_singleton in *.
  unfold attach_main, attach_block in Hb. apply bind_Ok in Hb as (x & Hx & [= <-]).
  apply bind_Ok in Hx as (us & _ & [= <-]). unfold attach_block_cell.
  apply (attach_txs_unspent U HU); [done|done|]. destruct IH as [I1 I2]. by split.
Qed.
End verified.
