(* ===== verification/PoolEntry.v ===== *)
(** * Entries of the transaction pool: src/tx-pool/src/component/entry.rs,
    src/tx-pool/src/component/mod.rs, the keys of
    src/tx-pool/src/component/container.rs and src/util/fee-estimator/src/fee_rate.rs

    An entry carries the weight (size, cycles, fee, count) of a transaction
    together with its ancestors in the pool; the pool is sorted by a key made of
    fee rates, which are compared without division. *)

From Stdlib Require Import SpecFloat QArith Qminmax.
From S2P Require Import Prelude Capacity Types Errors.

Local Open Scope Z_scope.

(** ** Saturating arithmetic on u64 and usize *)

Definition u64_max : Z := 2 ^ 64 - 1.
Definition saturating_add (a b : Z) : Z := Z.min u64_max (a + b).
Definition saturating_mul (a b : Z) : Z := Z.min u64_max (a * b).

(** ** Fee rates *)

Definition KB : Z := 1000.
(** [FeeRate] is a [u64], in shannons per kilobyte. *)
Definition FeeRate_fee (self size : Z) : Capacity := saturating_mul self size / KB.
Definition FeeRate_calculate (fee : Capacity) (vbytes : Z) : Z :=
  if vbytes =? 0 then 0 else saturating_mul fee KB / vbytes.

(** ** Virtual bytes *)

(** [x as f64], rounded to the nearest even. *)
Definition u64_as_f64 (x : Z) : spec_float := binary_normalize 53 1024 x 0 false.
(** [x as u64] of a number that is not negative. *)
Definition f64_as_u64 (x : spec_float) : Z :=
  match x with
  | S754_finite false m e => Z.min u64_max (Z.shiftl (Zpos m) e)
  | S754_infinity false => u64_max
  | _ => 0
  end.
(** The double next to 0.00017. *)
Definition DEFAULT_BYTES_PER_CYCLES : spec_float := S754_finite false 6271892985061248 (-65).
Definition get_transaction_virtual_bytes (tx_size cycles : Z) : Z :=
  Z.max tx_size (f64_as_u64 (SFmul 53 1024 (u64_as_f64 cycles) DEFAULT_BYTES_PER_CYCLES)).

(** ** Entries *)

Record TxEntry := mkTxEntry {
  te_transaction : TransactionView;
  te_cycles : Z;
  te_size : Z;
  te_fee : Capacity;
  ancestors_size : Z;
  ancestors_fee : Capacity;
  ancestors_cycles : Z;
  ancestors_count : Z;
  related_out_points : list OutPoint;
}.

Definition TxEntry_new (tx : TransactionView) (cycles : Z) (fee : Capacity) (size : Z)
    (related_out_points : list OutPoint) : TxEntry :=
  mkTxEntry tx cycles size fee size fee cycles 1 related_out_points.

Definition te_id (e : TxEntry) : ProposalShortId :=
  TransactionView_proposal_short_id (te_transaction e).

Definition set_ancestors (e : TxEntry) (size fee cycles count : Z) : TxEntry :=
  mkTxEntry (te_transaction e) (te_cycles e) (te_size e) (te_fee e) size fee cycles count
    (related_out_points e).

Definition TxEntry_sub_entry_weight (self entry : TxEntry) : TxEntry :=
  set_ancestors self
    (saturating_sub (ancestors_size self) (te_size entry))
    (saturating_sub (ancestors_fee self) (te_fee entry))
    (saturating_sub (ancestors_cycles self) (te_cycles entry))
    (saturating_sub (ancestors_count self) 1).
Definition TxEntry_add_ancestors_weight (self entry : TxEntry) : TxEntry :=
  set_ancestors self
    (saturating_add (ancestors_size self) (ancestors_size entry))
    (saturating_add (ancestors_fee self) (ancestors_fee entry))
    (saturating_add (ancestors_cycles self) (ancestors_cycles entry))
    (saturating_add (ancestors_count self) (ancestors_count entry)).

(** ** Keys *)

Record AncestorsScoreSortKey := mkSortKey {
  key_fee : Capacity;
  key_vbytes : Z;
  key_id : ProposalShortId;
  key_ancestors_fee : Capacity;
  key_ancestors_vbytes : Z;
  key_ancestors_size : Z;
}.
#[export] Instance AncestorsScoreSortKey_eq_dec : EqDecision AncestorsScoreSortKey.
Proof. solve_decision. Defined.

(** [From<&TxEntry>]. *)
Definition as_sorted_key (e : TxEntry) : AncestorsScoreSortKey :=
  mkSortKey (te_fee e) (get_transaction_virtual_bytes (te_size e) (te_cycles e)) (te_id e)
    (ancestors_fee e) (get_transaction_virtual_bytes (ancestors_size e) (ancestors_cycles e))
    (ancestors_size e).

(** The products of two [u64] are taken in [u128] and do not overflow. *)
Definition min_fee_and_vbytes (k : AncestorsScoreSortKey) : Capacity * Z :=
  let tx_weight := key_fee k * key_ancestors_vbytes k in
  let ancestors_weight := key_ancestors_fee k * key_vbytes k in
  if tx_weight <? ancestors_weight then (key_fee k, key_vbytes k)
  else (key_ancestors_fee k, key_ancestors_vbytes k).

(** [Ord for [u8]]: lexicographic. *)
Fixpoint bytes_cmp (a b : bytes) : comparison :=
  match a, b with
  | [], [] => Eq
  | [], _ => Lt
  | _, [] => Gt
  | x :: a', y :: b' => match x ?= y with Eq => bytes_cmp a' b' | r => r end
  end.

Definition AncestorsScoreSortKey_cmp (self other : AncestorsScoreSortKey) : comparison :=
  let '(fee, vbytes) := min_fee_and_vbytes self in
  let '(other_fee, other_vbytes) := min_fee_and_vbytes other in
  let self_weight := fee * other_vbytes in
  let other_weight := other_fee * vbytes in
  if self_weight =? other_weight then
    if key_ancestors_vbytes self =? key_ancestors_vbytes other
    then bytes_cmp (key_id self) (key_id other)
    else key_ancestors_vbytes self ?= key_ancestors_vbytes other
  else self_weight ?= other_weight.

(** [Ord for TxEntry]. *)
Definition TxEntry_cmp (self other : TxEntry) : comparison :=
  AncestorsScoreSortKey_cmp (as_sorted_key self) (as_sorted_key other).

(** ** BTreeSet of keys

    The set is its elements in increasing order; inserting a key that compares
    equal to one of the set changes nothing. *)
Fixpoint btree_insert (k : AncestorsScoreSortKey) (l : list AncestorsScoreSortKey) :
    list AncestorsScoreSortKey :=
  match l with
  | [] => [k]
  | k' :: l' =>
      match AncestorsScoreSortKey_cmp k k' with
      | Lt => k :: l
      | Eq => l
      | Gt => k' :: btree_insert k l'
      end
  end.
Fixpoint btree_remove (k : AncestorsScoreSortKey) (l : list AncestorsScoreSortKey) :
    list AncestorsScoreSortKey :=
  match l with
  | [] => []
  | k' :: l' =>
      match AncestorsScoreSortKey_cmp k k' with
      | Eq => l'
      | _ => k' :: btree_remove k l'
      end
  end.

(** ** The order of the keys *)

(** A comparison that is a total order on the values satisfying [P]. *)
Record total_order {A} (P : A -> Prop) (cmp : A -> A -> comparison) : Prop := {
  to_sym a b : P a -> P b -> cmp b a = CompOpp (cmp a b);
  to_trans a b c : P a -> P b -> P c -> cmp a b = Lt -> cmp b c = Lt -> cmp a c = Lt;
  to_eq a b c : P a -> P b -> P c -> cmp a b = Eq -> cmp a c = cmp b c;
}.

Definition lex {A} (c1 c2 : A -> A -> comparison) (a b : A) : comparison :=
  match c1 a b with Eq => c2 a b | r => r end.

Lemma lex_total {A} (P : A -> Prop) c1 c2 :
  total_order P c1 -> total_order P c2 -> total_order P (lex c1 c2).
Proof.
  intros [S1 T1 E1] [S2 T2 E2]. unfold lex. split.
  - intros a b Ha Hb. rewrite (S1 a b), (S2 a b) by done. by destruct (c1 a b).
  - intros a b c Ha Hb Hc. destruct (c1 a b) eqn:Hab; [| |done].
    + rewrite (E1 a b c) by done. destruct (c1 b c) eqn:Hbc; [|done|done]. intros. by eapply (T2 a b c).
    + destruct (c1 b c) eqn:Hbc; [| |done].
      * intros _ _. assert (c1 c b = Eq) as Hcb by (by rewrite (S1 b c), Hbc).
        assert (c1 b a = Gt) as Hba by (by rewrite (S1 a b), Hab).
        assert (c1 c a = Gt) as Hca by (by rewrite (E1 c b a)). by rewrite (S1 c a), Hca.
      * intros _ _. by rewrite (T1 a b c).
  - intros a b c Ha Hb Hc. destruct (c1 a b) eqn:Hab; [|done|done]. intros Heq.
    rewrite (E1 a b c) by done. destruct (c1 b c); [|done|done]. by apply E2.
Qed.

Lemma Z_total {A} (P : A -> Prop) (f : A -> Z) : total_order P (fun a b => f a ?= f b).
Proof.
  split; intros a b; [intros _ _; apply Z.compare_antisym|..]; intros c _ _ _.
  - rewrite !Z.compare_lt_iff. lia.
  - by intros ->%Z.compare_eq_iff.
Qed.

Lemma bytes_cmp_refl a : bytes_cmp a a = Eq.
Proof. induction a as [|x a IH]; cbn; [done|]. by rewrite Z.compare_refl. Qed.
Lemma bytes_cmp_Eq a b : bytes_cmp a b = Eq <-> a = b.
Proof.
  split; [|intros ->; apply bytes_cmp_refl]. revert b.
  induction a as [|x a IH]; intros [|y b]; cbn; try done.
  destruct (x ?= y) eqn:Hxy; [|done|done]. intros Hab. apply Z.compare_eq_iff in Hxy. f_equal; auto.
Qed.
Lemma bytes_cmp_sym a b : bytes_cmp b a = CompOpp (bytes_cmp a b).
Proof.
  revert b. induction a as [|x a IH]; intros [|y b]; cbn; try done.
  rewrite (Z.compare_antisym x y). destruct (x ?= y); cbn; auto.
Qed.
Lemma bytes_cmp_trans a b c : bytes_cmp a b = Lt -> bytes_cmp b c = Lt -> bytes_cmp a c = Lt.
Proof.
  revert b c. induction a as [|x a IH]; intros [|y b] [|z c]; cbn; try done.
  destruct (Z.compare_spec x y), (Z.compare_spec y z), (Z.compare_spec x z); try done; try lia; eauto.
Qed.
Lemma bytes_total {A} (P : A -> Prop) (f : A -> bytes) : total_order P (fun a b => bytes_cmp (f a) (f b)).
Proof.
  split; intros a b; [intros _ _; apply bytes_cmp_sym|..]; intros c _ _ _.
  - apply bytes_cmp_trans.
  - by intros ->%bytes_cmp_Eq.
Qed.

(** The keys of transactions: they take space. *)
Record key_ok (k : AncestorsScoreSortKey) : Prop := {
  key_ok_fee : 0 <= key_fee k;
  key_ok_ancestors_fee : 0 <= key_ancestors_fee k;
  key_ok_vbytes : 0 < key_vbytes k;
  key_ok_ancestors_vbytes : 0 < key_ancestors_vbytes k;
}.

Lemma min_fee_ok k : key_ok k -> 0 <= (min_fee_and_vbytes k).1 /\ 0 < (min_fee_and_vbytes k).2.
Proof. intros []. unfold min_fee_and_vbytes. by case_match. Qed.

(** Cross multiplication compares the rates. *)
Definition rate_cmp (a b : AncestorsScoreSortKey) : comparison :=
  (min_fee_and_vbytes a).1 * (min_fee_and_vbytes b).2 ?=
  (min_fee_and_vbytes b).1 * (min_fee_and_vbytes a).2.

Lemma rate_total : total_order key_ok rate_cmp.
Proof.
  unfold rate_cmp. split; intros a b; [intros _ _; apply Z.compare_antisym|..];
    intros c [_ Ha]%min_fee_ok [_ Hb]%min_fee_ok [_ Hc]%min_fee_ok;
    destruct (min_fee_and_vbytes a) as [fa va], (min_fee_and_vbytes b) as [fb vb],
      (min_fee_and_vbytes c) as [fc vc]; cbn [fst snd] in *.
  - rewrite !Z.compare_lt_iff. nia.
  - rewrite Z.compare_eq_iff. intros Heq.
    rewrite (Zmult_compare_compat_l (fa * vc) (fc * va) vb) by lia.
    rewrite (Zmult_compare_compat_l (fb * vc) (fc * vb) va) by lia. f_equal; nia.
Qed.

Lemma cmp_lex a b :
  AncestorsScoreSortKey_cmp a b =
  lex rate_cmp (lex (fun a b => key_ancestors_vbytes a ?= key_ancestors_vbytes b)
    (fun a b => bytes_cmp (key_id a) (key_id b))) a b.
Proof.
  unfold AncestorsScoreSortKey_cmp, lex, rate_cmp.
  destruct (min_fee_and_vbytes a) as [fa va], (min_fee_and_vbytes b) as [fb vb]. cbn [fst snd].
  destruct (Z.eqb_spec (fa * vb) (fb * va)) as [->|Hne].
  - rewrite Z.compare_refl. destruct (Z.eqb_spec (key_ancestors_vbytes a) (key_ancestors_vbytes b)) as [->|Hv].
    + by rewrite Z.compare_refl.
    + destruct (Z.compare_spec (key_ancestors_vbytes a) (key_ancestors_vbytes b)); done.
  - destruct (Z.compare_spec (fa * vb) (fb * va)); done.
Qed.

Lemma cmp_total : total_order key_ok AncestorsScoreSortKey_cmp.
Proof.
  pose proof (lex_total key_ok _ _ rate_total
    (lex_total key_ok _ _ (Z_total _ key_ancestors_vbytes) (bytes_total _ key_id))) as [S T E].
  split; intros; rewrite !cmp_lex in *; eauto.
Qed.

Lemma cmp_Eq_id a b : AncestorsScoreSortKey_cmp a b = Eq -> key_id a = key_id b.
Proof.
  rewrite cmp_lex. unfold lex. destruct (rate_cmp a b); [|done..].
  destruct (_ ?= _); [|done..]. apply bytes_cmp_Eq.
Qed.
Lemma cmp_refl k : AncestorsScoreSortKey_cmp k k = Eq.
Proof.
  rewrite cmp_lex. unfold lex, rate_cmp. by rewrite !Z.compare_refl, bytes_cmp_refl.
Qed.

(** The smaller of the fee rate of the transaction and the one of its package. *)
Definition min_rate (k : AncestorsScoreSortKey) : Q :=
  Qmin (Qmake (key_fee k) (Z.to_pos (key_vbytes k)))
    (Qmake (key_ancestors_fee k) (Z.to_pos (key_ancestors_vbytes k))).

Lemma min_rate_fee k :
  key_ok k -> (min_rate k == Qmake (min_fee_and_vbytes k).1 (Z.to_pos (min_fee_and_vbytes k).2))%Q.
Proof.
  intros [H1 H2 H3 H4]. unfold min_rate, min_fee_and_vbytes.
  destruct (Z.ltb_spec (key_fee k * key_ancestors_vbytes k) (key_ancestors_fee k * key_vbytes k));
    cbn [fst snd]; [apply Q.min_l|apply Q.min_r]; unfold Qle; cbn [Qnum Qden]; rewrite !Z2Pos.id; lia.
Qed.

Lemma min_rate_lt a b : key_ok a -> key_ok b -> (min_rate a < min_rate b)%Q <-> rate_cmp a b = Lt.
Proof.
  intros Ha Hb. rewrite !min_rate_fee by done. destruct (min_fee_ok a Ha), (min_fee_ok b Hb).
  unfold Qlt, rate_cmp. cbn [Qnum Qden]. rewrite !Z2Pos.id, Z.compare_lt_iff by done. lia.
Qed.

(** The order by which the pool is sorted is a total order on the keys of
    transactions that take space, as the ordered sets it is used with require:
    it is antisymmetric and transitive, and two keys compare equal only when they
    have the same id.  A key comes before another one whenever the smaller of its
    fee rate and the fee rate of its package is the smaller. *)
Theorem sort_key_order a b c :
  key_ok a -> key_ok b -> key_ok c ->
  AncestorsScoreSortKey_cmp b a = CompOpp (AncestorsScoreSortKey_cmp a b) /\
  (AncestorsScoreSortKey_cmp a b = Lt -> AncestorsScoreSortKey_cmp b c = Lt ->
   AncestorsScoreSortKey_cmp a c = Lt) /\
  (AncestorsScoreSortKey_cmp a b = Eq -> key_id a = key_id b) /\
  ((min_rate a < min_rate b)%Q -> AncestorsScoreSortKey_cmp a b = Lt).
Proof.
  intros Ha Hb Hc. split_and!.
  - by apply cmp_total.
  - by apply cmp_total.
  - apply cmp_Eq_id.
  - rewrite min_rate_lt by done. rewrite cmp_lex. unfold lex. by intros ->.
Qed.

Lemma sort_key_order_witness :
  let k fee vbytes id := mkSortKey fee vbytes [id] fee vbytes 0 in
  AncestorsScoreSortKey_cmp (k 1 3 0) (k 2 4 1) = Lt.
Proof.
  apply (sort_key_order (mkSortKey 1 3 [0] 1 3 0) (mkSortKey 2 4 [1] 2 4 0) (mkSortKey 2 4 [1] 2 4 0));
    [by split..|by vm_compute].
Defined.
