(* ===== verification/SortedTxMap.v ===== *)
(** * The sorted map of the transaction pool: src/tx-pool/src/component/container.rs

    The pending, gap and proposed pools keep their entries in a [SortedTxMap]: the
    entries by short id, the links between parents and children, and an index
    sorted by fee rate.  [relative_ids_closure] shows that the search of ancestors
    and descendants terminates with the transitive closure of the links;
    [sorted_tx_map_invariant] that adding and removing entries keeps the three
    structures in step, with ancestor weights that never underestimate;
    [remove_descendants_exact] what removing an entry with its descendants removes,
    and [remove_descendants_stale_link] the link it forgets. *)

From Stdlib Require Import Sorted.
From S2P Require Import Prelude Capacity Types Errors PoolEntry.

(** The order in which a [HashSet] of ids is visited is not specified. *)
Class HashOrder := { hash_iter : gset ProposalShortId -> list ProposalShortId }.
Class HashOrderSpec (H : HashOrder) := {
  hash_iter_perm s : hash_iter s ≡ₚ elements s;
}.
#[export] Instance elements_order : HashOrder := {| hash_iter := elements |}.
#[export] Instance elements_order_spec : HashOrderSpec elements_order.
Proof. by split. Qed.

(** [slice::sort_by_key], which is stable. *)
Fixpoint insert_by_key {A : Type} (key : A -> Z) (x : A) (l : list A) : list A :=
  match l with
  | [] => [x]
  | y :: l' => if key x <=? key y then x :: l else y :: insert_by_key key x l'
  end.
Definition sort_by_key {A : Type} (key : A -> Z) (l : list A) : list A := foldr (insert_by_key key) [] l.

Lemma insert_by_key_perm {A : Type} (key : A -> Z) x l : insert_by_key key x l ≡ₚ x :: l.
Proof.
  induction l as [|y l IH]; cbn; [done|]. destruct (key x <=? key y); [done|].
  rewrite IH. apply perm_swap.
Qed.
Lemma sort_by_key_perm {A : Type} (key : A -> Z) l : sort_by_key key l ≡ₚ l.
Proof. induction l as [|x l IH]; cbn; [done|]. by rewrite insert_by_key_perm, IH. Qed.
Lemma insert_by_key_sorted {A : Type} (key : A -> Z) x l :
  StronglySorted (fun a b => key a <= key b) l ->
  StronglySorted (fun a b => key a <= key b) (insert_by_key key x l).
Proof.
  induction 1 as [|y l Hs IH Hf]; cbn; [repeat constructor|].
  destruct (Z.leb_spec (key x) (key y)); repeat constructor; try done.
  - eapply Forall_impl; [exact Hf|]. cbn. lia.
  - rewrite insert_by_key_perm. constructor; [lia|done].
Qed.
Lemma sort_by_key_sorted {A : Type} (key : A -> Z) l :
  StronglySorted (fun a b => key a <= key b) (sort_by_key key l).
Proof. induction l; cbn; [constructor|by apply insert_by_key_sorted]. Qed.

(** The order that [sort_unstable_by_key] gives to elements with the same key is
    not specified. *)
Class UnstableSort := { sort_unstable_by_key : forall {A : Type}, (A -> Z) -> list A -> list A }.
Class UnstableSortSpec (S : UnstableSort) := {
  sort_unstable_perm {A : Type} (key : A -> Z) l : sort_unstable_by_key key l ≡ₚ l;
  sort_unstable_sorted {A : Type} (key : A -> Z) l :
    StronglySorted (fun a b => key a <= key b) (sort_unstable_by_key key l);
}.
#[export] Instance stable_sort : UnstableSort := {| sort_unstable_by_key := @sort_by_key |}.
#[export] Instance stable_sort_spec : UnstableSortSpec stable_sort.
Proof. split; intros; [apply sort_by_key_perm|apply sort_by_key_sorted]. Qed.

(** ** Links *)

Record TxLink := mkTxLink {
  link_parents : gset ProposalShortId;
  link_children : gset ProposalShortId;
}.
Inductive Relation := Parents | Children.

Definition TxLink_get_direct_ids (self : TxLink) (r : Relation) : gset ProposalShortId :=
  match r with
  | Parents => link_parents self
  | Children => link_children self
  end.

(** [links.get(id).map(|link| link.get_direct_ids(r).clone()).unwrap_or_default()]. *)
Definition direct_ids (links : gmap ProposalShortId TxLink) (r : Relation) (id : ProposalShortId) :
    gset ProposalShortId :=
  match links !! id with
  | Some link => TxLink_get_direct_ids link r
  | None => ∅
  end.

Section ops.
Context `{HashOrder}.

(** Every round moves an id from [family_txs] to [relative_txs] that was not there:
    the number of ids that occur in the links bounds the rounds. *)
Fixpoint relative_loop (fuel : nat) (links : gmap ProposalShortId TxLink) (r : Relation)
    (family_txs relative_txs : gset ProposalShortId) : gset ProposalShortId :=
  match fuel with
  | O => relative_txs
  | S fuel =>
      match hash_iter family_txs with
      | [] => relative_txs
      | id :: _ =>
          let relative_txs := {[id]} ∪ relative_txs in
          let family_txs := family_txs ∖ {[id]} in
          let family_txs :=
            foldl (fun family id => if decide (id ∈ relative_txs) then family else {[id]} ∪ family)
              family_txs (hash_iter (direct_ids links r id)) in
          relative_loop fuel links r family_txs relative_txs
      end
  end.

Definition linked_ids (links : gmap ProposalShortId TxLink) (r : Relation) : gset ProposalShortId :=
  ⋃ ((fun il => TxLink_get_direct_ids il.2 r) <$> map_to_list links).

Definition TxLink_get_relative_ids (links : gmap ProposalShortId TxLink) (id : ProposalShortId)
    (r : Relation) : gset ProposalShortId :=
  relative_loop (S (size (linked_ids links r))) links r (direct_ids links r id) ∅.
Definition TxLink_get_ancestors (links : gmap ProposalShortId TxLink) (id : ProposalShortId) :
    gset ProposalShortId := TxLink_get_relative_ids links id Parents.
Definition TxLink_get_descendants (links : gmap ProposalShortId TxLink) (id : ProposalShortId) :
    gset ProposalShortId := TxLink_get_relative_ids links id Children.

(** ** The map *)

Record SortedTxMap := mkSortedTxMap {
  stm_entries : gmap ProposalShortId TxEntry;
  stm_index : list AncestorsScoreSortKey;
  stm_links : gmap ProposalShortId TxLink;
  max_ancestors_count : Z;
}.

Definition SortedTxMap_new (max_ancestors_count : Z) : SortedTxMap :=
  mkSortedTxMap ∅ [] ∅ max_ancestors_count.
Definition SortedTxMap_size (m : SortedTxMap) : Z := Z.of_nat (size (stm_entries m)).
Definition SortedTxMap_contains_key (m : SortedTxMap) (id : ProposalShortId) : bool :=
  bool_decide (is_Some (stm_entries m !! id)).
Definition SortedTxMap_get (m : SortedTxMap) (id : ProposalShortId) : option TxEntry :=
  stm_entries m !! id.
Definition SortedTxMap_get_ancestors (m : SortedTxMap) (id : ProposalShortId) :
    gset ProposalShortId := TxLink_get_ancestors (stm_links m) id.
Definition SortedTxMap_get_descendants (m : SortedTxMap) (id : ProposalShortId) :
    gset ProposalShortId := TxLink_get_descendants (stm_links m) id.

Definition update_ancestors_stat_for_entry {E : Type} (m : SortedTxMap) (entry : TxEntry)
    (parents : gset ProposalShortId) : outcome E TxEntry :=
  try_fold (fun entry id =>
    parent_entry ← expect (stm_entries m !! id);
    Ok (TxEntry_add_ancestors_weight entry parent_entry)) entry (hash_iter parents).

(** The transactions of the map that the inputs and the cell deps refer to. *)
Definition in_pool_parents (m : SortedTxMap) (tx : TransactionView) : gset ProposalShortId :=
  list_to_set (filter (fun id => is_Some (stm_links m !! id))
    (((fun input => ProposalShortId_from_tx_hash (op_tx_hash (previous_output input))) <$>
        TransactionView_inputs tx) ++
     ((fun dep => ProposalShortId_from_tx_hash (op_tx_hash (dep_out_point dep))) <$>
        TransactionView_cell_deps tx))).

Definition add_child (c : ProposalShortId) (link : TxLink) : TxLink :=
  mkTxLink (link_parents link) ({[c]} ∪ link_children link).
Definition remove_child (c : ProposalShortId) (link : TxLink) : TxLink :=
  mkTxLink (link_parents link) (link_children link ∖ {[c]}).
Definition remove_parent (p : ProposalShortId) (link : TxLink) : TxLink :=
  mkTxLink (link_parents link ∖ {[p]}) (link_children link).

(** One round of the loop over the descendants. *)
Definition sub_descendant (entry : TxEntry)
    (st : gmap ProposalShortId TxEntry * list AncestorsScoreSortKey) (desc_id : ProposalShortId) :
    gmap ProposalShortId TxEntry * list AncestorsScoreSortKey :=
  let '(entries, index) := st in
  match entries !! desc_id with
  | Some desc_entry =>
      let desc_entry' := TxEntry_sub_entry_weight desc_entry entry in
      (<[desc_id := desc_entry']> entries,
       btree_insert (as_sorted_key desc_entry') (btree_remove (as_sorted_key desc_entry) index))
  | None => (entries, index)
  end.

Definition unlink (links : gmap ProposalShortId TxLink) (id : ProposalShortId) :
    gmap ProposalShortId TxLink :=
  match links !! id with
  | Some link =>
      let links := delete id links in
      let links := foldl (fun l p => alter (remove_child id) p l) links (hash_iter (link_parents link)) in
      foldl (fun l c => alter (remove_parent id) c l) links (hash_iter (link_children link))
  | None => links
  end.

Definition SortedTxMap_remove_entry (m : SortedTxMap) (id : ProposalShortId) :
    option TxEntry * SortedTxMap :=
  match stm_entries m !! id with
  | None => (None, m)
  | Some entry =>
      let index := btree_remove (as_sorted_key entry) (stm_index m) in
      let '(entries, index) :=
        foldl (sub_descendant entry) (delete id (stm_entries m), index)
          (hash_iter (SortedTxMap_get_descendants m id)) in
      (Some entry, mkSortedTxMap entries index (unlink (stm_links m) id) (max_ancestors_count m))
  end.

Definition SortedTxMap_add_entry (m : SortedTxMap) (entry : TxEntry) :
    outcome SubmitTxError (option TxEntry * SortedTxMap) :=
  let short_id := te_id entry in
  let parents := in_pool_parents m (te_transaction entry) in
  entry ← update_ancestors_stat_for_entry m entry parents;
  if max_ancestors_count m <? ancestors_count entry then Err ExceededMaximumAncestorsCount
  else
    let '(removed_entry, m) :=
      if SortedTxMap_contains_key m short_id then SortedTxMap_remove_entry m short_id else (None, m) in
    links ← try_fold (fun links parent_id =>
      link ← expect (links !! parent_id);
      Ok (<[parent_id := add_child short_id link]> links)) (stm_links m) (hash_iter parents);
    Ok (removed_entry,
        mkSortedTxMap (<[short_id := entry]> (stm_entries m))
          (btree_insert (as_sorted_key entry) (stm_index m))
          (<[short_id := mkTxLink parents ∅]> links) (max_ancestors_count m)).

(** The loop over the queue: a popped id that is in the map leaves it, and its
    children join the queue.  Every id joins the queue at most once per parent. *)
Fixpoint remove_loop (fuel : nat) (m : SortedTxMap) (queue : list ProposalShortId)
    (removed : list TxEntry) : SortedTxMap * list TxEntry :=
  match fuel, queue with
  | S fuel, id :: queue =>
      match stm_entries m !! id with
      | Some entry =>
          let queue := match stm_links m !! id with
                       | Some link => queue ++ hash_iter (link_children link)
                       | None => queue
                       end in
          let m := mkSortedTxMap (delete id (stm_entries m))
                     (btree_remove (as_sorted_key entry) (stm_index m))
                     (delete id (stm_links m)) (max_ancestors_count m) in
          remove_loop fuel m queue (removed ++ [entry])
      | None => remove_loop fuel m queue removed
      end
  | _, _ => (m, removed)
  end.

(** The number of the links from a parent to a child. *)
Definition link_count (links : gmap ProposalShortId TxLink) : nat :=
  sum_list ((fun il => size (link_children il.2)) <$> map_to_list links).

Definition SortedTxMap_remove_entry_and_descendants (m : SortedTxMap) (id : ProposalShortId) :
    list TxEntry * SortedTxMap :=
  let tx_link := stm_links m !! id in
  let '(m, removed) := remove_loop (S (link_count (stm_links m))) m [id] [] in
  let links :=
    match tx_link with
    | Some link => foldl (fun l p => alter (remove_child id) p l) (stm_links m)
                     (hash_iter (link_parents link))
    | None => stm_links m
    end in
  (removed, mkSortedTxMap (stm_entries m) (stm_index m) links (max_ancestors_count m)).

(** The keys from the greatest score to the least. *)
Definition keys_sorted_by_fee (m : SortedTxMap) : list AncestorsScoreSortKey := rev (stm_index m).

Definition keys_sorted_by_fee_and_relation {E : Type} (m : SortedTxMap) :
    outcome E (list AncestorsScoreSortKey) :=
  keys ← try_map (fun k =>
    entry ← expect (stm_entries m !! key_id k);
    Ok (ancestors_count entry, k)) (keys_sorted_by_fee m);
  Ok ((sort_by_key fst keys).*2).
End ops.

(** ** Ancestors and descendants *)

Definition step_to (links : gmap ProposalShortId TxLink) (r : Relation) (x y : ProposalShortId) : Prop :=
  y ∈ direct_ids links r x.

Lemma direct_ids_linked links r x y : step_to links r x y -> y ∈ linked_ids links r.
Proof.
  unfold step_to, direct_ids, linked_ids. destruct (links !! x) as [link|] eqn:Hx; [|set_solver].
  intros Hy. apply elem_of_union_list. exists (TxLink_get_direct_ids link r). split; [|done].
  apply list_elem_of_fmap. exists (x, link). split; [done|]. by apply elem_of_map_to_list.
Qed.

Lemma tc_first {A} (R : relation A) x y : tc R x y -> R x y \/ exists z, R x z /\ tc R z y.
Proof. destruct 1; eauto. Qed.

Section closure.
Context `{HashOrderSpec}.

Lemma elem_of_hash_iter s x : x ∈ hash_iter s <-> x ∈ s.
Proof. by rewrite hash_iter_perm, elem_of_elements. Qed.
Lemma hash_iter_nil s : hash_iter s = [] -> s = ∅.
Proof.
  intros Hs. apply elem_of_equiv_empty_L. intros x Hx. rewrite <- elem_of_hash_iter, Hs in Hx.
  by apply not_elem_of_nil in Hx.
Qed.
Lemma hash_iter_NoDup s : NoDup (hash_iter s).
Proof. rewrite hash_iter_perm. apply NoDup_elements. Qed.

Lemma elem_of_family (rel fam : gset ProposalShortId) l x :
  x ∈ foldl (fun family id => if decide (id ∈ rel) then family else {[id]} ∪ family) fam l <->
  x ∈ fam \/ (x ∈ l /\ x ∉ rel).
Proof.
  revert fam. induction l as [|y l IH]; intros fam; cbn [foldl]; [set_solver|].
  rewrite IH. case_decide; set_solver.
Qed.

(** The state of the search from [id]. *)
Record searching (links : gmap ProposalShortId TxLink) (r : Relation) (id : ProposalShortId)
    (fam rel : gset ProposalShortId) : Prop := {
  se_sound x : x ∈ fam ∪ rel -> tc (step_to links r) id x;
  se_start x : step_to links r id x -> x ∈ fam ∪ rel;
  se_next x y : x ∈ rel -> step_to links r x y -> y ∈ fam ∪ rel;
  se_disjoint x : x ∈ fam -> x ∉ rel;
}.

Lemma searching_step links r id fam rel x :
  searching links r id fam rel -> x ∈ fam ->
  let rel' := {[x]} ∪ rel in
  let fam' := foldl (fun family id => if decide (id ∈ rel') then family else {[id]} ∪ family)
    (fam ∖ {[x]}) (hash_iter (direct_ids links r x)) in
  searching links r id fam' rel'.
Proof.
  intros [S1 S2 S3 S4] Hx rel' fam'.
  assert (forall y, y ∈ fam' <-> (y ∈ fam /\ y <> x) \/ (step_to links r x y /\ y ∉ rel')) as Hfam.
  { intros y. unfold fam'. rewrite elem_of_family, elem_of_hash_iter. set_solver. }
  split.
  - intros y [Hy|Hy]%elem_of_union; [apply Hfam in Hy as [[? ?]|[Hs _]]|].
    + apply S1. set_solver.
    + eapply tc_r; [|exact Hs]. apply S1. set_solver.
    + apply S1. set_solver.
  - intros y Hy%S2. rewrite elem_of_union, Hfam. destruct (decide (y = x)); set_solver.
  - intros y z Hy Hz. rewrite elem_of_union, Hfam. destruct (decide (z ∈ rel')); [by right|left].
    apply elem_of_union in Hy as [->%elem_of_singleton|Hy]; [by right|].
    pose proof (S3 y z Hy Hz). left. set_solver.
  - intros y [[Hy Hne]|[_ Hy]]%Hfam; [|done]. pose proof (S4 y Hy). set_solver.
Qed.

Lemma relative_loop_closure fuel links r id fam rel x :
  searching links r id fam rel -> (size (linked_ids links r ∖ rel) < fuel)%nat ->
  x ∈ relative_loop fuel links r fam rel <-> tc (step_to links r) id x.
Proof.
  revert fam rel. induction fuel as [|fuel IH]; intros fam rel Hs Hf; [lia|]. cbn [relative_loop].
  destruct (hash_iter fam) as [|y l] eqn:Hfam.
  - apply hash_iter_nil in Hfam. subst fam. destruct Hs as [S1 S2 S3 _]. split.
    + intros. apply S1. set_solver.
    + assert (forall y, y ∈ (∅ : gset ProposalShortId) ∪ rel -> y ∈ rel) as Hr by set_solver.
      apply (tc_ind_r (fun x => x ∈ rel)); [by auto|].
      intros y z _ Hyz Hy. apply Hr. by eapply S3.
  - assert (y ∈ fam) as Hy by (rewrite <- elem_of_hash_iter, Hfam; left).
    apply IH; [by apply searching_step|].
    assert (y ∈ linked_ids links r) as Hl.
    { destruct Hs as [S1 _ _ _]. assert (tc (step_to links r) id y) as Ht by (apply S1; set_solver).
      revert Ht. apply (tc_ind_r (fun y => y ∈ linked_ids links r));
        intros; by eapply direct_ids_linked. }
    pose proof (se_disjoint _ _ _ _ _ Hs y Hy).
    enough (size (linked_ids links r ∖ ({[y]} ∪ rel)) < size (linked_ids links r ∖ rel))%nat by lia.
    apply subset_size. set_solver.
Qed.

Lemma get_relative_ids_tc links id r x :
  x ∈ TxLink_get_relative_ids links id r <-> tc (step_to links r) id x.
Proof.
  apply relative_loop_closure; [|rewrite difference_empty_L; lia].
  split; [intros; apply tc_once|..]; unfold step_to; set_solver.
Qed.

(** The search of relatives terminates and is exact: the loop of
    [get_relative_ids] ends within the number of linked ids with the transitive
    closure of the parent or child links of the given id, in whatever order the
    hash sets are visited, and also when the links have cycles. *)
Theorem relative_ids_closure links id r x :
  x ∈ TxLink_get_relative_ids links id r <->
  tc (fun a b => exists link, links !! a = Some link /\ b ∈ TxLink_get_direct_ids link r) id x.
Proof.
  rewrite get_relative_ids_tc. unfold step_to, direct_ids.
  split; apply tc_congruence with (f := fun x => x); intros a b.
  - destruct (links !! a) as [link|]; [by eauto|set_solver].
  - by intros (link & -> & Hb).
Qed.
End closure.

(** ** The index *)

Definition key_lt (a b : AncestorsScoreSortKey) : Prop := AncestorsScoreSortKey_cmp a b = Lt.

Lemma btree_insert_perm k l :
  (forall k', k' ∈ l -> key_id k' <> key_id k) -> btree_insert k l ≡ₚ k :: l.
Proof.
  induction l as [|k' l IH]; intros Hk; cbn [btree_insert]; [done|].
  destruct (AncestorsScoreSortKey_cmp k k') eqn:Hc; [|done|].
  - apply cmp_Eq_id in Hc. exfalso. apply (Hk k'); [left|done].
  - rewrite IH by (intros; apply Hk; by right). apply perm_swap.
Qed.

Lemma btree_remove_perm k l :
  k ∈ l -> NoDup (key_id <$> l) -> k :: btree_remove k l ≡ₚ l.
Proof.
  induction l as [|k' l IH]; intros Hk Hnd; [by apply not_elem_of_nil in Hk|].
  cbn [btree_remove]. apply NoDup_cons in Hnd as [Hn Hnd].
  destruct (decide (k = k')) as [->|Hne]; [by rewrite cmp_refl|].
  apply elem_of_cons in Hk as [?|Hk]; [done|].
  destruct (AncestorsScoreSortKey_cmp k k') eqn:Hc.
  - apply cmp_Eq_id in Hc. destruct Hn. rewrite <- Hc. by apply list_elem_of_fmap_2.
  - rewrite perm_swap. by rewrite IH.
  - rewrite perm_swap. by rewrite IH.
Qed.

Lemma btree_insert_sorted k l :
  key_ok k -> Forall key_ok l -> StronglySorted key_lt l -> StronglySorted key_lt (btree_insert k l).
Proof.
  intros Hk Hl Hs. induction Hs as [|k' l Hs IH Hf]; cbn [btree_insert]; [repeat constructor|].
  apply Forall_cons in Hl as [Hk' Hl].
  destruct (AncestorsScoreSortKey_cmp k k') eqn:Hc.
  - by constructor.
  - constructor; [by constructor|]. constructor; [done|].
    rewrite Forall_forall in *. intros x Hx. eapply (to_trans _ _ cmp_total k k' x); auto.
    by apply Hf.
  - constructor; [by apply IH|]. rewrite Forall_forall in *. intros x Hx.
    assert (key_lt k' k) as Hlt by (unfold key_lt; by rewrite (to_sym _ _ cmp_total k k'), Hc).
    clear -Hx Hf Hlt. induction l as [|y l IH]; cbn in Hx.
    + by apply list_elem_of_singleton in Hx as ->.
    + destruct (AncestorsScoreSortKey_cmp k y); [by apply Hf|..].
      * apply elem_of_cons in Hx as [->|Hx]; [done|by apply Hf].
      * apply elem_of_cons in Hx as [->|Hx]; [apply Hf; left|].
        apply IH; [|done]. intros z Hz. apply Hf. by right.
Qed.

Lemma btree_remove_sublist k l : btree_remove k l `sublist_of` l.
Proof.
  induction l as [|k' l IH]; cbn [btree_remove]; [done|].
  destruct (AncestorsScoreSortKey_cmp k k'); [by apply sublist_cons|by apply sublist_skip..].
Qed.

Lemma StronglySorted_sublist {A} (R : A -> A -> Prop) l k :
  l `sublist_of` k -> StronglySorted R k -> StronglySorted R l.
Proof.
  induction 1 as [|x l k Hs IH|x l k Hs IH]; intros Hk; [constructor|..]; inversion Hk; subst; [|auto].
  constructor; [auto|]. rewrite Forall_forall in *. intros y Hy. eapply sublist_subseteq in Hy; [|done]. auto.
Qed.

(** The keys of the entries, one for each. *)
Definition ids_ok (entries : gmap ProposalShortId TxEntry) : Prop :=
  forall id e, entries !! id = Some e -> te_id e = id.
Definition keys_of (entries : gmap ProposalShortId TxEntry) : list AncestorsScoreSortKey :=
  (fun ie => as_sorted_key ie.2) <$> map_to_list entries.
Record index_ok (entries : gmap ProposalShortId TxEntry) (index : list AncestorsScoreSortKey) : Prop := {
  ix_keys : index ≡ₚ keys_of entries;
  ix_sorted : StronglySorted key_lt index;
  ix_ok : Forall key_ok index;
}.

Lemma elem_of_keys entries k :
  k ∈ keys_of entries <-> exists id e, entries !! id = Some e /\ k = as_sorted_key e.
Proof.
  unfold keys_of. rewrite list_elem_of_fmap. split.
  - intros ([id e] & -> & He%elem_of_map_to_list). eauto.
  - intros (id & e & He & ->). exists (id, e). split; [done|]. by apply elem_of_map_to_list.
Qed.

Lemma keys_ids entries : ids_ok entries -> key_id <$> keys_of entries = (map_to_list entries).*1.
Proof.
  intros Hi. unfold keys_of. rewrite <- list_fmap_compose.
  apply list_fmap_ext. intros i [id e] He%list_elem_of_lookup_2%elem_of_map_to_list. by apply Hi.
Qed.

Lemma index_insert entries index id e :
  ids_ok entries -> entries !! id = None -> te_id e = id -> key_ok (as_sorted_key e) ->
  index_ok entries index -> index_ok (<[id := e]> entries) (btree_insert (as_sorted_key e) index).
Proof.
  intros Hi Hn He Hk [K S O].
  assert (btree_insert (as_sorted_key e) index ≡ₚ as_sorted_key e :: index) as Hp.
  { apply btree_insert_perm. intros k' Hk'. rewrite K, elem_of_keys in Hk'.
    destruct Hk' as (id' & e' & He' & ->). cbn. rewrite (Hi _ _ He'). intros ->. congruence. }
  split.
  - rewrite Hp, K. unfold keys_of. by rewrite map_to_list_insert.
  - by apply btree_insert_sorted.
  - rewrite Hp. by constructor.
Qed.

Lemma index_delete entries index id e :
  ids_ok entries -> entries !! id = Some e -> index_ok entries index ->
  index_ok (delete id entries) (btree_remove (as_sorted_key e) index).
Proof.
  intros Hi He [K S O].
  assert (as_sorted_key e :: btree_remove (as_sorted_key e) index ≡ₚ index) as Hp.
  { apply btree_remove_perm; [rewrite K, elem_of_keys; by eauto|].
    rewrite K, keys_ids by done. apply NoDup_fst_map_to_list. }
  split.
  - apply (Permutation_cons_inv (a:=as_sorted_key e)). rewrite Hp, K. unfold keys_of.
    by rewrite <- (map_to_list_delete entries id e).
  - eapply StronglySorted_sublist; [apply btree_remove_sublist|done].
  - rewrite <- Hp in O. by apply Forall_cons in O as [_ O].
Qed.

(** ** Sums over sets of ids *)

Definition wsum (f : ProposalShortId -> Z) (s : gset ProposalShortId) : Z := sumZ (f <$> elements s).

Lemma wsum_empty f : wsum f ∅ = 0.
Proof. done. Qed.
Lemma wsum_insert f x s : x ∉ s -> wsum f ({[x]} ∪ s) = f x + wsum f s.
Proof. intros Hx. unfold wsum. by rewrite elements_union_singleton. Qed.
Lemma wsum_remove f x s : x ∈ s -> wsum f s = f x + wsum f (s ∖ {[x]}).
Proof.
  intros Hx. rewrite <- wsum_insert by set_solver. f_equal. apply set_eq. intros y.
  destruct (decide (y = x)); set_solver.
Qed.
Lemma wsum_mono f g s : (forall x, x ∈ s -> f x <= g x) -> wsum f s <= wsum g s.
Proof.
  induction s as [|x s Hx IH] using set_ind_L; intros Hfg; [done|].
  rewrite !wsum_insert by done. pose proof (Hfg x ltac:(set_solver)).
  enough (wsum f s <= wsum g s) by lia. apply IH. intros y Hy. apply Hfg. set_solver.
Qed.
Lemma wsum_ext f g s : (forall x, x ∈ s -> f x = g x) -> wsum f s = wsum g s.
Proof. intros Hfg. apply Z.le_antisymm; apply wsum_mono; intros x Hx; by rewrite Hfg. Qed.
Lemma wsum_nonneg f s : (forall x, x ∈ s -> 0 <= f x) -> 0 <= wsum f s.
Proof.
  intros Hf. transitivity (wsum (fun _ => 0) s); [|by apply wsum_mono].
  clear. induction s as [|x s Hx IH] using set_ind_L; [done|]. by rewrite wsum_insert.
Qed.
Lemma wsum_union f s t :
  (forall x, x ∈ s ∪ t -> 0 <= f x) -> wsum f (s ∪ t) <= wsum f s + wsum f t.
Proof.
  induction s as [|x s Hx IH] using set_ind_L; intros Hf.
  { rewrite union_empty_l_L, wsum_empty. lia. }
  rewrite (wsum_insert f x s) by done. rewrite <- union_assoc_L.
  pose proof (IH ltac:(set_solver)). destruct (decide (x ∈ s ∪ t)).
  - replace ({[x]} ∪ (s ∪ t)) with (s ∪ t) by set_solver. pose proof (Hf x ltac:(set_solver)). lia.
  - rewrite wsum_insert by done. lia.
Qed.
Lemma wsum_union_disjoint f s t : s ## t -> wsum f (s ∪ t) = wsum f s + wsum f t.
Proof.
  induction s as [|x s Hx IH] using set_ind_L; intros Hd.
  { by rewrite union_empty_l_L, wsum_empty. }
  rewrite <- union_assoc_L, !wsum_insert, IH by set_solver. lia.
Qed.
Lemma wsum_subset f s t : s ⊆ t -> (forall x, x ∈ t -> 0 <= f x) -> wsum f s <= wsum f t.
Proof.
  intros Hst Hf. rewrite (union_difference_L s t) by done. rewrite wsum_union_disjoint by set_solver.
  pose proof (wsum_nonneg f (t ∖ s) ltac:(set_solver)). lia.
Qed.
(** A sum bounded element by element by a family that covers it. *)
Lemma wsum_cover (f g : ProposalShortId -> Z) (part : ProposalShortId -> gset ProposalShortId) s t :
  (forall x, 0 <= f x) -> (forall p, p ∈ t -> wsum f (part p) <= g p) ->
  (forall x, x ∈ s -> exists p, p ∈ t /\ x ∈ part p) -> wsum f s <= wsum g t.
Proof.
  intros Hf. revert s. induction t as [|p t Hp IH] using set_ind_L; intros s Hg Hs.
  - replace s with (∅ : gset ProposalShortId); [done|]. symmetry. apply elem_of_equiv_empty_L.
    intros x Hx. destruct (Hs x Hx) as (p & Hp & _). set_solver.
  - rewrite wsum_insert by done. transitivity (wsum f (part p) + wsum f (s ∖ part p)).
    + etransitivity; [|apply wsum_union; auto]. apply wsum_subset; [|auto].
      intros x Hx. destruct (decide (x ∈ part p)); set_solver.
    + apply Z.add_le_mono; [apply Hg; set_solver|]. apply IH; [intros; apply Hg; set_solver|].
      intros x Hx. destruct (Hs x) as (q & Hq & Hxq); [set_solver|]. exists q. set_solver.
Qed.

(** ** The invariant *)

(** The weights an entry accumulates over its ancestors. *)
Inductive weight := W_size | W_cycles | W_fee | W_count.
Definition own (w : weight) (e : TxEntry) : Z :=
  match w with W_size => te_size e | W_cycles => te_cycles e | W_fee => te_fee e | W_count => 1 end.
Definition stat (w : weight) (e : TxEntry) : Z :=
  match w with
  | W_size => ancestors_size e | W_cycles => ancestors_cycles e
  | W_fee => ancestors_fee e | W_count => ancestors_count e
  end.
Definition entry_ok (e : TxEntry) : Prop := 0 < te_size e /\ 0 <= te_cycles e /\ 0 <= te_fee e.

Lemma own_nonneg w e : entry_ok e -> 0 <= own w e.
Proof. intros (? & ? & ?). destruct w; cbn; lia. Qed.
Lemma stat_sub w e x : stat w (TxEntry_sub_entry_weight e x) = saturating_sub (stat w e) (own w x).
Proof. by destruct w. Qed.
Lemma own_sub w e x : own w (TxEntry_sub_entry_weight e x) = own w e.
Proof. by destruct w. Qed.
Lemma stat_add w e x :
  stat w (TxEntry_add_ancestors_weight e x) = saturating_add (stat w e) (stat w x).
Proof. by destruct w. Qed.
Lemma own_add w e x : own w (TxEntry_add_ancestors_weight e x) = own w e.
Proof. by destruct w. Qed.

Definition own_of (entries : gmap ProposalShortId TxEntry) (w : weight) (id : ProposalShortId) : Z :=
  from_option (own w) 0 (entries !! id).
Definition stat_of (entries : gmap ProposalShortId TxEntry) (w : weight) (id : ProposalShortId) : Z :=
  from_option (stat w) 0 (entries !! id).

(** Entries, links and index are in step, and the weight of an entry is at least
    its own and those of its parents.  A child that has left the map may still be
    linked: see [dangling]. *)
Record stm_wf (m : SortedTxMap) : Prop := {
  wf_ids : ids_ok (stm_entries m);
  wf_dom id : is_Some (stm_links m !! id) <-> is_Some (stm_entries m !! id);
  wf_sym p c : is_Some (stm_entries m !! c) ->
    step_to (stm_links m) Children p c <-> step_to (stm_links m) Parents c p;
  wf_index : index_ok (stm_entries m) (stm_index m);
  wf_own id e : stm_entries m !! id = Some e -> entry_ok e;
  wf_stat w id e : stm_entries m !! id = Some e -> 0 <= stat w e;
  wf_weight w id e : stm_entries m !! id = Some e ->
    own w e + wsum (stat_of (stm_entries m) w) (direct_ids (stm_links m) Parents id) <= stat w e;
}.

Lemma key_ok_entry e :
  entry_ok e -> 0 <= ancestors_fee e -> 0 < ancestors_size e -> key_ok (as_sorted_key e).
Proof. intros (? & ? & ?) ? ?. split; cbn; unfold get_transaction_virtual_bytes; lia. Qed.

Section wf.
Context (m : SortedTxMap) (Hm : stm_wf m).
Abbreviation parent := (step_to (stm_links m) Parents).

Lemma own_of_nonneg w id : 0 <= own_of (stm_entries m) w id.
Proof.
  unfold own_of. destruct (stm_entries m !! id) as [e|] eqn:He; [|done].
  by eapply own_nonneg, (wf_own m Hm).
Qed.

(** Along a parent link the weight grows by the weight of the child. *)
Lemma linked_entry r x y : step_to (stm_links m) r x y -> is_Some (stm_entries m !! x).
Proof.
  intros Hs. apply (wf_dom m Hm). unfold step_to, direct_ids in Hs. destruct (stm_links m !! x); [done|set_solver].
Qed.
Lemma parent_child c p : parent c p -> step_to (stm_links m) Children p c.
Proof. intros Hp. apply (wf_sym m Hm); [by eapply linked_entry|done]. Qed.
Lemma parent_entries c p : parent c p -> is_Some (stm_entries m !! c) /\ is_Some (stm_entries m !! p).
Proof. intros Hp. split; [|apply parent_child in Hp]; by eapply linked_entry. Qed.

Lemma ancestor_entries c a : tc parent c a -> is_Some (stm_entries m !! c) /\ is_Some (stm_entries m !! a).
Proof.
  induction 1 as [c a Hp|c b a Hp Ht [_ IH]]; [by apply parent_entries|].
  split; [by apply parent_entries in Hp as [? _]|done].
Qed.

Lemma stat_of_nonneg w id : 0 <= stat_of (stm_entries m) w id.
Proof.
  unfold stat_of. destruct (stm_entries m !! id) as [e|] eqn:He; [|done]. by eapply (wf_stat m Hm).
Qed.

(** Along a parent link the weight grows by at least the weight of the child. *)
Lemma parent_stat w c p :
  parent c p -> own_of (stm_entries m) w c + stat_of (stm_entries m) w p <= stat_of (stm_entries m) w c.
Proof.
  intros Hp. destruct (parent_entries c p Hp) as [[e He] _].
  pose proof (wf_weight m Hm w c e He) as Hw. rewrite (wsum_remove _ p) in Hw by done.
  pose proof (wsum_nonneg (stat_of (stm_entries m) w) (direct_ids (stm_links m) Parents c ∖ {[p]})
    (fun x _ => stat_of_nonneg w x)).
  unfold own_of, stat_of in *. rewrite He. cbn. lia.
Qed.

Lemma ancestor_stat w c a :
  tc parent c a ->
  own_of (stm_entries m) w c + stat_of (stm_entries m) w a <= stat_of (stm_entries m) w c.
Proof.
  induction 1 as [c a Hp|c b a Hp Ht IH]; [by apply parent_stat|].
  pose proof (parent_stat w c b Hp). pose proof (own_of_nonneg w b). lia.
Qed.

(** The links have no cycle: the count grows strictly. *)
Lemma ancestor_count c a :
  tc parent c a -> stat_of (stm_entries m) W_count a < stat_of (stm_entries m) W_count c.
Proof.
  intros Ha. pose proof (ancestor_stat W_count c a Ha) as Hc. destruct (ancestor_entries c a Ha) as [[e He] _].
  unfold own_of in Hc. rewrite He in Hc. cbn in Hc. lia.
Qed.
Lemma not_own_ancestor c : ~ tc parent c c.
Proof. intros Hc%ancestor_count. lia. Qed.

Lemma own_le_stat w c : own_of (stm_entries m) w c <= stat_of (stm_entries m) w c.
Proof.
  unfold own_of, stat_of. destruct (stm_entries m !! c) as [e|] eqn:He; [|done]. cbn.
  pose proof (wf_weight m Hm w c e He).
  pose proof (wsum_nonneg (stat_of (stm_entries m) w) (direct_ids (stm_links m) Parents c)
    (fun x _ => stat_of_nonneg w x)). lia.
Qed.
End wf.

Section cover.
Context `{HashOrderSpec} (m : SortedTxMap) (Hm : stm_wf m).

Lemma elem_of_ancestors c a :
  a ∈ SortedTxMap_get_ancestors m c <-> tc (step_to (stm_links m) Parents) c a.
Proof. apply get_relative_ids_tc. Qed.
Lemma elem_of_descendants c d :
  is_Some (stm_entries m !! d) ->
  d ∈ SortedTxMap_get_descendants m c <-> tc (step_to (stm_links m) Parents) d c.
Proof.
  unfold SortedTxMap_get_descendants, TxLink_get_descendants. rewrite get_relative_ids_tc. intros Hd. split.
  - intros Ht. revert d Ht Hd. apply (tc_ind_r (fun d => is_Some (stm_entries m !! d) ->
      tc (step_to (stm_links m) Parents) d c)).
    + intros d Hs Hd. apply tc_once. by apply (wf_sym m Hm).
    + intros x d _ Hs IH Hd. eapply tc_l; [by apply (wf_sym m Hm)|]. apply IH. by eapply (linked_entry m Hm).
  - induction 1 as [x y Hp|x y z Hp Ht IH]; [apply tc_once|eapply tc_r; [apply IH|]].
    + by apply parent_child.
    + by apply (parent_entries m Hm x).
    + by apply parent_child.
Qed.

(** The weight of an entry covers it and all its ancestors. *)
Lemma ancestors_cover w c :
  is_Some (stm_entries m !! c) ->
  wsum (own_of (stm_entries m) w) ({[c]} ∪ SortedTxMap_get_ancestors m c) <= stat_of (stm_entries m) w c.
Proof.
  remember (Z.to_nat (stat_of (stm_entries m) W_count c)) as n eqn:Hn. revert c Hn.
  induction (lt_wf n) as [n _ IH]. intros c -> [e He].
  rewrite wsum_insert.
  2: { rewrite elem_of_ancestors. by apply not_own_ancestor. }
  pose proof (wf_weight m Hm w c e He) as Hw.
  assert (stat_of (stm_entries m) w c = stat w e) as -> by (unfold stat_of; by rewrite He).
  assert (own_of (stm_entries m) w c = own w e) as -> by (unfold own_of; by rewrite He).
  enough (wsum (own_of (stm_entries m) w) (SortedTxMap_get_ancestors m c) <=
    wsum (stat_of (stm_entries m) w) (direct_ids (stm_links m) Parents c)) by lia.
  apply (wsum_cover _ _ (fun p => {[p]} ∪ SortedTxMap_get_ancestors m p)).
  - by apply own_of_nonneg.
  - intros p Hp. apply (IH (Z.to_nat (stat_of (stm_entries m) W_count p))); [|done|by apply (parent_entries m Hm c)].
    pose proof (ancestor_count m Hm c p (tc_once _ _ _ Hp)). pose proof (stat_of_nonneg m Hm W_count p). lia.
  - intros x Hx%elem_of_ancestors. apply tc_first in Hx as [Hp|(p & Hp & Ht)].
    + exists x. split; [done|set_solver].
    + exists p. split; [done|]. apply elem_of_union. right. by apply elem_of_ancestors.
Qed.

(** One step up, through the parent [p] of [c]. *)
Lemma ancestor_gap_step w c p a (U := {[a]} ∪ SortedTxMap_get_ancestors m a) :
  step_to (stm_links m) Parents c p ->
  stat_of (stm_entries m) w a + wsum (own_of (stm_entries m) w)
    (({[p]} ∪ SortedTxMap_get_ancestors m p) ∖ U) <= stat_of (stm_entries m) w p ->
  stat_of (stm_entries m) w a + wsum (own_of (stm_entries m) w)
    (({[c]} ∪ SortedTxMap_get_ancestors m c) ∖ U) <= stat_of (stm_entries m) w c.
Proof.
  intros Hp Hap. destruct (parent_entries m Hm c p Hp) as [[e He] _].
  pose proof (wf_weight m Hm w c e He) as Hw. set (P := direct_ids (stm_links m) Parents c) in *.
  assert (stat_of (stm_entries m) w c = stat w e) as -> by (unfold stat_of; by rewrite He).
  rewrite (wsum_remove _ p P) in Hw by done.
  set (g q := if decide (q = p) then stat_of (stm_entries m) w p - stat_of (stm_entries m) w a
              else stat_of (stm_entries m) w q).
  assert (wsum (own_of (stm_entries m) w) (SortedTxMap_get_ancestors m c ∖ U) <= wsum g P) as Hc.
  { apply (wsum_cover _ _ (fun q => if decide (q = p) then ({[p]} ∪ SortedTxMap_get_ancestors m p) ∖ U
                                    else {[q]} ∪ SortedTxMap_get_ancestors m q)).
    - by apply own_of_nonneg.
    - intros q Hq. unfold g. destruct (decide (q = p)) as [->|Hne]; [lia|].
      apply ancestors_cover. by apply (parent_entries m Hm c).
    - intros x [Hx%elem_of_ancestors HU]%elem_of_difference.
      apply tc_first in Hx as [Hx|(q & Hq & Ht)].
      + exists x. split; [done|]. case_decide; subst; set_solver.
      + exists q. split; [done|]. apply elem_of_ancestors in Ht. case_decide; subst; set_solver. }
  rewrite (wsum_remove g p P) in Hc by done. unfold g at 1 in Hc. rewrite decide_True in Hc by done.
  rewrite (wsum_ext g (stat_of (stm_entries m) w) (P ∖ {[p]})) in Hc.
  2: { intros q Hq. unfold g. by rewrite decide_False by set_solver. }
  transitivity (stat_of (stm_entries m) w a + (own w e +
    wsum (own_of (stm_entries m) w) (SortedTxMap_get_ancestors m c ∖ U))); [|lia].
  apply Z.add_le_mono_l. transitivity (wsum (own_of (stm_entries m) w)
    ({[c]} ∪ (SortedTxMap_get_ancestors m c ∖ U))).
  - apply wsum_subset; [set_solver|]. intros. by apply own_of_nonneg.
  - rewrite wsum_insert; [unfold own_of at 1; rewrite He; cbn; lia|].
    intros [Hx%elem_of_ancestors _]%elem_of_difference. by apply (not_own_ancestor m Hm) in Hx.
Qed.

Lemma ancestors_trans c a : a ∈ SortedTxMap_get_ancestors m c ->
  SortedTxMap_get_ancestors m a ⊆ SortedTxMap_get_ancestors m c.
Proof.
  intros Ha x Hx. apply elem_of_ancestors. apply elem_of_ancestors in Ha, Hx. by etransitivity.
Qed.

(** It also covers what it adds to the weight of any of the ancestors. *)
Lemma ancestor_weight_gap w c a :
  tc (step_to (stm_links m) Parents) c a ->
  stat_of (stm_entries m) w a + wsum (own_of (stm_entries m) w)
    (({[c]} ∪ SortedTxMap_get_ancestors m c) ∖ ({[a]} ∪ SortedTxMap_get_ancestors m a)) <=
  stat_of (stm_entries m) w c.
Proof.
  induction 1 as [c a Hca|c p a Hcp Hpa IH].
  - apply (ancestor_gap_step w c a a Hca). rewrite difference_diag_L, wsum_empty. lia.
  - apply (ancestor_gap_step w c p a Hcp IH).
Qed.
End cover.

(** ** Removing an entry *)

Lemma foldl_alter {A} (f : A -> A) (l : list ProposalShortId) (g : gmap ProposalShortId A) c :
  NoDup l -> foldl (fun g p => alter f p g) g l !! c = if decide (c ∈ l) then f <$> g !! c else g !! c.
Proof.
  intros Hnd. revert g. induction Hnd as [|x l Hx Hnd IH]; intros g; cbn [foldl].
  { by rewrite decide_False by apply not_elem_of_nil. }
  rewrite IH. destruct (decide (c = x)) as [->|Hne].
  - rewrite decide_False, (decide_True (P:=x ∈ x :: l)) by (done || left). by rewrite lookup_alter_eq.
  - rewrite lookup_alter_ne by done. repeat case_decide; set_solver.
Qed.

Section remove.
Context `{HashOrderSpec} (m : SortedTxMap) (Hm : stm_wf m).
Context (X : ProposalShortId) (eX : TxEntry) (HX : stm_entries m !! X = Some eX).

Lemma unlink_lookup c :
  unlink (stm_links m) X !! c =
  if decide (c = X) then None
  else (fun l => mkTxLink (link_parents l ∖ {[X]}) (link_children l ∖ {[X]})) <$> stm_links m !! c.
Proof.
  unfold unlink. destruct (proj2 (wf_dom m Hm X) (mk_is_Some _ _ HX)) as [link Hlink]. rewrite Hlink.
  rewrite !foldl_alter by apply hash_iter_NoDup.
  destruct (decide (c = X)) as [->|Hne].
  { rewrite lookup_delete_eq. cbn. by repeat case_decide. }
  rewrite lookup_delete_ne by done. destruct (stm_links m !! c) as [l|] eqn:Hl; cbn; [|by repeat case_decide].
  assert (c ∈ link_parents link <-> X ∈ link_children l) as Hp.
  { pose proof (wf_sym m Hm c X (mk_is_Some _ _ HX)) as Hs. unfold step_to, direct_ids in Hs.
    rewrite Hl, Hlink in Hs. symmetry. exact Hs. }
  assert (c ∈ link_children link <-> X ∈ link_parents l) as Hc.
  { pose proof (wf_sym m Hm X c (proj1 (wf_dom m Hm c) (mk_is_Some _ _ Hl))) as Hs. unfold step_to, direct_ids in Hs.
    rewrite Hl, Hlink in Hs. exact Hs. }
  destruct l as [lp lc]. unfold remove_parent, remove_child. cbn in *.
  assert (forall s : gset ProposalShortId, X ∉ s -> s ∖ {[X]} = s) as Hs by set_solver.
  destruct (decide (c ∈ hash_iter (link_parents link))) as [H1|H1],
    (decide (c ∈ hash_iter (link_children link))) as [H2|H2];
    rewrite elem_of_hash_iter in H1, H2; rewrite ?Hp in H1; rewrite ?Hc in H2; cbn; rewrite ?(Hs lp) by done; rewrite ?(Hs lc) by done; done.
Qed.

Lemma unlink_direct r c :
  direct_ids (unlink (stm_links m) X) r c =
  if decide (c = X) then ∅ else direct_ids (stm_links m) r c ∖ {[X]}.
Proof.
  unfold direct_ids. rewrite unlink_lookup. case_decide; [done|].
  destruct (stm_links m !! c) as [l|]; cbn; [by destruct r|set_solver].
Qed.

Lemma sub_descendants l entries index :
  NoDup l -> ids_ok entries -> index_ok entries index ->
  (forall c e, c ∈ l -> entries !! c = Some e -> key_ok (as_sorted_key (TxEntry_sub_entry_weight e eX))) ->
  exists entries' index', foldl (sub_descendant eX) (entries, index) l = (entries', index') /\
    index_ok entries' index' /\
    forall c, entries' !! c =
      if decide (c ∈ l) then (fun e => TxEntry_sub_entry_weight e eX) <$> entries !! c else entries !! c.
Proof.
  intros Hnd. revert entries index. induction Hnd as [|d l Hd Hnd IH]; intros entries index Hi Hx Hk.
  { exists entries, index. split_and!; [done..|]. intros c. by rewrite decide_False by apply not_elem_of_nil. }
  cbn [foldl sub_descendant]. destruct (entries !! d) as [e|] eqn:He.
  - set (e' := TxEntry_sub_entry_weight e eX).
    destruct (IH (<[d := e']> entries) (btree_insert (as_sorted_key e') (btree_remove (as_sorted_key e) index)))
      as (entries' & index' & Hf & Hx' & Hl).
    + intros c ec. destruct (decide (c = d)) as [->|Hne].
      * rewrite lookup_insert_eq. intros [= <-]. exact (Hi d e He).
      * rewrite lookup_insert_ne by done. apply Hi.
    + rewrite <- insert_delete_eq. apply index_insert.
      * intros c ec. rewrite lookup_delete_Some. intros [_ Hc]. by apply Hi.
      * apply lookup_delete_eq.
      * exact (Hi d e He).
      * apply (Hk d); [left|done].
      * by apply index_delete.
    + intros c ec Hc. rewrite lookup_insert_ne by (intros ->; done). apply Hk. by right.
    + exists entries', index'. split_and!; [done..|]. intros c. rewrite Hl.
      destruct (decide (c = d)) as [->|Hne].
      * rewrite decide_False, (decide_True (P:=d ∈ d :: l)) by (done || left). by rewrite lookup_insert_eq, He.
      * rewrite lookup_insert_ne by done. repeat case_decide; set_solver.
  - destruct (IH entries index Hi Hx) as (entries' & index' & Hf & Hx' & Hl).
    { intros c ec Hc. apply Hk. by right. }
    exists entries', index'. split_and!; [done..|]. intros c. rewrite Hl.
    destruct (decide (c = d)) as [->|Hne]; [rewrite He; by repeat case_decide|].
    repeat case_decide; set_solver.
Qed.

Abbreviation desc := (SortedTxMap_get_descendants m X).

(** A descendant keeps room for itself when [X] leaves. *)
Lemma descendant_stat w c e :
  c ∈ desc -> stm_entries m !! c = Some e -> own w e + own w eX <= stat w e.
Proof.
  intros Hd He. rewrite elem_of_descendants in Hd by (done || by eexists). pose proof (ancestor_stat m Hm w c X Hd) as Hs.
  pose proof (own_le_stat m Hm w X) as Ho. unfold own_of, stat_of in *. rewrite He, HX in *. cbn in *. lia.
Qed.

Lemma remove_entry_lookup :
  exists entries index,
    SortedTxMap_remove_entry m X =
      (Some eX, mkSortedTxMap entries index (unlink (stm_links m) X) (max_ancestors_count m)) /\
    index_ok entries index /\
    forall c, entries !! c =
      if decide (c = X) then None
      else if decide (c ∈ desc) then (fun e => TxEntry_sub_entry_weight e eX) <$> stm_entries m !! c
      else stm_entries m !! c.
Proof.
  unfold SortedTxMap_remove_entry. rewrite HX.
  destruct (sub_descendants (hash_iter desc) (delete X (stm_entries m))
    (btree_remove (as_sorted_key eX) (stm_index m))) as (entries & index & -> & Hx & Hl).
  - apply hash_iter_NoDup.
  - intros c e. rewrite lookup_delete_Some. intros [_ He]. by apply (wf_ids m Hm).
  - apply index_delete; [apply Hm|done|apply Hm].
  - intros c e Hc%elem_of_hash_iter [_ He]%lookup_delete_Some.
    pose proof (descendant_stat W_size c e Hc He) as Hs. pose proof (descendant_stat W_fee c e Hc He) as Hf.
    pose proof (wf_own m Hm c e He) as Ho. destruct Ho as (? & ? & ?).
    apply key_ok_entry; [done|..]; cbn in *; unfold saturating_sub; lia.
  - exists entries, index. split_and!; [done..|]. intros c. rewrite Hl.
    destruct (decide (c = X)) as [->|Hne]; [rewrite lookup_delete_eq; by case_decide|].
    rewrite lookup_delete_ne by done.
    repeat case_decide; rewrite elem_of_hash_iter in *; done.
Qed.

(** The inequality of the weights survives. *)
Lemma remove_weight entries w c e :
  (forall c, entries !! c =
    if decide (c = X) then None
    else if decide (c ∈ desc) then (fun e => TxEntry_sub_entry_weight e eX) <$> stm_entries m !! c
    else stm_entries m !! c) ->
  entries !! c = Some e ->
  own w e + wsum (stat_of entries w) (direct_ids (unlink (stm_links m) X) Parents c) <= stat w e.
Proof.
  intros Hl He. rewrite Hl in He. destruct (decide (c = X)) as [|Hne]; [done|].
  assert (forall p, stat_of entries w p <= stat_of (stm_entries m) w p) as Hle.
  { intros p. unfold stat_of. rewrite Hl. pose proof (stat_of_nonneg m Hm w p) as Hp. unfold stat_of in Hp.
    destruct (decide (p = X)); [done|]. destruct (decide (p ∈ desc)); [|done].
    destruct (stm_entries m !! p) as [ep|] eqn:Hep; [|done]. cbn in *.
    rewrite stat_sub. unfold saturating_sub. pose proof (own_of_nonneg m Hm w X) as Hx.
    unfold own_of in Hx. rewrite HX in Hx. cbn in Hx. lia. }
  rewrite unlink_direct, decide_False by done. set (P := direct_ids (stm_links m) Parents c).
  destruct (decide (c ∈ desc)) as [Hc|Hc].
  - destruct (stm_entries m !! c) as [e0|] eqn:He0; [|done]. apply (inj Some) in He as <-.
    rewrite own_sub, stat_sub. pose proof (wf_weight m Hm w c e0 He0) as Hw. fold P in Hw.
    enough (wsum (stat_of entries w) (P ∖ {[X]}) + own w eX <= wsum (stat_of (stm_entries m) w) P)
      by (unfold saturating_sub; lia).
    destruct (decide (X ∈ P)) as [HXP|HXP].
    + rewrite (wsum_remove _ X P) by done. pose proof (own_le_stat m Hm w X) as Ho.
      unfold own_of in Ho. rewrite HX in Ho. cbn in Ho.
      pose proof (wsum_mono _ _ (P ∖ {[X]}) (fun x _ => Hle x)). lia.
    + replace (P ∖ {[X]}) with P by set_solver.
      rewrite elem_of_descendants in Hc by done. apply tc_first in Hc as [Hp|(p & Hp & Ht)]; [done|].
      rewrite !(wsum_remove _ p P) by done. pose proof (wsum_mono _ _ (P ∖ {[p]}) (fun x _ => Hle x)).
      enough (stat_of entries w p + own w eX <= stat_of (stm_entries m) w p) by lia.
      destruct (proj2 (parent_entries m Hm c p Hp)) as [ep Hep].
      assert (p ∈ desc) as Hpd by (by apply elem_of_descendants; [|eexists|]).
      pose proof (descendant_stat w p ep Hpd Hep). unfold stat_of. rewrite Hl, Hep.
      rewrite decide_False by (intros ->; by apply HXP). rewrite decide_True by done. cbn.
      rewrite stat_sub. pose proof (own_of_nonneg m Hm w p) as Hx. unfold own_of in Hx. rewrite Hep in Hx.
      cbn in Hx. unfold saturating_sub. lia.
  - pose proof (wf_weight m Hm w c e He) as Hw. fold P in Hw.
    pose proof (wsum_mono _ _ (P ∖ {[X]}) (fun x _ => Hle x)).
    pose proof (wsum_subset (stat_of (stm_entries m) w) (P ∖ {[X]}) P ltac:(set_solver)
      (fun x _ => stat_of_nonneg m Hm w x)). lia.
Qed.

Lemma remove_entry_wf : stm_wf (SortedTxMap_remove_entry m X).2.
Proof.
  destruct remove_entry_lookup as (entries & index & -> & Hx & Hl). cbn [snd]. split; cbn.
  - intros c e. rewrite Hl. repeat case_decide; [done| |apply (wf_ids m Hm)].
    intros (e0 & He0 & ->)%fmap_Some. exact (wf_ids m Hm _ _ He0).
  - intros c. rewrite unlink_lookup, Hl. case_decide; [split; by intros []|].
    rewrite fmap_is_Some, (wf_dom m Hm). case_decide; [by rewrite fmap_is_Some|done].
  - intros p c [e He]. unfold step_to. rewrite !unlink_direct. pose proof (wf_sym m Hm p c) as Hs.
    assert (c <> X /\ is_Some (stm_entries m !! c)) as [Hne Hc].
    { rewrite Hl in He. repeat case_decide; [done|apply fmap_Some in He as (? & ? & _); by eauto|by eauto]. }
    specialize (Hs Hc). unfold step_to in Hs. repeat case_decide; set_solver.
  - done.
  - intros c e. rewrite Hl. repeat case_decide; [done| |apply (wf_own m Hm)].
    intros (e0 & He0 & ->)%fmap_Some. exact (wf_own m Hm _ _ He0).
  - intros w c e. rewrite Hl. repeat case_decide; [done| |apply (wf_stat m Hm)].
    intros (e0 & He0 & ->)%fmap_Some. rewrite stat_sub. unfold saturating_sub. lia.
  - intros w c e. by apply remove_weight.
Qed.
End remove.

(** ** Adding an entry *)

(** The parents' weights, summed without wrapping. *)
Lemma fold_ancestors_weight {E} m l e :
  (forall p, p ∈ l -> exists ep, stm_entries m !! p = Some ep /\ forall w, 0 <= stat w ep) ->
  (forall w, stat w e <= u64_max) ->
  exists e', try_fold (fun entry id =>
      parent_entry ← expect (stm_entries m !! id);
      Ok (TxEntry_add_ancestors_weight entry parent_entry)) e l = Ok (E:=E) e' /\
    te_transaction e' = te_transaction e /\ (forall w, own w e' = own w e) /\
    forall w, stat w e' = Z.min u64_max (stat w e + sumZ (stat_of (stm_entries m) w <$> l)).
Proof.
  revert e. induction l as [|p l IH]; intros e Hl He; cbn [try_fold].
  { exists e. split_and!; [done..|]. intros w. cbn. specialize (He w). lia. }
  destruct (Hl p) as (ep & Hep & Hs); [left|]. rewrite Hep. step.
  destruct (IH (TxEntry_add_ancestors_weight e ep)) as (e' & -> & Ht & Ho & Hst).
  - intros q Hq. apply Hl. by right.
  - intros w. rewrite stat_add. unfold saturating_add. lia.
  - exists e'. split_and!; [done|by rewrite Ht|intros w; by rewrite Ho, own_add|]. intros w.
    rewrite Hst, stat_add. unfold saturating_add. rewrite fmap_cons.
    change (sumZ (?a :: ?l)) with (a + sumZ l).
    assert (stat_of (stm_entries m) w p = stat w ep) as -> by (unfold stat_of; by rewrite Hep).
    assert (0 <= sumZ (stat_of (stm_entries m) w <$> l)); [|lia].
    apply sumZ_nonneg, Forall_fmap, Forall_forall. intros q Hq. cbn. unfold stat_of.
    destruct (Hl q) as (eq & -> & Hq'); [by right|]. apply Hq'.
Qed.

Section add.
Context `{HashOrderSpec}.

Lemma wsum_hash_iter f s : sumZ (f <$> hash_iter s) = wsum f s.
Proof. unfold wsum. by rewrite hash_iter_perm. Qed.

(** The links of the parents. *)
Lemma add_children {E : Type} (id : ProposalShortId) (l : list ProposalShortId) (links : gmap ProposalShortId TxLink) :
  NoDup l -> (forall p, p ∈ l -> is_Some (links !! p)) ->
  exists links' : gmap ProposalShortId TxLink,
    try_fold (fun (links : gmap ProposalShortId TxLink) parent_id =>
      link ← expect (links !! parent_id);
      Ok (<[parent_id := add_child id link]> links)) links l = Ok (E:=E) links' /\
    forall p, links' !! p = if decide (p ∈ l) then add_child id <$> links !! p else links !! p.
Proof.
  intros Hnd. revert links. induction Hnd as [|p l Hp Hnd IH]; intros links Hl; cbn [try_fold].
  { exists links. split; [done|]. intros q. by rewrite decide_False by apply not_elem_of_nil. }
  destruct (Hl p) as [link Hlink]; [left|]. rewrite Hlink. step.
  destruct (IH (<[p := add_child id link]> links)) as (links' & -> & Hlk).
  - intros q Hq. rewrite lookup_insert_ne by (intros ->; done). apply Hl. by right.
  - exists links'. split; [done|]. intros q. rewrite Hlk. destruct (decide (q = p)) as [->|Hne].
    + rewrite decide_False, (decide_True (P:=p ∈ p :: l)) by (done || left).
      by rewrite lookup_insert_eq, Hlink.
    + rewrite lookup_insert_ne by done. repeat case_decide; set_solver.
Qed.

(** A new entry with its links. *)
Lemma insert_wf m id e parents links :
  stm_wf m -> stm_entries m !! id = None -> te_id e = id -> entry_ok e ->
  (forall p, p ∈ parents -> is_Some (stm_entries m !! p)) ->
  (forall w, own w e + wsum (stat_of (stm_entries m) w) parents <= stat w e) ->
  (forall p, links !! p = if decide (p ∈ hash_iter parents) then add_child id <$> stm_links m !! p
                          else stm_links m !! p) ->
  (forall p, step_to (stm_links m) Children p id -> p ∈ parents) ->
  stm_wf (mkSortedTxMap (<[id := e]> (stm_entries m)) (btree_insert (as_sorted_key e) (stm_index m))
    (<[id := mkTxLink parents ∅]> links) (max_ancestors_count m)).
Proof.
  intros Hm Hn Hid He Hpar Hw Hlk Hstale.
  assert (stm_links m !! id = None) as Hnl.
  { apply eq_None_not_Some. rewrite (wf_dom m Hm), Hn. by intros []. }
  assert (id ∉ parents) as Hnp by (intros Hp; apply Hpar in Hp; rewrite Hn in Hp; by destruct Hp).
  assert (forall c, direct_ids (<[id := mkTxLink parents ∅]> links) Parents c =
    if decide (c = id) then parents else direct_ids (stm_links m) Parents c) as HP.
  { intros c. unfold direct_ids. destruct (decide (c = id)) as [->|Hne]; [by rewrite lookup_insert_eq|].
    rewrite lookup_insert_ne, Hlk by done. destruct (stm_links m !! c); case_decide; done. }
  assert (forall p, direct_ids (<[id := mkTxLink parents ∅]> links) Children p =
    if decide (p = id) then ∅ else if decide (p ∈ parents) then {[id]} ∪ direct_ids (stm_links m) Children p
    else direct_ids (stm_links m) Children p) as HC.
  { intros p. unfold direct_ids. destruct (decide (p = id)) as [->|Hne]; [by rewrite lookup_insert_eq|].
    rewrite lookup_insert_ne, Hlk by done. rewrite (decide_ext _ (p ∈ parents)) by apply elem_of_hash_iter.
    case_decide as Hp; [|done]. destruct (stm_links m !! p) eqn:Hl; [done|].
    apply Hpar, (wf_dom m Hm) in Hp. rewrite Hl in Hp. by destruct Hp. }
  assert (forall c p, step_to (stm_links m) Parents c p -> c <> id /\ p <> id) as Hother.
  { intros c p [[ec Hc] [ep Hp]]%(parent_entries m Hm). split; intros ->; congruence. }
  assert (forall w c, 0 <= wsum (stat_of (stm_entries m) w) c) as Hpos.
  { intros w c. apply wsum_nonneg. intros x _. by apply stat_of_nonneg. }
  split; cbn.
  - intros c ec. destruct (decide (c = id)) as [->|Hne]; [rewrite lookup_insert_eq; by intros [= <-]|].
    rewrite lookup_insert_ne by done. apply (wf_ids m Hm).
  - intros c. destruct (decide (c = id)) as [->|Hne]; [by rewrite !lookup_insert_eq|].
    rewrite !lookup_insert_ne, Hlk, <- (wf_dom m Hm) by done. case_decide; [apply fmap_is_Some|done].
  - intros p c Hc. unfold step_to. rewrite HP, HC. pose proof (Hother c p) as Ho. unfold step_to in Ho.
    destruct (decide (c = id)) as [->|Hne].
    + pose proof (Hstale p) as Hp. unfold step_to in Hp. repeat case_decide; subst; set_solver.
    + rewrite lookup_insert_ne in Hc by done. pose proof (wf_sym m Hm p c Hc) as Hs. unfold step_to in Hs.
      repeat case_decide; subst; set_solver.
  - apply index_insert; [apply Hm|done|done| |apply Hm].
    destruct He as (Hsz & Hcy & Hfe). pose proof (Hw W_size) as H1. pose proof (Hw W_fee) as H2.
    pose proof (Hpos W_size parents). pose proof (Hpos W_fee parents). cbn in H1, H2.
    apply key_ok_entry; [done|lia|lia].
  - intros c ec. destruct (decide (c = id)) as [->|Hne]; [rewrite lookup_insert_eq; by intros [= <-]|].
    rewrite lookup_insert_ne by done. apply (wf_own m Hm).
  - intros w c ec. destruct (decide (c = id)) as [->|Hne].
    + rewrite lookup_insert_eq. intros [= <-]. specialize (Hw w). pose proof (own_nonneg w e He).
      pose proof (Hpos w parents). lia.
    + rewrite lookup_insert_ne by done. apply (wf_stat m Hm).
  - intros w c ec Hc. rewrite HP.
    assert (forall s, id ∉ s -> wsum (stat_of (<[id := e]> (stm_entries m)) w) s =
      wsum (stat_of (stm_entries m) w) s) as Hext.
    { intros s Hs. apply wsum_ext. intros x Hx. unfold stat_of. rewrite lookup_insert_ne; [done|].
      intros ->. done. }
    destruct (decide (c = id)) as [->|Hne].
    + rewrite lookup_insert_eq in Hc. apply (inj Some) in Hc as <-. by rewrite Hext.
    + rewrite lookup_insert_ne in Hc by done. rewrite Hext; [by apply (wf_weight m Hm)|].
      intros Hi. by apply (Hother c id) in Hi as [_ ?].
Qed.

(** An entry that may be added: it takes space, carries at least its own weight,
    does not refer to itself, the links that an earlier removal of it has left come
    from its parents, and the sums of the weights stay below 2^64. *)
Record addable (m : SortedTxMap) (e : TxEntry) : Prop := {
  ad_ok : entry_ok e;
  ad_stat w : own w e <= stat w e <= u64_max;
  ad_self : te_id e ∉ in_pool_parents m (te_transaction e);
  ad_links p : stm_entries m !! te_id e = None -> step_to (stm_links m) Children p (te_id e) ->
    p ∈ in_pool_parents m (te_transaction e);
  ad_fits w : w <> W_count ->
    stat w e + wsum (stat_of (stm_entries m) w) (in_pool_parents m (te_transaction e)) <= u64_max;
}.

Lemma in_pool_parents_entries m tx p :
  stm_wf m -> p ∈ in_pool_parents m tx -> is_Some (stm_entries m !! p).
Proof.
  intros Hm Hp. unfold in_pool_parents in Hp. rewrite elem_of_list_to_set in Hp.
  apply list_elem_of_filter in Hp as [Hp _]. by apply (wf_dom m Hm).
Qed.

(** The map an entry is added to: an entry with the same id leaves it first. *)
Definition cleared_map (m : SortedTxMap) (id : ProposalShortId) : SortedTxMap :=
  (if SortedTxMap_contains_key m id then SortedTxMap_remove_entry m id else (None, m)).2.

Lemma cleared_map_spec m id :
  stm_wf m -> let m' := cleared_map m id in
  stm_wf m' /\ stm_entries m' !! id = None /\ max_ancestors_count m' = max_ancestors_count m /\
  (forall p, p <> id -> is_Some (stm_entries m !! p) -> is_Some (stm_entries m' !! p)) /\
  (forall p, step_to (stm_links m') Children p id ->
    stm_entries m !! id = None /\ step_to (stm_links m) Children p id) /\
  (forall w p, stat_of (stm_entries m') w p <= stat_of (stm_entries m) w p).
Proof.
  intros Hm. unfold cleared_map, SortedTxMap_contains_key. case_bool_decide as Hin; cbn [snd].
  - destruct Hin as [e He]. pose proof (remove_entry_wf m Hm id e He) as Hwf.
    destruct (remove_entry_lookup m Hm id e He) as (entries & index & Hr & _ & Hl).
    rewrite Hr in *. cbn [snd stm_entries max_ancestors_count] in *. split_and!; [done| |done|..].
    + rewrite Hl. by rewrite decide_True.
    + intros p Hne Hp. rewrite Hl, decide_False by done. case_decide; [by apply fmap_is_Some|done].
    + intros p. unfold step_to. cbn. rewrite (unlink_direct m Hm id e He). case_decide; set_solver.
    + intros w p. unfold stat_of. rewrite Hl. pose proof (stat_of_nonneg m Hm w p) as Hn. unfold stat_of in Hn.
      destruct (decide (p = id)); [done|]. case_decide; [|done].
      destruct (stm_entries m !! p) as [ep|]; [|done]. cbn in *. rewrite stat_sub.
      pose proof (own_nonneg w e (wf_own m Hm id e He)). unfold saturating_sub. lia.
  - apply eq_None_not_Some in Hin. split_and!; [done..|by auto|by auto|done].
Qed.

(** Either the entry has too many ancestors, or it is added. *)
Lemma add_entry_cases m e :
  stm_wf m -> max_ancestors_count m < u64_max -> addable m e ->
  SortedTxMap_add_entry m e = Err ExceededMaximumAncestorsCount \/
  exists removed m' e', SortedTxMap_add_entry m e = Ok (removed, m') /\ stm_wf m' /\
    max_ancestors_count m' = max_ancestors_count m /\
    stm_entries m' = <[te_id e := e']> (stm_entries (cleared_map m (te_id e))) /\
    te_transaction e' = te_transaction e /\
    (forall c, direct_ids (stm_links m') Parents c =
      if decide (c = te_id e) then in_pool_parents m (te_transaction e)
      else direct_ids (stm_links (cleared_map m (te_id e))) Parents c) /\
    forall w, own w e' = own w e /\
      stat w e' = stat w e + wsum (stat_of (stm_entries m) w) (in_pool_parents m (te_transaction e)).
Proof.
  intros Hm Hmax [Ho Hst Hself Hlinks Hfits]. set (parents := in_pool_parents m (te_transaction e)) in *.
  assert (forall p, p ∈ parents -> is_Some (stm_entries m !! p)) as Hpar
    by (intros p; by apply in_pool_parents_entries).
  destruct (fold_ancestors_weight (E:=SubmitTxError) m (hash_iter parents) e) as (e' & Hf & Ht & Ho' & Hs').
  { intros p Hp%elem_of_hash_iter. destruct (Hpar p Hp) as [ep Hep]. exists ep. split; [done|].
    intros w. by apply (wf_stat m Hm w p). }
  { intros w. apply Hst. }
  unfold SortedTxMap_add_entry, update_ancestors_stat_for_entry. fold parents. rewrite Hf. step.
  destruct (Z.ltb_spec (max_ancestors_count m) (ancestors_count e')) as [Hlt|Hle]; [by left|right].
  assert (forall w, stat w e' = stat w e + wsum (stat_of (stm_entries m) w) parents) as Hs.
  { intros w. specialize (Hs' w). rewrite wsum_hash_iter in Hs'. specialize (Hfits w).
    destruct w; [specialize (Hfits ltac:(done))..|]; cbn in *; lia. }
  destruct (cleared_map_spec m (te_id e) Hm) as (Hm1 & Hn1 & Hmax1 & Hpar1 & Hch1 & Hle1).
  unfold cleared_map in *.
  destruct (if SortedTxMap_contains_key m (te_id e) then _ else _) as [removed m1]. cbn [snd] in *.
  assert (forall p, p ∈ parents -> is_Some (stm_entries m1 !! p)) as Hpm1.
  { intros p Hp. apply Hpar1; [intros ->; done|by apply Hpar]. }
  destruct (add_children (E:=SubmitTxError) (te_id e) (hash_iter parents) (stm_links m1)) as (links & -> & Hlk).
  { apply hash_iter_NoDup. }
  { intros p Hp%elem_of_hash_iter. by apply (wf_dom m1 Hm1), Hpm1. }
  step. do 3 eexists. split; [reflexivity|]. split.
  - apply insert_wf; [done|done| | |done| |done|].
    + unfold te_id. by rewrite Ht.
    + destruct Ho as (? & ? & ?). pose proof (Ho' W_size). pose proof (Ho' W_cycles). pose proof (Ho' W_fee).
      cbn in *. unfold entry_ok. lia.
    + intros w. rewrite Ho', Hs. pose proof (Hst w).
      pose proof (wsum_mono _ _ parents (fun x _ => Hle1 w x)). lia.
    + intros p [Hn Hp]%Hch1. by apply Hlinks.
  - cbn. split_and!; [done|reflexivity|done| |auto]. intros c. unfold direct_ids.
    destruct (decide (c = te_id e)) as [->|Hne]; [by rewrite lookup_insert_eq|].
    rewrite lookup_insert_ne, Hlk by done. destruct (stm_links m1 !! c); case_decide; done.
Qed.
End add.

(** ** Removing an entry with its descendants *)

Lemma link_count_delete links id link :
  links !! id = Some link -> (link_count (delete id links) + size (link_children link) = link_count links)%nat.
Proof.
  intros Hl. unfold link_count. rewrite <- (map_to_list_delete links id link Hl). rewrite fmap_cons. cbn. lia.
Qed.

(** A link to a child that is not in the map. *)
Definition dangling (m : SortedTxMap) (p d : ProposalShortId) : Prop :=
  d ∈ direct_ids (stm_links m) Children p /\ stm_entries m !! d = None.

Section remove_descendants.
Context `{HashOrderSpec} (m0 : SortedTxMap) (Hm0 : stm_wf m0) (root : ProposalShortId).
Context (Hroot : is_Some (stm_entries m0 !! root)).

(** The entry and its descendants. *)
Definition doomed : gset ProposalShortId := {[root]} ∪ SortedTxMap_get_descendants m0 root.

Lemma elem_of_doomed x : x ∈ doomed <-> rtc (step_to (stm_links m0) Children) root x.
Proof.
  unfold doomed. rewrite elem_of_union, elem_of_singleton, rtc_tc.
  unfold SortedTxMap_get_descendants, TxLink_get_descendants. rewrite get_relative_ids_tc. naive_solver.
Qed.

(** The state of the loop, after the ids [gone] have been removed. *)
Record removing (m : SortedTxMap) (queue : list ProposalShortId) (removed : list TxEntry)
    (gone : gset ProposalShortId) : Prop := {
  rm_ids : te_id <$> removed ≡ₚ elements gone;
  rm_removed e : e ∈ removed -> stm_entries m0 !! te_id e = Some e;
  rm_entries x : stm_entries m !! x = if decide (x ∈ gone) then None else stm_entries m0 !! x;
  rm_links x : stm_links m !! x = if decide (x ∈ gone) then None else stm_links m0 !! x;
  rm_index : index_ok (stm_entries m) (stm_index m);
  rm_max : max_ancestors_count m = max_ancestors_count m0;
  rm_sound x : x ∈ gone \/ x ∈ queue -> x ∈ doomed;
  rm_alive x : x ∈ gone -> is_Some (stm_entries m0 !! x);
  rm_root : root ∈ gone \/ root ∈ queue;
  rm_next x y : x ∈ gone -> step_to (stm_links m0) Children x y -> is_Some (stm_entries m0 !! y) ->
    y ∈ gone \/ y ∈ queue;
}.

Lemma removing_ids_ok m queue removed gone : removing m queue removed gone -> ids_ok (stm_entries m).
Proof. intros Hr x e. rewrite (rm_entries _ _ _ _ Hr). case_decide; [done|apply (wf_ids m0 Hm0)]. Qed.

Lemma removing_skip m id queue removed gone :
  removing m (id :: queue) removed gone -> stm_entries m !! id = None -> removing m queue removed gone.
Proof.
  intros Hr Hn. assert (is_Some (stm_entries m0 !! id) -> id ∈ gone) as Hg.
  { intros [e He]. rewrite (rm_entries _ _ _ _ Hr) in Hn. case_decide; congruence. }
  destruct Hr as [R1 R2 R3 R4 R5 R6 R7 R8 R9 R10]. split; [done..| |done| |].
  - intros x [Hx|Hx]; apply R7; [by left|right; by right].
  - rewrite elem_of_cons in R9. naive_solver.
  - intros x y Hx Hy Ha. pose proof (R10 x y Hx Hy Ha) as Hc. rewrite elem_of_cons in Hc. naive_solver.
Qed.

Lemma removing_pop m id queue removed gone e link :
  removing m (id :: queue) removed gone -> stm_entries m !! id = Some e -> stm_links m !! id = Some link ->
  removing (mkSortedTxMap (delete id (stm_entries m)) (btree_remove (as_sorted_key e) (stm_index m))
      (delete id (stm_links m)) (max_ancestors_count m))
    (queue ++ hash_iter (link_children link)) (removed ++ [e]) ({[id]} ∪ gone).
Proof.
  intros Hr He Hl. pose proof (removing_ids_ok _ _ _ _ Hr) as Hids.
  destruct Hr as [R1 R2 R3 R4 R5 R6 R7 R8 R9 R10].
  assert (id ∉ gone /\ stm_entries m0 !! id = Some e /\ stm_links m0 !! id = Some link) as (Hg & He0 & Hl0).
  { rewrite R3 in He. rewrite R4 in Hl. repeat case_decide; done. }
  assert (forall y, step_to (stm_links m0) Children id y <-> y ∈ link_children link) as Hch
    by (intros y; unfold step_to, direct_ids; by rewrite Hl0).
  assert (id ∈ doomed) as Hd by (apply R7; right; left).
  split; cbn.
  - rewrite fmap_app, elements_union_singleton, <- R1 by done. cbn.
    by rewrite (wf_ids m0 Hm0 _ _ He0), Permutation_app_comm.
  - intros e'. rewrite elem_of_app, list_elem_of_singleton. intros [Hin| ->]; [by apply R2|].
    by rewrite (wf_ids m0 Hm0 _ _ He0).
  - intros x. rewrite lookup_delete, R3. repeat case_decide; set_solver.
  - intros x. rewrite lookup_delete, R4. repeat case_decide; set_solver.
  - by apply index_delete.
  - done.
  - intros x. rewrite elem_of_app, elem_of_hash_iter, elem_of_union, elem_of_singleton.
    intros [[->|Hx]|[Hx|Hx]]; [done|apply R7; by left|apply R7; right; by right|].
    rewrite elem_of_doomed in *. eapply rtc_r; [done|]. by apply Hch.
  - intros x [->%elem_of_singleton|Hx]%elem_of_union; [by eexists|by apply R8].
  - rewrite elem_of_app, elem_of_union, elem_of_singleton. rewrite elem_of_cons in R9. naive_solver.
  - intros x y. rewrite elem_of_app, elem_of_hash_iter, !elem_of_union, !elem_of_singleton.
    intros [->|Hx] Hy Ha; [right; right; by apply Hch|].
    pose proof (R10 x y Hx Hy Ha) as Hc. rewrite elem_of_cons in Hc. naive_solver.
Qed.

(** Those of them that are in the map. *)
Definition doomed_in : gset ProposalShortId := filter (fun x => is_Some (stm_entries m0 !! x)) doomed.

Lemma removing_done m removed gone : removing m [] removed gone -> gone = doomed_in.
Proof.
  intros Hr. apply set_eq. intros x. unfold doomed_in. rewrite elem_of_filter. split.
  - intros Hx. split; [by apply (rm_alive _ _ _ _ Hr)|apply (rm_sound _ _ _ _ Hr); by left].
  - rewrite elem_of_doomed. intros [Ha Hx]. revert x Hx Ha.
    apply (rtc_ind_r (fun x => is_Some (stm_entries m0 !! x) -> x ∈ gone)).
    + intros _. destruct (rm_root _ _ _ _ Hr) as [?|[]%not_elem_of_nil]; done.
    + intros x y _ Hxy Hx Hy. destruct (rm_next _ _ _ _ Hr x y) as [?|[]%not_elem_of_nil]; [|done..].
      apply Hx. by eapply (linked_entry m0 Hm0).
Qed.

Lemma remove_loop_spec fuel m queue removed gone :
  removing m queue removed gone -> (link_count (stm_links m) + length queue <= fuel)%nat ->
  removing (remove_loop fuel m queue removed).1 [] (remove_loop fuel m queue removed).2 doomed_in.
Proof.
  revert m queue removed gone. induction fuel as [|fuel IH]; intros m queue removed gone Hr Hf;
    destruct queue as [|id queue]; cbn [remove_loop length] in *; [|lia| |].
  1,2: by rewrite <- (removing_done _ _ _ Hr).
  destruct (stm_entries m !! id) as [e|] eqn:He.
  - assert (is_Some (stm_links m !! id)) as [link Hl].
    { rewrite (rm_entries _ _ _ _ Hr) in He. rewrite (rm_links _ _ _ _ Hr). case_decide; [done|].
      apply (wf_dom m0 Hm0). by eexists. }
    rewrite Hl. eapply IH; [by apply removing_pop|]. cbn. pose proof (link_count_delete _ _ _ Hl) as Hc.
    rewrite length_app, hash_iter_perm. unfold size, set_size in Hc. cbn in Hc. lia.
  - eapply IH; [by eapply removing_skip|lia].
Qed.

Lemma removing_start : removing m0 [root] [] ∅.
Proof.
  split; [done| |..].
  - by intros e He%not_elem_of_nil.
  - intros x. by rewrite decide_False by set_solver.
  - intros x. by rewrite decide_False by set_solver.
  - apply Hm0.
  - done.
  - intros x [Hx| ->%list_elem_of_singleton]; [set_solver|]. by apply elem_of_doomed.
  - set_solver.
  - right. left.
  - set_solver.
Qed.

(** The map and the removed entries after the call. *)
Lemma remove_descendants_result :
  let r := SortedTxMap_remove_entry_and_descendants m0 root in
  te_id <$> r.1 ≡ₚ elements doomed_in /\ (forall e, e ∈ r.1 -> stm_entries m0 !! te_id e = Some e) /\
  (forall x, stm_entries r.2 !! x = if decide (x ∈ doomed) then None else stm_entries m0 !! x) /\
  (forall x, stm_links r.2 !! x = if decide (x ∈ doomed) then None
    else if decide (x ∈ direct_ids (stm_links m0) Parents root) then remove_child root <$> stm_links m0 !! x
    else stm_links m0 !! x) /\
  index_ok (stm_entries r.2) (stm_index r.2) /\ max_ancestors_count r.2 = max_ancestors_count m0.
Proof.
  unfold SortedTxMap_remove_entry_and_descendants.
  assert (exists link, stm_links m0 !! root = Some link) as [link Hl] by (by apply (wf_dom m0 Hm0)).
  pose proof (remove_loop_spec (S (link_count (stm_links m0))) m0 [root] [] ∅ removing_start) as Hr.
  destruct (remove_loop _ m0 [root] []) as [m removed]. cbn [fst snd length] in *.
  specialize (Hr ltac:(lia)). destruct Hr as [R1 R2 R3 R4 R5 R6 _ _ _ _].
  assert (forall (A : Type) (f : gmap ProposalShortId A) x, is_Some (f !! x) <-> is_Some (stm_entries m0 !! x) ->
    (if decide (x ∈ doomed_in) then None else f !! x) = if decide (x ∈ doomed) then None else f !! x) as Hin.
  { intros A f x Hx. unfold doomed_in. destruct (decide (x ∈ doomed)) as [Hd|Hd].
    - destruct (f !! x) eqn:Hf; [|by case_decide]. rewrite decide_True; [done|].
      apply elem_of_filter. split; [by apply Hx|done].
    - rewrite decide_False; [done|]. set_solver. }
  split_and!; [done|done| | |done|done].
  - intros x. cbn. rewrite R3. by apply Hin.
  - intros x. cbn. rewrite Hl, foldl_alter by apply hash_iter_NoDup.
    rewrite (decide_ext _ (x ∈ link_parents link)) by apply elem_of_hash_iter.
    unfold direct_ids. rewrite Hl, R4, Hin by apply (wf_dom m0 Hm0). cbn. repeat case_decide; done.
Qed.

Lemma remove_descendants_direct x r :
  direct_ids (stm_links (SortedTxMap_remove_entry_and_descendants m0 root).2) r x =
  if decide (x ∈ doomed) then ∅
  else match r with
       | Parents => direct_ids (stm_links m0) Parents x
       | Children => direct_ids (stm_links m0) Children x ∖ {[root]}
       end.
Proof.
  destruct remove_descendants_result as (_ & _ & _ & Hl & _ & _). unfold direct_ids at 1. rewrite Hl.
  case_decide as Hd; [done|]. case_decide as Hp.
  - unfold direct_ids. destruct (stm_links m0 !! x), r; cbn; set_solver.
  - fold (direct_ids (stm_links m0) r x). destruct r; [done|]. symmetry. apply difference_disjoint_L.
    intros y Hy ->%elem_of_singleton. by apply Hp, (wf_sym m0 Hm0).
Qed.

Lemma doomed_parents c p :
  c ∉ doomed -> p ∈ direct_ids (stm_links m0) Parents c -> p ∉ doomed.
Proof.
  intros Hc Hp Hpd. apply Hc. rewrite elem_of_doomed in *. eapply rtc_r; [done|]. by apply (parent_child m0 Hm0).
Qed.

Lemma remove_descendants_wf : stm_wf (SortedTxMap_remove_entry_and_descendants m0 root).2.
Proof.
  pose proof remove_descendants_result as Hr. pose proof remove_descendants_direct as Hd.
  destruct (SortedTxMap_remove_entry_and_descendants m0 root) as [removed m]. cbn [fst snd] in *.
  destruct Hr as (_ & _ & R3 & R4 & R5 & _). assert (root ∈ doomed) as Hrd by (by apply elem_of_doomed). split.
  - intros x e. rewrite R3. case_decide; [done|apply (wf_ids m0 Hm0)].
  - intros x. rewrite R3, R4. repeat case_decide; [done| |apply (wf_dom m0 Hm0)].
    rewrite fmap_is_Some. apply (wf_dom m0 Hm0).
  - intros p c. rewrite R3. case_decide as Hc; [by intros []|]. intros Ha. unfold step_to.
    pose proof (wf_sym m0 Hm0 p c Ha) as Hs. pose proof (doomed_parents c p Hc) as Hp. unfold step_to in Hs.
    rewrite !Hd, (decide_False (P:=c ∈ doomed)) by done. case_decide; [|set_solver].
    split; [set_solver|]. by intros ?%Hp.
  - done.
  - intros x e. rewrite R3. case_decide; [done|apply (wf_own m0 Hm0)].
  - intros w x e. rewrite R3. case_decide; [done|apply (wf_stat m0 Hm0)].
  - intros w x e. rewrite R3, Hd. case_decide as Hx; [done|]. intros He.
    rewrite (wsum_ext _ (stat_of (stm_entries m0) w)); [by apply (wf_weight m0 Hm0)|].
    intros p Hp. unfold stat_of. by rewrite R3, decide_False by (by eapply doomed_parents).
Qed.

(** Removing an entry with its descendants removes exactly these, each once,
    and changes no other entry; the links that dangle afterwards, from a parent that
    stays to a child that is not in the map, are those that dangled before and,
    besides, those to a removed descendant from a parent that stays. *)
Theorem remove_descendants_exact :
  let '(removed, m) := SortedTxMap_remove_entry_and_descendants m0 root in
  let closure := {[root]} ∪ SortedTxMap_get_descendants m0 root in
  te_id <$> removed ≡ₚ elements (filter (fun x => is_Some (stm_entries m0 !! x)) closure) /\
  (forall e, e ∈ removed -> stm_entries m0 !! te_id e = Some e) /\
  (forall x, stm_entries m !! x = if decide (x ∈ closure) then None else stm_entries m0 !! x) /\
  (forall p d, dangling m p d <->
    p ∉ closure /\ d <> root /\ d ∈ direct_ids (stm_links m0) Children p /\
    (d ∈ closure \/ stm_entries m0 !! d = None)).
Proof.
  pose proof remove_descendants_result as Hr. pose proof remove_descendants_direct as Hd.
  destruct (SortedTxMap_remove_entry_and_descendants m0 root) as [removed m]. cbn [fst snd] in *.
  fold doomed doomed_in. destruct Hr as (R1 & R2 & R3 & _). split_and!; [done..|]. intros p d.
  unfold dangling. rewrite Hd, R3. repeat case_decide; set_solver.
Qed.
End remove_descendants.

(** ** The transactions of a map *)

(** Whatever the state of its links, a map is a finite map of transactions to the
    operations. *)
Section transactions.
Context `{HashOrder}.

Definition txs_of (m : SortedTxMap) : gmap ProposalShortId TransactionView := te_transaction <$> stm_entries m.

Lemma sub_descendant_txs entry st id :
  te_transaction <$> (sub_descendant entry st id).1 = te_transaction <$> st.1.
Proof.
  destruct st as [entries index]. unfold sub_descendant. destruct (entries !! id) as [e|] eqn:He; [|done].
  cbn. rewrite fmap_insert. apply insert_id. by rewrite lookup_fmap, He.
Qed.
Lemma sub_descendants_txs entry l st :
  te_transaction <$> (foldl (sub_descendant entry) st l).1 = te_transaction <$> st.1.
Proof. revert st. induction l as [|d l IH]; intros st; [done|]. cbn [foldl]. by rewrite IH, sub_descendant_txs. Qed.
Lemma remove_entry_txs m id : txs_of (SortedTxMap_remove_entry m id).2 = delete id (txs_of m).
Proof.
  unfold SortedTxMap_remove_entry, txs_of. destruct (stm_entries m !! id) as [entry|] eqn:He.
  - destruct (foldl _ _ _) as [entries index] eqn:Hf. cbn.
    change entries with (entries, index).1. rewrite <- Hf.
    rewrite sub_descendants_txs. cbn [fst]. by rewrite fmap_delete.
  - cbn. rewrite delete_id; [done|]. by rewrite lookup_fmap, He.
Qed.

Lemma update_stat_transaction {E : Type} m e parents e' :
  update_ancestors_stat_for_entry (E:=E) m e parents = Ok e' -> te_transaction e' = te_transaction e.
Proof.
  unfold update_ancestors_stat_for_entry. intros Hu.
  refine (try_fold_inv (fun e' _ => te_transaction e' = te_transaction e) _ _ _ _ Hu _ _); [done|].
  intros e1 p l e2 He (pe & _ & [= <-])%bind_Ok. done.
Qed.
Lemma add_entry_txs m e r m' :
  SortedTxMap_add_entry m e = Ok (r, m') -> txs_of m' = <[te_id e := te_transaction e]> (txs_of m).
Proof.
  unfold SortedTxMap_add_entry. intros Ha. apply bind_Ok in Ha as (e' & He & Ha).
  apply update_stat_transaction in He. destruct (_ <? _); [done|].
  destruct (if SortedTxMap_contains_key m (te_id e) then SortedTxMap_remove_entry m (te_id e) else (None, m))
    as [old m1] eqn:Hc.
  apply bind_Ok in Ha as (links & _ & Ha). injection Ha as <- <-.
  assert (txs_of m1 = txs_of m \/ txs_of m1 = delete (te_id e) (txs_of m)) as Hm.
  { destruct (SortedTxMap_contains_key m (te_id e)); [right|left; by injection Hc as _ <-].
    by rewrite <- remove_entry_txs, Hc. }
  unfold txs_of in *. cbn. rewrite fmap_insert, He. destruct Hm as [-> | ->]; [done|apply insert_delete_eq].
Qed.

Lemma remove_loop_txs fuel m queue removed : txs_of (remove_loop fuel m queue removed).1 ⊆ txs_of m.
Proof.
  revert m queue removed. induction fuel as [|fuel IH]; intros m [|id queue] removed; try done. cbn.
  destruct (stm_entries m !! id) as [e|]; [|by apply IH]. etrans; [apply IH|].
  unfold txs_of. cbn. rewrite fmap_delete. apply delete_subseteq.
Qed.
Lemma remove_descendants_txs m id :
  txs_of (SortedTxMap_remove_entry_and_descendants m id).2 ⊆ delete id (txs_of m).
Proof.
  unfold SortedTxMap_remove_entry_and_descendants.
  destruct (remove_loop _ _ _ _) as [m' removed] eqn:Hr.
  assert (txs_of m' ⊆ delete id (txs_of m)) as Hm; [|done].
  change m' with (m', removed).1. rewrite <- Hr. cbn.
  destruct (stm_entries m !! id) as [e|] eqn:He.
  - etrans; [apply remove_loop_txs|]. unfold txs_of. cbn. by rewrite fmap_delete.
  - rewrite delete_id by (unfold txs_of; by rewrite lookup_fmap, He).
    exact (remove_loop_txs (link_count (stm_links m)) m [] []).
Qed.

Lemma txs_of_dom m : dom (txs_of m) = dom (stm_entries m).
Proof. apply dom_fmap_L. Qed.
Lemma txs_of_ids m :
  ids_ok (stm_entries m) <-> map_Forall (fun id tx => TransactionView_proposal_short_id tx = id) (txs_of m).
Proof.
  unfold ids_ok, txs_of. rewrite map_Forall_fmap. done.
Qed.
End transactions.

(** ** Sequences of operations *)

Inductive stm_step `{HashOrder} : SortedTxMap -> SortedTxMap -> Prop :=
| stm_step_add m e removed m' :
    addable m e -> SortedTxMap_add_entry m e = Ok (removed, m') -> stm_step m m'
| stm_step_remove m id : stm_step m (SortedTxMap_remove_entry m id).2
| stm_step_remove_descendants m id : stm_step m (SortedTxMap_remove_entry_and_descendants m id).2.

Section invariant.
Context `{HashOrderSpec}.

Lemma new_wf n : stm_wf (SortedTxMap_new n).
Proof.
  split; cbn.
  - intros c e Hc. by rewrite lookup_empty in Hc.
  - intros c. by rewrite !lookup_empty.
  - intros p c. unfold step_to, direct_ids. by rewrite !lookup_empty.
  - split; constructor.
  - intros c e Hc. by rewrite lookup_empty in Hc.
  - intros w c e Hc. by rewrite lookup_empty in Hc.
  - intros w c e Hc. by rewrite lookup_empty in Hc.
Qed.

Lemma remove_descendants_none m id :
  stm_wf m -> stm_entries m !! id = None -> SortedTxMap_remove_entry_and_descendants m id = ([], m).
Proof.
  intros Hm Hn. unfold SortedTxMap_remove_entry_and_descendants. cbn [remove_loop]. rewrite Hn.
  assert (stm_links m !! id = None) as ->.
  { apply eq_None_not_Some. rewrite (wf_dom m Hm), Hn. by intros []. }
  destruct (link_count (stm_links m)); by destruct m.
Qed.

Lemma step_wf m m' :
  stm_step m m' -> stm_wf m -> max_ancestors_count m < u64_max ->
  stm_wf m' /\ max_ancestors_count m' = max_ancestors_count m.
Proof.
  intros Hs Hm Hmax. destruct Hs as [m e removed m' Ha Hs|m id|m id].
  - destruct (add_entry_cases m e Hm Hmax Ha) as [He|(r & m2 & e' & He & Hwf & Hmx & _)]; rewrite Hs in He;
      [done|]. by simplify_eq.
  - destruct (stm_entries m !! id) as [e|] eqn:He.
    + split; [by eapply remove_entry_wf|].
      destruct (remove_entry_lookup m Hm id e He) as (? & ? & -> & _). done.
    + unfold SortedTxMap_remove_entry. by rewrite He.
  - destruct (stm_entries m !! id) as [e|] eqn:He.
    + split; [by apply remove_descendants_wf|]. by apply remove_descendants_result.
    + by rewrite remove_descendants_none.
Qed.

(** C21: Whatever entries are added to an empty map and removed from it, alone or with
    their descendants, its parts stay in step: links exist exactly for the entries,
    the links to children mirror those to parents as far as the child is in the
    map, and have no cycle, the index lists the key of every entry
    once, in increasing order, and the size, cycles, fee and count an entry has
    accumulated are at least those of itself and all its ancestors together. *)
Theorem sorted_tx_map_invariant n m :
  n < u64_max -> rtc stm_step (SortedTxMap_new n) m ->
  stm_wf m /\
  (forall id, id ∉ SortedTxMap_get_ancestors m id) /\
  (forall w id, is_Some (stm_entries m !! id) ->
    wsum (own_of (stm_entries m) w) ({[id]} ∪ SortedTxMap_get_ancestors m id) <=
    stat_of (stm_entries m) w id).
Proof.
  intros Hn Hr. assert (stm_wf m /\ max_ancestors_count m = n) as [Hm _].
  { revert Hr. apply (rtc_ind_r (fun m => stm_wf m /\ max_ancestors_count m = n)).
    - split; [apply new_wf|done].
    - intros m1 m2 _ Hs [H1 H2]. destruct (step_wf m1 m2 Hs H1) as [? ?]; [lia|]. by split; [|lia]. }
  split_and!; [done|..].
  - intros id. rewrite elem_of_ancestors. by apply not_own_ancestor.
  - intros w id. by apply ancestors_cover.
Qed.
End invariant.

(** ** Sorting by the number of ancestors *)

Lemma StronglySorted_lookup {A : Type} (R : A -> A -> Prop) l i j x y :
  StronglySorted R l -> l !! i = Some x -> l !! j = Some y -> (i < j)%nat -> R x y.
Proof.
  intros Hs. revert i j. induction Hs as [|z l Hs IH Hf]; intros i j Hi Hj Hij; [done|].
  destruct j as [|j]; [lia|]. destruct i as [|i]; cbn in *; [|apply (IH i j); [done|done|lia]].
  simplify_eq. rewrite Forall_forall in Hf. apply Hf. by eapply list_elem_of_lookup_2.
Qed.

Section by_relation.
Context `{HashOrderSpec}.

(** The keys sorted by fee and relation, from which the pool picks transactions to
    move on, are those of all the entries, each once, and no entry comes before one
    of its ancestors; the lookups behind them never panic. *)
Theorem sorted_by_relation_topological {E : Type} m :
  stm_wf m ->
  exists keys, keys_sorted_by_fee_and_relation m = Ok (E:=E) keys /\
    keys ≡ₚ keys_of (stm_entries m) /\
    forall i j a c, keys !! i = Some a -> keys !! j = Some c ->
      key_id a ∈ SortedTxMap_get_ancestors m (key_id c) -> (i < j)%nat.
Proof.
  intros Hm. unfold keys_sorted_by_fee_and_relation, keys_sorted_by_fee.
  set (count k := stat_of (stm_entries m) W_count (key_id k)).
  rewrite (try_map_fmap _ (fun k => (count k, k))).
  2: { intros k Hk. rewrite <- Permutation_rev, (ix_keys _ _ (wf_index m Hm)), elem_of_keys in Hk.
       destruct Hk as (id & e & He & ->). unfold count, stat_of. cbn. rewrite (wf_ids m Hm _ _ He), He. done. }
  step. eexists. split; [reflexivity|].
  set (l := sort_by_key fst ((fun k => (count k, k)) <$> rev (stm_index m))).
  assert (l ≡ₚ (fun k => (count k, k)) <$> stm_index m) as Hl.
  { unfold l. by rewrite sort_by_key_perm, <- Permutation_rev. }
  split.
  - rewrite Hl, <- list_fmap_compose, <- (ix_keys _ _ (wf_index m Hm)). by rewrite list_fmap_id.
  - intros i j a c Hi Hj Hanc%elem_of_ancestors.
    apply list_lookup_fmap_Some in Hi as ([na a'] & -> & Hi), Hj as ([nc c'] & -> & Hj). cbn [snd] in *.
    assert (na = count a' /\ nc = count c') as [-> ->].
    { apply list_elem_of_lookup_2 in Hi, Hj. rewrite Hl in Hi, Hj. set_solver. }
    pose proof (ancestor_count m Hm _ _ Hanc) as Hlt. fold (count a') (count c') in Hlt.
    destruct (Nat.lt_trichotomy i j) as [|[->|Hji]]; [done|..].
    + rewrite Hi in Hj. simplify_eq. lia.
    + pose proof (StronglySorted_lookup _ l j i _ _ (sort_by_key_sorted fst _) Hj Hi Hji) as Hle.
      cbn in Hle. lia.
Qed.
End by_relation.

(** ** Concrete pools *)

(** A decision of [addable]. *)
Definition addable_b `{HashOrder} (m : SortedTxMap) (e : TxEntry) : bool :=
  bool_decide (entry_ok e) && bool_decide (te_id e ∉ in_pool_parents m (te_transaction e)) &&
  bool_decide (map_Forall (fun p link => te_id e ∈ link_children link ->
    p ∈ in_pool_parents m (te_transaction e)) (stm_links m)) &&
  forallb (fun w => (own w e <=? stat w e) && (stat w e <=? u64_max) &&
    (stat w e + wsum (stat_of (stm_entries m) w) (in_pool_parents m (te_transaction e)) <=? u64_max))
    [W_size; W_cycles; W_fee; W_count].
Lemma addable_b_sound `{HashOrder} m e : addable_b m e = true -> addable m e.
Proof.
  unfold addable_b. cbn [forallb]. rewrite !andb_true_iff, !bool_decide_eq_true, !Z.leb_le.
  intros (((Ho & Hs) & Hl) & H1 & H2 & H3 & H4 & _). split; [done|intros []; lia|done| |intros []; intros; lia].
  intros p _ Hp. unfold step_to, direct_ids in Hp. destruct (stm_links m !! p) as [link|] eqn:Hlink; [|set_solver].
  by apply (Hl p link).
Qed.

(** Entries added one after the other. *)
Fixpoint add_all `{HashOrder} (m : SortedTxMap) (l : list TxEntry) : option SortedTxMap :=
  match l with
  | [] => Some m
  | e :: l =>
      match SortedTxMap_add_entry m e with
      | Ok (_, m') => if addable_b m e then add_all m' l else None
      | _ => None
      end
  end.
Lemma add_all_steps `{HashOrder} l m m' : add_all m l = Some m' -> rtc stm_step m m'.
Proof.
  revert m. induction l as [|e l IH]; intros m Ha; cbn in Ha; [by simplify_eq|].
  destruct (SortedTxMap_add_entry m e) as [[r m1]| |] eqn:He; [|done..].
  destruct (addable_b m e) eqn:Hb; [|done]. eapply rtc_l; [|by apply IH].
  eapply stm_step_add; [by apply addable_b_sound|done].
Qed.
Lemma add_all_wf `{HashOrderSpec} l n m :
  n < u64_max -> add_all (SortedTxMap_new n) l = Some m -> stm_wf m.
Proof.
  intros Hn Ha%add_all_steps. enough (stm_wf m /\ max_ancestors_count m = n) by tauto. revert Ha.
  apply (rtc_ind_r (fun m => stm_wf m /\ max_ancestors_count m = n)); [split; [apply new_wf|done]|].
  intros m1 m2 _ Hs [H1 H2]. destruct (step_wf m1 m2 Hs H1) as [? ?]; [lia|]. by split; [|lia].
Qed.

(** The transaction with the hash [n, n, ...] that spends the given outputs. *)
Definition pool_tx (n : Z) (spent : list (Z * Z)) : TransactionView :=
  mkTransactionView
    (mkTransaction (mkRawTransaction 0 [] []
      ((fun p => mkCellInput 0 (mkOutPoint (repeat p.1 32) p.2)) <$> spent)
      [mkCellOutput 100 (mkScript [] 0 []) None; mkCellOutput 100 (mkScript [] 0 []) None] [[]; []]) [])
    (repeat n 32) (repeat n 32).
Definition pool_entry (n : Z) (spent : list (Z * Z)) : TxEntry :=
  TxEntry_new (pool_tx n spent) 10 1000 100 [].
Definition pool_id (n : Z) : ProposalShortId := repeat n 10.
Definition pool_of (l : list TxEntry) : SortedTxMap :=
  from_option id (SortedTxMap_new 25) (add_all (SortedTxMap_new 25) l).

(** 1 and 2 are independent, 3 spends both, 4 spends 3. *)
Definition joined_pool : SortedTxMap :=
  pool_of [pool_entry 1 [(90, 0)]; pool_entry 2 [(91, 0)]; pool_entry 3 [(1, 0); (2, 0)]; pool_entry 4 [(3, 0)]].

Lemma contains_key_entry m id : SortedTxMap_contains_key m id = true -> is_Some (stm_entries m !! id).
Proof. apply bool_decide_eq_true_1. Qed.
Lemma pool_of_steps l : rtc stm_step (SortedTxMap_new 25) (pool_of l).
Proof. unfold pool_of. destruct (add_all _ _) eqn:Ha; [by eapply add_all_steps|done]. Qed.
Lemma pool_of_wf l : stm_wf (pool_of l).
Proof. unfold pool_of. destruct (add_all _ _) eqn:Ha; [by eapply (add_all_wf _ 25); [vm_compute|]|apply new_wf]. Qed.

Lemma sorted_tx_map_invariant_witness :
  stat_of (stm_entries joined_pool) W_count (pool_id 4) = 4 /\
  wsum (own_of (stm_entries joined_pool) W_count)
    ({[pool_id 4]} ∪ SortedTxMap_get_ancestors joined_pool (pool_id 4)) <= 4.
Proof.
  split; [by vm_compute|].
  apply (proj2 (proj2 (sorted_tx_map_invariant 25 joined_pool ltac:(by vm_compute) (pool_of_steps _)))
    W_count (pool_id 4)).
  by apply contains_key_entry; vm_compute.
Defined.

Lemma remove_descendants_exact_witness :
  length (SortedTxMap_remove_entry_and_descendants joined_pool (pool_id 1)).1 = 3%nat.
Proof.
  pose proof (remove_descendants_exact joined_pool (pool_of_wf _) (pool_id 1)
    (contains_key_entry joined_pool (pool_id 1) ltac:(by vm_compute))) as Hr.
  destruct (SortedTxMap_remove_entry_and_descendants _ _) as [removed m]. destruct Hr as [Hr _].
  apply Permutation_length in Hr. rewrite length_fmap in Hr. cbn [fst]. rewrite Hr. by vm_compute.
Defined.

(** Removing an entry with its descendants leaves a dangling link: of two
    independent transactions 1 and 2 with a common child 3, the removal of 1
    removes 3 from the pool, but 2 keeps 3 among its children, so that the
    descendants of 2 are not all in the pool. *)
Theorem remove_descendants_stale_link :
  let m := (SortedTxMap_remove_entry_and_descendants joined_pool (pool_id 1)).2 in
  rtc stm_step (SortedTxMap_new 25) joined_pool /\
  SortedTxMap_get_descendants m (pool_id 2) = {[pool_id 3]} /\
  SortedTxMap_contains_key m (pool_id 2) = true /\ SortedTxMap_contains_key m (pool_id 3) = false.
Proof. split; [apply pool_of_steps|by vm_compute]. Qed.

(** The weight an entry accumulates counts an ancestor once per path: 4 spends
    2 and 3, which both spend 1, and carries a count of 5 and a size of 500, where
    it and its three ancestors together have a size of 400. *)
Theorem ancestors_counted_per_path :
  let m := pool_of [pool_entry 1 [(90, 0)]; pool_entry 2 [(1, 0)]; pool_entry 3 [(1, 1)];
                    pool_entry 4 [(2, 0); (3, 0)]] in
  size (SortedTxMap_get_ancestors m (pool_id 4)) = 3%nat /\
  stat_of (stm_entries m) W_count (pool_id 4) = 5 /\ stat_of (stm_entries m) W_size (pool_id 4) = 500 /\
  wsum (own_of (stm_entries m) W_size) ({[pool_id 4]} ∪ SortedTxMap_get_ancestors m (pool_id 4)) = 400.
Proof. by vm_compute. Qed.

Lemma sorted_by_relation_topological_witness :
  exists keys, keys_sorted_by_fee_and_relation joined_pool = Ok (E:=Empty_set) keys /\ length keys = 4%nat.
Proof.
  destruct (sorted_by_relation_topological (E:=Empty_set) joined_pool (pool_of_wf _)) as (keys & Hk & Hp & _).
  exists keys. split; [done|]. rewrite Hp. by vm_compute.
Defined.

Lemma relative_ids_closure_witness :
  tc (fun a b => exists link, stm_links joined_pool !! a = Some link /\
    b ∈ TxLink_get_direct_ids link Parents) (pool_id 4) (pool_id 1).
Proof.
  apply (proj1 (relative_ids_closure (stm_links joined_pool) (pool_id 4) Parents (pool_id 1))).
  apply (bool_decide_unpack _). by vm_compute.
Defined.
