(* ===== verification/CommitScanner.v ===== *)
(** * Choosing the transactions of a block template:
    src/tx-pool/src/component/commit_txs_scanner.rs and [TxModifiedEntries] of
    src/tx-pool/src/component/entry.rs

    The scanner packages the transactions of the proposed pool by fee rate, each
    with its ancestors; the entries whose ancestors have been packaged are kept,
    with their remaining weights, in a map of modified entries.
    [txs_to_commit_spec] shows that on a consistent pool the scanner ends without
    a panic, within the size and the cycles limits, with no transaction twice and
    every transaction after all its ancestors; [txs_to_commit_panics] that a link
    to a transaction that has left the pool makes it panic. *)

From Stdlib Require Import Sorted.
From S2P Require Import Prelude Capacity Types Errors PoolEntry SortedTxMap ProposedPool.

Definition MAX_CONSECUTIVE_FAILED : Z := 500.

(** The order in which a [HashSet] of entries is visited is not specified. *)
Class EntryOrder := { entry_iter : list TxEntry -> list TxEntry }.
Class EntryOrderSpec (H : EntryOrder) := { entry_iter_perm l : entry_iter l ≡ₚ l }.
#[export] Instance insertion_order : EntryOrder := {| entry_iter := id |}.
#[export] Instance insertion_order_spec : EntryOrderSpec insertion_order.
Proof. by split. Qed.

(** ** Modified entries *)

Record TxModifiedEntries := mkTxModifiedEntries {
  me_entries : gmap ProposalShortId TxEntry;
  me_index : list AncestorsScoreSortKey;
}.
Definition TxModifiedEntries_default : TxModifiedEntries := mkTxModifiedEntries ∅ [].
Definition TxModifiedEntries_get (self : TxModifiedEntries) (id : ProposalShortId) : option TxEntry :=
  me_entries self !! id.
Definition TxModifiedEntries_contains_key (self : TxModifiedEntries) (id : ProposalShortId) : bool :=
  bool_decide (is_Some (me_entries self !! id)).
Definition TxModifiedEntries_insert (self : TxModifiedEntries) (entry : TxEntry) : TxModifiedEntries :=
  mkTxModifiedEntries (<[te_id entry := entry]> (me_entries self))
    (btree_insert (as_sorted_key entry) (me_index self)).
Definition TxModifiedEntries_remove (self : TxModifiedEntries) (id : ProposalShortId) :
    option TxEntry * TxModifiedEntries :=
  match me_entries self !! id with
  | Some entry =>
      (Some entry, mkTxModifiedEntries (delete id (me_entries self))
                     (btree_remove (as_sorted_key entry) (me_index self)))
  | None => (None, self)
  end.

(** ** Candidates *)

Section candidates.
Context {E : Type} (lookup : ProposalShortId -> option TxEntry).
Context (is_satisfied is_satisfy_limit : TxEntry -> bool).

(** The loop over the iterator, given by the keys that it has not visited; the
    entry of a key is looked up when the key is reached. *)
Fixpoint scan (consecutive_failed : Z) (iter : list AncestorsScoreSortKey) :
    outcome E (option TxEntry * list AncestorsScoreSortKey) :=
  match iter with
  | [] => Ok (None, [])
  | key :: iter =>
      tx_entry ← expect (lookup (key_id key));
      if negb (is_satisfied tx_entry) then scan consecutive_failed iter
      else if negb (is_satisfy_limit tx_entry) then
        let consecutive_failed := consecutive_failed + 1 in
        if MAX_CONSECUTIVE_FAILED <? consecutive_failed then Ok (None, iter)
        else scan consecutive_failed iter
      else Ok (Some tx_entry, iter)
  end.

Definition next_candidate_tx (entry : option TxEntry) (iter : list AncestorsScoreSortKey) :
    outcome E (option TxEntry * list AncestorsScoreSortKey) :=
  match entry with
  | Some tx_entry =>
      if is_satisfied tx_entry && is_satisfy_limit tx_entry then Ok (Some tx_entry, iter)
      else scan 0 iter
  | None => scan 0 iter
  end.
End candidates.

(** [Ord] of [Option<TxEntry>]. *)
Definition Option_cmp (a b : option TxEntry) : comparison :=
  match a, b with
  | None, None => Eq
  | None, Some _ => Lt
  | Some _, None => Gt
  | Some a, Some b => TxEntry_cmp a b
  end.
(** [max(&mut candidate_pool_tx, &mut candidate_modified_tx).take()]: the second
    wins a tie.  The result is the entry and the two candidates that are left. *)
Definition take_max (pool_tx modified_tx : option TxEntry) :
    option TxEntry * (option TxEntry * option TxEntry) :=
  match Option_cmp pool_tx modified_tx with
  | Gt => (pool_tx, (None, modified_tx))
  | _ => (modified_tx, (pool_tx, None))
  end.

(** Insertion into a [HashSet<TxEntry>], whose equality is that of the witness hashes. *)
Definition hash_set_insert (l : list TxEntry) (e : TxEntry) : list TxEntry :=
  if decide (tx_witness_hash (te_transaction e) ∈ (fun x => tx_witness_hash (te_transaction x)) <$> l)
  then l else l ++ [e].

(** ** The scanner *)

Record CommitTxsScanner := mkScanner {
  sc_entries : list TxEntry;
  modified_entries : TxModifiedEntries;
  fetched_txs : gset ProposalShortId;
}.
Definition CommitTxsScanner_new : CommitTxsScanner := mkScanner [] TxModifiedEntries_default ∅.

Section scanner.
Context `{HashOrder, EntryOrder, UnstableSort} {E : Type}.
Context (proposed_pool : ProposedPool) (size_limit cycles_limit min_fee_rate : Z).

(** One descendant of a packaged transaction. *)
Definition sub_modified (ptx : TxEntry) (modified : TxModifiedEntries) (id : ProposalShortId) :
    outcome E TxModifiedEntries :=
  let '(removed, modified) := TxModifiedEntries_remove modified id in
  tx ← match removed with
       | Some tx => Ok tx
       | None => expect (ProposedPool_get proposed_pool id)
       end;
  Ok (TxModifiedEntries_insert modified (TxEntry_sub_entry_weight tx ptx)).

Definition update_modified_entries (self : CommitTxsScanner) (new_fetched_txs : list TxEntry) :
    outcome E CommitTxsScanner :=
  modified ← try_fold (fun modified ptx =>
    if decide (te_id ptx ∈ fetched_txs self) then Ok modified
    else try_fold (sub_modified ptx) modified
           (hash_iter (ProposedPool_get_descendants proposed_pool (te_id ptx))))
    (modified_entries self) (entry_iter new_fetched_txs);
  Ok (mkScanner (sc_entries self) modified (fetched_txs self)).

(** The ancestors of a transaction that have not been packaged, with itself. *)
Definition package_ancestor (self : CommitTxsScanner) (ancestors : list TxEntry) (short_id : ProposalShortId) :
    outcome E (list TxEntry) :=
  if decide (short_id ∈ fetched_txs self) then Ok ancestors
  else match TxModifiedEntries_get (modified_entries self) short_id with
       | Some entry => Ok (hash_set_insert ancestors entry)
       | None =>
           entry ← expect (ProposedPool_get proposed_pool short_id);
           Ok (hash_set_insert ancestors entry)
       end.
Definition package_of (self : CommitTxsScanner) (tx_entry : TxEntry) : outcome E (list TxEntry) :=
  ancestors ← try_fold (package_ancestor self) []
    (hash_iter (ProposedPool_get_ancestors proposed_pool (te_id tx_entry)));
  Ok (hash_set_insert ancestors tx_entry).

(** One entry of the package, in the order of the number of ancestors. *)
Definition fetch_entry (st : CommitTxsScanner * Z * Z) (entry : TxEntry) : CommitTxsScanner * Z * Z :=
  let '(self, size, cycles) := st in
  (mkScanner (sc_entries self ++ [entry])
     (TxModifiedEntries_remove (modified_entries self) (te_id entry)).2
     ({[te_id entry]} ∪ fetched_txs self),
   saturating_add size (te_size entry), saturating_add cycles (te_cycles entry)).

Definition is_satisfy_limit (size cycles : Z) (entry : TxEntry) : bool :=
  (saturating_add cycles (ancestors_cycles entry) <=? cycles_limit) &&
  (saturating_add size (ancestors_size entry) <=? size_limit).
Definition pays_min_fee (tx : TxEntry) : bool :=
  FeeRate_fee min_fee_rate (ancestors_size tx) <=? ancestors_fee tx.
Definition pool_satisfied (self : CommitTxsScanner) (tx : TxEntry) : bool :=
  bool_decide (te_id tx ∉ fetched_txs self) &&
  negb (TxModifiedEntries_contains_key (modified_entries self) (te_id tx)) && pays_min_fee tx.

(** The loop; every round packages at least one transaction of the pool. *)
Fixpoint commit_loop (fuel : nat) (self : CommitTxsScanner) (size cycles : Z)
    (candidate_pool_tx candidate_modified_tx : option TxEntry) (iter : list AncestorsScoreSortKey) :
    outcome E (list TxEntry * Z * Z) :=
  match fuel with
  | O => Ok (sc_entries self, size, cycles)
  | S fuel =>
      '(candidate_pool_tx, iter) ←
        next_candidate_tx (ProposedPool_get proposed_pool) (pool_satisfied self)
          (is_satisfy_limit size cycles) candidate_pool_tx iter;
      '(candidate_modified_tx, _) ←
        next_candidate_tx (TxModifiedEntries_get (modified_entries self)) pays_min_fee
          (is_satisfy_limit size cycles) candidate_modified_tx (rev (me_index (modified_entries self)));
      let '(best, (candidate_pool_tx, candidate_modified_tx)) :=
        take_max candidate_pool_tx candidate_modified_tx in
      match best with
      | None => Ok (sc_entries self, size, cycles)
      | Some tx_entry =>
          ancestors ← package_of self tx_entry;
          self ← update_modified_entries self ancestors;
          let '(self, size, cycles) :=
            foldl fetch_entry (self, size, cycles) (sort_unstable_by_key ancestors_count (entry_iter ancestors)) in
          commit_loop fuel self size cycles candidate_pool_tx candidate_modified_tx iter
      end
  end.

Definition txs_to_commit : outcome E (list TxEntry * Z * Z) :=
  commit_loop (S (size (stm_entries (pp_inner proposed_pool)))) CommitTxsScanner_new 0 0 None None
    (keys_sorted_by_fee (pp_inner proposed_pool)).
End scanner.

(** ** The remaining weights *)

Section proofs.
Context `{HashOrderSpec, EntryOrderSpec, UnstableSortSpec} {E : Type}.
Context (pool : ProposedPool).
Abbreviation m := (pp_inner pool).
Abbreviation anc := (SortedTxMap_get_ancestors m).
Context (Hm : stm_wf m) (Hlinked : forall p d, ~ dangling m p d).
Context (Hhash : forall id1 id2 e1 e2, stm_entries m !! id1 = Some e1 -> stm_entries m !! id2 = Some e2 ->
  tx_witness_hash (te_transaction e1) = tx_witness_hash (te_transaction e2) -> id1 = id2).

(** What an entry weighs once its ancestors in [F] have been packaged. *)
Definition remaining (w : weight) (F : gset ProposalShortId) (c : ProposalShortId) : Z :=
  stat_of (stm_entries m) w c - wsum (own_of (stm_entries m) w) (anc c ∩ F).

Lemma remaining_cover w F c :
  is_Some (stm_entries m !! c) ->
  wsum (own_of (stm_entries m) w) ({[c]} ∪ (anc c ∖ F)) <= remaining w F c.
Proof.
  intros Hc. unfold remaining. pose proof (ancestors_cover m Hm w c Hc) as Hcov.
  assert (c ∉ anc c) as Hn by (rewrite elem_of_ancestors; by apply not_own_ancestor).
  rewrite wsum_insert in Hcov by done. rewrite wsum_insert by set_solver.
  enough (wsum (own_of (stm_entries m) w) (anc c) =
    wsum (own_of (stm_entries m) w) (anc c ∩ F) + wsum (own_of (stm_entries m) w) (anc c ∖ F)) by lia.
  rewrite <- wsum_union_disjoint by set_solver. f_equal. apply set_eq. intros x.
  destruct (decide (x ∈ F)); set_solver.
Qed.

Lemma remaining_own w F c x :
  is_Some (stm_entries m !! c) -> x ∈ {[c]} ∪ (anc c ∖ F) -> own_of (stm_entries m) w x <= remaining w F c.
Proof.
  intros Hc Hx. etransitivity; [|by apply remaining_cover]. rewrite (wsum_remove _ x) by done.
  pose proof (wsum_nonneg (own_of (stm_entries m) w) (({[c]} ∪ (anc c ∖ F)) ∖ {[x]})
    (fun y _ => own_of_nonneg m Hm w y)). lia.
Qed.

Lemma remaining_insert w F c x :
  x ∈ anc c -> x ∉ F -> remaining w ({[x]} ∪ F) c = remaining w F c - own_of (stm_entries m) w x.
Proof.
  intros Hx HF. unfold remaining. replace (anc c ∩ ({[x]} ∪ F)) with ({[x]} ∪ (anc c ∩ F)) by set_solver.
  rewrite wsum_insert by set_solver. lia.
Qed.
Lemma remaining_same w F G c : anc c ∩ F = anc c ∩ G -> remaining w F c = remaining w G c.
Proof. unfold remaining. by intros ->. Qed.

(** An entry that remains has more ancestors than each of those that remain. *)
Lemma remaining_count F c a :
  a ∈ anc c -> a ∉ F -> remaining W_count F a < remaining W_count F c.
Proof.
  intros Ha HF. pose proof (ancestors_trans m c a Ha) as Hsub. pose proof Ha as Ht%elem_of_ancestors.
  pose proof (ancestor_weight_gap m Hm W_count c a Ht) as Hg. destruct (ancestor_entries m Hm c a Ht) as [[e He] _].
  unfold remaining.
  assert (c ∉ anc c) as Hn by (rewrite elem_of_ancestors; by apply not_own_ancestor).
  assert (wsum (own_of (stm_entries m) W_count) (anc c ∩ F) =
    wsum (own_of (stm_entries m) W_count) (anc a ∩ F) +
    wsum (own_of (stm_entries m) W_count) ((anc c ∖ anc a) ∩ F)) as ->.
  { rewrite <- wsum_union_disjoint by set_solver. f_equal. apply set_eq. intros x.
    destruct (decide (x ∈ anc a)); set_solver. }
  pose proof (wsum_subset (own_of (stm_entries m) W_count) ({[c]} ∪ ((anc c ∖ anc a) ∩ F))
    (({[c]} ∪ anc c) ∖ ({[a]} ∪ anc a))) as Hs.
  rewrite wsum_insert in Hs by set_solver. 
  assert (own_of (stm_entries m) W_count c = 1) as Ho by (unfold own_of; by rewrite He). rewrite Ho in Hs.
  assert (c <> a) by (intros ->; done). assert (c ∉ anc a) by set_solver.
  specialize (Hs ltac:(set_solver) (fun x _ => own_of_nonneg m Hm W_count x)). lia.
Qed.

(** The entry [e] is that of [c], with the remaining weights (or, for a candidate
    that was chosen in an earlier round, with more). *)
Definition same_tx (c : ProposalShortId) (e : TxEntry) : Prop :=
  exists e0, stm_entries m !! c = Some e0 /\ te_transaction e = te_transaction e0 /\
    forall w, own w e = own w e0.
Definition entry_at (F : gset ProposalShortId) (c : ProposalShortId) (e : TxEntry) : Prop :=
  same_tx c e /\ forall w, stat w e = remaining w F c.
Definition entry_above (F : gset ProposalShortId) (c : ProposalShortId) (e : TxEntry) : Prop :=
  same_tx c e /\ forall w, remaining w F c <= stat w e.

Lemma entry_at_above F c e : entry_at F c e -> entry_above F c e.
Proof. intros [? Hs]. split; [done|]. intros w. by rewrite Hs. Qed.
Lemma same_tx_id c e : same_tx c e -> te_id e = c.
Proof. intros (e0 & He & Ht & _). unfold te_id. rewrite Ht. by apply (wf_ids m Hm). Qed.
Lemma same_tx_own c e w : same_tx c e -> own w e = own_of (stm_entries m) w c.
Proof. intros (e0 & He & _ & Ho). unfold own_of. by rewrite He, Ho. Qed.
Lemma same_tx_alive c e : same_tx c e -> is_Some (stm_entries m !! c).
Proof. intros (e0 & He & _). by eexists. Qed.

Lemma entry_at_pool F c e : stm_entries m !! c = Some e -> anc c ∩ F = ∅ -> entry_at F c e.
Proof.
  intros He HF. split; [by exists e|]. intros w. unfold remaining, stat_of. rewrite HF, He, wsum_empty. cbn. lia.
Qed.

Lemma entry_at_sub F c e x ptx :
  entry_at F c e -> same_tx x ptx -> x ∈ anc c -> x ∉ F ->
  entry_at ({[x]} ∪ F) c (TxEntry_sub_entry_weight e ptx).
Proof.
  intros [Hs Hst] Hx Hc HF. split.
  - destruct Hs as (e0 & He & Ht & Ho). exists e0. split_and!; [done|done|]. intros w. by rewrite own_sub.
  - intros w. rewrite stat_sub, Hst, (same_tx_own x ptx w Hx), remaining_insert by done.
    unfold saturating_sub. assert (own_of (stm_entries m) w x <= remaining w F c); [|lia].
    apply remaining_own; [by eapply same_tx_alive|set_solver].
Qed.

Lemma entry_at_key F c e : entry_at F c e -> key_ok (as_sorted_key e).
Proof.
  intros [Hs Hst]. pose proof (same_tx_alive c e Hs) as Hc. destruct Hs as (e0 & He & Ht & Ho).
  pose proof (wf_own m Hm c e0 He) as (? & ? & ?).
  pose proof (Ho W_size). pose proof (Ho W_cycles). pose proof (Ho W_fee). cbn in *.
  pose proof (remaining_own W_size F c c Hc ltac:(set_solver)) as Hsz.
  pose proof (remaining_own W_fee F c c Hc ltac:(set_solver)) as Hfe.
  unfold own_of in Hsz, Hfe. rewrite He in Hsz, Hfe. cbn in *.
  pose proof (Hst W_size). pose proof (Hst W_fee). cbn in *.
  apply key_ok_entry; [unfold entry_ok; lia|lia|lia].
Qed.

(** ** The modified entries *)

(** The modified entry of [d] when [F] has been packaged and the weights of [G]
    have been subtracted. *)
Definition mod_spec (F G : gset ProposalShortId) (modified : TxModifiedEntries) (d : ProposalShortId) : Prop :=
  match me_entries modified !! d with
  | Some e => d ∉ F /\ anc d ∩ G <> ∅ /\ entry_at G d e
  | None => is_Some (stm_entries m !! d) -> d ∉ F -> anc d ∩ G = ∅
  end.
Record mod_index (modified : TxModifiedEntries) : Prop := {
  mi_ids : ids_ok (me_entries modified);
  mi_index : index_ok (me_entries modified) (me_index modified);
}.

Lemma mod_remove modified id :
  mod_index modified ->
  mod_index (TxModifiedEntries_remove modified id).2 /\
  me_entries (TxModifiedEntries_remove modified id).2 = delete id (me_entries modified) /\
  (TxModifiedEntries_remove modified id).1 = me_entries modified !! id.
Proof.
  intros [Hi Hx]. unfold TxModifiedEntries_remove. destruct (me_entries modified !! id) as [e|] eqn:He; cbn.
  - split_and!; [split; cbn|done|done].
    + intros c ec. rewrite lookup_delete_Some. intros [_ Hc]. by apply Hi.
    + by apply index_delete.
  - split_and!; [done|by rewrite delete_id|done].
Qed.

Lemma mod_insert modified c e :
  mod_index modified -> me_entries modified !! c = None -> te_id e = c -> key_ok (as_sorted_key e) ->
  mod_index (TxModifiedEntries_insert modified e) /\
  me_entries (TxModifiedEntries_insert modified e) = <[c := e]> (me_entries modified).
Proof.
  intros [Hi Hx] Hn Hid Hk. unfold TxModifiedEntries_insert. rewrite Hid. split; [split; cbn|done].
  - intros d ed. destruct (decide (d = c)) as [->|Hne]; [rewrite lookup_insert_eq; by intros [= <-]|].
    rewrite lookup_insert_ne by done. apply Hi.
  - by apply index_insert.
Qed.

Section subtract.
Context (F G : gset ProposalShortId) (x : ProposalShortId) (ptx : TxEntry).
Context (HFG : F ⊆ G) (Hclosed : forall c, c ∈ F -> anc c ⊆ F) (Hx : same_tx x ptx) (HxG : x ∉ G).

(** One descendant of [x]. *)
Lemma sub_modified_step modified d :
  mod_index modified -> mod_spec F G modified d -> is_Some (stm_entries m !! d) -> x ∈ anc d ->
  exists modified', sub_modified pool ptx modified d = Ok (E:=E) modified' /\ mod_index modified' /\
    mod_spec F ({[x]} ∪ G) modified' d /\
    forall c, c <> d -> me_entries modified' !! c = me_entries modified !! c.
Proof.
  intros Hi Hd [ed Hed] Hxd. assert (d ∉ F) as HdF by (intros HF; apply Hclosed in HF; set_solver).
  destruct (mod_remove modified d Hi) as (Hi' & Hr & Hg). unfold sub_modified.
  destruct (TxModifiedEntries_remove modified d) as [removed modified1]. cbn [fst snd] in *. subst removed.
  assert (exists tx, (match me_entries modified !! d with Some tx => Ok tx
    | None => expect (ProposedPool_get pool d) end) = Ok (E:=E) tx /\ entry_at G d tx) as (tx & Htx & Hat).
  { unfold mod_spec in Hd. destruct (me_entries modified !! d) as [e|]; [exists e; by destruct Hd as (_ & _ & ?)|].
    exists ed. unfold ProposedPool_get, SortedTxMap_get. rewrite Hed. split; [done|].
    apply entry_at_pool; [done|]. apply Hd; [by eexists|done]. }
  rewrite Htx. step. pose proof (entry_at_sub G d tx x ptx Hat Hx Hxd HxG) as Hat'.
  destruct (mod_insert modified1 d (TxEntry_sub_entry_weight tx ptx) Hi') as [Hi2 He2].
  { rewrite Hr. apply lookup_delete_eq. }
  { apply same_tx_id, Hat'. }
  { by eapply entry_at_key. }
  eexists. split; [reflexivity|]. split_and!; [done| |].
  - unfold mod_spec. rewrite He2, lookup_insert_eq. split_and!; [done|set_solver|done].
  - intros c Hc. by rewrite He2, Hr, lookup_insert_ne, lookup_delete_ne.
Qed.

Lemma sub_modified_all l modified :
  NoDup l -> (forall d, d ∈ l -> is_Some (stm_entries m !! d) /\ x ∈ anc d) ->
  mod_index modified -> (forall d, d ∈ l -> mod_spec F G modified d) ->
  exists modified', try_fold (sub_modified pool ptx) modified l = Ok (E:=E) modified' /\ mod_index modified' /\
    (forall d, d ∈ l -> mod_spec F ({[x]} ∪ G) modified' d) /\
    (forall c, c ∉ l -> me_entries modified' !! c = me_entries modified !! c).
Proof.
  intros Hnd. revert modified. induction Hnd as [|d l Hd Hnd IH]; intros modified Hl Hi Hs; cbn [try_fold].
  { exists modified. split_and!; [done|done|by intros d Hd%not_elem_of_nil|done]. }
  destruct (Hl d) as [Ha Hxd]; [left|].
  destruct (sub_modified_step modified d Hi (Hs d ltac:(left)) Ha Hxd) as (modified1 & -> & Hi1 & Hd1 & Ho1). step.
  destruct (IH modified1) as (modified2 & -> & Hi2 & Hd2 & Ho2); [|done| |].
  - intros c Hc. apply Hl. by right.
  - intros c Hc. unfold mod_spec. rewrite Ho1 by (intros ->; done). apply Hs. by right.
  - exists modified2. split_and!; [done|done| |].
    + intros c [->|Hc]%elem_of_cons; [|by apply Hd2]. unfold mod_spec. by rewrite Ho2.
    + intros c [Hne Hc]%not_elem_of_cons. by rewrite Ho2, Ho1.
Qed.

Lemma descendants_alive d :
  d ∈ ProposedPool_get_descendants pool x <-> is_Some (stm_entries m !! d) /\ x ∈ anc d.
Proof.
  rewrite elem_of_ancestors. unfold ProposedPool_get_descendants. split.
  - intros Hd. assert (is_Some (stm_entries m !! d)) as Ha; [|split; [done|by apply elem_of_descendants]].
    apply get_relative_ids_tc in Hd. revert d Hd. 
    assert (forall p d, step_to (stm_links m) Children p d -> is_Some (stm_entries m !! d)) as Hs.
    { intros p d Hs. destruct (stm_entries m !! d) eqn:He; [by eexists|]. by destruct (Hlinked p d). }
    apply (tc_ind_r (fun d => is_Some (stm_entries m !! d))); eauto.
  - intros [Ha Ht]. by apply elem_of_descendants.
Qed.

(** All the descendants of [x]. *)
Lemma sub_descendants_modified modified :
  mod_index modified -> (forall d, mod_spec F G modified d) ->
  exists modified', try_fold (sub_modified pool ptx) modified
      (hash_iter (ProposedPool_get_descendants pool x)) = Ok (E:=E) modified' /\
    mod_index modified' /\ forall d, mod_spec F ({[x]} ∪ G) modified' d.
Proof.
  intros Hi Hs.
  destruct (sub_modified_all (hash_iter (ProposedPool_get_descendants pool x)) modified)
    as (modified' & Hf & Hi' & Hd & Ho).
  - apply hash_iter_NoDup.
  - intros d Hd%elem_of_hash_iter. by apply descendants_alive.
  - done.
  - auto.
  - exists modified'. split_and!; [done|done|]. intros d.
    destruct (decide (d ∈ hash_iter (ProposedPool_get_descendants pool x))) as [Hin|Hin]; [by apply Hd|].
    specialize (Hs d). unfold mod_spec in *. rewrite Ho by done. rewrite elem_of_hash_iter, descendants_alive in Hin.
    destruct (me_entries modified !! d) as [e|].
    + destruct Hs as (H1' & H2' & H3'). assert (x ∉ anc d) as Hxd.
      { intros Hx'. apply Hin. split; [by eapply same_tx_alive, H3'|done]. }
      assert (anc d ∩ ({[x]} ∪ G) = anc d ∩ G) as He by set_solver.
      split_and!; [done|by rewrite He|]. destruct H3' as [? Hst]. split; [done|]. intros w. rewrite Hst.
      by apply remaining_same.
    + intros Ha HF. specialize (Hs Ha HF). set_solver.
Qed.
End subtract.

Lemma update_modified_all (F : gset ProposalShortId) l G modified :
  (forall c, c ∈ F -> anc c ⊆ F) -> F ⊆ G -> NoDup (te_id <$> l) ->
  (forall e, e ∈ l -> same_tx (te_id e) e /\ te_id e ∉ G) ->
  mod_index modified -> (forall d, mod_spec F G modified d) ->
  exists modified', try_fold (fun modified ptx =>
      if decide (te_id ptx ∈ F) then Ok modified
      else try_fold (sub_modified pool ptx) modified
             (hash_iter (ProposedPool_get_descendants pool (te_id ptx)))) modified l = Ok (E:=E) modified' /\
    mod_index modified' /\ forall d, mod_spec F (list_to_set (te_id <$> l) ∪ G) modified' d.
Proof.
  intros Hclosed. revert G modified. induction l as [|e l IH]; intros G modified HFG Hnd Hl Hi Hs; cbn [try_fold].
  { exists modified. split_and!; [done|done|]. intros d. cbn. by rewrite union_empty_l_L. }
  destruct (Hl e) as [He HeG]; [left|]. rewrite fmap_cons in Hnd. apply NoDup_cons in Hnd as [Hn Hnd].
  rewrite decide_False by set_solver.
  destruct (sub_descendants_modified F G (te_id e) e HFG Hclosed He HeG modified Hi Hs) as (modified1 & -> & Hi1 & Hs1).
  step. destruct (IH ({[te_id e]} ∪ G) modified1) as (modified2 & -> & Hi2 & Hs2); [set_solver|done| |done|done|].
  - intros e' He'. destruct (Hl e') as [? ?]; [by right|]. split; [done|].
    apply not_elem_of_union. split; [|done]. rewrite elem_of_singleton. intros Heq. apply Hn. rewrite <- Heq.
    by apply list_elem_of_fmap_2.
  - exists modified2. split_and!; [done|done|]. intros d. rewrite fmap_cons. cbn [list_to_set].
    replace ({[te_id e]} ∪ list_to_set (te_id <$> l) ∪ G) with (list_to_set (te_id <$> l) ∪ ({[te_id e]} ∪ G))
      by set_solver. apply Hs2.
Qed.

(** ** The package *)

Lemma hash_set_insert_new l c e :
  (forall e', e' ∈ l -> same_tx (te_id e') e') -> same_tx c e -> c ∉ te_id <$> l ->
  hash_set_insert l e = l ++ [e].
Proof.
  intros Hl (e0 & He0 & Ht & _) Hc. unfold hash_set_insert. rewrite decide_False; [done|].
  intros (e' & Hw & He')%list_elem_of_fmap. destruct (Hl e' He') as (e0' & He0' & Ht' & _).
  apply Hc. rewrite (Hhash c (te_id e') e0 e0' He0 He0') by congruence. by apply list_elem_of_fmap_2.
Qed.

Lemma package_ancestor_spec self a acc :
  (forall d, mod_spec (fetched_txs self) (fetched_txs self) (modified_entries self) d) ->
  a ∉ fetched_txs self -> is_Some (stm_entries m !! a) ->
  exists e, package_ancestor pool self acc a = Ok (E:=E) (hash_set_insert acc e) /\
    entry_at (fetched_txs self) a e.
Proof.
  intros Hs Ha [ea Hea]. specialize (Hs a). unfold package_ancestor. rewrite decide_False by done.
  unfold mod_spec, TxModifiedEntries_get in *.
  destruct (me_entries (modified_entries self) !! a) as [e|]; [exists e; by destruct Hs as (_ & _ & ?)|].
  exists ea. unfold ProposedPool_get, SortedTxMap_get. rewrite Hea. split; [done|].
  apply entry_at_pool; [done|]. apply Hs; [by eexists|done].
Qed.

Lemma package_ancestors self c l acc :
  (forall d, mod_spec (fetched_txs self) (fetched_txs self) (modified_entries self) d) ->
  NoDup l -> (forall a, a ∈ l -> a ∈ anc c) ->
  (forall e, e ∈ acc -> te_id e ∉ l /\ te_id e <> c /\ entry_at (fetched_txs self) (te_id e) e) ->
  exists l', try_fold (package_ancestor pool self) acc l = Ok (E:=E) l' /\
    te_id <$> l' ≡ₚ (te_id <$> acc) ++ filter (fun a => a ∉ fetched_txs self) l /\
    forall e, e ∈ l' -> te_id e <> c /\ entry_at (fetched_txs self) (te_id e) e.
Proof.
  intros Hs. revert acc. induction l as [|a l IH]; intros acc Hnd Hl Hacc; cbn [try_fold].
  { exists acc. split_and!; [done|by rewrite filter_nil, app_nil_r|]. intros e He. by apply Hacc. }
  apply NoDup_cons in Hnd as [Ha Hnd]. destruct (decide (a ∈ fetched_txs self)) as [HaF|HaF].
  - assert (package_ancestor pool self acc a = Ok (E:=E) acc) as ->
      by (unfold package_ancestor; by rewrite decide_True). step.
    rewrite filter_cons_False by tauto. apply IH; [done|set_solver|].
    intros e He. destruct (Hacc e He) as (? & ?). split; [set_solver|done].
  - pose proof (Hl a ltac:(left)) as Hac.
    destruct (ancestor_entries m Hm c a (proj1 (elem_of_ancestors m c a) Hac)) as [_ Hea].
    destruct (package_ancestor_spec self a acc Hs HaF Hea) as (e & -> & Hat).
    step. pose proof (same_tx_id a e (proj1 Hat)) as Hida.
    assert (hash_set_insert acc e = acc ++ [e]) as ->.
    { apply (hash_set_insert_new acc a); [intros e' He'; by apply Hacc|apply Hat|].
      intros (e' & -> & He')%list_elem_of_fmap. destruct (Hacc e' He') as [Hn _]. apply Hn. left. }
    destruct (IH (acc ++ [e])) as (l' & -> & Hp & Hl'); [done|set_solver| |].
    + intros e' [He'| ->%list_elem_of_singleton]%elem_of_app.
      * destruct (Hacc e' He') as (? & ?). split; [set_solver|done].
      * rewrite Hida. split_and!; [done| |done]. intros ->.
        apply elem_of_ancestors in Hac. by apply (not_own_ancestor m Hm) in Hac.
    + exists l'. split_and!; [done| |done]. rewrite Hp, filter_cons_True, fmap_app by done. cbn.
      by rewrite Hida, <- app_assoc.
Qed.

Lemma package_spec self x (F := fetched_txs self) c :
  (forall d, mod_spec F F (modified_entries self) d) -> same_tx c x -> c ∉ F ->
  exists l, package_of pool self x = Ok (E:=E) l /\
    te_id <$> l ≡ₚ elements ({[c]} ∪ (anc c ∖ F)) /\
    forall e, e ∈ l -> same_tx (te_id e) e /\ (e = x \/ te_id e <> c /\ entry_at F (te_id e) e).
Proof.
  intros Hs Hx Hc. pose proof (same_tx_id c x Hx) as Hid. unfold package_of, ProposedPool_get_ancestors. rewrite Hid.
  destruct (package_ancestors self c (hash_iter (anc c)) [] Hs) as (l & -> & Hp & Hl);
    [apply hash_iter_NoDup|by intros a Ha%elem_of_hash_iter|by intros e He%not_elem_of_nil|].
  step. assert (c ∉ te_id <$> l) as Hn.
  { intros (e & -> & He)%list_elem_of_fmap. by destruct (Hl e He) as (? & _). }
  rewrite (hash_set_insert_new l c x); [|intros e He; by apply Hl|done|done].
  eexists. split; [reflexivity|]. split.
  - rewrite fmap_app. cbn. rewrite Hid, Permutation_app_comm. cbn.
    assert (c ∉ anc c) by (rewrite elem_of_ancestors; by apply not_own_ancestor).
    rewrite elements_union_singleton by set_solver. constructor. rewrite Hp. cbn.
    apply NoDup_Permutation; [apply NoDup_filter, hash_iter_NoDup|apply NoDup_elements|].
    intros a. rewrite list_elem_of_filter, elem_of_hash_iter, elem_of_elements. set_solver.
  - intros e [He| ->%list_elem_of_singleton]%elem_of_app; [|rewrite Hid; by auto].
    destruct (Hl e He) as (? & Hat). split; [apply Hat|by auto].
Qed.

(** ** Fetching a package *)

Lemma fetch_all l self size cycles :
  mod_index (modified_entries self) -> (forall e, e ∈ l -> 0 <= te_size e /\ 0 <= te_cycles e) ->
  size + sumZ (te_size <$> l) <= u64_max -> cycles + sumZ (te_cycles <$> l) <= u64_max ->
  exists self', foldl fetch_entry (self, size, cycles) l =
      (self', size + sumZ (te_size <$> l), cycles + sumZ (te_cycles <$> l)) /\
    sc_entries self' = sc_entries self ++ l /\
    fetched_txs self' = list_to_set (te_id <$> l) ∪ fetched_txs self /\
    mod_index (modified_entries self') /\
    forall d, me_entries (modified_entries self') !! d =
      if decide (d ∈ te_id <$> l) then None else me_entries (modified_entries self) !! d.
Proof.
  revert self size cycles. induction l as [|e l IH]; intros self size cycles Hi Hl Hsz Hcy; cbn [foldl].
  { exists self. cbn. rewrite app_nil_r, union_empty_l_L, !Z.add_0_r. split_and!; [done..|].
    intros d. by rewrite decide_False by apply not_elem_of_nil. }
  rewrite !fmap_cons in *. change (sumZ (?a :: ?l)) with (a + sumZ l) in *.
  destruct (Hl e) as [He1 He2]; [left|].
  assert (0 <= sumZ (te_size <$> l) /\ 0 <= sumZ (te_cycles <$> l)) as [Hp1 Hp2].
  { split; apply sumZ_nonneg, Forall_fmap, Forall_forall; intros e' He'; apply Hl; by right. }
  destruct (mod_remove (modified_entries self) (te_id e) Hi) as (Hi1 & Hr1 & _).
  cbn [fetch_entry].
  set (self1 := mkScanner (sc_entries self ++ [e]) (TxModifiedEntries_remove (modified_entries self) (te_id e)).2
    ({[te_id e]} ∪ fetched_txs self)).
  assert (saturating_add size (te_size e) = size + te_size e) as -> by (unfold saturating_add; lia).
  assert (saturating_add cycles (te_cycles e) = cycles + te_cycles e) as -> by (unfold saturating_add; lia).
  destruct (IH self1 (size + te_size e) (cycles + te_cycles e)) as (self' & Hf & Hen & Hfe & Hi' & Hd);
    [done|intros e' He'; apply Hl; by right|lia|lia|].
  exists self'. rewrite !Z.add_assoc, Hf, Hen, Hfe. split_and!; [done|cbn; by rewrite <- app_assoc|cbn; set_solver|done|].
  intros d. rewrite Hd. cbn [self1 modified_entries]. rewrite Hr1. destruct (decide (d = te_id e)) as [->|Hne].
  - rewrite (decide_True (P:=te_id e ∈ te_id e :: _)) by left. rewrite lookup_delete_eq. by case_decide.
  - rewrite lookup_delete_ne by done. rewrite (decide_ext (d ∈ te_id e :: _) (d ∈ te_id <$> l)); [done|].
    rewrite elem_of_cons. naive_solver.
Qed.

(** ** Candidates *)

Lemma scan_spec lookup sat lim failed iter :
  (forall k, k ∈ iter -> is_Some (lookup (key_id k))) ->
  exists r iter', scan lookup sat lim failed iter = Ok (E:=E) (r, iter') /\ (forall k, k ∈ iter' -> k ∈ iter) /\
    forall e, r = Some e -> sat e = true /\ lim e = true /\ exists k, k ∈ iter /\ lookup (key_id k) = Some e.
Proof.
  revert failed. induction iter as [|k iter IH]; intros failed Hl; cbn [scan]; [by exists None, []|].
  destruct (Hl k) as [e He]; [left|]. rewrite He. step.
  assert (forall failed, exists r iter', scan lookup sat lim failed iter = Ok (E:=E) (r, iter') /\
    (forall k', k' ∈ iter' -> k' ∈ k :: iter) /\ forall e, r = Some e -> sat e = true /\ lim e = true /\
    exists k', k' ∈ k :: iter /\ lookup (key_id k') = Some e) as Hrec.
  { intros failed'. destruct (IH failed') as (r & iter' & Hs & Hin & Hr); [intros; apply Hl; by right|].
    exists r, iter'. split_and!; [done|intros; right; by apply Hin|]. intros e' (? & ? & k' & ? & ?)%Hr.
    split_and!; [done|done|]. exists k'. split; [by right|done]. }
  destruct (sat e) eqn:Hsat; cbn [negb]; [|apply Hrec]. destruct (lim e) eqn:Hlim; cbn [negb].
  - exists (Some e), iter. split_and!; [done|by right|]. intros ? [= <-]. split_and!; [done|done|]. exists k.
    split; [left|done].
  - case_match; [|apply Hrec]. exists None, iter. split_and!; [done|by right|done].
Qed.

Lemma next_candidate_spec lookup sat lim entry iter :
  (forall k, k ∈ iter -> is_Some (lookup (key_id k))) ->
  exists r iter', next_candidate_tx lookup sat lim entry iter = Ok (E:=E) (r, iter') /\
    (forall k, k ∈ iter' -> k ∈ iter) /\
    forall e, r = Some e -> sat e = true /\ lim e = true /\
      (entry = Some e \/ exists k, k ∈ iter /\ lookup (key_id k) = Some e).
Proof.
  intros Hl. destruct (scan_spec lookup sat lim 0 iter Hl) as (r & iter' & Hs & Hin & Hr).
  unfold next_candidate_tx. destruct entry as [e|].
  - destruct (sat e && lim e) eqn:Hb.
    + exists (Some e), iter. apply andb_true_iff in Hb as [? ?]. split_and!; [done|done|].
      intros ? [= <-]. by auto.
    + exists r, iter'. split_and!; [done|done|]. intros e' (? & ? & ?)%Hr. by auto.
  - exists r, iter'. split_and!; [done|done|]. intros e' (? & ? & ?)%Hr. by auto.
Qed.

Lemma take_max_cases a b :
  (exists e, take_max a b = (Some e, (None, b)) /\ a = Some e) \/
  (exists e, take_max a b = (Some e, (a, None)) /\ b = Some e) \/
  (a = None /\ b = None /\ take_max a b = (None, (None, None))).
Proof.
  unfold take_max. destruct a as [x|], b as [y|]; cbn [Option_cmp].
  - destruct (TxEntry_cmp x y); eauto.
  - eauto.
  - eauto.
  - auto.
Qed.

(** ** One round *)

Context (size_limit cycles_limit min_fee_rate : Z).
Context (Hsl : 0 <= size_limit < u64_max) (Hcl : 0 <= cycles_limit < u64_max).

(** Every transaction comes after its ancestors. *)
Definition topological (l : list TxEntry) : Prop :=
  forall i e a, l !! i = Some e -> a ∈ anc (te_id e) -> exists j e', (j < i)%nat /\ l !! j = Some e' /\ te_id e' = a.

Record core_inv (self : CommitTxsScanner) (size cycles : Z) : Prop := {
  ci_closed c : c ∈ fetched_txs self -> is_Some (stm_entries m !! c) /\ anc c ⊆ fetched_txs self;
  ci_index : mod_index (modified_entries self);
  ci_mod d : mod_spec (fetched_txs self) (fetched_txs self) (modified_entries self) d;
  ci_ids : te_id <$> sc_entries self ≡ₚ elements (fetched_txs self);
  ci_own e : e ∈ sc_entries self -> same_tx (te_id e) e;
  ci_topo : topological (sc_entries self);
  ci_size : size = sumZ (te_size <$> sc_entries self) /\ size <= size_limit;
  ci_cycles : cycles = sumZ (te_cycles <$> sc_entries self) /\ cycles <= cycles_limit;
}.

(** A candidate that may be packaged. *)
Record pickable (self : CommitTxsScanner) (size cycles : Z) (x : TxEntry) : Prop := {
  pk_new : te_id x ∉ fetched_txs self;
  pk_above : entry_above (fetched_txs self) (te_id x) x;
  pk_limit : is_satisfy_limit size_limit cycles_limit size cycles x = true;
}.

Definition batch (self : CommitTxsScanner) (x : TxEntry) : gset ProposalShortId :=
  {[te_id x]} ∪ (anc (te_id x) ∖ fetched_txs self).

Lemma batch_closed self x :
  (forall c, c ∈ fetched_txs self -> is_Some (stm_entries m !! c) /\ anc c ⊆ fetched_txs self) ->
  is_Some (stm_entries m !! te_id x) ->
  forall c, c ∈ batch self x ∪ fetched_txs self ->
  is_Some (stm_entries m !! c) /\ anc c ⊆ batch self x ∪ fetched_txs self.
Proof.
  intros Hcl' Hx c [Hc|Hc]%elem_of_union; [|destruct (Hcl' c Hc); split; [done|set_solver]].
  assert (forall y, y ∈ anc (te_id x) -> y ∈ batch self x ∪ fetched_txs self) as Hall.
  { intros y Hy. unfold batch. destruct (decide (y ∈ fetched_txs self)); set_solver. }
  unfold batch in Hc. apply elem_of_union in Hc as [->%elem_of_singleton|[Hc _]%elem_of_difference].
  - split; [done|]. intros y. apply Hall.
  - split; [by apply elem_of_ancestors, (ancestor_entries m Hm) in Hc as [_ ?]|].
    intros y Hy. by apply Hall, (ancestors_trans m _ _ Hc).
Qed.

Lemma package_sum w (f : TxEntry -> Z) l B :
  (forall e, f e = own w e) -> (forall e, e ∈ l -> same_tx (te_id e) e) -> te_id <$> l ≡ₚ elements B ->
  sumZ (f <$> l) = wsum (own_of (stm_entries m) w) B.
Proof.
  intros Hf Hl Hp. unfold wsum. rewrite <- Hp, <- list_fmap_compose. f_equal.
  apply list_fmap_ext. intros i e He. cbn. rewrite Hf. apply same_tx_own, Hl. by eapply list_elem_of_lookup_2.
Qed.

Lemma package_fits self size cycles x l :
  core_inv self size cycles -> pickable self size cycles x ->
  (forall e, e ∈ l -> same_tx (te_id e) e) -> te_id <$> l ≡ₚ elements (batch self x) ->
  size + sumZ (te_size <$> l) <= size_limit /\ cycles + sumZ (te_cycles <$> l) <= cycles_limit.
Proof.
  intros Hc [P1 [Hs Hab] P3] Hl Hp. unfold is_satisfy_limit, saturating_add in P3.
  apply andb_true_iff in P3 as [H1'%Z.leb_le H2'%Z.leb_le].
  rewrite (package_sum W_size te_size l (batch self x)), (package_sum W_cycles te_cycles l (batch self x)) by done.
  pose proof (same_tx_alive _ _ Hs) as Ha.
  pose proof (remaining_cover W_size (fetched_txs self) (te_id x) Ha) as C1.
  pose proof (remaining_cover W_cycles (fetched_txs self) (te_id x) Ha) as C2.
  pose proof (Hab W_size) as A1. pose proof (Hab W_cycles) as A2. cbn [stat] in A1, A2. unfold batch. lia.
Qed.

Lemma sorted_topological self x l :
  (forall c, c ∈ fetched_txs self -> anc c ⊆ fetched_txs self) -> te_id x ∉ fetched_txs self ->
  entry_above (fetched_txs self) (te_id x) x ->
  te_id <$> l ≡ₚ elements (batch self x) ->
  (forall e, e ∈ l -> e = x \/ te_id e <> te_id x /\ entry_at (fetched_txs self) (te_id e) e) ->
  StronglySorted (fun a b => ancestors_count a <= ancestors_count b) l ->
  forall k e a, l !! k = Some e -> a ∈ anc (te_id e) -> a ∉ fetched_txs self ->
  exists j e', (j < k)%nat /\ l !! j = Some e' /\ te_id e' = a.
Proof.
  intros Hcl' Hx [Hsx Hab] Hp Hl Hsort k e a Hk Ha HaF.
  assert (forall y, y ∈ te_id <$> l <-> y ∈ batch self x) as Hin by (intros y; by rewrite Hp, elem_of_elements).
  assert (te_id x ∉ anc (te_id x)) as Hxx by (rewrite elem_of_ancestors; by apply not_own_ancestor).
  pose proof (list_elem_of_lookup_2 _ _ _ Hk) as Hel.
  assert (te_id e ∈ batch self x) as HeB by (apply Hin; by apply list_elem_of_fmap_2).
  assert (a ∈ anc (te_id x)) as Hax.
  { unfold batch in HeB. apply elem_of_union in HeB as [He%elem_of_singleton|[He _]%elem_of_difference].
    - by rewrite <- He.
    - by apply (ancestors_trans m _ _ He). }
  assert (a ∈ te_id <$> l) as (ea & Hea & Hla)%list_elem_of_fmap by (apply Hin; unfold batch; set_solver).
  pose proof Hla as [j Hj]%list_elem_of_lookup. exists j, ea. split_and!; [|done|done].
  assert (ancestors_count ea < ancestors_count e) as Hlt.
  { pose proof (remaining_count (fetched_txs self) (te_id e) a Ha HaF) as Hr.
    destruct (Hl ea Hla) as [->|[_ [_ Hsa]]]; [congruence|]. pose proof (Hsa W_count) as H1'. cbn in H1'.
    rewrite Hea in Hr. destruct (Hl e Hel) as [->|[_ [_ Hse]]].
    - pose proof (Hab W_count) as H2'. cbn in H2'. rewrite <- Hea in H1', Hr. lia.
    - pose proof (Hse W_count) as H2'. cbn in H2'. rewrite <- Hea in H1', Hr. lia. }
  destruct (Nat.lt_trichotomy j k) as [|[->|Hkj]]; [done|..].
  - rewrite Hk in Hj. simplify_eq. lia.
  - pose proof (StronglySorted_lookup _ l k j e ea Hsort Hk Hj Hkj) as Hle. cbn in Hle. lia.
Qed.

Lemma topological_app (l1 l2 : list TxEntry) (F : gset ProposalShortId) :
  te_id <$> l1 ≡ₚ elements F -> topological l1 ->
  (forall k e a, l2 !! k = Some e -> a ∈ anc (te_id e) -> a ∉ F ->
    exists j e', (j < k)%nat /\ l2 !! j = Some e' /\ te_id e' = a) ->
  topological (l1 ++ l2).
Proof.
  intros Hp H1' H2' i e a Hi Ha. apply lookup_app_Some in Hi as [Hi|[Hlen Hi]].
  - destruct (H1' i e a Hi Ha) as (j & e' & Hj & He' & <-). exists j, e'. split_and!; [done| |done].
    by apply lookup_app_l_Some.
  - destruct (decide (a ∈ F)) as [HF|HF].
    + assert (a ∈ te_id <$> l1) as (e' & -> & [j Hj]%list_elem_of_lookup)%list_elem_of_fmap
        by (by rewrite Hp, elem_of_elements).
      exists j, e'. pose proof (lookup_lt_Some _ _ _ Hj). split_and!; [lia|by apply lookup_app_l_Some|done].
    + destruct (H2' _ e a Hi Ha HF) as (j & e' & Hj & He' & <-).
      exists (length l1 + j)%nat, e'. split_and!; [lia| |done].
      rewrite lookup_app_r by lia. by replace (length l1 + j - length l1)%nat with j by lia.
Qed.

Lemma round_spec self size cycles x :
  core_inv self size cycles -> pickable self size cycles x ->
  exists l self1 self' size' cycles',
    package_of pool self x = Ok (E:=E) l /\ update_modified_entries pool self l = Ok (E:=E) self1 /\
    foldl fetch_entry (self1, size, cycles) (sort_unstable_by_key ancestors_count (entry_iter l)) = (self', size', cycles') /\
    fetched_txs self' = batch self x ∪ fetched_txs self /\ core_inv self' size' cycles'.
Proof.
  intros Hc Hx. pose proof Hx as [P1 P2 P3]. pose proof Hc as [C1 C2 C3 C4 C5 C6 C7 C8].
  set (F := fetched_txs self) in *.
  destruct (package_spec self x (te_id x) C3 (proj1 P2) P1) as (l & Hl & Hp & Hsame). fold F (batch self x) in Hp, Hsame.
  set (l2 := sort_unstable_by_key ancestors_count (entry_iter l)).
  assert (l2 ≡ₚ l) as Hl2 by (unfold l2; by rewrite sort_unstable_perm, entry_iter_perm).
  assert (forall e, e ∈ l2 -> same_tx (te_id e) e) as Hsame2 by (intros e; rewrite Hl2; by apply Hsame).
  assert (batch self x ## F) as Hdisj by (unfold batch; set_solver).
  assert (forall y, y ∈ te_id <$> l <-> y ∈ batch self x) as Hin by (intros y; by rewrite Hp, elem_of_elements).
  destruct (update_modified_all F (entry_iter l) F (modified_entries self)) as (modified1 & Hu & Hi1 & Hs1);
    [by apply C1|done|rewrite entry_iter_perm, Hp; apply NoDup_elements| |done|done|].
  { intros e. rewrite entry_iter_perm. intros He. split; [by apply Hsame|].
    assert (te_id e ∈ batch self x) by (apply Hin; by apply list_elem_of_fmap_2). set_solver. }
  replace (list_to_set (te_id <$> entry_iter l) : gset ProposalShortId) with (batch self x) in Hs1.
  2: { apply set_eq. intros y. rewrite elem_of_list_to_set, entry_iter_perm. by rewrite Hin. }
  destruct (package_fits self size cycles x l2 Hc Hx Hsame2 ltac:(by rewrite Hl2)) as [Hfs Hfc].
  destruct (fetch_all l2 (mkScanner (sc_entries self) modified1 F) size cycles)
    as (self' & Hf & Hen & Hfe & Hi' & Hd); [done| |lia|lia|].
  { intros e He. destruct (Hsame2 e He) as (e0 & He0 & _ & Ho). pose proof (wf_own m Hm _ _ He0) as (? & ? & ?).
    pose proof (Ho W_size). pose proof (Ho W_cycles). cbn in *. lia. }
  cbn [sc_entries fetched_txs modified_entries] in *.
  replace (list_to_set (te_id <$> l2) : gset ProposalShortId) with (batch self x) in Hfe.
  2: { apply set_eq. intros y. rewrite elem_of_list_to_set, Hl2. by rewrite Hin. }
  exists l, (mkScanner (sc_entries self) modified1 F), self', (size + sumZ (te_size <$> l2)),
    (cycles + sumZ (te_cycles <$> l2)).
  split_and!; [done|unfold update_modified_entries; fold F; by rewrite Hu|done|done|].
  split; rewrite ?Hen, ?Hfe.
  - apply batch_closed; [done|by eapply same_tx_alive, P2].
  - done.
  - intros d. specialize (Hs1 d). unfold mod_spec in *. rewrite Hd.
    rewrite (decide_ext (d ∈ te_id <$> l2) (d ∈ batch self x)) by (by rewrite Hl2).
    case_decide as HdB; [intros _ []; by apply elem_of_union_l|]. destruct (me_entries modified1 !! d).
    + destruct Hs1 as (? & ? & ?). split_and!; [by apply not_elem_of_union|done|done].
    + intros Ha HdF. apply Hs1; [done|]. by apply not_elem_of_union in HdF as [_ ?].
  - rewrite (elements_disj_union _ _ Hdisj), fmap_app, Hl2, Hp, C4. apply Permutation_app_comm.
  - intros e [He|He]%elem_of_app; [by apply C5|by apply Hsame2].
  - apply (topological_app _ _ F C4 C6). apply (sorted_topological self x l2); [by apply C1|done|done|by rewrite Hl2| |].
    + intros e. rewrite Hl2. apply Hsame.
    + apply sort_unstable_sorted.
  - rewrite fmap_app, sumZ_app. lia.
  - rewrite fmap_app, sumZ_app. lia.
Qed.

(** ** The loop *)

Record loop_inv (self : CommitTxsScanner) (size cycles : Z) (pool_tx modified_tx : option TxEntry)
    (iter : list AncestorsScoreSortKey) : Prop := {
  li_core : core_inv self size cycles;
  li_pool e : pool_tx = Some e -> stm_entries m !! te_id e = Some e;
  li_modified e : modified_tx = Some e -> te_id e ∉ fetched_txs self /\
    anc (te_id e) ∩ fetched_txs self <> ∅ /\ entry_above (fetched_txs self) (te_id e) e;
  li_iter k : k ∈ iter -> is_Some (stm_entries m !! key_id k);
}.

(** A candidate of the pool has no ancestor that has been packaged. *)
Lemma pool_candidate self size cycles e :
  core_inv self size cycles -> stm_entries m !! te_id e = Some e -> pool_satisfied min_fee_rate self e = true ->
  te_id e ∉ fetched_txs self /\ anc (te_id e) ∩ fetched_txs self = ∅.
Proof.
  intros Hc He Hs. unfold pool_satisfied, TxModifiedEntries_contains_key in Hs.
  apply andb_true_iff in Hs as [[Hf%bool_decide_eq_true Hn%negb_true_iff%bool_decide_eq_false]%andb_true_iff _].
  split; [done|]. pose proof (ci_mod _ _ _ Hc (te_id e)) as Hd. unfold mod_spec in Hd.
  destruct (me_entries (modified_entries self) !! te_id e); [by destruct Hn|]. apply Hd; [by eexists|done].
Qed.

Lemma remaining_mono w F G c : F ⊆ G -> remaining w G c <= remaining w F c.
Proof.
  intros HFG. unfold remaining.
  pose proof (wsum_subset (own_of (stm_entries m) w) (anc c ∩ F) (anc c ∩ G) ltac:(set_solver)
    (fun x _ => own_of_nonneg m Hm w x)). lia.
Qed.

(** A modified candidate survives the packaging of a candidate of the pool. *)
Lemma modified_survives self x y :
  te_id x ∉ fetched_txs self -> anc (te_id x) ∩ fetched_txs self = ∅ ->
  te_id y ∉ fetched_txs self -> anc (te_id y) ∩ fetched_txs self <> ∅ ->
  entry_above (fetched_txs self) (te_id y) y ->
  let F' := batch self x ∪ fetched_txs self in
  te_id y ∉ F' /\ anc (te_id y) ∩ F' <> ∅ /\ entry_above F' (te_id y) y.
Proof.
  intros Hx Hax Hy Hay [Hs Hab]. cbv zeta. split_and!.
  - unfold batch. rewrite !elem_of_union, elem_of_singleton, elem_of_difference. intros [[Heq|[Hin _]]|?]; [..|done].
    + rewrite Heq in Hay. done.
    + apply ancestors_trans in Hin. set_solver.
  - set_solver.
  - split; [done|]. intros w. etransitivity; [|apply Hab]. apply remaining_mono. set_solver.
Qed.

Lemma candidates_spec self size cycles pool_tx modified_tx iter :
  loop_inv self size cycles pool_tx modified_tx iter ->
  exists pool_tx' modified_tx' iter' iter2,
    next_candidate_tx (ProposedPool_get pool) (pool_satisfied min_fee_rate self)
      (is_satisfy_limit size_limit cycles_limit size cycles) pool_tx iter = Ok (E:=E) (pool_tx', iter') /\
    next_candidate_tx (TxModifiedEntries_get (modified_entries self)) (pays_min_fee min_fee_rate)
      (is_satisfy_limit size_limit cycles_limit size cycles) modified_tx
      (rev (me_index (modified_entries self))) = Ok (E:=E) (modified_tx', iter2) /\
    loop_inv self size cycles pool_tx' modified_tx' iter' /\
    (forall e, pool_tx' = Some e -> pickable self size cycles e /\ anc (te_id e) ∩ fetched_txs self = ∅) /\
    (forall e, modified_tx' = Some e -> pickable self size cycles e).
Proof.
  intros [Hc Hlp Hlm Hli]. pose proof (ci_index _ _ _ Hc) as [Hmi Hmx].
  destruct (next_candidate_spec (ProposedPool_get pool) (pool_satisfied min_fee_rate self)
    (is_satisfy_limit size_limit cycles_limit size cycles) pool_tx iter Hli) as (p' & iter' & Hp & Hin & Hpe).
  destruct (next_candidate_spec (TxModifiedEntries_get (modified_entries self)) (pays_min_fee min_fee_rate)
    (is_satisfy_limit size_limit cycles_limit size cycles) modified_tx (rev (me_index (modified_entries self))))
    as (m' & iter2 & Hmm & _ & Hme).
  { intros k. rewrite <- Permutation_rev, (ix_keys _ _ Hmx), elem_of_keys.
    intros (id & e & He & ->). cbn. unfold TxModifiedEntries_get. rewrite (Hmi _ _ He). by eexists. }
  assert (forall e, p' = Some e -> stm_entries m !! te_id e = Some e) as Hp'.
  { intros e (_ & _ & [He|(k & _ & He)])%Hpe; [by apply Hlp|]. by rewrite (wf_ids m Hm _ _ He). }
  assert (forall e, m' = Some e -> te_id e ∉ fetched_txs self /\ anc (te_id e) ∩ fetched_txs self <> ∅ /\
    entry_above (fetched_txs self) (te_id e) e) as Hm'.
  { intros e (_ & _ & [He|(k & _ & He)])%Hme; [by apply Hlm|]. unfold TxModifiedEntries_get in He.
    pose proof (ci_mod _ _ _ Hc (key_id k)) as Hd. unfold mod_spec in Hd. rewrite He in Hd.
    rewrite (Hmi _ _ He). destruct Hd as (? & ? & ?). split_and!; [done|done|by apply entry_at_above]. }
  exists p', m', iter', iter2. split_and!; [done|done|split; try done; by intros k Hk%Hin%Hli|..].
  - intros e He. destruct (Hpe e He) as (Hsat & Hlim & _). pose proof (Hp' e He) as Hent.
    destruct (pool_candidate self size cycles e Hc Hent Hsat) as [Hn Hd]. split; [|done].
    split; [done| |done]. by apply entry_at_above, entry_at_pool.
  - intros e He. destruct (Hme e He) as (_ & Hlim & _). destruct (Hm' e He) as (? & _ & ?). by split.
Qed.

(** What the scanner returns. *)
Definition commit_ok (l : list TxEntry) (size cycles : Z) : Prop :=
  NoDup (te_id <$> l) /\ (forall e, e ∈ l -> same_tx (te_id e) e) /\ topological l /\
  size = sumZ (te_size <$> l) /\ size <= size_limit /\
  cycles = sumZ (te_cycles <$> l) /\ cycles <= cycles_limit.

Lemma core_commit_ok self size cycles : core_inv self size cycles -> commit_ok (sc_entries self) size cycles.
Proof.
  intros [C1 C2 C3 C4 C5 C6 [C7 C8] [C9 C10]]. split_and!; [|done..]. rewrite C4. apply NoDup_elements.
Qed.

Lemma commit_loop_spec fuel self size cycles pool_tx modified_tx iter :
  loop_inv self size cycles pool_tx modified_tx iter ->
  (base.size (dom (stm_entries m) ∖ fetched_txs self) < fuel)%nat ->
  exists l size' cycles',
    commit_loop pool size_limit cycles_limit min_fee_rate fuel self size cycles pool_tx modified_tx iter =
      Ok (E:=E) (l, size', cycles') /\ commit_ok l size' cycles'.
Proof.
  revert self size cycles pool_tx modified_tx iter.
  induction fuel as [|fuel IH]; intros self size cycles pool_tx modified_tx iter Hl Hf; [lia|]. cbn [commit_loop].
  destruct (candidates_spec _ _ _ _ _ _ Hl) as (p' & m' & iter' & iter2 & -> & Hmm & Hl' & Hp' & Hm').
  step. rewrite Hmm. step. destruct Hl' as [Hc Hlp Hlm Hli].
  assert (forall e l self1 self' size' cycles',
    pickable self size cycles e -> package_of pool self e = Ok (E:=E) l ->
    update_modified_entries pool self l = Ok (E:=E) self1 ->
    foldl fetch_entry (self1, size, cycles) (sort_unstable_by_key ancestors_count (entry_iter l)) = (self', size', cycles') ->
    fetched_txs self' = batch self e ∪ fetched_txs self ->
    (base.size (dom (stm_entries m) ∖ fetched_txs self') < fuel)%nat) as Hdec.
  { intros e l self1 self' size' cycles' [Hn [Hs _] _] _ _ _ ->.
    enough (base.size (dom (stm_entries m) ∖ (batch self e ∪ fetched_txs self)) <
      base.size (dom (stm_entries m) ∖ fetched_txs self))%nat by lia.
    apply same_tx_alive, elem_of_dom in Hs. apply subset_size. unfold batch. set_solver. }
  destruct (take_max_cases p' m') as [(e & -> & ->)|[(e & -> & ->)|(-> & -> & ->)]].
  - destruct (Hp' e eq_refl) as [Hpk Hanc].
    destruct (round_spec self size cycles e Hc Hpk) as (l & self1 & self' & size' & cycles' & H1' & H2' & H3' & H4' & H5').
    rewrite H1'. step. rewrite H2'. step. rewrite H3'. apply IH; [|by eapply Hdec]. split; [done|done| |done].
    intros y (? & ? & ?)%Hlm. rewrite H4'. apply modified_survives; [apply Hpk|done..].
  - destruct (round_spec self size cycles e Hc (Hm' e eq_refl))
      as (l & self1 & self' & size' & cycles' & H1' & H2' & H3' & H4' & H5').
    rewrite H1'. step. rewrite H2'. step. rewrite H3'. apply IH; [|by eapply Hdec; [by apply Hm'|..]].
    by split.
  - eexists _, _, _. split; [reflexivity|]. by apply core_commit_ok.
Qed.
End proofs.

(** ** The scanner *)

(** A pool whose links are complete, and whose transactions have distinct hashes. *)
Record pool_consistent (pool : ProposedPool) : Prop := {
  pc_wf : stm_wf (pp_inner pool);
  pc_linked p d : ~ dangling (pp_inner pool) p d;
  pc_hash id1 id2 e1 e2 :
    stm_entries (pp_inner pool) !! id1 = Some e1 -> stm_entries (pp_inner pool) !! id2 = Some e2 ->
    tx_witness_hash (te_transaction e1) = tx_witness_hash (te_transaction e2) -> id1 = id2;
}.

Lemma commit_start `{HashOrderSpec} pool size_limit cycles_limit :
  pool_consistent pool -> 0 <= size_limit -> 0 <= cycles_limit ->
  loop_inv pool size_limit cycles_limit CommitTxsScanner_new 0 0 None None (keys_sorted_by_fee (pp_inner pool)).
Proof.
  intros [Hm _ _] Hs Hc. split; [split; cbn; try done|done|done|].
  - split; [intros c e He; cbn in He; by rewrite lookup_empty in He|]. split; [done|constructor..].
  - intros d. unfold mod_spec. cbn. rewrite lookup_empty. set_solver.
  - by intros e He%not_elem_of_nil.
  - intros k. unfold keys_sorted_by_fee. rewrite <- Permutation_rev, (ix_keys _ _ (wf_index _ Hm)), elem_of_keys.
    intros (id & e & He & ->). cbn. rewrite (wf_ids _ Hm _ _ He). by eexists.
Qed.

Lemma txs_to_commit_Ok `{HashOrderSpec, EntryOrderSpec, UnstableSortSpec} {E : Type} pool size_limit cycles_limit min_fee_rate :
  pool_consistent pool -> 0 <= size_limit < u64_max -> 0 <= cycles_limit < u64_max ->
  exists entries size cycles,
    txs_to_commit pool size_limit cycles_limit min_fee_rate = Ok (E:=E) (entries, size, cycles) /\
    commit_ok pool size_limit cycles_limit entries size cycles.
Proof.
  intros Hp Hs Hc. pose proof Hp as [Hm Hl Hh].
  apply (commit_loop_spec (E:=E) pool Hm Hl Hh size_limit cycles_limit min_fee_rate Hs Hc
    (S (size (stm_entries (pp_inner pool)))) CommitTxsScanner_new 0 0 None None
    (keys_sorted_by_fee (pp_inner pool))).
  - apply commit_start; [done|lia|lia].
  - cbn. rewrite difference_empty_L, size_dom. lia.
Qed.

(** C20: On a consistent pool the scanner terminates without a panic, whatever the
    order in which hash sets are visited; it returns transactions of the pool, none
    twice, every one after all its ancestors in the pool, and their total size and
    cycles, which are within the limits. *)
Theorem txs_to_commit_spec `{HashOrderSpec, EntryOrderSpec, UnstableSortSpec} {E : Type} pool size_limit cycles_limit min_fee_rate :
  pool_consistent pool -> 0 <= size_limit < u64_max -> 0 <= cycles_limit < u64_max ->
  exists entries size cycles,
    txs_to_commit pool size_limit cycles_limit min_fee_rate = Ok (E:=E) (entries, size, cycles) /\
    NoDup (te_id <$> entries) /\
    (forall e, e ∈ entries -> ProposedPool_get_tx pool (te_id e) = Some (te_transaction e)) /\
    (forall i e a, entries !! i = Some e -> a ∈ ProposedPool_get_ancestors pool (te_id e) ->
      exists j e', (j < i)%nat /\ entries !! j = Some e' /\ te_id e' = a) /\
    size = sumZ (te_size <$> entries) /\ size <= size_limit /\
    cycles = sumZ (te_cycles <$> entries) /\ cycles <= cycles_limit.
Proof.
  intros Hp Hs Hc. destruct (txs_to_commit_Ok (E:=E) pool size_limit cycles_limit min_fee_rate Hp Hs Hc)
    as (l & size' & cycles' & Hr & H1' & H2' & H3' & H4').
  exists l, size', cycles'. split_and!; [done|done| |done|apply H4'..].
  intros e (e0 & He0 & Ht & _)%H2'. apply get_tx_entry. by exists e0.
Qed.

(** ** Concrete pools *)

(** 1 and 2 are independent, 3 spends both, 4 spends 3. *)
Definition joined_proposed : ProposedPool :=
  foldl proposed_add (ProposedPool_new 25)
    [pool_entry 1 [(90, 0)]; pool_entry 2 [(91, 0)]; pool_entry 3 [(1, 0); (2, 0)]; pool_entry 4 [(3, 0)]].

Definition pool_consistent_b (pool : ProposedPool) : bool :=
  let entries := stm_entries (pp_inner pool) in
  bool_decide (map_Forall (fun _ link => set_Forall (fun d => is_Some (entries !! d)) (link_children link))
    (stm_links (pp_inner pool))) &&
  bool_decide (map_Forall (fun id1 e1 => map_Forall (fun id2 e2 =>
    tx_witness_hash (te_transaction e1) = tx_witness_hash (te_transaction e2) -> id1 = id2) entries) entries).
Lemma pool_consistent_b_sound pool :
  stm_wf (pp_inner pool) -> pool_consistent_b pool = true -> pool_consistent pool.
Proof.
  intros Hm. unfold pool_consistent_b. rewrite andb_true_iff, !bool_decide_eq_true. intros [Hl Hh]. split; [done|..].
  - intros p d [Hd Hn]. unfold direct_ids in Hd. destruct (stm_links (pp_inner pool) !! p) as [link|] eqn:Hlink;
      [|set_solver]. apply (Hl p link Hlink) in Hd. rewrite Hn in Hd. by destruct Hd.
  - intros id1 id2 e1 e2 H1 H2. by apply (Hh id1 e1 H1 id2 e2 H2).
Qed.

Lemma txs_to_commit_spec_witness :
  exists entries size cycles,
    txs_to_commit joined_proposed 350 1000 0 = Ok (E:=Empty_set) (entries, size, cycles) /\
    size <= 350 /\ te_id <$> entries = [pool_id 1; pool_id 2; pool_id 3].
Proof.
  destruct (txs_to_commit_spec (E:=Empty_set) joined_proposed 350 1000 0) as (l & s & c & Hr & _ & _ & _ & _ & Hs & _).
  - apply pool_consistent_b_sound; [|by vm_compute].
    apply (po_wf None), (reachable_ok 25); [by vm_compute|]. apply proposed_add_steps.
  - by vm_compute.
  - by vm_compute.
  - exists l, s, c. split_and!; [done|done|].
    assert (match txs_to_commit (E:=Empty_set) joined_proposed 350 1000 0 with
            | Ok (l, _, _) => te_id <$> l | _ => [] end = [pool_id 1; pool_id 2; pool_id 3]) as Hids by (by vm_compute).
    by rewrite Hr in Hids.
Defined.

(** A block commits a transaction that spends the input of 1. *)
Definition conflicted_pool : ProposedPool :=
  (ProposedPool_remove_committed_tx joined_proposed (pool_tx 9 [(90, 0)]) []).2.
Lemma commit_absent `{HashOrder} p tx related :
  ProposedPool_contains_key p (TransactionView_proposal_short_id tx) = false ->
  pp_step p (ProposedPool_remove_committed_tx p tx related).2.
Proof.
  intros Hn. apply pp_commit. intros tx' (e & He & _)%get_tx_entry.
  unfold ProposedPool_contains_key, SortedTxMap_contains_key in Hn. by rewrite He, bool_decide_eq_true_2 in Hn.
Qed.
Lemma joined_proposed_reachable : rtc pp_step (ProposedPool_new 25) joined_proposed.
Proof. apply proposed_add_steps. Qed.
Lemma conflicted_pool_reachable : rtc pp_step (ProposedPool_new 25) conflicted_pool.
Proof.
  apply (rtc_r _ joined_proposed); [apply joined_proposed_reachable|]. apply commit_absent. by vm_compute.
Qed.

(** C36: A link that a removal has left dangling makes the scanner panic: when a block
    commits a transaction that conflicts with 1, the pool removes 1 with its
    descendants 3 and 4; 2 stays, linked to 3, and the next block template panics on
    looking 3 up. *)
Theorem txs_to_commit_panics :
  rtc pp_step (ProposedPool_new 25) conflicted_pool /\ ProposedPool_size conflicted_pool = 1 /\
  txs_to_commit conflicted_pool 1000 1000 0 = Panic (E:=Empty_set).
Proof. split; [apply conflicted_pool_reachable|by vm_compute]. Qed.
