(* ===== verification/PendingQueue.v ===== *)
(** * The pending and gap pools: src/tx-pool/src/component/pending.rs

    A queue is a sorted map of entries that also serves as a cell provider, and
    from which the proposals of a block template are taken.  [fill_proposals_spec]
    shows that it stays within the limit and proposes a transaction only with all
    its ancestors. *)

From Stdlib Require Import Sorted.
From S2P Require Import Prelude Capacity NumExt Types Molecule Errors Cell PoolEntry SortedTxMap ProposedPool.

Record PendingQueue := mkPendingQueue { pq_inner : SortedTxMap }.

Definition PendingQueue_new (max_ancestors_count : Z) : PendingQueue :=
  mkPendingQueue (SortedTxMap_new max_ancestors_count).
Definition PendingQueue_size (self : PendingQueue) : Z := SortedTxMap_size (pq_inner self).
Definition PendingQueue_contains_key (self : PendingQueue) (id : ProposalShortId) : bool :=
  SortedTxMap_contains_key (pq_inner self) id.
Definition PendingQueue_get (self : PendingQueue) (id : ProposalShortId) : option TxEntry :=
  SortedTxMap_get (pq_inner self) id.
Definition PendingQueue_get_tx (self : PendingQueue) (id : ProposalShortId) : option TransactionView :=
  te_transaction <$> SortedTxMap_get (pq_inner self) id.

Definition PendingQueue_cell (calc_data_hash : bytes -> Byte32) (self : PendingQueue) : CellProvider :=
  fun out_point _with_data =>
    match SortedTxMap_get (pq_inner self) (ProposalShortId_from_tx_hash (op_tx_hash out_point)) with
    | Some x =>
        r ← output_with_data (te_transaction x) (op_index out_point);
        match r with
        | Some (output, data) => Ok (CellStatus_Live (pool_cell_meta calc_data_hash output data out_point))
        | None => Ok CellStatus_Unknown
        end
    | None => Ok CellStatus_Unknown
    end.

Section ops.
Context `{HashOrder, UnstableSort}.

Definition PendingQueue_add_entry (self : PendingQueue) (entry : TxEntry) :
    outcome SubmitTxError (option TxEntry * PendingQueue) :=
  '(removed, inner) ← SortedTxMap_add_entry (pq_inner self) entry;
  Ok (removed, mkPendingQueue inner).
Definition PendingQueue_remove_entry_and_descendants (self : PendingQueue) (id : ProposalShortId) :
    list TxEntry * PendingQueue :=
  let '(removed, inner) := SortedTxMap_remove_entry_and_descendants (pq_inner self) id in
  (removed, mkPendingQueue inner).
Definition PendingQueue_remove_entry (self : PendingQueue) (id : ProposalShortId) :
    option TxEntry * PendingQueue :=
  let '(removed, inner) := SortedTxMap_remove_entry (pq_inner self) id in
  (removed, mkPendingQueue inner).
Definition PendingQueue_get_ancestors (self : PendingQueue) (id : ProposalShortId) : gset ProposalShortId :=
  SortedTxMap_get_ancestors (pq_inner self) id.
Definition PendingQueue_keys_sorted_by_fee (self : PendingQueue) : list AncestorsScoreSortKey :=
  keys_sorted_by_fee (pq_inner self).

(** ** Proposals *)

(** The ancestors of an entry by their number of ancestors, and the entry. *)
Definition sorted_ancestors {E : Type} (self : PendingQueue) (id : ProposalShortId) :
    outcome E (list ProposalShortId) :=
  ancestors ← try_map (fun id =>
    entry ← expect (PendingQueue_get self id);
    Ok (ancestors_count entry, id)) (hash_iter (PendingQueue_get_ancestors self id));
  Ok ((sort_unstable_by_key fst ancestors).*2 ++ [id]).

(** The inner loop: until the limit is reached. *)
Fixpoint propose (limit : Z) (exclusion proposals : gset ProposalShortId) (l : list ProposalShortId) :
    gset ProposalShortId :=
  match l with
  | [] => proposals
  | candidate :: l =>
      if Z.of_nat (size proposals) =? limit then proposals
      else propose limit exclusion
             (if decide (candidate ∈ exclusion) then proposals else {[candidate]} ∪ proposals) l
  end.

Fixpoint fill_loop {E : Type} (self : PendingQueue) (limit min_fee_rate : Z)
    (exclusion proposals : gset ProposalShortId) (keys : list AncestorsScoreSortKey) :
    outcome E (gset ProposalShortId) :=
  match keys with
  | [] => Ok proposals
  | key :: keys =>
      if Z.of_nat (size proposals) =? limit then Ok proposals
      else if bool_decide (key_id key ∈ proposals) ||
              (key_ancestors_fee key <? FeeRate_fee min_fee_rate (key_ancestors_size key))
      then fill_loop self limit min_fee_rate exclusion proposals keys
      else
        ancestors ← sorted_ancestors self (key_id key);
        fill_loop self limit min_fee_rate exclusion (propose limit exclusion proposals ancestors) keys
  end.
Definition PendingQueue_fill_proposals {E : Type} (self : PendingQueue) (limit min_fee_rate : Z)
    (exclusion proposals : gset ProposalShortId) : outcome E (gset ProposalShortId) :=
  fill_loop self limit min_fee_rate exclusion proposals (PendingQueue_keys_sorted_by_fee self).
End ops.

Section proofs.
Context `{HashOrderSpec, UnstableSortSpec} {E : Type} (self : PendingQueue) (Hm : stm_wf (pq_inner self)).
Abbreviation m := (pq_inner self).
Abbreviation anc := (SortedTxMap_get_ancestors m).

Lemma sorted_ancestors_spec id :
  is_Some (stm_entries m !! id) ->
  exists l, sorted_ancestors self id = Ok (E:=E) l /\
    (forall x, x ∈ l <-> x ∈ {[id]} ∪ anc id) /\
    forall j x a, l !! j = Some x -> a ∈ anc x -> exists i, (i < j)%nat /\ l !! i = Some a.
Proof.
  intros Hid. unfold sorted_ancestors, PendingQueue_get_ancestors.
  set (count x := stat_of (stm_entries m) W_count x).
  assert (id ∉ anc id) as Hn by (rewrite elem_of_ancestors; by apply not_own_ancestor).
  rewrite (try_map_fmap _ (fun x => (count x, x))).
  2: { intros x Hx%elem_of_hash_iter%elem_of_ancestors. apply (ancestor_entries m Hm) in Hx as [_ [e He]].
       unfold PendingQueue_get, SortedTxMap_get, count, stat_of. by rewrite He. }
  step. set (l := sort_unstable_by_key fst ((fun x => (count x, x)) <$> hash_iter (anc id))).
  assert (l ≡ₚ (fun x => (count x, x)) <$> hash_iter (anc id)) as Hl by apply sort_unstable_perm.
  assert (forall x, x ∈ l.*2 <-> x ∈ anc id) as Hin.
  { intros x. by rewrite Hl, <- list_fmap_compose, list_fmap_id, elem_of_hash_iter. }
  eexists. split; [reflexivity|]. split; [intros x; rewrite elem_of_app, list_elem_of_singleton, Hin; set_solver|].
  intros j x a Hj Ha.
  assert (a ∈ anc id) as Haid.
  { apply lookup_app_Some in Hj as [Hj|[_ Hj]].
    - apply list_elem_of_lookup_2, Hin in Hj. by apply (ancestors_trans m _ _ Hj).
    - by apply list_lookup_singleton_Some in Hj as [_ <-]. }
  pose proof Haid as [i Hi]%Hin%list_elem_of_lookup. exists i. split; [|by apply lookup_app_l_Some].
  pose proof (lookup_lt_Some _ _ _ Hi) as Hil. apply lookup_app_Some in Hj as [Hj|[Hlen Hj]]; [|lia].
  apply list_lookup_fmap_Some in Hi as ([na a'] & -> & Hi), Hj as ([nx x'] & -> & Hj). cbn [snd] in *.
  assert (na = count a' /\ nx = count x') as [-> ->].
  { apply list_elem_of_lookup_2 in Hi, Hj. rewrite Hl in Hi, Hj.
    apply list_elem_of_fmap in Hi as (? & [= -> ->] & _), Hj as (? & [= -> ->] & _). done. }
  apply elem_of_ancestors, (ancestor_count m Hm) in Ha. fold (count a') (count x') in Ha.
  destruct (Nat.lt_trichotomy i j) as [|[->|Hji]]; [done|..].
  - rewrite Hi in Hj. simplify_eq. lia.
  - pose proof (StronglySorted_lookup _ l j i _ _ (sort_unstable_sorted fst _) Hj Hi Hji) as Hle. cbn in Hle. lia.
Qed.

Lemma propose_spec limit exclusion proposals l :
  Z.of_nat (size proposals) <= limit ->
  let result := propose limit exclusion proposals l in
  proposals ⊆ result /\ Z.of_nat (size result) <= limit /\
  forall x, x ∈ result -> x ∉ proposals -> x ∉ exclusion /\
    exists j, l !! j = Some x /\ forall i a, (i < j)%nat -> l !! i = Some a -> a ∈ result ∪ exclusion.
Proof.
  revert proposals. induction l as [|c l IH]; intros P HP; cbn [propose]; [done|].
  destruct (Z.eqb_spec (Z.of_nat (size P)) limit) as [|Hne]; [done|].
  set (P1 := if decide (c ∈ exclusion) then P else {[c]} ∪ P).
  assert (P ⊆ P1 /\ Z.of_nat (size P1) <= limit /\ c ∈ P1 ∪ exclusion /\
    forall x, x ∈ P1 -> x ∉ P -> x = c /\ x ∉ exclusion) as (Hsub & Hsz & Hc & Hx).
  { unfold P1. case_decide; [set_solver|]. split_and!; [set_solver| |set_solver|set_solver].
    pose proof (size_union_alt ({[c]} : gset ProposalShortId) P) as Hu. rewrite size_singleton in Hu.
    pose proof (subseteq_size (P ∖ {[c]}) P ltac:(set_solver)). lia. }
  destruct (IH P1 Hsz) as (I1 & I2 & I3). split_and!; [set_solver|done|]. intros x Hr HxP.
  destruct (decide (x ∈ P1)) as [Hx1|Hx1].
  - destruct (Hx x Hx1 HxP) as [-> ?]. split; [done|]. exists 0%nat. split; [done|]. lia.
  - destruct (I3 x Hr Hx1) as (? & j & Hj & Hlt). split; [done|]. exists (S j). split; [done|].
    intros [|i] a Hi Ha; [cbn in Ha; simplify_eq; set_solver|]. apply (Hlt i); [lia|done].
Qed.

(** The proposals that have been added to [start]. *)
Definition proposals_ok (exclusion start proposals : gset ProposalShortId) : Prop :=
  forall x, x ∈ proposals -> x ∉ start -> x ∉ exclusion /\ is_Some (stm_entries m !! x) /\
    anc x ⊆ proposals ∪ exclusion.

Lemma fill_loop_spec limit rate exclusion start proposals keys :
  (forall k, k ∈ keys -> is_Some (stm_entries m !! key_id k)) ->
  start ⊆ proposals -> Z.of_nat (size proposals) <= limit -> proposals_ok exclusion start proposals ->
  exists result, fill_loop self limit rate exclusion proposals keys = Ok (E:=E) result /\
    start ⊆ result /\ Z.of_nat (size result) <= limit /\ proposals_ok exclusion start result.
Proof.
  revert proposals. induction keys as [|k keys IH]; intros P Hk Hs Hsz Hok; cbn [fill_loop]; [by exists P|].
  destruct (_ =? _); [by exists P|].
  destruct (_ || _); [apply IH; auto; intros; apply Hk; by right|].
  destruct (Hk k) as [e He]; [left|].
  destruct (sorted_ancestors_spec (key_id k) (mk_is_Some _ _ He)) as (l & -> & Hl & Htopo). step.
  destruct (propose_spec limit exclusion P l Hsz) as (Hsub & Hsz' & Hnew).
  apply IH; [intros; apply Hk; by right|set_solver|done|]. intros x Hx Hxs.
  destruct (decide (x ∈ P)) as [HxP|HxP].
  - destruct (Hok x HxP Hxs) as (? & ? & ?). split_and!; [done|done|set_solver].
  - destruct (Hnew x Hx HxP) as (Hxe & j & Hj & Hlt). split_and!; [done| |].
    + pose proof (list_elem_of_lookup_2 _ _ _ Hj) as Hxl. apply Hl in Hxl.
      apply elem_of_union in Hxl as [->%elem_of_singleton|Hxl%elem_of_ancestors]; [by eexists|].
      by apply (ancestor_entries m Hm) in Hxl as [_ ?].
    + intros a Ha. destruct (Htopo j x a Hj Ha) as (i & Hij & Hi). by apply (Hlt i).
Qed.

Lemma fill_proposals_Ok limit rate exclusion proposals :
  Z.of_nat (size proposals) <= limit ->
  exists result, PendingQueue_fill_proposals self limit rate exclusion proposals = Ok (E:=E) result /\
    proposals ⊆ result /\ Z.of_nat (size result) <= limit /\
    forall x, x ∈ result -> x ∉ proposals ->
      x ∉ exclusion /\ PendingQueue_contains_key self x = true /\
      PendingQueue_get_ancestors self x ⊆ result ∪ exclusion.
Proof.
  intros Hsz. destruct (fill_loop_spec limit rate exclusion proposals proposals
    (PendingQueue_keys_sorted_by_fee self)) as (result & Hr & Hsub & Hsz' & Hok); [|done|done|done|].
  - intros k. unfold PendingQueue_keys_sorted_by_fee, keys_sorted_by_fee.
    rewrite <- Permutation_rev, (ix_keys _ _ (wf_index _ Hm)), elem_of_keys.
    intros (id & e & He & ->). cbn. rewrite (wf_ids _ Hm _ _ He). by eexists.
  - exists result. split_and!; [done..|]. intros x Hx Hn. destruct (Hok x Hx Hn) as (? & ? & ?).
    split_and!; [done|by apply bool_decide_eq_true_2|done].
Qed.

(** Filling the proposals of a block template never panics, keeps the proposals
    given and stays within the limit; every transaction it adds is in the queue,
    is not excluded, and all its ancestors are proposed as well or excluded, because
    the uncles of the template already propose them. *)
Theorem fill_proposals_spec limit rate exclusion proposals :
  Z.of_nat (size proposals) <= limit ->
  exists result, PendingQueue_fill_proposals self limit rate exclusion proposals = Ok (E:=E) result /\
    proposals ⊆ result /\ Z.of_nat (size result) <= limit /\
    forall x, x ∈ result -> x ∉ proposals ->
      x ∉ exclusion /\ PendingQueue_contains_key self x = true /\
      PendingQueue_get_ancestors self x ⊆ result ∪ exclusion.
Proof. apply fill_proposals_Ok. Qed.
End proofs.

Lemma fill_proposals_spec_witness :
  exists result, PendingQueue_fill_proposals (mkPendingQueue joined_pool) 3 0 ∅ ∅ = Ok (E:=Empty_set) result /\
    size result = 3%nat /\ Z.of_nat (size result) <= 3.
Proof.
  destruct (fill_proposals_spec (E:=Empty_set) (mkPendingQueue joined_pool) (pool_of_wf _) 3 0 ∅ ∅)
    as (result & Hr & _ & Hs & _); [done|]. exists result. split_and!; [done| |done].
  assert (match PendingQueue_fill_proposals (E:=Empty_set) (mkPendingQueue joined_pool) 3 0 ∅ ∅ with
          | Ok result => size result | _ => 0%nat end = 3%nat) as Hn by (by vm_compute).
  by rewrite Hr in Hn.
Defined.
