(* ===== verification/OrphanPool.v ===== *)
(** * Orphan transactions: src/tx-pool/src/component/orphan.rs and [DefectEntry] of
    src/tx-pool/src/component/entry.rs

    A transaction with unknown inputs or dependencies waits in the orphan pool,
    which counts how many of its out points are missing.
    [orphans_released_exactly] shows that when a transaction arrives, exactly the
    orphans are released whose missing out points are outputs of the transaction
    or of other released orphans; the loops of the pool terminate and the counter
    never underflows. *)

From S2P Require Import Prelude Capacity NumExt Rational Difficulty Types Molecule BlockCodec.
From S2P Require Import Errors Epoch Cell Consensus Hashes Store Dao HeaderVerifier TransactionVerifier.
From S2P Require Import PoolEntry SortedTxMap.

Record DefectEntry := mkDefectEntry {
  de_transaction : TransactionView;
  refs_count : Z;
  de_cache_entry : option CacheEntry;
  de_size : Z;
  de_timestamp : Z;
}.
(** [now] is [faketime::unix_time().as_secs()]. *)
Definition DefectEntry_new (now : Z) (tx : TransactionView) (refs_count : Z)
    (cache_entry : option CacheEntry) (size : Z) : DefectEntry :=
  mkDefectEntry tx refs_count cache_entry size now.

Definition TTL : Z := 4 * 60 * 60.
Definition PRUNE_THRESHOLD : Z := 1500.

Record OrphanPool := mkOrphanPool {
  vertices : gmap ProposalShortId DefectEntry;
  or_edges : gmap OutPoint (list ProposalShortId);
  prune_threshold : Z;
}.
Definition OrphanPool_raw_new (prune_threshold : Z) : OrphanPool := mkOrphanPool ∅ ∅ prune_threshold.
Definition OrphanPool_new : OrphanPool := OrphanPool_raw_new PRUNE_THRESHOLD.
Definition OrphanPool_size (self : OrphanPool) : Z := Z.of_nat (size (vertices self)).
Definition OrphanPool_get (self : OrphanPool) (id : ProposalShortId) : option DefectEntry :=
  vertices self !! id.
Definition OrphanPool_get_tx (self : OrphanPool) (id : ProposalShortId) : option TransactionView :=
  de_transaction <$> OrphanPool_get self id.
Definition OrphanPool_contains_key (self : OrphanPool) (id : ProposalShortId) : bool :=
  bool_decide (is_Some (vertices self !! id)).

(** The number of ids in the edges. *)
Definition edge_count (edges : gmap OutPoint (list ProposalShortId)) : nat :=
  sum_list ((fun ol => length ol.2) <$> map_to_list edges).

(** The ids that wait for an output of a removed orphan join the queue. *)
Definition remove_output_edges (st : gmap OutPoint (list ProposalShortId) * list ProposalShortId)
    (o : OutPoint) : gmap OutPoint (list ProposalShortId) * list ProposalShortId :=
  let '(edges, queue) := st in
  match edges !! o with
  | Some ids => (delete o edges, queue ++ ids)
  | None => st
  end.
(** Every id joins the queue with the removal of the edge it is in. *)
Fixpoint recursion_loop (fuel : nat) (self : OrphanPool) (queue : list ProposalShortId) : OrphanPool :=
  match fuel, queue with
  | S fuel, id :: queue =>
      match vertices self !! id with
      | Some entry =>
          let '(edges, queue) :=
            foldl remove_output_edges (or_edges self, queue) (TransactionView_output_pts (de_transaction entry)) in
          recursion_loop fuel (mkOrphanPool (delete id (vertices self)) edges (prune_threshold self)) queue
      | None => recursion_loop fuel self queue
      end
  | _, _ => self
  end.
Definition recursion_remove (self : OrphanPool) (id : ProposalShortId) : OrphanPool :=
  recursion_loop (S (edge_count (or_edges self))) self [id].

Definition remove_conflict (self : OrphanPool) (tx : TransactionView) : OrphanPool :=
  foldl (fun self input =>
    match or_edges self !! input with
    | Some ids =>
        foldl recursion_remove (mkOrphanPool (vertices self) (delete input (or_edges self)) (prune_threshold self)) ids
    | None => self
    end) self (TransactionView_input_pts_iter tx).

Section ops.
Context {E : Type}.

(** One id that waits for an output that has arrived: its counter goes down, and at
    zero the orphan is released. *)
Definition release_ref (st : OrphanPool * list TransactionView * list DefectEntry) (cid : ProposalShortId) :
    outcome E (OrphanPool * list TransactionView * list DefectEntry) :=
  let '(self, queue, txs) := st in
  match vertices self !! cid with
  | Some e =>
      refs_count ← u64_sub (refs_count e) 1;
      let e := mkDefectEntry (de_transaction e) refs_count (de_cache_entry e) (de_size e) (de_timestamp e) in
      if refs_count =? 0
      then Ok (mkOrphanPool (delete cid (vertices self)) (or_edges self) (prune_threshold self),
               queue ++ [de_transaction e], txs ++ [e])
      else Ok (mkOrphanPool (<[cid := e]> (vertices self)) (or_edges self) (prune_threshold self), queue, txs)
  | None => Ok st
  end.
Definition release_output (st : OrphanPool * list TransactionView * list DefectEntry) (o : OutPoint) :
    outcome E (OrphanPool * list TransactionView * list DefectEntry) :=
  let '(self, queue, txs) := st in
  match or_edges self !! o with
  | Some ids =>
      try_fold release_ref
        (mkOrphanPool (vertices self) (delete o (or_edges self)) (prune_threshold self), queue, txs) ids
  | None => Ok st
  end.
(** The loop over the queue, which holds the transactions whose outputs are to be
    visited; every orphan joins it at most once. *)
Fixpoint release_loop (fuel : nat) (self : OrphanPool) (queue : list TransactionView)
    (txs : list DefectEntry) : outcome E (OrphanPool * list DefectEntry) :=
  match fuel, queue with
  | S fuel, tx :: queue =>
      '(self, queue, txs) ← try_fold release_output (self, queue, txs) (TransactionView_output_pts tx);
      release_loop fuel self queue txs
  | _, _ => Ok (self, txs)
  end.
Definition remove_by_ancestor (self : OrphanPool) (tx : TransactionView) :
    outcome E (list DefectEntry * OrphanPool) :=
  let self := remove_conflict self tx in
  '(self, txs) ← release_loop (S (size (vertices self))) self [tx] [];
  Ok (txs, self).

(** The ids that have expired are collected in the order of the map, which is not
    specified: [order] is a permutation of the entries. *)
Context (order : gmap ProposalShortId DefectEntry -> list (ProposalShortId * DefectEntry)) (now : Z).

Definition prune (self : OrphanPool) : outcome E OrphanPool :=
  if OrphanPool_size self <? prune_threshold self then Ok self
  else
    ids ← try_fold (fun ids ie =>
      expiry ← u64_add (de_timestamp ie.2) TTL;
      Ok (if expiry <? now then ids ++ [ie.1] else ids)) [] (order (vertices self));
    Ok (foldl recursion_remove self ids).

Definition add_edge (short_id : ProposalShortId) (edges : gmap OutPoint (list ProposalShortId)) (o : OutPoint) :
    gmap OutPoint (list ProposalShortId) :=
  <[o := default [] (edges !! o) ++ [short_id]]> edges.
Definition OrphanPool_add_tx (self : OrphanPool) (cache_entry : option CacheEntry) (size : Z)
    (tx : TransactionView) (unknown : list OutPoint) : outcome E (option DefectEntry * OrphanPool) :=
  self ← prune self;
  let short_id := TransactionView_proposal_short_id tx in
  let entry := DefectEntry_new now tx (Z.of_nat (length unknown)) cache_entry size in
  let edges := foldl (add_edge short_id) (or_edges self) unknown in
  Ok (vertices self !! short_id,
      mkOrphanPool (<[short_id := entry]> (vertices self)) edges (prune_threshold self)).
End ops.

(** ** Counting the edges of an orphan *)

Definition count (id : ProposalShortId) (l : list ProposalShortId) : Z :=
  Z.of_nat (length (filter (fun x => x = id) l)).
Definition occ (edges : gmap OutPoint (list ProposalShortId)) (id : ProposalShortId) : Z :=
  sumZ ((fun ol => count id ol.2) <$> map_to_list edges).

Lemma count_app id l1 l2 : count id (l1 ++ l2) = count id l1 + count id l2.
Proof. unfold count. rewrite filter_app, length_app. lia. Qed.
Lemma count_cons id x l : count id (x :: l) = (if decide (x = id) then 1 else 0) + count id l.
Proof. unfold count. rewrite filter_cons. case_decide; cbn [length]; lia. Qed.
Lemma count_nonneg id l : 0 <= count id l.
Proof. unfold count. lia. Qed.
Lemma count_pos id l : id ∈ l <-> 1 <= count id l.
Proof.
  induction l as [|x l IH]; [split; [by intros ?%not_elem_of_nil|by vm_compute]|].
  rewrite elem_of_cons, count_cons, IH. pose proof (count_nonneg id l). case_decide; [subst|]; split; try lia; auto.
  intros [->|]; [done|lia].
Qed.

Lemma occ_delete edges o l id :
  edges !! o = Some l -> occ edges id = count id l + occ (delete o edges) id.
Proof. intros Ho. unfold occ. by rewrite <- (map_to_list_delete edges o l Ho), fmap_cons. Qed.
Lemma occ_nonneg edges id : 0 <= occ edges id.
Proof. unfold occ. apply sumZ_nonneg, Forall_fmap, Forall_forall. intros [o l] _. apply count_nonneg. Qed.
Lemma occ_pos edges id : 1 <= occ edges id -> exists o l, edges !! o = Some l /\ id ∈ l.
Proof.
  unfold occ. intros Hp. assert (exists ol, ol ∈ map_to_list edges /\ 1 <= count id ol.2) as ([o l] & Hin & Hc).
  { revert Hp. induction (map_to_list edges) as [|ol l IH]; [by vm_compute|]. rewrite fmap_cons.
    change (sumZ (?a :: ?l)) with (a + sumZ l). pose proof (count_nonneg id ol.2).
    destruct (decide (1 <= count id ol.2)); [exists ol; split; [left|done]|].
    intros Hp. destruct IH as (x & Hx & ?); [lia|]. exists x. split; [by right|done]. }
  exists o, l. split; [by apply elem_of_map_to_list|by apply count_pos].
Qed.
Lemma occ_zero edges id o l : occ edges id = 0 -> edges !! o = Some l -> id ∉ l.
Proof.
  intros Hz Ho Hin%count_pos. rewrite (occ_delete edges o l id Ho) in Hz.
  pose proof (occ_nonneg (delete o edges) id). lia.
Qed.
Lemma edge_count_delete edges o l :
  edges !! o = Some l -> (edge_count edges = length l + edge_count (delete o edges))%nat.
Proof. intros Ho. unfold edge_count. by rewrite <- (map_to_list_delete edges o l Ho), fmap_cons. Qed.

(** Every orphan waits for as many out points as its counter says. *)
Definition orphan_ok (self : OrphanPool) : Prop :=
  forall id e, vertices self !! id = Some e ->
    TransactionView_proposal_short_id (de_transaction e) = id /\
    refs_count e = occ (or_edges self) id /\ 1 <= refs_count e < 2 ^ 64.

(** ** Removal *)

(** Orphans have been removed, and with them only edges that none of the others has. *)
Record shrunk (self self' : OrphanPool) : Prop := {
  sh_vertices : vertices self' ⊆ vertices self;
  sh_occ id : is_Some (vertices self' !! id) -> occ (or_edges self') id = occ (or_edges self) id;
  sh_edges : or_edges self' ⊆ or_edges self;
}.
Lemma shrunk_refl self : shrunk self self.
Proof. by split. Qed.
Lemma shrunk_trans self1 self2 self3 : shrunk self1 self2 -> shrunk self2 self3 -> shrunk self1 self3.
Proof.
  intros [A1 A2 A3] [B1 B2 B3]. split; [by etransitivity| |by etransitivity]. intros id Hid. rewrite B2 by done.
  apply A2. destruct Hid as [e He]. exists e. by eapply lookup_weaken.
Qed.
Lemma shrunk_ok self self' : shrunk self self' -> orphan_ok self -> orphan_ok self'.
Proof.
  intros [A1 A2 _] Hok id e He. destruct (Hok id e) as (? & ? & ?); [by eapply lookup_weaken|].
  rewrite A2 by (by eexists). done.
Qed.

Lemma remove_output_edges_spec l edges queue :
  exists edges' extra, foldl remove_output_edges (edges, queue) l = (edges', queue ++ extra) /\
    (edge_count edges = length extra + edge_count edges')%nat /\
    (forall id, occ edges id = count id extra + occ edges' id) /\ edges' ⊆ edges.
Proof.
  revert edges queue. induction l as [|o l IH]; intros edges queue; cbn [foldl].
  { exists edges, []. rewrite app_nil_r. split_and!; [done|done| |done]. intros id. unfold count. cbn. lia. }
  unfold remove_output_edges at 2. destruct (edges !! o) as [ids|] eqn:Ho; [|apply IH].
  destruct (IH (delete o edges) (queue ++ ids)) as (edges' & extra & -> & Hc & Hocc & Hsub).
  exists edges', (ids ++ extra). rewrite app_assoc. split_and!; [done| | |].
  - rewrite (edge_count_delete edges o ids Ho), Hc, length_app. lia.
  - intros id. rewrite (occ_delete edges o ids id Ho), Hocc, count_app. lia.
  - etransitivity; [done|apply delete_subseteq].
Qed.

Lemma recursion_loop_spec fuel self queue :
  (edge_count (or_edges self) + length queue <= fuel)%nat ->
  shrunk self (recursion_loop fuel self queue) /\
  forall id, id ∈ queue -> vertices (recursion_loop fuel self queue) !! id = None.
Proof.
  revert self queue. induction fuel as [|fuel IH]; intros self queue Hf;
    (destruct queue as [|id queue]; cbn [recursion_loop length] in *;
     [split; [apply shrunk_refl|by intros ? ?%not_elem_of_nil]|]); [lia|].
  destruct (vertices self !! id) as [e|] eqn:He.
  2: { destruct (IH self queue) as [Hs Hq]; [lia|]. split; [done|]. intros x [->|Hx]%elem_of_cons; [|by apply Hq].
       apply eq_None_ne_Some. intros e' He'. eapply lookup_weaken in He'; [|apply Hs]. congruence. }
  destruct (remove_output_edges_spec (TransactionView_output_pts (de_transaction e)) (or_edges self) queue)
    as (edges' & extra & -> & Hc & Hocc & Hsub).
  set (self1 := mkOrphanPool (delete id (vertices self)) edges' (prune_threshold self)).
  destruct (IH self1 (queue ++ extra)) as [[S1 S2 S3] Hq]; [cbn; rewrite length_app; lia|].
  split; [split|].
  - etransitivity; [exact S1|apply delete_subseteq].
  - intros x Hx. rewrite S2 by done. cbn. rewrite Hocc. enough (count x extra = 0) by lia.
    pose proof (count_nonneg x extra). destruct (decide (1 <= count x extra)) as [Hp%count_pos|]; [|lia].
    rewrite Hq in Hx by (apply elem_of_app; by right). by destruct Hx.
  - by etransitivity.
  - intros x [->|Hx]%elem_of_cons; [|apply Hq, elem_of_app; by left].
    apply eq_None_ne_Some. intros e' He'. eapply lookup_weaken in He'; [|exact S1]. cbn in He'.
    by rewrite lookup_delete_eq in He'.
Qed.

Lemma recursion_remove_spec self id :
  shrunk self (recursion_remove self id) /\ vertices (recursion_remove self id) !! id = None.
Proof.
  destruct (recursion_loop_spec (S (edge_count (or_edges self))) self [id]) as [Hs Hq]; [cbn; lia|].
  split; [done|]. apply Hq. left.
Qed.

Lemma recursion_remove_all ids self :
  shrunk self (foldl recursion_remove self ids) /\
  forall id, id ∈ ids -> vertices (foldl recursion_remove self ids) !! id = None.
Proof.
  revert self. induction ids as [|id ids IH]; intros self; cbn [foldl].
  { split; [apply shrunk_refl|by intros ? ?%not_elem_of_nil]. }
  destruct (recursion_remove_spec self id) as [H1 H2]. destruct (IH (recursion_remove self id)) as [H3 H4].
  split; [by eapply shrunk_trans|]. intros x [->|Hx]%elem_of_cons; [|by apply H4].
  apply eq_None_ne_Some. intros e He. eapply lookup_weaken in He; [|apply H3]. congruence.
Qed.

Lemma remove_conflict_spec self tx : shrunk self (remove_conflict self tx).
Proof.
  unfold remove_conflict. generalize (TransactionView_input_pts_iter tx) as l. intros l. revert self.
  induction l as [|i l IH]; intros self; cbn [foldl]; [apply shrunk_refl|].
  eapply shrunk_trans; [|apply IH]. destruct (or_edges self !! i) as [ids|] eqn:Hi; [|apply shrunk_refl].
  set (self1 := mkOrphanPool (vertices self) (delete i (or_edges self)) (prune_threshold self)).
  destruct (recursion_remove_all ids self1) as [[S1 S2 S3] Hq]. split; [done| |].
  - intros id Hid. rewrite S2 by done. cbn. rewrite (occ_delete (or_edges self) i ids id Hi).
    enough (count id ids = 0) by lia. pose proof (count_nonneg id ids).
    destruct (decide (1 <= count id ids)) as [Hp%count_pos|]; [|lia]. rewrite Hq in Hid by done. by destruct Hid.
  - etransitivity; [exact S3|apply delete_subseteq].
Qed.

(** ** Release *)

Section release.
Context {E : Type} (self0 : OrphanPool) (tx0 : TransactionView).

Definition orphan_id (e : DefectEntry) : ProposalShortId := TransactionView_proposal_short_id (de_transaction e).
Definition outputs_of_all (l : list TransactionView) : list OutPoint := l ≫= TransactionView_output_pts.
(** The outputs of the transaction and of the first [i] released orphans. *)
Definition produced (txs : list DefectEntry) (i : nat) : list OutPoint :=
  outputs_of_all (tx0 :: (de_transaction <$> take i txs)).

(** The state of the loop: the transactions [popped] have left the queue, the edges of [visited] have been taken out, the ids
    [due] of the last of them are still to be counted down. *)
Record releasing (popped : list TransactionView) (visited : list OutPoint) (due : list ProposalShortId) (self : OrphanPool)
    (queue : list TransactionView) (txs : list DefectEntry) : Prop := {
  re_edges o : or_edges self !! o = if decide (o ∈ visited) then None else or_edges self0 !! o;
  re_vertices id e : vertices self !! id = Some e -> exists e0, vertices self0 !! id = Some e0 /\
    de_transaction e = de_transaction e0 /\ refs_count e = occ (or_edges self) id + count id due /\
    1 <= refs_count e < 2 ^ 64 /\ orphan_id e = id;
  re_gone id : is_Some (vertices self0 !! id) -> vertices self !! id = None -> id ∈ orphan_id <$> txs;
  re_nodup : NoDup (orphan_id <$> txs);
  re_txs i e : txs !! i = Some e -> (exists e0, vertices self0 !! orphan_id e = Some e0 /\
      de_transaction e = de_transaction e0) /\ vertices self !! orphan_id e = None /\
    forall o l, or_edges self0 !! o = Some l -> orphan_id e ∈ l -> o ∈ produced txs i;
  re_queue : popped ++ queue = tx0 :: (de_transaction <$> txs);
  re_visited o : o ∈ visited -> o ∈ outputs_of_all popped;
}.

Lemma outputs_of_all_app l1 l2 : outputs_of_all (l1 ++ l2) = outputs_of_all l1 ++ outputs_of_all l2.
Proof. apply bind_app. Qed.

Lemma produced_snoc txs e i o : o ∈ produced txs i -> o ∈ produced (txs ++ [e]) i.
Proof.
  unfold produced. destruct (decide (i <= length txs)%nat) as [Hle|Hgt]; [by rewrite take_app_le|].
  rewrite !take_ge by (rewrite ?length_app; cbn; lia). rewrite fmap_app.
  change (tx0 :: ?a ++ ?b) with ((tx0 :: a) ++ b). rewrite outputs_of_all_app, elem_of_app. by left.
Qed.

Lemma produced_le txs i j o : (i <= j)%nat -> o ∈ produced txs i -> o ∈ produced txs j.
Proof.
  intros Hij. unfold produced. replace (take i txs) with (take i (take j txs)) by (rewrite take_take; f_equal; lia).
  rewrite <- (take_drop i (take j txs)) at 2. rewrite fmap_app.
  change (tx0 :: ?a ++ ?b) with ((tx0 :: a) ++ b). rewrite outputs_of_all_app, elem_of_app. by left.
Qed.

Lemma release_ref_spec popped visited cid due self queue txs :
  releasing popped visited (cid :: due) self queue txs ->
  exists self' queue' txs', release_ref (self, queue, txs) cid = Ok (E:=E) (self', queue', txs') /\
    releasing popped visited due self' queue' txs' /\
    (size (vertices self') + length queue' = size (vertices self) + length queue)%nat.
Proof.
  intros [R1 R2 R3 R4 R5 R6 R7]. unfold release_ref. destruct (vertices self !! cid) as [e|] eqn:He.
  2: { exists self, queue, txs. split_and!; [done| |done]. split; [done| |done..].
       intros id e' He'. destruct (R2 id e' He') as (e0 & ? & ? & Hr & ? & ?). exists e0. split; [done|]. split; [done|]. split; [|done].
       rewrite Hr, count_cons. rewrite decide_False by congruence. lia. }
  destruct (R2 cid e He) as (e0 & He0 & Htx & Hr & Hb & Hid).
  rewrite count_cons, decide_True in Hr by done.
  assert (u64_sub (refs_count e) 1 = Ok (E:=E) (refs_count e - 1)) as -> by (apply fit_in_range; unfold in_range; lia).
  step. set (e' := mkDefectEntry (de_transaction e) (refs_count e - 1) (de_cache_entry e) (de_size e) (de_timestamp e)).
  assert (forall id ei, id <> cid -> vertices self !! id = Some ei -> exists e0, vertices self0 !! id = Some e0 /\
    de_transaction ei = de_transaction e0 /\ refs_count ei = occ (or_edges self) id + count id due /\
    1 <= refs_count ei < 2 ^ 64 /\ orphan_id ei = id) as Hother.
  { intros id ei Hne Hei. destruct (R2 id ei Hei) as (ei0 & ? & ? & Hri & ? & ?). exists ei0. split; [done|]. split; [done|]. split; [|done].
    rewrite Hri, count_cons. rewrite decide_False by congruence. lia. }
  assert (cid ∉ orphan_id <$> txs) as Hnew.
  { intros (x & -> & [i Hi]%list_elem_of_lookup)%list_elem_of_fmap. destruct (R5 i x Hi) as (_ & Hn & _). congruence. }
  destruct (Z.eqb_spec (refs_count e - 1) 0) as [Hz|Hz].
  - eexists _, _, _. split; [reflexivity|]. split; cbn.
    2: { rewrite map_size_delete, He, length_app. cbn. pose proof (map_size_ne_0_lookup_2 (vertices self) cid (mk_is_Some _ _ He)). lia. }
    split; cbn.
    + done.
    + intros id ei [Hne Hei]%lookup_delete_Some. by apply Hother.
    + intros id Hi. destruct (decide (id = cid)) as [->|Hne].
      * intros _. rewrite fmap_app, elem_of_app. right. cbn. rewrite <- Hid. left.
      * rewrite lookup_delete_ne by done. intros Hn. rewrite fmap_app, elem_of_app. left. by apply R3.
    + rewrite fmap_app. apply NoDup_app. split_and!; [done| |cbn; apply NoDup_singleton].
      intros x Hx. cbn. change (orphan_id e') with (orphan_id e). rewrite Hid, list_elem_of_singleton. intros ->. done.
    + intros i x Hx. apply lookup_app_Some in Hx as [Hx|[Hlen Hx]].
      * destruct (R5 i x Hx) as (? & Hn & Hp). split_and!; [done|by apply lookup_delete_None; right|].
        intros o l Ho Hin. apply produced_snoc. by eapply Hp.
      * apply list_lookup_singleton_Some in Hx as [Hi <-]. change (orphan_id e') with (orphan_id e). rewrite Hid.
        split_and!; [by exists e0|apply lookup_delete_eq|]. intros o l Ho Hin.
        assert (occ (or_edges self) cid = 0) as Hocc.
        { pose proof (occ_nonneg (or_edges self) cid). pose proof (count_nonneg cid due). lia. }
        destruct (decide (o ∈ visited)) as [Hv|Hv].
        2: { specialize (R1 o). rewrite decide_False in R1 by done. rewrite Ho in R1.
             by apply (occ_zero _ _ _ _ Hocc) in R1. }
        apply R7 in Hv. unfold produced.
        rewrite take_app_length' by lia. change (o ∈ outputs_of_all (tx0 :: (de_transaction <$> txs))).
        rewrite <- R6, outputs_of_all_app, elem_of_app. by left.
    + by rewrite app_assoc, R6, fmap_app.
    + done.
  - eexists _, _, _. split; [reflexivity|]. split; cbn.
    2: { rewrite map_size_insert_Some; [done|by eexists]. }
    split; cbn; try done.
    + intros id ei. destruct (decide (id = cid)) as [->|Hne].
      * rewrite lookup_insert_eq. intros [= <-]. exists e0. cbn. split_and!; try done; lia.
      * rewrite lookup_insert_ne by done. by apply Hother.
    + intros id Hi. destruct (decide (id = cid)) as [->|Hne]; [by rewrite lookup_insert_eq|].
      rewrite lookup_insert_ne by done. by apply R3.
    + intros i x Hx. destruct (R5 i x Hx) as (? & Hn & ?). split_and!; try done. rewrite lookup_insert_ne; [done|].
      intros ->. apply Hnew. apply list_elem_of_fmap. exists x. split; [done|]. by eapply list_elem_of_lookup_2.
Qed.

Lemma release_refs_spec popped visited due self queue txs :
  releasing popped visited due self queue txs ->
  exists self' queue' txs', try_fold release_ref (self, queue, txs) due = Ok (E:=E) (self', queue', txs') /\
    releasing popped visited [] self' queue' txs' /\
    (size (vertices self') + length queue' = size (vertices self) + length queue)%nat.
Proof.
  revert self queue txs. induction due as [|cid due IH]; intros self queue txs Hr; cbn [try_fold].
  { by exists self, queue, txs. }
  destruct (release_ref_spec _ _ _ _ _ _ _ Hr) as (self1 & queue1 & txs1 & -> & Hr1 & Hs1). step.
  destruct (IH _ _ _ Hr1) as (self2 & queue2 & txs2 & -> & Hr2 & Hs2).
  exists self2, queue2, txs2. split_and!; [done|done|lia].
Qed.

Lemma release_output_spec popped visited o self queue txs :
  releasing popped visited [] self queue txs -> o ∈ outputs_of_all popped ->
  exists self' queue' txs', release_output (self, queue, txs) o = Ok (E:=E) (self', queue', txs') /\
    releasing popped (o :: visited) [] self' queue' txs' /\
    (size (vertices self') + length queue' = size (vertices self) + length queue)%nat.
Proof.
  intros [R1 R2 R3 R4 R5 R6 R7] Ho. unfold release_output.
  assert (forall x, x ∈ o :: visited -> x ∈ outputs_of_all popped) as Hv.
  { intros x [->|Hx]%elem_of_cons; [done|by apply R7]. }
  destruct (or_edges self !! o) as [ids|] eqn:He.
  - apply (release_refs_spec popped (o :: visited) ids
      (mkOrphanPool (vertices self) (delete o (or_edges self)) (prune_threshold self)) queue txs).
    split; cbn; try done.
    + intros x. destruct (decide (x = o)) as [->|Hne].
      * rewrite lookup_delete_eq, decide_True by left. done.
      * rewrite lookup_delete_ne, R1 by done. rewrite (decide_ext (x ∈ o :: visited) (x ∈ visited)); [done|].
        rewrite elem_of_cons. naive_solver.
    + intros id e Hid. destruct (R2 id e Hid) as (e0 & ? & ? & Hr & ? & ?). exists e0. split; [done|].
      split; [done|]. split; [|done]. rewrite Hr, (occ_delete _ o ids id He). unfold count. cbn. lia.
  - exists self, queue, txs. split_and!; [done| |done]. split; try done.
    intros x. rewrite R1. destruct (decide (x = o)) as [->|Hne].
    + rewrite (decide_True (P:=o ∈ o :: visited)) by left. rewrite <- R1. done.
    + rewrite (decide_ext (x ∈ o :: visited) (x ∈ visited)); [done|]. rewrite elem_of_cons. naive_solver.
Qed.

Lemma release_outputs_spec popped os visited self queue txs :
  releasing popped visited [] self queue txs -> (forall o, o ∈ os -> o ∈ outputs_of_all popped) ->
  exists self' queue' txs', try_fold release_output (self, queue, txs) os = Ok (E:=E) (self', queue', txs') /\
    (exists visited', releasing popped visited' [] self' queue' txs' /\
      forall o, o ∈ os \/ o ∈ visited -> o ∈ visited') /\
    (size (vertices self') + length queue' = size (vertices self) + length queue)%nat.
Proof.
  revert visited self queue txs. induction os as [|o os IH]; intros visited self queue txs Hr Ho; cbn [try_fold].
  { exists self, queue, txs. split_and!; [done| |done]. exists visited. split; [done|].
    by intros o [?%not_elem_of_nil|?]. }
  destruct (release_output_spec popped visited o self queue txs Hr) as (self1 & queue1 & txs1 & -> & Hr1 & Hs1);
    [apply Ho; left|]. step.
  destruct (IH _ _ _ _ Hr1) as (self2 & queue2 & txs2 & -> & (visited' & Hr2 & Hv2) & Hs2); [intros; apply Ho; by right|].
  exists self2, queue2, txs2. split_and!; [done| |lia]. exists visited'. split; [done|].
  intros x [[->|Hx]%elem_of_cons|Hx]; apply Hv2; [right; left|by left|right; by right].
Qed.

(** Everything that has been popped has been visited. *)
Lemma release_loop_spec fuel popped visited self queue txs :
  releasing popped visited [] self queue txs -> (forall o, o ∈ outputs_of_all popped -> o ∈ visited) ->
  (size (vertices self) + length queue <= fuel)%nat ->
  exists self' txs' popped' visited', release_loop fuel self queue txs = Ok (E:=E) (self', txs') /\
    releasing popped' visited' [] self' [] txs' /\ forall o, o ∈ outputs_of_all popped' -> o ∈ visited'.
Proof.
  revert popped visited self queue txs. induction fuel as [|fuel IH]; intros popped visited self queue txs Hr Hv Hf;
    (destruct queue as [|tx queue]; cbn [release_loop length] in *; [by exists self, txs, popped, visited|]); [lia|].
  assert (releasing (popped ++ [tx]) visited [] self queue txs) as Hr1.
  { destruct Hr as [R1 R2 R3 R4 R5 R6 R7]. split; try done; [by rewrite <- app_assoc|].
    intros o Ho. rewrite outputs_of_all_app, elem_of_app. left. by apply R7. }
  assert (outputs_of_all [tx] = TransactionView_output_pts tx) as Htx
    by (unfold outputs_of_all; cbn; by rewrite app_nil_r).
  destruct (release_outputs_spec (popped ++ [tx]) (TransactionView_output_pts tx) visited self queue txs Hr1)
    as (self1 & queue1 & txs1 & -> & (visited1 & Hr2 & Hv2) & Hs2).
  { intros o Ho. rewrite outputs_of_all_app, elem_of_app, Htx. by right. }
  step. apply (IH (popped ++ [tx]) visited1); [done| |lia].
  intros o. rewrite outputs_of_all_app, elem_of_app, Htx. intros [Ho|Ho]; apply Hv2; [right; by apply Hv|by left].
Qed.
End release.

(** When a transaction arrives, the orphans that conflict with it are dropped, and
    of the others exactly those are released, each once, whose missing out points are
    outputs of the transaction or of released orphans; the providers of a released
    orphan come before it.  The loops terminate and the counters never underflow. *)
Theorem orphans_released_exactly {E : Type} self tx :
  orphan_ok self ->
  let self0 := remove_conflict self tx in
  exists txs self', remove_by_ancestor self tx = Ok (E:=E) (txs, self') /\
    orphan_ok self' /\ NoDup (orphan_id <$> txs) /\
    (forall id, is_Some (vertices self0 !! id) ->
      (id ∈ orphan_id <$> txs <-> vertices self' !! id = None) /\
      (id ∈ orphan_id <$> txs <->
       forall o l, or_edges self0 !! o = Some l -> id ∈ l -> o ∈ produced tx txs (length txs))) /\
    (forall i e o l, txs !! i = Some e -> or_edges self0 !! o = Some l -> orphan_id e ∈ l -> o ∈ produced tx txs i).
Proof.
  intros Hok self0. assert (orphan_ok self0) as Hok0 by (eapply shrunk_ok; [apply remove_conflict_spec|done]).
  unfold remove_by_ancestor. fold self0.
  destruct (release_loop_spec (E:=E) self0 tx (S (size (vertices self0))) [] [] self0 [tx] [])
    as (self' & txs & popped & visited & -> & [R1 R2 R3 R4 R5 R6 R7] & Hv).
  - split; cbn; try done.
    + intros id e He. destruct (Hok0 id e He) as (? & ? & ?). exists e. unfold count. cbn. split_and!; try done; lia.
    + intros id [e He] Hn. congruence.
    + constructor.
  - by intros o ?%not_elem_of_nil.
  - cbn. lia.
  - step. exists txs, self'. rewrite app_nil_r in R6. subst popped.
    assert (forall o, o ∈ visited <-> o ∈ produced tx txs (length txs)) as Hvis.
    { intros o. unfold produced. rewrite firstn_all. split; [apply R7|apply Hv]. }
    assert (forall id, id ∈ orphan_id <$> txs -> vertices self' !! id = None /\
      forall o l, or_edges self0 !! o = Some l -> id ∈ l -> o ∈ produced tx txs (length txs)) as Hrel.
    { intros id (e & -> & [i Hi]%list_elem_of_lookup)%list_elem_of_fmap. destruct (R5 i e Hi) as (_ & Hn & Hp).
      split; [done|]. intros o l Ho Hin. eapply produced_le; [|by eapply Hp]. pose proof (lookup_lt_Some _ _ _ Hi). lia. }
    split_and!; [done| |done| |].
    + intros id e He. destruct (R2 id e He) as (_ & _ & _ & Hr & Hb & Hid). unfold count in Hr. cbn in Hr.
      split_and!; [done|lia|lia|lia].
    + intros id Hid. split; split; [by apply Hrel|by apply R3|by apply Hrel|]. intros Hall. apply R3; [done|].
      destruct (vertices self' !! id) as [e|] eqn:He; [exfalso|done].
      destruct (R2 id e He) as (_ & _ & _ & Hr & Hb & _). unfold count in Hr. cbn in Hr.
      destruct (occ_pos (or_edges self') id) as (o & l & Ho & Hin); [lia|].
      rewrite R1 in Ho. case_decide as Hd; [done|]. apply Hd, Hvis. by eapply Hall.
    + intros i e o l Hi Ho Hin. destruct (R5 i e Hi) as (_ & _ & Hp). by eapply Hp.
Qed.

(** ** Adding *)

Lemma occ_add_edge edges o id x :
  occ (add_edge id edges o) x = occ edges x + (if decide (x = id) then 1 else 0).
Proof.
  unfold add_edge. assert (forall l, count x (l ++ [id]) = count x l + (if decide (x = id) then 1 else 0)) as Hc.
  { intros l. rewrite count_app, count_cons. unfold count at 2. cbn.
    rewrite (decide_ext (id = x) (x = id)) by naive_solver. lia. }
  rewrite (occ_delete _ o (default [] (edges !! o) ++ [id])) by apply lookup_insert_eq.
  rewrite delete_insert_eq, Hc. destruct (edges !! o) as [l|] eqn:Ho; cbn.
  - rewrite (occ_delete edges o l x Ho). lia.
  - rewrite delete_id by done. unfold count at 1. cbn. lia.
Qed.

Lemma occ_add_edges unknown edges id x :
  occ (foldl (add_edge id) edges unknown) x =
  occ edges x + (if decide (x = id) then Z.of_nat (length unknown) else 0).
Proof.
  revert edges. induction unknown as [|o l IH]; intros edges; cbn [foldl length].
  { case_decide; lia. }
  rewrite IH, occ_add_edge. case_decide; lia.
Qed.

(** Adding an orphan that the pool does not know, with at least one missing out
    point, keeps the counters right: every orphan waits for exactly as many out
    points as its counter says. *)
Theorem orphan_add_ok {E : Type} order now self cache_entry size tx unknown r self' :
  orphan_ok self -> 0 < Z.of_nat (length unknown) < 2 ^ 64 ->
  let id := TransactionView_proposal_short_id tx in
  (forall o l, or_edges self !! o = Some l -> id ∉ l) ->
  OrphanPool_add_tx (E:=E) order now self cache_entry size tx unknown = Ok (r, self') ->
  orphan_ok self' /\ r = None.
Proof.
  intros Hok Hlen id Hnew Ha. unfold OrphanPool_add_tx in Ha. fold id in Ha.
  apply bind_Ok in Ha as (self1 & Hp & Ha). injection Ha as <- <-.
  assert (shrunk self self1) as Hsh.
  { unfold prune in Hp. case_match; [injection Hp as <-; apply shrunk_refl|].
    apply bind_Ok in Hp as (ids & _ & Hp). injection Hp as <-. apply recursion_remove_all. }
  pose proof (shrunk_ok _ _ Hsh Hok) as Hok1.
  assert (occ (or_edges self1) id = 0) as Hz.
  { pose proof (occ_nonneg (or_edges self1) id). destruct (decide (1 <= occ (or_edges self1) id)) as [Hp1|]; [|lia].
    apply occ_pos in Hp1 as (o & l & Ho & Hin). eapply lookup_weaken in Ho; [|apply Hsh]. by apply (Hnew o l) in Hin. }
  assert (vertices self1 !! id = None) as Hn.
  { destruct (vertices self1 !! id) as [e|] eqn:He; [|done]. destruct (Hok1 id e He) as (_ & Hr & ?). lia. }
  split; [|done]. intros x e. cbn. rewrite occ_add_edges. destruct (decide (x = id)) as [->|Hne].
  - rewrite lookup_insert_eq. intros [= <-]. cbn. rewrite Hz. split; [done|lia].
  - rewrite lookup_insert_ne by done. intros He. destruct (Hok1 x e He) as (? & ? & ?). split; [done|lia].
Qed.

(** ** A concrete pool *)

Lemma orphan_ok_compute self :
  forallb (fun ie => bool_decide (TransactionView_proposal_short_id (de_transaction ie.2) = ie.1) &&
    (refs_count ie.2 =? occ (or_edges self) ie.1) && (1 <=? refs_count ie.2) && (refs_count ie.2 <? 2 ^ 64))
    (map_to_list (vertices self)) = true -> orphan_ok self.
Proof.
  rewrite forallb_forall. intros Hf id e He%elem_of_map_to_list%list_elem_of_In. apply Hf in He. cbn in He.
  rewrite !andb_true_iff, bool_decide_eq_true, Z.eqb_eq, Z.leb_le, Z.ltb_lt in He. tauto.
Qed.

(** Orphan 2 waits for an output of 1, orphan 3 for one of 1 and one of 2. *)
Definition sample_orphans : OrphanPool :=
  let add self tx unknown :=
    match OrphanPool_add_tx (E:=Empty_set) map_to_list 0 self None 100 tx unknown with
    | Ok (_, self) => self | _ => self end in
  let self := add OrphanPool_new (pool_tx 3 [(1, 1); (2, 0)]) [mkOutPoint (repeat 1 32) 1; mkOutPoint (repeat 2 32) 0] in
  add self (pool_tx 2 [(1, 0)]) [mkOutPoint (repeat 1 32) 0].

Lemma orphans_released_exactly_witness :
  exists txs self', remove_by_ancestor sample_orphans (pool_tx 1 [(90, 0)]) = Ok (E:=Empty_set) (txs, self') /\
    orphan_ok self' /\ orphan_id <$> txs = [pool_id 2; pool_id 3].
Proof.
  destruct (orphans_released_exactly (E:=Empty_set) sample_orphans (pool_tx 1 [(90, 0)]))
    as (txs & self' & Hr & Hok & _); [by apply orphan_ok_compute; vm_compute|].
  exists txs, self'. split_and!; [done|done|].
  assert (match remove_by_ancestor (E:=Empty_set) sample_orphans (pool_tx 1 [(90, 0)]) with
          | Ok (txs, _) => orphan_id <$> txs | _ => [] end = [pool_id 2; pool_id 3]) as Hi by (by vm_compute).
  by rewrite Hr in Hi.
Defined.

Definition sample_result : outcome Empty_set (option DefectEntry * OrphanPool) :=
  OrphanPool_add_tx map_to_list 0 sample_orphans None 100 (pool_tx 5 [(6, 0)]) [mkOutPoint (repeat 6 32) 0].
Lemma orphan_add_ok_witness : exists self, sample_result = Ok (None, self) /\ orphan_ok self.
Proof.
  assert (match sample_result with Ok _ => true | _ => false end = true) as Hb by (by vm_compute).
  destruct sample_result as [[r self]| |] eqn:Ha; [|discriminate Hb..].
  destruct (orphan_add_ok (E:=Empty_set) map_to_list 0 sample_orphans None 100 (pool_tx 5 [(6, 0)])
    [mkOutPoint (repeat 6 32) 0] r self) as [Hok Hr].
  - by apply orphan_ok_compute; vm_compute.
  - split; reflexivity.
  - intros o l Ho. clear Ha. assert (map_Forall (fun _ l => TransactionView_proposal_short_id (pool_tx 5 [(6, 0)]) ∉ l)
      (or_edges sample_orphans)) as Hall by (apply (bool_decide_unpack _); by vm_compute).
    exact (Hall o l Ho).
  - exact Ha.
  - exists self. rewrite Hr. split; [reflexivity|exact Hok].
Defined.
