(* ===== verification/CandidateUncles.v ===== *)
(** * Candidate uncles: src/tx-pool/src/block_assembler/candidate_uncles.rs

    Blocks that lost against the best chain are kept by height, as uncles of the next
    templates.  [candidate_uncles_typed] shows that every sequence of operations keeps
    the candidates well formed and within their bounds, and never panics. *)

From Stdlib Require Import Sorted.
From S2P Require Import Prelude Capacity NumExt Types.

Definition MAX_CANDIDATE_UNCLES : Z := 128.
Definition MAX_PER_HEIGHT : Z := 10.

(** [BTreeMap<BlockNumber, HashSet<UncleBlockView>>]: the rows by ascending height.
    Uncles are compared by their hash; the rows keep the order of insertion. *)
Record CandidateUncles := mkCandidateUncles {
  cu_map : list (Z * list UncleBlockView);
  cu_count : Z;
}.
Definition CandidateUncles_new : CandidateUncles := mkCandidateUncles [] 0.
Definition uncle_height (u : UncleBlockView) : Z := number (UncleBlockView_raw u).

Fixpoint row (n : Z) (m : list (Z * list UncleBlockView)) : option (list UncleBlockView) :=
  match m with
  | [] => None
  | (k, set) :: m => if n =? k then Some set else row n m
  end.
Fixpoint insert_row (n : Z) (set : list UncleBlockView) (m : list (Z * list UncleBlockView)) :
    list (Z * list UncleBlockView) :=
  match m with
  | [] => [(n, set)]
  | (k, old) :: m' =>
      if n <? k then (n, set) :: m
      else if n =? k then (n, set) :: m'
      else (k, old) :: insert_row n set m'
  end.
Definition remove_row (n : Z) (m : list (Z * list UncleBlockView)) : list (Z * list UncleBlockView) :=
  filter (fun r => r.1 <> n) m.

Definition contains_uncle (u : UncleBlockView) (set : list UncleBlockView) : bool :=
  bool_decide (uncle_hash u ∈ uncle_hash <$> set).

(** The full case: the lowest row makes room for a higher uncle. *)
Definition make_room {E : Type} (self : CandidateUncles) (number : Z) : outcome E (option CandidateUncles) :=
  if MAX_CANDIDATE_UNCLES <=? cu_count self then
    match cu_map self with
    | (first_key, set) :: rest =>
        if first_key <? number then
          count ← u64_sub (cu_count self) (Z.of_nat (length set));
          Ok (Some (mkCandidateUncles rest count))
        else Ok None
    | [] => Panic
    end
  else Ok (Some self).
Definition CandidateUncles_insert {E : Type} (self : CandidateUncles) (uncle : UncleBlockView) :
    outcome E (bool * CandidateUncles) :=
  let number := uncle_height uncle in
  room ← make_room self number;
  match room with
  | None => Ok (false, self)
  | Some self =>
      let set := default [] (row number (cu_map self)) in
      if Z.of_nat (length set) <? MAX_PER_HEIGHT then
        if contains_uncle uncle set then Ok (false, mkCandidateUncles (insert_row number set (cu_map self)) (cu_count self))
        else
          count ← u64_add (cu_count self) 1;
          Ok (true, mkCandidateUncles (insert_row number (set ++ [uncle]) (cu_map self)) count)
      else Ok (false, mkCandidateUncles (insert_row number set (cu_map self)) (cu_count self))
  end.

Definition CandidateUncles_remove {E : Type} (self : CandidateUncles) (uncle : UncleBlockView) :
    outcome E (bool * CandidateUncles) :=
  let number := uncle_height uncle in
  match row number (cu_map self) with
  | Some set =>
      if contains_uncle uncle set then
        count ← u64_sub (cu_count self) 1;
        let set := filter (fun u => uncle_hash u <> uncle_hash uncle) set in
        Ok (true, mkCandidateUncles
          (if is_empty set then remove_row number (cu_map self) else insert_row number set (cu_map self)) count)
      else Ok (false, self)
  | None => Ok (false, self)
  end.

(** The order within a row is not specified. *)
Class UncleOrder := uncle_iter : list UncleBlockView -> list UncleBlockView.
Class UncleOrderSpec (O : UncleOrder) : Prop := { uncle_iter_perm l : uncle_iter l ≡ₚ l }.
#[export] Instance uncle_insertion_order : UncleOrder := fun l => l.
#[export] Instance uncle_insertion_order_spec : UncleOrderSpec uncle_insertion_order.
Proof. by split. Qed.
Definition CandidateUncles_values `{UncleOrder} (self : CandidateUncles) : list UncleBlockView :=
  cu_map self ≫= fun r => uncle_iter r.2.

(** ** Well-formed candidates *)

Record row_ok (r : Z * list UncleBlockView) : Prop := {
  ro_some : r.2 <> [];
  ro_max : Z.of_nat (length r.2) <= MAX_PER_HEIGHT;
  ro_height u : u ∈ r.2 -> uncle_height u = r.1;
  ro_nodup : NoDup (uncle_hash <$> r.2);
}.
Definition row_lengths (m : list (Z * list UncleBlockView)) : Z := sumZ ((fun r => Z.of_nat (length r.2)) <$> m).
(** The rows ascend, each holds some uncles of its height, none twice, and the
    counter is their number. *)
Record candidates_ok (self : CandidateUncles) : Prop := {
  ca_sorted : StronglySorted Z.lt (cu_map self).*1;
  ca_rows : Forall row_ok (cu_map self);
  ca_count : cu_count self = row_lengths (cu_map self);
  ca_max : cu_count self <= MAX_CANDIDATE_UNCLES;
}.

Lemma row_Some n m set : StronglySorted Z.lt m.*1 -> row n m = Some set <-> (n, set) ∈ m.
Proof.
  induction m as [|[k s] m IH]; cbn; [intros _; split; [done|by intros ?%not_elem_of_nil]|].
  intros [Hm Hk]%StronglySorted_inv. rewrite elem_of_cons. destruct (Z.eqb_spec n k) as [->|Hne].
  - split; [intros [= <-]; by left|]. intros [[= ->]|Hin]; [done|].
    rewrite Forall_forall in Hk. apply (list_elem_of_fmap_2 fst) in Hin. apply Hk in Hin. cbn in Hin. lia.
  - rewrite IH by done. naive_solver.
Qed.

Lemma elem_insert_row n set m x :
  StronglySorted Z.lt m.*1 ->
  x ∈ insert_row n set m <-> x = (n, set) \/ x.1 <> n /\ x ∈ m.
Proof.
  induction m as [|[k s] m IH]; cbn.
  - intros _. rewrite list_elem_of_singleton. split; [by left|]. by intros [?|[_ ?%not_elem_of_nil]].
  - intros [Hm Hk]%StronglySorted_inv. rewrite Forall_forall in Hk.
    assert (forall y, y ∈ m -> k < y.1) as Hlt by (intros y Hy; by apply Hk, list_elem_of_fmap_2).
    destruct (Z.ltb_spec n k); [|destruct (Z.eqb_spec n k) as [->|Hne]].
    + rewrite !elem_of_cons. split; [|naive_solver]. intros [->|[->|Hy]]; [by left|right; split; [cbn; lia|by left]|].
      right. split; [apply Hlt in Hy; lia|by right].
    + rewrite !elem_of_cons. split; [|naive_solver]. intros [->|Hy]; [by left|]. right.
      split; [apply Hlt in Hy; lia|by right].
    + rewrite !elem_of_cons, IH by done. split; [|naive_solver]. intros [->|[->|[? ?]]]; [right|by left|right]; naive_solver.
Qed.

Lemma insert_row_sorted n set m : StronglySorted Z.lt m.*1 -> StronglySorted Z.lt (insert_row n set m).*1.
Proof.
  induction m as [|[k s] m IH]; cbn; [intros _; repeat constructor|].
  intros [Hm Hk]%StronglySorted_inv. destruct (Z.ltb_spec n k); [|destruct (Z.eqb_spec n k) as [->|Hne]].
  - constructor; [by constructor|]. constructor; [done|]. eapply Forall_impl; [exact Hk|]. cbn. intros; lia.
  - by constructor.
  - constructor; [by apply IH|]. apply Forall_forall. intros x (y & -> & Hy)%list_elem_of_fmap.
    apply elem_insert_row in Hy as [->|[_ Hy]]; [cbn; lia| |done].
    rewrite Forall_forall in Hk. by apply Hk, list_elem_of_fmap_2.
Qed.

Lemma row_lengths_cons r m : row_lengths (r :: m) = Z.of_nat (length r.2) + row_lengths m.
Proof. done. Qed.
Lemma insert_row_lengths n set m :
  StronglySorted Z.lt m.*1 ->
  row_lengths (insert_row n set m) =
  row_lengths m - Z.of_nat (length (default [] (row n m))) + Z.of_nat (length set).
Proof.
  induction m as [|[k s] m IH]; cbn [insert_row row fmap list_fmap]; [intros _; cbn; lia|].
  intros [Hm Hk]%StronglySorted_inv. destruct (Z.ltb_spec n k); [|destruct (Z.eqb_spec n k) as [->|Hne]];
    rewrite !row_lengths_cons; cbn [snd].
  - rewrite (proj2 (Z.eqb_neq n k)) by lia.
    destruct (row n m) as [s'|] eqn:Hr; [|cbn; lia]. apply row_Some in Hr; [|done].
    apply (list_elem_of_fmap_2 fst) in Hr. rewrite Forall_forall in Hk. apply Hk in Hr. cbn in Hr. lia.
  - cbn. lia.
  - rewrite IH by done. lia.
Qed.
Lemma row_lengths_nonneg m : 0 <= row_lengths m.
Proof. apply sumZ_nonneg, Forall_forall. intros x (y & -> & _)%list_elem_of_fmap. lia. Qed.

(** A row is replaced by a good one. *)
Lemma insert_row_ok self n set count :
  candidates_ok self -> row_ok (n, set) ->
  count = cu_count self - Z.of_nat (length (default [] (row n (cu_map self)))) + Z.of_nat (length set) ->
  count <= MAX_CANDIDATE_UNCLES -> candidates_ok (mkCandidateUncles (insert_row n set (cu_map self)) count).
Proof.
  intros [Hs Hr Hc Hm] Hset -> Hmax. split; cbn [cu_map cu_count].
  - by apply insert_row_sorted.
  - rewrite Forall_forall in *. intros x [->|[_ Hx]]%elem_insert_row; [done|by apply Hr|done].
  - by rewrite insert_row_lengths, Hc.
  - done.
Qed.
Lemma remove_row_lengths n set m :
  StronglySorted Z.lt m.*1 -> row n m = Some set ->
  row_lengths (remove_row n m) = row_lengths m - Z.of_nat (length set).
Proof.
  unfold remove_row. induction m as [|[k s] m IH]; cbn [row fmap list_fmap]; [done|].
  intros [Hm Hk]%StronglySorted_inv. rewrite filter_cons. cbn [fst]. destruct (Z.eqb_spec n k) as [->|Hne].
  - intros [= ->]. rewrite decide_False by (intros Hn; by apply Hn).
    rewrite filter_all, row_lengths_cons; [cbn [snd]; lia|]. intros x Hx. rewrite Forall_forall in Hk.
    apply (list_elem_of_fmap_2 fst) in Hx. apply Hk in Hx. cbn in *. lia.
  - intros Hr. rewrite decide_True by done. rewrite !row_lengths_cons, (IH Hm Hr). lia.
Qed.
Lemma remove_row_ok self n set :
  candidates_ok self -> row n (cu_map self) = Some set ->
  candidates_ok (mkCandidateUncles (remove_row n (cu_map self)) (cu_count self - Z.of_nat (length set))).
Proof.
  intros [Hs Hr Hc Hm] Hrow. split; cbn [cu_map cu_count]; [| |by rewrite (remove_row_lengths n set), Hc|lia].
  - unfold remove_row. revert Hs. generalize (cu_map self) as m. induction m as [|r m IH]; [done|].
    cbn [fmap list_fmap]. intros [Hm' Hk]%StronglySorted_inv. rewrite filter_cons. case_decide; [|by apply IH].
    cbn. constructor; [by apply IH|]. rewrite Forall_forall in *.
    intros x (y & -> & [_ Hy]%list_elem_of_filter)%list_elem_of_fmap. by apply Hk, list_elem_of_fmap_2.
  - rewrite Forall_forall in *. intros x [_ Hx]%list_elem_of_filter. by apply Hr.
Qed.

Lemma candidates_row self n set : candidates_ok self -> row n (cu_map self) = Some set -> row_ok (n, set).
Proof.
  intros [Hs Hr _ _] Hrow. rewrite Forall_forall in Hr. by apply Hr, row_Some.
Qed.
Lemma row_count self n :
  candidates_ok self -> 0 <= Z.of_nat (length (default [] (row n (cu_map self)))) <= cu_count self.
Proof.
  intros Hok. pose proof Hok as [Hs _ Hc _]. split; [lia|]. pose proof (insert_row_lengths n [] (cu_map self) Hs) as Hl.
  pose proof (row_lengths_nonneg (insert_row n [] (cu_map self))). rewrite Hc. cbn in Hl. lia.
Qed.

Lemma make_room_ok {E : Type} self n :
  candidates_ok self ->
  exists room, make_room (E:=E) self n = Ok room /\
    match room with
    | Some self' => candidates_ok self' /\ cu_count self' < MAX_CANDIDATE_UNCLES /\
        (forall k set, row k (cu_map self') = Some set -> row k (cu_map self) = Some set)
    | None => True
    end.
Proof.
  intros Hok. unfold make_room. destruct (Z.leb_spec MAX_CANDIDATE_UNCLES (cu_count self)); [|by exists (Some self)].
  pose proof Hok as [Hs Hr Hc Hm]. destruct (cu_map self) as [|[k set] m] eqn:He; [rewrite Hc in *; done|].
  destruct (k <? n); [|by exists None].
  apply Forall_cons in Hr as [Hset Hr]. cbn [fmap list_fmap] in Hs. apply StronglySorted_inv in Hs as [Hs Hk].
  rewrite row_lengths_cons in Hc. cbn in Hc. pose proof (row_lengths_nonneg m).
  assert (0 < Z.of_nat (length set)) by (destruct set; [by destruct Hset|cbn; lia]).
  unfold u64_sub. rewrite fit_in_range by (unfold MAX_CANDIDATE_UNCLES in *; zlia). step.
  eexists. split; [done|]. cbn. split_and!; [split; cbn [cu_map cu_count]; [done|done|lia|lia]|lia|].
  intros k' s' Hs'. destruct (Z.eqb_spec k' k) as [->|]; [|done].
  apply row_Some in Hs'; [|done]. apply (list_elem_of_fmap_2 fst) in Hs'. rewrite Forall_forall in Hk. apply Hk in Hs'. cbn in Hs'. lia.
Qed.

Inductive candidates_step {E : Type} : CandidateUncles -> CandidateUncles -> Prop :=
| cs_insert self u b self' : CandidateUncles_insert (E:=E) self u = Ok (b, self') -> candidates_step self self'
| cs_remove self u b self' : CandidateUncles_remove (E:=E) self u = Ok (b, self') -> candidates_step self self'.

Lemma default_row self n :
  candidates_ok self ->
  let set := default [] (row n (cu_map self)) in
  (set = [] \/ row_ok (n, set)) /\ (forall u, u ∈ set -> uncle_height u = n) /\ NoDup (uncle_hash <$> set).
Proof.
  intros Hok. destruct (row n (cu_map self)) as [set|] eqn:Hr; cbn.
  - pose proof (candidates_row _ _ _ Hok Hr) as Hset. split_and!; [by right|apply Hset..].
  - split_and!; [by left|by intros u ?%not_elem_of_nil|constructor].
Qed.

Lemma insert_ok {E : Type} self u :
  candidates_ok self ->
  exists b self', CandidateUncles_insert (E:=E) self u = Ok (b, self') /\ candidates_ok self' /\
    (b = true -> exists set, row (uncle_height u) (cu_map self') = Some set /\ u ∈ set).
Proof.
  intros Hok. unfold CandidateUncles_insert.
  destruct (make_room_ok (E:=E) self (uncle_height u) Hok) as (room & -> & Hroom). step.
  destruct room as [self1|]; [|by exists false, self]. destruct Hroom as (Hok1 & Hlt & _).
  pose proof (row_count self1 (uncle_height u) Hok1) as Hn.
  destruct (default_row self1 (uncle_height u) Hok1) as (Hset & Hh & Hnd).
  set (set := default [] (row (uncle_height u) (cu_map self1))) in *.
  assert (set <> [] -> candidates_ok (mkCandidateUncles (insert_row (uncle_height u) set (cu_map self1)) (cu_count self1))) as Hsame.
  { intros Hne. destruct Hset as [?|Hset]; [done|]. apply insert_row_ok; [done|done|fold set; lia|lia]. }
  unfold MAX_CANDIDATE_UNCLES in *. destruct (Z.ltb_spec (Z.of_nat (length set)) MAX_PER_HEIGHT) as [Hl|Hl].
  - unfold contains_uncle. case_bool_decide as Hc.
    + eexists false, _. split; [done|]. split; [|done]. apply Hsame. intros Hn0. rewrite Hn0 in Hc. by apply not_elem_of_nil in Hc.
    + unfold u64_add. rewrite fit_in_range by zlia. step. eexists true, _. split; [done|].
      assert (row_ok (uncle_height u, set ++ [u])) as Hrow.
      { split; cbn [fst snd].
        - by destruct set.
        - rewrite length_app. cbn. lia.
        - intros x [Hx|Hx]%elem_of_app; [by apply Hh|]. by apply list_elem_of_singleton in Hx as ->.
        - rewrite fmap_app, NoDup_app. split_and!; [done| |apply NoDup_singleton].
          intros h Hx Hs%list_elem_of_singleton. by subst. }
      pose proof (insert_row_ok self1 _ _ (cu_count self1 + 1) Hok1 Hrow) as Hr. fold set in Hr.
      rewrite length_app in Hr. cbn [length] in Hr. rewrite Nat2Z.inj_add in Hr.
      split; [apply Hr; [lia|unfold MAX_CANDIDATE_UNCLES; lia]|]. intros _. exists (set ++ [u]). cbn [cu_map].
      split; [|apply elem_of_app; right; by left].
      apply row_Some; [apply insert_row_sorted, Hok1|]. apply elem_insert_row; [apply Hok1|by left].
  - eexists false, _. split; [done|]. split; [|done]. apply Hsame. intros Hn0. rewrite Hn0 in Hl. by cbn in Hl.
Qed.

Lemma NoDup_filter_hash (P : UncleBlockView -> Prop) `{!forall u, Decision (P u)} set :
  NoDup (uncle_hash <$> set) -> NoDup (uncle_hash <$> filter P set).
Proof.
  induction set as [|x set IH]; [done|]. cbn [fmap list_fmap]. intros [Hx Hnd]%NoDup_cons.
  rewrite filter_cons. case_decide; [|by apply IH]. cbn. apply NoDup_cons. split; [|by apply IH].
  intros (y & Hy & [_ Hin]%list_elem_of_filter)%list_elem_of_fmap. apply Hx. rewrite Hy. by apply list_elem_of_fmap_2.
Qed.
Lemma length_remove_uncle u set :
  NoDup (uncle_hash <$> set) -> uncle_hash u ∈ uncle_hash <$> set ->
  length set = S (length (filter (fun x => uncle_hash x <> uncle_hash u) set)).
Proof.
  induction set as [|x set IH]; cbn [fmap list_fmap]; [by intros _ ?%not_elem_of_nil|].
  intros [Hx Hnd]%NoDup_cons. rewrite elem_of_cons, filter_cons. intros Hu. case_decide as Hd.
  - cbn. rewrite <- IH; [done|done|naive_solver].
  - rewrite filter_all; [done|]. intros y Hy Hn. apply Hx. rewrite Hd, <- Hn.
    by apply list_elem_of_fmap_2.
Qed.

Lemma remove_ok {E : Type} self u :
  candidates_ok self ->
  exists b self', CandidateUncles_remove (E:=E) self u = Ok (b, self') /\ candidates_ok self'.
Proof.
  intros Hok. unfold CandidateUncles_remove. destruct (row (uncle_height u) (cu_map self)) as [set|] eqn:Hr; [|by eexists _, _].
  unfold contains_uncle. case_bool_decide as Hc; [|by eexists _, _].
  pose proof (candidates_row _ _ _ Hok Hr) as [Hne Hmax Hh Hnd]. cbn [fst snd] in *.
  pose proof (row_count self (uncle_height u) Hok) as Hn. rewrite Hr in Hn. simpl in Hn.
  pose proof (ca_max _ Hok). unfold MAX_CANDIDATE_UNCLES in *.
  set (set' := filter (fun x => uncle_hash x <> uncle_hash u) set).
  assert (Z.of_nat (length set) = Z.of_nat (length set') + 1) as Hlen.
  { rewrite (length_remove_uncle u set) by done. fold set'. lia. }
  unfold u64_sub. rewrite fit_in_range by zlia. step. eexists true, _. split; [done|].
  destruct (is_empty set') eqn:He.
  - replace (cu_count self - 1) with (cu_count self - Z.of_nat (length set)); [by apply remove_row_ok|].
    destruct set'; [cbn in Hlen; lia|done].
  - apply insert_row_ok; [done| |rewrite Hr; simpl; lia|unfold MAX_CANDIDATE_UNCLES; lia].
    split; cbn [fst snd].
    + by destruct set'.
    + lia.
    + intros x [_ Hx]%list_elem_of_filter. by apply Hh.
    + by apply NoDup_filter_hash.
Qed.

(** C24: the candidates are well formed after every sequence of insertions and
    removals: the rows ascend by height, each holds between one and ten uncles of its
    height, none twice, and the counter is the number of the uncles, at most 128; no
    operation panics. *)
Theorem candidate_uncles_typed {E : Type} self :
  rtc (candidates_step (E:=E)) CandidateUncles_new self ->
  candidates_ok self /\
  forall u, (exists b self', CandidateUncles_insert (E:=E) self u = Ok (b, self')) /\
            (exists b self', CandidateUncles_remove (E:=E) self u = Ok (b, self')).
Proof.
  intros Hs. assert (candidates_ok self) as Hok.
  { apply (rtc_ind_r (fun self => candidates_ok self) CandidateUncles_new) with (z := self) in Hs; [done| |].
    - split; [constructor|constructor|done|done].
    - intros x y _ [s u b s' Hr|s u b s' Hr] IH.
      + destruct (insert_ok (E:=E) s u IH) as (b' & s1 & Hi & Ho & _). by rewrite Hr in Hi; injection Hi as _ ->.
      + destruct (remove_ok (E:=E) s u IH) as (b' & s1 & Hi & Ho). by rewrite Hr in Hi; injection Hi as _ ->. }
  split; [done|]. intros u. destruct (insert_ok (E:=E) self u Hok) as (b & s1 & Hi & _).
  destruct (remove_ok (E:=E) self u Hok) as (b' & s2 & Hr & _). split; by eexists _, _.
Qed.

Definition sample_uncle (n k : Z) : UncleBlockView :=
  mkUncleBlockView (mkUncleBlock (mkHeader (mkRawHeader 0 0 0 n 0 [] [] [] [] []) k) []) [n; k].
(** 130 uncles, one for each height: the first two make room. *)
Definition sample_candidates : CandidateUncles :=
  foldl (fun self u => match CandidateUncles_insert (E:=Empty_set) self u with Ok (_, self) => self | _ => self end)
    CandidateUncles_new ((fun n => sample_uncle n 0) <$> seqZ 1 130).
Lemma sample_candidates_steps : rtc (candidates_step (E:=Empty_set)) CandidateUncles_new sample_candidates.
Proof.
  unfold sample_candidates. generalize ((fun n => sample_uncle n 0) <$> seqZ 1 130) as l.
  cut (forall l self, rtc (candidates_step (E:=Empty_set)) CandidateUncles_new self ->
    rtc (candidates_step (E:=Empty_set)) CandidateUncles_new (foldl (fun self u =>
      match CandidateUncles_insert (E:=Empty_set) self u with Ok (_, self) => self | _ => self end) self l)).
  { intros Hl l. by apply Hl. }
  induction l as [|u l IH]; intros self Hs; [done|]. apply IH.
  destruct (CandidateUncles_insert self u) as [[b self']| |] eqn:Hi; [|done..].
  eapply rtc_r; [done|]. by eapply cs_insert.
Qed.
Lemma candidate_uncles_typed_witness : candidates_ok sample_candidates /\ cu_count sample_candidates = 128.
Proof.
  split; [|by vm_compute]. exact (proj1 (candidate_uncles_typed sample_candidates sample_candidates_steps)).
Defined.
