(* ===== verification/TxPool.v ===== *)
(** * The transaction pool: src/tx-pool/src/pool.rs

    The pool of the pools: the pending, gap and proposed transactions, the orphans,
    the conflicts and the totals, and the operations that move a transaction between
    them.  A handler takes the pool and returns its result, a value or an error, with
    the pool it leaves, since most failures also change the pool ([PoolM]).

    [window_ok] says that the proposed pool holds only transactions that the current
    tip allows to commit; every operation of this file keeps it. *)

From S2P Require Import Prelude Capacity NumExt Rational Difficulty Types Molecule BlockCodec.
From S2P Require Import Errors Epoch Cell Consensus Hashes Store Dao Reward ProposalTable HeaderVerifier TransactionVerifier.
From S2P Require Import UnclesVerifier ContextualVerifier Chain PoolEntry SortedTxMap ProposedPool PendingQueue OrphanPool.

(** ** Third-party caches *)

(** The crate [lru_cache]: [insert] returns the value it replaces, [entries] visits
    the entries from the least to the most recent. *)
Class LruMap (K V : Type) := {
  lrm : Type;
  lrm_new : Z -> lrm;
  lrm_get : lrm -> K -> option V;
  lrm_insert : lrm -> K -> V -> option V * lrm;
  lrm_remove : lrm -> K -> lrm;
  lrm_entries : lrm -> list (K * V);
}.
Arguments lrm K V {_}.
Class LruMapSpec K V `{EqDecision K} (C : LruMap K V) : Prop := {
  lrm_entries_get c k v : (k, v) ∈ lrm_entries c <-> lrm_get c k = Some v;
  lrm_entries_new n : lrm_entries (lrm_new n) = [];
  lrm_insert_old c k v : (lrm_insert c k v).1 = lrm_get c k;
  lrm_get_insert c k v k' v' :
    lrm_get (lrm_insert c k v).2 k' = Some v' ->
    (k' = k /\ v' = v) \/ (k' <> k /\ lrm_get c k' = Some v');
  lrm_get_remove c k k' : lrm_get (lrm_remove c k) k' = if decide (k' = k) then None else lrm_get c k';
}.
(** A cache that never evicts. *)
#[export] Instance map_lru K V `{Countable K} : LruMap K V := {|
  lrm := gmap K V;
  lrm_new _ := ∅;
  lrm_get c k := c !! k;
  lrm_insert c k v := (c !! k, <[k := v]> c);
  lrm_remove c k := delete k c;
  lrm_entries c := map_to_list c;
|}.
#[export] Instance map_lru_spec K V `{Countable K} : LruMapSpec K V (map_lru K V).
Proof.
  split; intros; cbn in *.
  - apply elem_of_map_to_list.
  - apply map_to_list_empty.
  - done.
  - match goal with Hl : _ !! _ = Some _ |- _ => rewrite lookup_insert_Some in Hl end. naive_solver.
  - by rewrite lookup_delete; repeat case_decide.
Qed.

(** ** State *)

Record TxPoolConfig := mkTxPoolConfig {
  max_mem_size : Z;
  max_cycles : Z;
  max_conflict_cache_size : Z;
  max_committed_txs_hash_cache_size : Z;
  min_fee_rate : Z;
  max_tx_verify_cycles : Z;
  config_max_ancestors_count : Z;
}.

Section ops.
Context `{NumExt} `{Hasher} `{LruCache Z} `{HashOrder} `{LD : LruMap ProposalShortId DefectEntry} `{LH : LruMap ProposalShortId Byte32}.
Context (script_verify : Store -> ResolvedTransaction -> Z -> outcome Error Z).
Context (system_cell : option (gmap CellDep ResolvedDep)) (consensus : Consensus).

(** The fee estimator, which only counts, is left out. *)
Record TxPool := mkTxPool {
  config : TxPoolConfig;
  pending : PendingQueue;
  gap_queue : PendingQueue;
  proposed : ProposedPool;
  orphan : OrphanPool;
  conflict : lrm ProposalShortId DefectEntry;
  committed_txs_hash_cache : lrm ProposalShortId Byte32;
  last_txs_updated_at : Z;
  total_tx_size : Z;
  total_tx_cycles : Z;
  pool_snapshot : Snapshot;
}.

Definition TxPool_new (config : TxPoolConfig) (snapshot : Snapshot) (last_txs_updated_at : Z) : TxPool :=
  mkTxPool config (PendingQueue_new (config_max_ancestors_count config))
    (PendingQueue_new (config_max_ancestors_count config))
    (ProposedPool_new (config_max_ancestors_count config)) OrphanPool_new
    (lrm_new (max_conflict_cache_size config)) (lrm_new (max_committed_txs_hash_cache_size config))
    last_txs_updated_at 0 0 snapshot.

Definition set_pending (p : TxPool) (q : PendingQueue) : TxPool :=
  mkTxPool (config p) q (gap_queue p) (proposed p) (orphan p) (conflict p) (committed_txs_hash_cache p)
    (last_txs_updated_at p) (total_tx_size p) (total_tx_cycles p) (pool_snapshot p).
Definition set_gap (p : TxPool) (q : PendingQueue) : TxPool :=
  mkTxPool (config p) (pending p) q (proposed p) (orphan p) (conflict p) (committed_txs_hash_cache p)
    (last_txs_updated_at p) (total_tx_size p) (total_tx_cycles p) (pool_snapshot p).
Definition set_proposed (p : TxPool) (q : ProposedPool) : TxPool :=
  mkTxPool (config p) (pending p) (gap_queue p) q (orphan p) (conflict p) (committed_txs_hash_cache p)
    (last_txs_updated_at p) (total_tx_size p) (total_tx_cycles p) (pool_snapshot p).
Definition set_orphan (p : TxPool) (q : OrphanPool) : TxPool :=
  mkTxPool (config p) (pending p) (gap_queue p) (proposed p) q (conflict p) (committed_txs_hash_cache p)
    (last_txs_updated_at p) (total_tx_size p) (total_tx_cycles p) (pool_snapshot p).
Definition set_conflict (p : TxPool) (c : lrm ProposalShortId DefectEntry) : TxPool :=
  mkTxPool (config p) (pending p) (gap_queue p) (proposed p) (orphan p) c (committed_txs_hash_cache p)
    (last_txs_updated_at p) (total_tx_size p) (total_tx_cycles p) (pool_snapshot p).
Definition set_committed (p : TxPool) (c : lrm ProposalShortId Byte32) : TxPool :=
  mkTxPool (config p) (pending p) (gap_queue p) (proposed p) (orphan p) (conflict p) c
    (last_txs_updated_at p) (total_tx_size p) (total_tx_cycles p) (pool_snapshot p).
Definition set_updated_at (p : TxPool) (t : Z) : TxPool :=
  mkTxPool (config p) (pending p) (gap_queue p) (proposed p) (orphan p) (conflict p)
    (committed_txs_hash_cache p) t (total_tx_size p) (total_tx_cycles p) (pool_snapshot p).
Definition set_totals (p : TxPool) (size cycles : Z) : TxPool :=
  mkTxPool (config p) (pending p) (gap_queue p) (proposed p) (orphan p) (conflict p)
    (committed_txs_hash_cache p) (last_txs_updated_at p) size cycles (pool_snapshot p).
Definition set_snapshot (p : TxPool) (s : Snapshot) : TxPool :=
  mkTxPool (config p) (pending p) (gap_queue p) (proposed p) (orphan p) (conflict p)
    (committed_txs_hash_cache p) (last_txs_updated_at p) (total_tx_size p) (total_tx_cycles p) s.

(** ** Effects *)

(** A handler: it may panic, and otherwise returns an error or a value, with the pool. *)
Definition PoolM (A : Type) : Type := TxPool -> outcome Empty_set ((Error + A) * TxPool).
#[local] Instance PoolM_ret : MRet PoolM := fun A a p => Ok (inr a, p).
#[local] Instance PoolM_bind : MBind PoolM := fun A B k m p =>
  r ← m p;
  match r with
  | (inr a, p) => k a p
  | (inl e, p) => Ok (inl e, p)
  end.
Definition pool_err {A} (e : Error) : PoolM A := fun p => Ok (inl e, p).
Definition get_pool : PoolM TxPool := fun p => Ok (inr p, p).
Definition put_pool (p : TxPool) : PoolM unit := fun _ => Ok (inr tt, p).
Definition modify_pool (f : TxPool -> TxPool) : PoolM unit := fun p => Ok (inr tt, f p).
(** A result of code that does not change the pool. *)
#[local] Instance into_self : Into Error Error := fun e => e.
Definition lift {E A} `{Into E Error} (m : outcome E A) : PoolM A := fun p =>
  match m with
  | Ok a => Ok (inr a, p)
  | Err e => Ok (inl (into e), p)
  | Panic => Panic
  end.
(** [let ret = ...] : the error is a value. *)
Definition attempt {A} (m : PoolM A) : PoolM (Error + A) := fun p =>
  '(r, p) ← m p; Ok (inr r, p).
Definition pool_for_each {A} (f : A -> PoolM unit) (l : list A) : PoolM unit :=
  foldr (fun a k => _ ← f a; k) (mret tt) l.

(** ** Limits and totals *)

Definition reach_size_limit {E : Type} (self : TxPool) (tx_size : Z) : outcome E bool :=
  n ← u64_add (total_tx_size self) tx_size;
  Ok (max_mem_size (config self) <? n).
Definition reach_cycles_limit {E : Type} (self : TxPool) (cycles : Z) : outcome E bool :=
  n ← u64_add (total_tx_cycles self) cycles;
  Ok (max_cycles (config self) <? n).

Definition update_statics_for_add_tx (tx_size cycles : Z) : PoolM unit := fun self =>
  size ← u64_add (total_tx_size self) tx_size;
  cycles ← u64_add (total_tx_cycles self) cycles;
  Ok (inr tt, set_totals self size cycles).
(** [checked_sub(..).unwrap_or(0)]. *)
Definition update_statics_for_remove_tx (tx_size cycles : Z) : PoolM unit :=
  modify_pool (fun self =>
    set_totals self (saturating_sub (total_tx_size self) tx_size)
      (saturating_sub (total_tx_cycles self) cycles)).

(** [cache_entry.map(|c| c.cycles).unwrap_or(0)]. *)
Definition cached_cycles (c : option CacheEntry) : Z := from_option TransactionVerifier.cycles 0 c.

(** ** Adding to a pool *)

(** [unix_time_as_millis()] and the order in which the orphans are visited. *)
Context (now : Z) (order : gmap ProposalShortId DefectEntry -> list (ProposalShortId * DefectEntry)).

(** The result is false when an entry with the same id was replaced, and for
    [add_pending] also when the gap pool has one. *)
Definition add_pending (entry : TxEntry) : PoolM bool :=
  self ← get_pool;
  if PendingQueue_contains_key (gap_queue self) (te_id entry) then mret false
  else
    '(replaced, q) ← lift (PendingQueue_add_entry (pending self) entry);
    _ ← put_pool (set_pending self q);
    mret (bool_decide (replaced = None)).
Definition add_gap (entry : TxEntry) : PoolM bool :=
  self ← get_pool;
  '(replaced, q) ← lift (PendingQueue_add_entry (gap_queue self) entry);
  _ ← put_pool (set_gap self q);
  mret (bool_decide (replaced = None)).
Definition add_proposed (entry : TxEntry) : PoolM bool :=
  _ ← modify_pool (fun self => set_updated_at self now);
  self ← get_pool;
  let '(r, q) := ProposedPool_add_entry (proposed self) entry in
  _ ← put_pool (set_proposed self q);
  replaced ← lift r;
  mret (bool_decide (replaced = None)).
Definition add_orphan (cache_entry : option CacheEntry) (size : Z) (tx : TransactionView)
    (unknowns : list OutPoint) : PoolM (option DefectEntry) := fun self =>
  '(replaced, q) ← OrphanPool_add_tx order (now / 1000) (orphan self) cache_entry size tx unknowns;
  Ok (inr replaced, set_orphan self q).

(** ** Queries *)

Definition TxPool_contains_proposal_id (self : TxPool) (id : ProposalShortId) : bool :=
  PendingQueue_contains_key (pending self) id
  || bool_decide (is_Some (lrm_get (conflict self) id))
  || ProposedPool_contains_key (proposed self) id
  || OrphanPool_contains_key (orphan self) id.
Definition TxPool_contains_tx (self : TxPool) (id : ProposalShortId) : bool :=
  PendingQueue_contains_key (pending self) id
  || PendingQueue_contains_key (gap_queue self) id
  || ProposedPool_contains_key (proposed self) id
  || OrphanPool_contains_key (orphan self) id
  || bool_decide (is_Some (lrm_get (conflict self) id)).

(** [or_else]. *)
Definition or_else {A} (a b : option A) : option A := match a with Some _ => a | None => b end.
Definition TxPool_get_tx_with_cycles (self : TxPool) (id : ProposalShortId) :
    option (TransactionView * option Z) :=
  let entry (e : TxEntry) := (te_transaction e, Some (te_cycles e)) in
  let defect (e : DefectEntry) := (de_transaction e, TransactionVerifier.cycles <$> de_cache_entry e) in
  or_else (or_else (or_else (or_else (entry <$> PendingQueue_get (pending self) id)
    (entry <$> PendingQueue_get (gap_queue self) id))
    (entry <$> ProposedPool_get (proposed self) id))
    (defect <$> OrphanPool_get (orphan self) id))
    (defect <$> lrm_get (conflict self) id).
Definition TxPool_get_tx (self : TxPool) (id : ProposalShortId) : option TransactionView :=
  or_else (or_else (or_else (or_else (PendingQueue_get_tx (pending self) id)
    (PendingQueue_get_tx (gap_queue self) id))
    (ProposedPool_get_tx (proposed self) id))
    (OrphanPool_get_tx (orphan self) id))
    (de_transaction <$> lrm_get (conflict self) id).
Definition TxPool_get_tx_without_conflict (self : TxPool) (id : ProposalShortId) : option TransactionView :=
  or_else (or_else (or_else (PendingQueue_get_tx (pending self) id)
    (PendingQueue_get_tx (gap_queue self) id))
    (ProposedPool_get_tx (proposed self) id))
    (OrphanPool_get_tx (orphan self) id).
Definition get_tx_from_proposed_and_others (self : TxPool) (id : ProposalShortId) : option TransactionView :=
  or_else (or_else (or_else (or_else (ProposedPool_get_tx (proposed self) id)
    (PendingQueue_get_tx (gap_queue self) id))
    (PendingQueue_get_tx (pending self) id))
    (OrphanPool_get_tx (orphan self) id))
    (de_transaction <$> lrm_get (conflict self) id).
Definition get_tx_from_pool_or_store {E : Type} (self : TxPool) (id : ProposalShortId) :
    outcome E (option TransactionView) :=
  match get_tx_from_proposed_and_others self id with
  | Some tx => Ok (Some tx)
  | None =>
      match lrm_get (committed_txs_hash_cache self) id with
      | Some tx_hash =>
          r ← get_transaction (E:=E) (snap_store (pool_snapshot self)) tx_hash;
          Ok (match r with Some (tx, _) => Some tx | None => None end)
      | None => Ok None
      end
  end.

(** ** Removal *)

Definition remove_committed_tx (txr : TransactionView * list OutPoint) : PoolM unit :=
  let '(tx, related_out_points) := txr in
  self ← get_pool;
  let '(removed, q) := ProposedPool_remove_committed_tx (proposed self) tx related_out_points in
  _ ← put_pool (set_proposed self q);
  _ ← pool_for_each (fun entry => update_statics_for_remove_tx (te_size entry) (te_cycles entry)) removed;
  modify_pool (fun self => set_committed self
    (lrm_insert (committed_txs_hash_cache self) (TransactionView_proposal_short_id tx) (tx_hash tx)).2).
Definition remove_committed_txs_from_proposed (txs : list (TransactionView * list OutPoint)) : PoolM unit :=
  pool_for_each remove_committed_tx txs.

(** The failures of [add_pending] are logged. *)
Definition add_pending_or_log (entry : TxEntry) : PoolM unit := _ ← attempt (add_pending entry); mret tt.
Definition expire_gap (id : ProposalShortId) : PoolM unit :=
  self ← get_pool;
  let '(entries, q) := PendingQueue_remove_entry_and_descendants (gap_queue self) id in
  _ ← put_pool (set_gap self q);
  pool_for_each add_pending_or_log entries.
Definition expire_proposed (id : ProposalShortId) : PoolM unit :=
  self ← get_pool;
  let '(entries, q) := ProposedPool_remove_entry_and_descendants (proposed self) id in
  _ ← put_pool (set_proposed self q);
  pool_for_each add_pending_or_log entries.
Definition remove_expired (ids : list ProposalShortId) : PoolM unit :=
  pool_for_each (fun id => _ ← expire_gap id; expire_proposed id) ids.

(** ** Resolution and verification *)

(** [impl HeaderChecker for Snapshot]. *)
Definition Snapshot_check_valid (s : Snapshot) : HeaderChecker := fun block_hash =>
  match get_block_header (snap_store s) block_hash with
  | Some header =>
      immature ← epoch_before (E:=Error) (HeaderView_epoch (snap_tip_header s)) (cellbase_maturity consensus)
        (HeaderView_epoch header);
      if (immature : bool) then Err (into (OutPointError_ImmatureHeader block_hash)) else Ok tt
  | None => Err (into (OutPointError_InvalidHeader block_hash))
  end.

Abbreviation data_hash := CellOutput_calc_data_hash.
(** The cells of the proposed pool over those of the chain, and those of the
    pending, gap and proposed pools over those of the chain. *)
Definition proposed_provider (self : TxPool) (snapshot : Snapshot) : CellProvider :=
  OverlayCellProvider_cell (ProposedPool_cell data_hash (proposed self)) (store_cell data_hash (snap_store snapshot)).
Definition pending_and_proposed_provider (self : TxPool) (snapshot : Snapshot) : CellProvider :=
  OverlayCellProvider_cell (PendingQueue_cell data_hash (pending self))
    (OverlayCellProvider_cell (PendingQueue_cell data_hash (gap_queue self))
       (proposed_provider self snapshot)).

Definition resolve_tx_with (provider : CellProvider) (snapshot : Snapshot) (tx : TransactionView) :
    outcome Error ResolvedTransaction :=
  r ← resolve_transaction system_cell tx ∅ provider (Snapshot_check_valid snapshot);
  Ok r.1.
Definition TxPool_resolve_tx_from_pending_and_proposed (self : TxPool) (tx : TransactionView) :
    outcome Error ResolvedTransaction :=
  resolve_tx_with (pending_and_proposed_provider self (pool_snapshot self)) (pool_snapshot self) tx.
Definition TxPool_resolve_tx_from_proposed (self : TxPool) (tx : TransactionView) :
    outcome Error ResolvedTransaction :=
  resolve_tx_with (proposed_provider self (pool_snapshot self)) (pool_snapshot self) tx.

(** A known entry of the cache skips everything but the maturity and since checks. *)
Definition verify_with_cache (snapshot : Snapshot) (rtx : ResolvedTransaction)
    (cache_entry : option CacheEntry) (max_cycles : Z) : outcome Error CacheEntry :=
  let tip_header := snap_tip_header snapshot in
  let ctx := verify_median_context (snap_store snapshot) consensus in
  candidate_number ← u64_add (HeaderView_number tip_header) 1;
  match cache_entry with
  | Some cache_entry =>
      _ ← ContextualTransactionVerifier_verify ctx candidate_number (HeaderView_epoch tip_header)
            (header_hash tip_header) consensus rtx;
      Ok cache_entry
  | None =>
      TransactionVerifier_verify script_verify ctx candidate_number (HeaderView_epoch tip_header)
        (header_hash tip_header) consensus (snap_store snapshot) rtx max_cycles
  end.
Definition verify_rtx (self : TxPool) (rtx : ResolvedTransaction) (cache_entry : option CacheEntry) :
    outcome Error CacheEntry :=
  verify_with_cache (pool_snapshot self) rtx cache_entry (max_block_cycles consensus).

Definition calculate_transaction_fee (snapshot : Snapshot) (rtx : ResolvedTransaction) : outcome Error Capacity :=
  transaction_fee data_hash consensus (snap_store snapshot) rtx.

(** ** A transaction enters a pool *)

(** What a failure leaves behind: a transaction with a dead input is kept as a
    conflict, one with unknown out points as an orphan, any other one is dropped; the
    totals lose the transaction unless it is newly kept. *)
Definition handle_failure (cache_entry : option CacheEntry) (size : Z) (tx : TransactionView) (err : Error) :
    PoolM unit :=
  let drop := update_statics_for_remove_tx size (cached_cycles cache_entry) in
  match err with
  | Error_OutPoint (OutPointError_Dead _) =>
      self ← get_pool;
      let '(replaced, c) := lrm_insert (conflict self) (TransactionView_proposal_short_id tx)
                              (DefectEntry_new (now / 1000) tx 0 cache_entry size) in
      _ ← put_pool (set_conflict self c);
      if bool_decide (replaced = None) then mret tt else drop
  | Error_OutPoint (OutPointError_Unknown out_points) =>
      replaced ← add_orphan cache_entry size tx out_points;
      if bool_decide (replaced = None) then mret tt else drop
  | _ => drop
  end.
Definition handle_tx_by_resolved_result (cache_entry : option CacheEntry) (size : Z) (tx : TransactionView)
    (tx_resolved_result : outcome Error (CacheEntry * list OutPoint))
    (add_to_pool : Z -> Capacity -> list OutPoint -> PoolM unit) : PoolM CacheEntry :=
  match tx_resolved_result with
  | Ok (cache_entry, related_dep_out_points) =>
      _ ← add_to_pool (TransactionVerifier.cycles cache_entry) (TransactionVerifier.fee cache_entry)
            related_dep_out_points;
      mret cache_entry
  | Err err => _ ← handle_failure cache_entry size tx err; pool_err err
  | Panic => fun _ => Panic
  end.

(** Resolution with one of the two providers and verification. *)
Definition check_tx (resolve : TxPool -> TransactionView -> outcome Error ResolvedTransaction)
    (self : TxPool) (cache_entry : option CacheEntry) (tx : TransactionView) :
    outcome Error (CacheEntry * list OutPoint) :=
  rtx ← resolve self tx;
  cache_entry ← verify_rtx self rtx cache_entry;
  Ok (cache_entry, ResolvedTransaction_related_dep_out_points rtx).

Definition duplicated_unless (inserted : bool) : PoolM unit :=
  if inserted then mret tt else pool_err (into PoolTransactionDuplicated).
Definition gap_tx (cache_entry : option CacheEntry) (size : Z) (tx : TransactionView) : PoolM CacheEntry :=
  self ← get_pool;
  handle_tx_by_resolved_result cache_entry size tx
    (check_tx TxPool_resolve_tx_from_pending_and_proposed self cache_entry tx)
    (fun cycles fee related => r ← add_gap (TxEntry_new tx cycles fee size related); duplicated_unless r).
Definition proposed_tx (cache_entry : option CacheEntry) (size : Z) (tx : TransactionView) : PoolM CacheEntry :=
  self ← get_pool;
  handle_tx_by_resolved_result cache_entry size tx
    (check_tx TxPool_resolve_tx_from_proposed self cache_entry tx)
    (fun cycles fee related => _ ← add_proposed (TxEntry_new tx cycles fee size related); mret tt).
Definition pending_tx (cache_entry : option CacheEntry) (size : Z) (tx : TransactionView) : PoolM CacheEntry :=
  self ← get_pool;
  handle_tx_by_resolved_result cache_entry size tx
    (check_tx TxPool_resolve_tx_from_pending_and_proposed self cache_entry tx)
    (fun cycles fee related => r ← add_pending (TxEntry_new tx cycles fee size related); duplicated_unless r).

Definition contains_proposed (self : TxPool) (id : ProposalShortId) : bool :=
  ProposalView_contains_proposed (snap_proposals (pool_snapshot self)) id.

(** One orphan that the arrival of its inputs releases. *)
Definition propose_orphan (entry : DefectEntry) : PoolM unit :=
  self ← get_pool;
  let enter := if contains_proposed self (TransactionView_proposal_short_id (de_transaction entry))
               then proposed_tx else pending_tx in
  ret ← attempt (enter (de_cache_entry entry) (de_size entry) (de_transaction entry));
  match ret with
  | inl _ => update_statics_for_remove_tx (de_size entry) (cached_cycles (de_cache_entry entry))
  | inr _ => mret tt
  end.
Definition try_proposed_orphan_by_ancestor (tx : TransactionView) : PoolM unit :=
  entries ← (fun self => '(entries, q) ← remove_by_ancestor (orphan self) tx;
                         Ok (inr entries, set_orphan self q));
  pool_for_each propose_orphan entries.
Definition proposed_tx_and_descendants (cache_entry : option CacheEntry) (size : Z) (tx : TransactionView) :
    PoolM CacheEntry :=
  cache_entry ← proposed_tx cache_entry size tx;
  _ ← try_proposed_orphan_by_ancestor tx;
  mret cache_entry.

(** A transaction of a detached block: the entry for the verification cache, when
    there was none. *)
Definition readd_dettached_tx (snapshot : Snapshot) (txs_verify_cache : gmap Byte32 CacheEntry)
    (tx : TransactionView) : PoolM (option (Byte32 * CacheEntry)) :=
  let cache_entry := txs_verify_cache !! tx_hash tx in
  let tx_short_id := TransactionView_proposal_short_id tx in
  let tx_size := Transaction_serialized_size_in_block (tx_data tx) in
  let fresh (new_cache_entry : CacheEntry) :=
    match cache_entry with None => Some (tx_hash tx, new_cache_entry) | Some _ => None end in
  if ProposalView_contains_proposed (snap_proposals snapshot) tx_short_id then
    r ← attempt (proposed_tx_and_descendants cache_entry tx_size tx);
    match r with
    | inr new_cache_entry =>
        _ ← update_statics_for_add_tx tx_size (TransactionVerifier.cycles new_cache_entry);
        mret (fresh new_cache_entry)
    | inl _ => mret None
    end
  else
    r ← attempt ((if ProposalView_contains_gap (snap_proposals snapshot) tx_short_id then gap_tx else pending_tx)
                   cache_entry tx_size tx);
    match r with
    | inr new_cache_entry =>
        _ ← update_statics_for_add_tx tx_size (cached_cycles cache_entry);
        mret (fresh new_cache_entry)
    | inl _ => mret None
    end.

(** ** Proposals of a template *)

Definition get_proposals `{UnstableSort} {E : Type} (self : TxPool) (limit : Z)
    (exclusion : gset ProposalShortId) : outcome E (gset ProposalShortId) :=
  proposals ← PendingQueue_fill_proposals (pending self) limit (min_fee_rate (config self)) exclusion ∅;
  PendingQueue_fill_proposals (gap_queue self) limit (min_fee_rate (config self)) exclusion proposals.
End ops.

(** ** Handlers that keep an invariant *)

Section keeps.
Context `{HashOrder} `{LD : LruMap ProposalShortId DefectEntry} `{LH : LruMap ProposalShortId Byte32}.
#[local] Existing Instances PoolM_ret PoolM_bind.

(** From a pool with [P] the handler leaves a pool with [P], and a value with [Q]. *)
Definition keeps {A} (P : TxPool -> Prop) (Q : A -> Prop) (m : PoolM A) : Prop :=
  forall p r p', P p -> m p = Ok (r, p') -> P p' /\ match r with inr a => Q a | inl _ => True end.
Abbreviation any := (fun _ => True).

Context (P : TxPool -> Prop).
Lemma keeps_ret {A} (Q : A -> Prop) a : Q a -> keeps P Q (mret a).
Proof. intros Ha p r p' Hp [= <- <-]. done. Qed.
Lemma keeps_bind {A B} (Q : A -> Prop) (R : B -> Prop) (m : PoolM A) (k : A -> PoolM B) :
  keeps P Q m -> (forall a, Q a -> keeps P R (k a)) -> keeps P R (m ≫= k).
Proof.
  intros Hm Hk p r p' Hp. unfold mbind, PoolM_bind. intros ([[e|a] p1] & Ha & Hr)%bind_Ok.
  - injection Hr as <- <-. by destruct (Hm _ _ _ Hp Ha).
  - destruct (Hm _ _ _ Hp Ha) as [Hp1 Hq]. by apply (Hk a Hq _ _ _ Hp1).
Qed.
Lemma keeps_weaken {A} (Q R : A -> Prop) m : keeps P Q m -> (forall a, Q a -> R a) -> keeps P R m.
Proof. intros Hm HQ p r p' Hp Hr. destruct (Hm _ _ _ Hp Hr). destruct r; auto. Qed.
Lemma keeps_get : keeps P P get_pool.
Proof. by intros p r p' Hp [= <- <-]. Qed.
Lemma keeps_put p : P p -> keeps P any (put_pool p).
Proof. by intros Hp p0 r p' _ [= <- <-]. Qed.
Lemma keeps_modify f : (forall p, P p -> P (f p)) -> keeps P any (modify_pool f).
Proof. intros Hf p r p' Hp [= <- <-]. auto. Qed.
Lemma keeps_err {A} (Q : A -> Prop) e : keeps P Q (pool_err e).
Proof. by intros p r p' Hp [= <- <-]. Qed.
Lemma keeps_lift {E A} `{Into E Error} (m : outcome E A) : keeps P (fun a => m = Ok a) (lift m).
Proof. intros p r p' Hp. unfold lift. destruct m; intros [= <- <-]; done. Qed.
Lemma keeps_attempt {A} (Q : A -> Prop) (m : PoolM A) : keeps P Q m -> keeps P any (attempt m).
Proof.
  intros Hm p r p' Hp. unfold attempt. intros ([r1 p1] & Ha & [= <- <-])%bind_Ok. by destruct (Hm _ _ _ Hp Ha).
Qed.
Lemma keeps_for_each {A} (f : A -> PoolM unit) l :
  (forall a, a ∈ l -> keeps P any (f a)) -> keeps P any (pool_for_each f l).
Proof.
  induction l as [|a l IH]; intros Hf; [by apply keeps_ret|].
  apply (keeps_bind any); [apply Hf; left|]. intros _ _. apply IH. intros x Hx. apply Hf. by right.
Qed.

(** A handler that only panics or succeeds. *)
Definition infallible {A} (m : PoolM A) : Prop := forall p e p', m p <> Ok (inl e, p').
Lemma infallible_bind {A B} (m : PoolM A) (k : A -> PoolM B) :
  infallible m -> (forall a, infallible (k a)) -> infallible (m ≫= k).
Proof.
  intros Hm Hk p e p'. unfold mbind, PoolM_bind. intros ([[e1|a] p1] & Ha & Hr)%bind_Ok.
  - by apply Hm in Ha.
  - by apply Hk in Hr.
Qed.
Lemma infallible_attempt {A} (m : PoolM A) : infallible (attempt m).
Proof. intros p e p'. unfold attempt. by intros ([r p1] & _ & [=])%bind_Ok. Qed.
Lemma infallible_for_each {A} (f : A -> PoolM unit) l : (forall a, infallible (f a)) -> infallible (pool_for_each f l).
Proof. intros Hf. induction l as [|a l IH]; [done|]. by apply infallible_bind. Qed.
Lemma infallible_Ok {A} (m : PoolM A) p r p' : infallible m -> m p = Ok (r, p') -> exists a, r = inr a.
Proof. intros Hm Hr. destruct r as [e|a]; [by apply Hm in Hr|by exists a]. Qed.
End keeps.

(** Reads the pool, computes something that may fail, writes the pool. *)
Ltac keeps_step :=
  lazymatch goal with
  | |- keeps _ _ (mret _) => apply keeps_ret
  | |- keeps _ _ (pool_err _) => apply keeps_err
  | |- keeps _ _ (put_pool _) => apply keeps_put
  | |- keeps _ _ (modify_pool _) => apply keeps_modify
  | |- keeps ?P _ (get_pool ≫= _) =>
      let Hp := fresh "Hp" in eapply (keeps_bind P P); [apply keeps_get|intros ? Hp]
  | |- keeps ?P _ (lift ?m ≫= _) =>
      let Hm := fresh "Hm" in eapply (keeps_bind P (fun a => m = Ok a)); [apply keeps_lift|intros ? Hm]
  | |- keeps ?P _ (attempt _ ≫= _) =>
      eapply (keeps_bind P (fun _ => True)); [eapply keeps_attempt|intros ? _]
  | |- keeps ?P _ (_ ≫= _) => eapply (keeps_bind P (fun _ => True)); [|intros ? _]
  | |- keeps _ _ (pool_for_each _ _) => apply keeps_for_each; intros ? _
  | |- keeps _ _ (match ?x with _ => _ end) => destruct x eqn:?
  | |- keeps _ _ (let '_ := ?x in _) => destruct x eqn:?
  end.

(** ** The commit window *)

Section window.
Context `{NumExt} `{Hasher} `{LruCache Z} `{HashOrder} `{LD : LruMap ProposalShortId DefectEntry, !LruMapSpec ProposalShortId DefectEntry LD}
  `{LH : LruMap ProposalShortId Byte32}.
Context (script_verify : Store -> ResolvedTransaction -> Z -> outcome Error Z).
Context (system_cell : option (gmap CellDep ResolvedDep)) (consensus : Consensus).
Context (now : Z) (order : gmap ProposalShortId DefectEntry -> list (ProposalShortId * DefectEntry)).
#[local] Existing Instances PoolM_ret PoolM_bind into_self.

Definition proposed_keys (self : TxPool) : gset ProposalShortId := dom (txs_of (pp_inner (proposed self))).
Definition own_ids (m : SortedTxMap) : Prop :=
  map_Forall (fun id tx => TransactionView_proposal_short_id tx = id) (txs_of m).
(** The pool works for the tip [s], and its proposed transactions, up to those of
    [but], are among those that [s] allows to commit.  The queues and the conflicts
    have every transaction under its own id. *)
Record window (s : Snapshot) (but : gset ProposalShortId) (self : TxPool) : Prop := {
  win_snapshot : pool_snapshot self = s;
  win_keys : proposed_keys self ⊆ set (snap_proposals s) ∪ but;
  win_pending : own_ids (pq_inner (pending self));
  win_gap : own_ids (pq_inner (gap_queue self));
  win_conflict id e : lrm_get (conflict self) id = Some e ->
    TransactionView_proposal_short_id (de_transaction e) = id;
}.
Context (s : Snapshot) (but : gset ProposalShortId).
Abbreviation v := (snap_proposals s).
Abbreviation ok := (window s but).
Abbreviation any := (fun _ => True).

Lemma window_totals self size cycles : ok self -> ok (set_totals self size cycles).
Proof. by intros []. Qed.
Lemma window_proposed self q :
  ok self -> dom (txs_of (pp_inner q)) ⊆ proposed_keys self ∪ set v -> ok (set_proposed self q).
Proof. intros [Hs Hk Hp Hg Hc] Hq. split; try done. unfold proposed_keys in *. cbn. set_solver. Qed.
Lemma window_pending self q : ok self -> own_ids (pq_inner q) -> ok (set_pending self q).
Proof. by intros []. Qed.
Lemma window_gap self q : ok self -> own_ids (pq_inner q) -> ok (set_gap self q).
Proof. by intros []. Qed.
Lemma window_conflict self c :
  ok self -> (forall id e, lrm_get c id = Some e -> TransactionView_proposal_short_id (de_transaction e) = id) ->
  ok (set_conflict self c).
Proof. by intros []. Qed.
Lemma window_committed self c : ok self -> ok (set_committed self c).
Proof. by intros []. Qed.
Lemma window_updated self t : ok self -> ok (set_updated_at self t).
Proof. by intros []. Qed.
Lemma window_orphan self q : ok self -> ok (set_orphan self q).
Proof. by intros []. Qed.

Lemma remove_statics_keeps size cycles : keeps ok any (update_statics_for_remove_tx size cycles).
Proof. apply keeps_modify. intros p. apply window_totals. Qed.
Lemma add_statics_keeps size cycles : keeps ok any (update_statics_for_add_tx size cycles).
Proof.
  intros p r p' Hp. unfold update_statics_for_add_tx.
  intros (x & _ & (y & _ & [= <- <-])%bind_Ok)%bind_Ok. split; [by apply window_totals|done].
Qed.

(** The queues keep their transactions under their ids. *)
Lemma queue_add_ids q e r q' :
  own_ids (pq_inner q) -> PendingQueue_add_entry q e = Ok (r, q') -> own_ids (pq_inner q').
Proof.
  intros Hq ([x m] & Ha & [= <- <-])%bind_Ok. unfold own_ids. cbn.
  apply add_entry_txs in Ha as ->. by apply map_Forall_insert_2.
Qed.
Lemma queue_remove_ids q id : own_ids (pq_inner q) -> own_ids (pq_inner (PendingQueue_remove_entry q id).2).
Proof.
  intros Hq. unfold own_ids, PendingQueue_remove_entry.
  pose proof (remove_entry_txs (pq_inner q) id) as Hr. destruct (SortedTxMap_remove_entry _ _). cbn in *.
  rewrite Hr. by apply map_Forall_delete.
Qed.
Lemma queue_remove_descendants_ids q id :
  own_ids (pq_inner q) -> own_ids (pq_inner (PendingQueue_remove_entry_and_descendants q id).2).
Proof.
  intros Hq. unfold own_ids, PendingQueue_remove_entry_and_descendants.
  pose proof (remove_descendants_txs (pq_inner q) id) as Hr.
  destruct (SortedTxMap_remove_entry_and_descendants _ _). cbn in *.
  intros x tx Hx. eapply lookup_weaken, lookup_delete_Some in Hx as [_ Hx]; [|exact Hr]. by apply Hq.
Qed.

Lemma add_pending_keeps e : keeps ok any (add_pending e).
Proof.
  unfold add_pending. repeat keeps_step; auto.
  apply window_pending; [done|]. subst. exact (queue_add_ids _ _ _ _ (win_pending _ _ _ Hp) Hm).
Qed.
Lemma add_gap_keeps e : keeps ok any (add_gap e).
Proof.
  unfold add_gap. repeat keeps_step; auto.
  apply window_gap; [done|]. subst. exact (queue_add_ids _ _ _ _ (win_gap _ _ _ Hp) Hm).
Qed.

Lemma add_proposed_dom p e r q :
  ProposedPool_add_entry p e = (r, q) ->
  dom (txs_of (pp_inner q)) ⊆ {[te_id e]} ∪ dom (txs_of (pp_inner p)).
Proof.
  unfold ProposedPool_add_entry. destruct (SortedTxMap_add_entry (pp_inner p) e) as [[x m]| |] eqn:Ha;
    intros [= <- <-]; cbn; [|set_solver..]. apply add_entry_txs in Ha as ->. by rewrite dom_insert_L.
Qed.
Lemma add_proposed_keeps e : te_id e ∈ set v -> keeps ok any (add_proposed now e).
Proof.
  intros Hv. unfold add_proposed. repeat keeps_step; auto using window_updated.
  apply window_proposed; [done|]. etrans; [by eapply add_proposed_dom|]. unfold proposed_keys. set_solver.
Qed.
Lemma add_orphan_keeps c size tx l : keeps ok any (add_orphan now order c size tx l).
Proof.
  intros p r p' Hp. unfold add_orphan. intros ([x q] & _ & [= <- <-])%bind_Ok. split; [by apply window_orphan|done].
Qed.

Lemma remove_proposed_dom p id :
  dom (txs_of (pp_inner (ProposedPool_remove_entry_and_descendants p id).2)) ⊆
  dom (txs_of (pp_inner p)) ∖ {[id]}.
Proof.
  unfold ProposedPool_remove_entry_and_descendants.
  pose proof (subseteq_dom _ _ (remove_descendants_txs (pp_inner p) id)) as Hd. rewrite dom_delete_L in Hd.
  by destruct (SortedTxMap_remove_entry_and_descendants (pp_inner p) id).
Qed.
Lemma foldl_shrinks {A B : Type} (d : A -> gset ProposalShortId) (f : A -> B -> A) l a :
  (forall a b, d (f a b) ⊆ d a) -> d (foldl f a l) ⊆ d a.
Proof. intros Hf. revert a. induction l as [|b l IH]; intros a; [done|]. cbn. etrans; [apply IH|apply Hf]. Qed.

Definition pool_keys (st : list TxEntry * ProposedPool) : gset ProposalShortId := dom (txs_of (pp_inner st.2)).
Lemma resolve_conflict_input_dom st i : pool_keys (resolve_conflict_input st i) ⊆ pool_keys st.
Proof.
  assert (forall st l, pool_keys (foldl (fun (st : list TxEntry * ProposedPool) id =>
    let '(more, self) := ProposedPool_remove_entry_and_descendants st.2 id in (st.1 ++ more, self)) st l)
    ⊆ pool_keys st) as Hf.
  { intros st0 l. apply foldl_shrinks. intros [l0 q] id. unfold pool_keys. cbn.
    pose proof (remove_proposed_dom q id). destruct (ProposedPool_remove_entry_and_descendants q id). cbn in *. set_solver. }
  unfold pool_keys, resolve_conflict_input in *. destruct st as [l q]. cbn.
  destruct (mjoin (ed_outer (pp_edges q) !! i)) as [id|]; [|destruct (_ !! i); [etrans; [apply Hf|]|]; done].
  match goal with |- context [ProposedPool_remove_entry_and_descendants ?q' id] =>
    pose proof (remove_proposed_dom q' id) as Hd; destruct (ProposedPool_remove_entry_and_descendants q' id) as [l1 q1] end.
  cbn in *. destruct (_ !! i); [etrans; [apply Hf|]|]; cbn; set_solver.
Qed.
Lemma resolve_conflict_dom tx p :
  dom (txs_of (pp_inner (ProposedPool_resolve_conflict p tx).2)) ⊆ dom (txs_of (pp_inner p)).
Proof.
  apply (foldl_shrinks pool_keys resolve_conflict_input (TransactionView_input_pts_iter tx) ([], p)).
  apply resolve_conflict_input_dom.
Qed.
Lemma remove_committed_dom p tx l :
  dom (txs_of (pp_inner (ProposedPool_remove_committed_tx p tx l).2)) ⊆ dom (txs_of (pp_inner p)).
Proof.
  unfold ProposedPool_remove_committed_tx.
  pose proof (remove_entry_txs (pp_inner p) (TransactionView_proposal_short_id tx)) as Hd.
  apply (f_equal dom) in Hd. rewrite dom_delete_L in Hd.
  destruct (SortedTxMap_remove_entry _ _) as [[e|] m]; cbn in *; [set_solver|].
  etrans; [apply resolve_conflict_dom|]. cbn. set_solver.
Qed.
Lemma remove_committed_keeps txr : keeps ok any (remove_committed_tx txr).
Proof.
  destruct txr as [tx l]. unfold remove_committed_tx. repeat keeps_step; auto using remove_statics_keeps, window_committed.
  apply window_proposed; [done|].
  pose proof (remove_committed_dom (proposed a) tx l) as Hd. rewrite Heqp in Hd. cbn in Hd. unfold proposed_keys.
  set_solver.
Qed.

Lemma handle_failure_keeps c size tx err : keeps ok any (handle_failure now order c size tx err).
Proof.
  unfold handle_failure. repeat keeps_step; auto using remove_statics_keeps, add_orphan_keeps.
  apply window_conflict; [done|]. intros id x Hx. change l with (o0, l).2 in Hx. rewrite <- Heqp in Hx.
  apply lrm_get_insert in Hx as [[-> ->]|[_ Hx]]; [done|by apply (win_conflict _ _ _ Hp)].
Qed.
Lemma handle_tx_keeps c size tx r add :
  (forall cycles fee related, keeps ok any (add cycles fee related)) ->
  keeps ok any (handle_tx_by_resolved_result now order c size tx r add).
Proof.
  intros Ha. unfold handle_tx_by_resolved_result. repeat keeps_step; auto using handle_failure_keeps.
  by intros p ? p' _.
Qed.
Lemma gap_tx_keeps c size tx : keeps ok any (gap_tx script_verify system_cell consensus now order c size tx).
Proof.
  unfold gap_tx. keeps_step. apply handle_tx_keeps. intros. unfold duplicated_unless.
  repeat keeps_step; auto using add_gap_keeps.
Qed.
Lemma pending_tx_keeps c size tx :
  keeps ok any (pending_tx script_verify system_cell consensus now order c size tx).
Proof.
  unfold pending_tx. keeps_step. apply handle_tx_keeps. intros. unfold duplicated_unless.
  repeat keeps_step; auto using add_pending_keeps.
Qed.
Lemma proposed_tx_keeps c size tx :
  TransactionView_proposal_short_id tx ∈ set v ->
  keeps ok any (proposed_tx script_verify system_cell consensus now order c size tx).
Proof.
  intros Hv. unfold proposed_tx. keeps_step. apply handle_tx_keeps. intros.
  repeat keeps_step; auto using add_proposed_keeps.
Qed.
Lemma propose_orphan_keeps e :
  keeps ok any (propose_orphan script_verify system_cell consensus now order e).
Proof.
  unfold propose_orphan. keeps_step. unfold contains_proposed, ProposalView_contains_proposed.
  rewrite (win_snapshot _ _ _ Hp). case_bool_decide; repeat keeps_step;
    auto using proposed_tx_keeps, pending_tx_keeps, remove_statics_keeps.
Qed.
Lemma try_orphan_keeps tx :
  keeps ok any (try_proposed_orphan_by_ancestor script_verify system_cell consensus now order tx).
Proof.
  unfold try_proposed_orphan_by_ancestor. keeps_step; [|repeat keeps_step; apply propose_orphan_keeps].
  intros p r p' Hp. intros ([x q] & _ & [= <- <-])%bind_Ok. split; [by apply window_orphan|done].
Qed.
Lemma proposed_and_descendants_keeps c size tx :
  TransactionView_proposal_short_id tx ∈ set v ->
  keeps ok any (proposed_tx_and_descendants script_verify system_cell consensus now order c size tx).
Proof.
  intros Hv. unfold proposed_tx_and_descendants. repeat keeps_step; auto using proposed_tx_keeps, try_orphan_keeps.
Qed.
Lemma readd_keeps snapshot cache tx :
  snap_proposals snapshot = v ->
  keeps ok any (readd_dettached_tx script_verify system_cell consensus now order snapshot cache tx).
Proof.
  intros Hv. unfold readd_dettached_tx, ProposalView_contains_proposed. rewrite Hv.
  case_bool_decide; [|destruct (ProposalView_contains_gap _ _)]; repeat keeps_step;
    eauto using proposed_and_descendants_keeps, gap_tx_keeps, pending_tx_keeps, add_statics_keeps.
Qed.
End window.

(** Expired ids leave the proposed pool and the exempt set. *)
Section expired.
Context `{HashOrder} `{LD : LruMap ProposalShortId DefectEntry, !LruMapSpec ProposalShortId DefectEntry LD} `{LH : LruMap ProposalShortId Byte32} (s : Snapshot).
#[local] Existing Instances PoolM_ret PoolM_bind into_self.

Lemma add_pending_or_log_keeps but e : keeps (window s but) (fun _ => True) (add_pending_or_log e).
Proof. unfold add_pending_or_log. repeat keeps_step; [apply add_pending_keeps|done]. Qed.
Lemma expire_gap_keeps but id : keeps (window s but) (fun _ => True) (expire_gap id).
Proof.
  unfold expire_gap. repeat keeps_step; auto using add_pending_or_log_keeps.
  apply window_gap; [done|]. pose proof (queue_remove_descendants_ids (gap_queue a) id (win_gap _ _ _ Hp)) as Hi.
  by rewrite Heqp in Hi.
Qed.

Lemma add_pending_or_log_infallible e : infallible (add_pending_or_log e).
Proof. apply infallible_bind; [apply infallible_attempt|done]. Qed.
Lemma expire_gap_infallible id : infallible (expire_gap id).
Proof.
  apply infallible_bind; [done|]. intros self.
  destruct (PendingQueue_remove_entry_and_descendants (gap_queue self) id) as [entries q].
  apply infallible_bind; [done|]. intros _. apply infallible_for_each, add_pending_or_log_infallible.
Qed.
Lemma expire_proposed_infallible id : infallible (expire_proposed id).
Proof.
  apply infallible_bind; [done|]. intros self.
  destruct (ProposedPool_remove_entry_and_descendants (proposed self) id) as [entries q].
  apply infallible_bind; [done|]. intros _. apply infallible_for_each, add_pending_or_log_infallible.
Qed.

Lemma expire_proposed_window but id p r p' :
  window s but p -> expire_proposed id p = Ok (r, p') -> window s (but ∖ {[id]}) p'.
Proof.
  intros [Hs Hk Hwp Hwg Hwc]. unfold expire_proposed. unfold mbind, PoolM_bind. cbn.
  pose proof (remove_proposed_dom (proposed p) id) as Hd.
  destruct (ProposedPool_remove_entry_and_descendants (proposed p) id) as [entries q]. cbn in *. intros Hr.
  refine (proj1 (keeps_for_each (window s (but ∖ {[id]})) add_pending_or_log entries _ _ _ _ _ Hr)).
  - intros e _. apply add_pending_or_log_keeps.
  - split; try done. unfold proposed_keys in *. cbn. set_solver.
Qed.
(** After [remove_expired] the exempt set has lost the expired ids. *)
Lemma remove_expired_window but ids p r p' :
  window s but p -> remove_expired ids p = Ok (r, p') -> window s (but ∖ list_to_set ids) p'.
Proof.
  unfold remove_expired. revert but p. induction ids as [|id ids IH]; intros but p Hp; cbn.
  - intros [= <- <-]. by rewrite difference_empty_L.
  - unfold mbind, PoolM_bind. intros ([r1 p1] & H1 & Hr)%bind_Ok. apply bind_Ok in H1 as ([r0 p0] & H0 & H1).
    destruct (infallible_Ok _ _ _ _ (expire_gap_infallible id) H0) as [? ->].
    destruct (infallible_Ok _ _ _ _ (expire_proposed_infallible id) H1) as [? ->].
    rewrite <- difference_difference_l_L. apply (IH _ p1); [|done].
    refine (expire_proposed_window but id p0 _ _ _ H1). by apply (expire_gap_keeps but id) in H0 as [? _].
Qed.
Lemma remove_expired_infallible ids : infallible (remove_expired ids).
Proof.
  apply infallible_for_each. intros id. apply infallible_bind; [apply expire_gap_infallible|].
  intros _. apply expire_proposed_infallible.
Qed.
End expired.
