(* ===== verification/PoolService.v ===== *)
(** * The service of the transaction pool: src/tx-pool/src/process.rs

    Submission of transactions and the update of the pool after a change of the main
    chain.  A submission takes the lock of the pool twice: [pre_resolve_txs] reads it,
    and after the verification [submit_txs] writes it, so the two parts are separate
    functions and other requests may come between them.

    [reorg_keeps_window] shows that after every change of the chain the proposed pool
    holds only transactions of the commit window of the new tip;
    [submit_keeps_window] shows it for a submission that saw one tip, and
    [submit_stale_status] that it fails when the tip changes in between.
    [gap_descendant_lost] shows a transaction that leaves the pool when its parent
    moves on. *)

From S2P Require Import Prelude Capacity NumExt Rational Difficulty Types Molecule BlockCodec.
From S2P Require Import Errors Epoch Cell Consensus Hashes Store Dao Reward ProposalTable HeaderVerifier TransactionVerifier.
From S2P Require Import UnclesVerifier ContextualVerifier ChainCell Chain PoolEntry SortedTxMap ProposedPool PendingQueue OrphanPool TxPool.

Inductive TxStatus := TxStatus_Fresh | TxStatus_Gap | TxStatus_Proposed.

(** [LinkedHashSet::extend] of src/util/src/linked_hash_set.rs, over the third-party
    crate [linked_hash_map]: a set of transactions, compared by their witness hash, in
    the order of insertion. *)
Class LinkedHash := linked_extend : list TransactionView -> list TransactionView -> list TransactionView.
Class LinkedHashSpec (L : LinkedHash) : Prop := {
  linked_extend_elem l txs tx : tx ∈ linked_extend l txs -> tx ∈ l \/ tx ∈ txs;
  linked_extend_hash l txs tx : tx ∈ l \/ tx ∈ txs ->
    tx_witness_hash tx ∈ tx_witness_hash <$> linked_extend l txs;
}.
(** The first transaction with a witness hash stays. *)
Definition linked_insert (l : list TransactionView) (tx : TransactionView) : list TransactionView :=
  if decide (tx_witness_hash tx ∈ tx_witness_hash <$> l) then l else l ++ [tx].
#[export] Instance keep_first : LinkedHash := foldl linked_insert.
#[export] Instance keep_first_spec : LinkedHashSpec keep_first.
Proof.
  unfold keep_first, linked_extend. split; intros l txs; revert l; induction txs as [|t txs IH]; intros l tx; cbn.
  - by left.
  - intros [Hl|Ht]%IH; [|by right; right]. unfold linked_insert in Hl. case_decide; [by left|].
    rewrite elem_of_app, list_elem_of_singleton in Hl. destruct Hl as [?| ->]; [by left|right; by left].
  - intros [Hl|Hn]; [by apply list_elem_of_fmap_2|by apply not_elem_of_nil in Hn].
  - assert (forall x, x ∈ l -> x ∈ linked_insert l t) as Hin.
    { intros x Hx. unfold linked_insert. case_decide; [done|]. rewrite elem_of_app. by left. }
    rewrite elem_of_cons. intros [Hl|[->|Ht]]; [by apply IH; left; apply Hin| |by apply IH; right].
    assert (exists x, x ∈ linked_insert l t /\ tx_witness_hash x = tx_witness_hash t) as (x & Hx & <-).
    { unfold linked_insert. case_decide as Hd; [|exists t; rewrite elem_of_app, list_elem_of_singleton; by auto].
      apply list_elem_of_fmap in Hd as (x & Hx & Hd). by exists x. }
    apply IH. by left.
Qed.

(** Gather all cell dep out points and resolved dep group out points:
    src/util/types/src/core/cell.rs.  The error is a message. *)
Definition get_related_dep_out_points (tx : TransactionView) (get_cell_data : OutPoint -> option bytes) :
    outcome unit (list OutPoint) :=
  try_fold (fun out_points dep =>
    let out_point := dep_out_point dep in
    sub_out_points ←
      (if dep_type dep =? DepType_into DepType_DepGroup then
         data ← ok_or tt (get_cell_data out_point);
         ok_or tt (parse_dep_group_data data)
       else Ok []);
    Ok (out_points ++ sub_out_points ++ [out_point])) [] (TransactionView_cell_deps tx).

Section ops.
Context `{NumExt} `{Hasher} `{LruCache Z} `{LC : LruCache CacheEntry} `{HashOrder} `{LD : LruMap ProposalShortId DefectEntry} `{LH : LruMap ProposalShortId Byte32}
  `{LinkedHash}.
Context (script_verify : Store -> ResolvedTransaction -> Z -> outcome Error Z).
Context (system_cell : option (gmap CellDep ResolvedDep)) (consensus : Consensus).

(** ** Submission *)

Definition check_transaction_hash_collision (tx_pool : TxPool) (txs : list TransactionView) : outcome Error unit :=
  try_for_each (fun tx =>
    if TxPool_contains_proposal_id tx_pool (TransactionView_proposal_short_id tx)
    then Err (into PoolTransactionDuplicated) else Ok tt) txs.

(** The transactions before it in the request serve a transaction as well. *)
Definition resolve_tx_from_proposed (tx_pool : TxPool) (snapshot : Snapshot)
    (txs_provider : TransactionsProvider) (tx : TransactionView) : outcome Error ResolvedTransaction :=
  resolve_tx_with system_cell consensus
    (OverlayCellProvider_cell (TransactionsProvider_cell CellOutput_calc_data_hash txs_provider)
       (proposed_provider tx_pool snapshot)) snapshot tx.
Definition resolve_tx_from_pending_and_proposed (tx_pool : TxPool) (snapshot : Snapshot)
    (txs_provider : TransactionsProvider) (tx : TransactionView) : outcome Error ResolvedTransaction :=
  resolve_tx_with system_cell consensus
    (OverlayCellProvider_cell (TransactionsProvider_cell CellOutput_calc_data_hash txs_provider)
       (pending_and_proposed_provider tx_pool snapshot)) snapshot tx.

Definition resolve_tx (tx_pool : TxPool) (snapshot : Snapshot) (txs_provider : TransactionsProvider)
    (tx : TransactionView) : outcome Error (ResolvedTransaction * Z * Capacity * TxStatus) :=
  let tx_size := Transaction_serialized_size_in_block (tx_data tx) in
  full ← reach_size_limit tx_pool tx_size;
  if (full : bool) then Err (into TransactionPoolFull)
  else
    let short_id := TransactionView_proposal_short_id tx in
    if ProposalView_contains_proposed (snap_proposals snapshot) short_id then
      rtx ← resolve_tx_from_proposed tx_pool snapshot txs_provider tx;
      fee ← calculate_transaction_fee consensus snapshot rtx;
      Ok (rtx, tx_size, fee, TxStatus_Proposed)
    else
      rtx ← resolve_tx_from_pending_and_proposed tx_pool snapshot txs_provider tx;
      let status := if ProposalView_contains_gap (snap_proposals snapshot) short_id
                    then TxStatus_Gap else TxStatus_Fresh in
      fee ← calculate_transaction_fee consensus snapshot rtx;
      Ok (rtx, tx_size, fee, status).

Definition pre_resolve_tx (tx_pool : TxPool) (snapshot : Snapshot)
    (st : TransactionsProvider * list (ResolvedTransaction * Z * Capacity * TxStatus)) (tx : TransactionView) :
    outcome Error (TransactionsProvider * list (ResolvedTransaction * Z * Capacity * TxStatus)) :=
  let '(txs_provider, resolved) := st in
  r ← resolve_tx tx_pool snapshot txs_provider tx;
  Ok (TransactionsProvider_insert txs_provider tx, resolved ++ [r]).
(** The tip, the resolved transactions and their size, fee and status. *)
Definition pre_resolve_txs (tx_pool : TxPool) (txs : list TransactionView) :
    outcome Error (Byte32 * Snapshot * list ResolvedTransaction * list (Z * Capacity * TxStatus)) :=
  let snapshot := pool_snapshot tx_pool in
  _ ← check_transaction_hash_collision tx_pool txs;
  '(_, resolved) ← try_fold (pre_resolve_tx tx_pool snapshot) (∅, []) txs;
  Ok (header_hash (snap_tip_header snapshot), snapshot,
      map (fun '(rtx, _, _, _) => rtx) resolved,
      map (fun '(_, tx_size, fee, status) => (tx_size, fee, status)) resolved).

Definition fetch_txs_verify_cache (cache : lru CacheEntry) (txs : list TransactionView) : gmap Byte32 CacheEntry :=
  collect_map (omap (fun tx => pair (tx_hash tx) <$> lru_get cache (tx_hash tx)) txs).

Definition verify_rtxs (snapshot : Snapshot) (txs : list ResolvedTransaction)
    (txs_verify_cache : gmap Byte32 CacheEntry) (max_tx_verify_cycles : Z) :
    outcome Error (list (ResolvedTransaction * CacheEntry)) :=
  try_map (fun tx =>
    cache_entry ← verify_with_cache script_verify consensus snapshot tx
      (txs_verify_cache !! tx_hash (transaction tx)) max_tx_verify_cycles;
    Ok (tx, cache_entry)) txs.

Context (now : Z) (order : gmap ProposalShortId DefectEntry -> list (ProposalShortId * DefectEntry)).
#[local] Existing Instances PoolM_ret PoolM_bind into_self.

Definition submit_tx (tx : ResolvedTransaction * CacheEntry * (Z * Capacity * TxStatus)) : PoolM unit :=
  let '(rtx, cache_entry, (tx_size, fee, status)) := tx in
  self ← get_pool;
  full ← lift (E:=Error) (reach_cycles_limit self (TransactionVerifier.cycles cache_entry));
  if (full : bool) then pool_err (into TransactionPoolFull)
  else
    let min_fee := FeeRate_fee (min_fee_rate (config self)) tx_size in
    if fee <? min_fee then pool_err (into (LowFeeRate (Capacity_as_u64 min_fee)))
    else
      let entry := TxEntry_new (transaction rtx) (TransactionVerifier.cycles cache_entry) fee tx_size
                     (ResolvedTransaction_related_dep_out_points rtx) in
      inserted ← match status with
                 | TxStatus_Fresh => add_pending entry
                 | TxStatus_Gap => add_gap entry
                 | TxStatus_Proposed => add_proposed now entry
                 end;
      if (inserted : bool) then update_statics_for_add_tx tx_size (TransactionVerifier.cycles cache_entry)
      else mret tt.

(** When the tip has changed the transactions are resolved again, and the result is
    dropped. *)
Definition submit_txs (txs : list (ResolvedTransaction * CacheEntry)) (pre_resolve_tip : Byte32)
    (status : list (Z * Capacity * TxStatus)) : PoolM unit :=
  self ← get_pool;
  let snapshot := pool_snapshot self in
  _ ← (if bool_decide (pre_resolve_tip = header_hash (snap_tip_header snapshot)) then mret tt
       else
         _ ← lift (try_fold (fun txs_provider '(tx, _) =>
                _ ← resolve_tx self snapshot txs_provider (transaction tx);
                Ok (TransactionsProvider_insert txs_provider (transaction tx))) ∅ txs);
         mret tt);
  pool_for_each submit_tx (zip txs status).

(** [process_txs]: what the first part computes, for the second one. *)
Definition prepare_txs (tx_pool : TxPool) (cache : lru CacheEntry) (txs : list TransactionView) :
    outcome Error (list (ResolvedTransaction * CacheEntry) * Byte32 * list (Z * Capacity * TxStatus)) :=
  '(tip_hash, snapshot, rtxs, status) ← pre_resolve_txs tx_pool txs;
  verified ← verify_rtxs snapshot rtxs (fetch_txs_verify_cache cache txs) (max_tx_verify_cycles (config tx_pool));
  Ok (verified, tip_hash, status).
(** The entries of the result also go to the cache of the verified transactions. *)
Definition cache_verified (cache : lru CacheEntry) (updated_cache : list (Byte32 * CacheEntry)) : lru CacheEntry :=
  foldl (fun guard '(k, v) => lru_insert guard k v) cache updated_cache.
(** [tx_pool] is the pool that the first part reads, the argument of the result the
    one the second part changes. *)
Definition process_txs (tx_pool : TxPool) (cache : lru CacheEntry) (txs : list TransactionView) :
    PoolM (list CacheEntry * lru CacheEntry) :=
  '(verified, tip_hash, status) ← lift (prepare_txs tx_pool cache txs);
  _ ← submit_txs verified tip_hash status;
  mret (map snd verified, cache_verified cache (map (fun '(tx, c) => (tx_hash (transaction tx), c)) verified)).

(** ** A change of the main chain *)

Definition committed_txs (blocks : list BlockView) : list TransactionView :=
  foldl (fun txs blk => linked_extend txs (drop 1 (BlockView_transactions blk))) [] blocks.
(** [detached.difference(&attached)]. *)
Definition tx_difference (l other : list TransactionView) : list TransactionView :=
  filter (fun tx => tx_witness_hash tx ∉ tx_witness_hash <$> other) l.

Definition moved_entry (entry : TxEntry) : option CacheEntry * Z * TransactionView :=
  (Some (mkCacheEntry (te_cycles entry) (te_fee entry)), te_size entry, te_transaction entry).
Definition moved_defect (entry : DefectEntry) : option CacheEntry * Z * TransactionView :=
  (de_cache_entry entry, de_size entry, de_transaction entry).
Abbreviation Moved := (option CacheEntry * Z * TransactionView)%type.

(** Gap transactions that may now be committed leave the gap pool, with their
    descendants. *)
Definition move_gap (snapshot : Snapshot) : PoolM (list Moved) :=
  self ← get_pool;
  keys ← lift (E:=Error) (keys_sorted_by_fee_and_relation (pq_inner (gap_queue self)));
  let moving := filter (fun k => ProposalView_contains_proposed (snap_proposals snapshot) (key_id k) = true) keys in
  entries ← lift (E:=Error) (try_map (fun k =>
    entry ← expect (PendingQueue_get (gap_queue self) (key_id k));
    Ok (moved_entry entry)) moving);
  _ ← put_pool (set_gap self
        (foldl (fun q k => (PendingQueue_remove_entry_and_descendants q (key_id k)).2) (gap_queue self) moving));
  mret entries.

(** Pending transactions that are proposed leave the pending pool, for the proposed
    pool or the gap pool. *)
Definition move_pending (snapshot : Snapshot) : PoolM (list Moved * list Moved) :=
  self ← get_pool;
  keys ← lift (E:=Error) (keys_sorted_by_fee_and_relation (pq_inner (pending self)));
  '(entries, gaps, removed) ← lift (E:=Error) (try_fold (fun '(entries, gaps, removed) k =>
    entry ← expect (PendingQueue_get (pending self) (key_id k));
    if ProposalView_contains_proposed (snap_proposals snapshot) (key_id k)
    then Ok (entries ++ [moved_entry entry], gaps, removed ++ [key_id k])
    else if ProposalView_contains_gap (snap_proposals snapshot) (key_id k)
    then Ok (entries, gaps ++ [moved_entry entry], removed ++ [key_id k])
    else Ok (entries, gaps, removed)) ([], [], []) keys);
  _ ← put_pool (set_pending self (foldl (fun q id => (PendingQueue_remove_entry q id).2) (pending self) removed));
  mret (entries, gaps).

Definition move_conflict (snapshot : Snapshot) : PoolM (list Moved * list Moved) :=
  self ← get_pool;
  let '(c, entries, gaps) :=
    foldl (fun '(c, entries, gaps) '(id, entry) =>
      if ProposalView_contains_proposed (snap_proposals snapshot) id
      then (lrm_remove c id, entries ++ [moved_defect entry], gaps)
      else if ProposalView_contains_gap (snap_proposals snapshot) id
      then (lrm_remove c id, entries, gaps ++ [moved_defect entry])
      else (c, entries, gaps)) (conflict self, [], []) (lrm_entries (conflict self)) in
  _ ← put_pool (set_conflict self c);
  mret (entries, gaps).

(** The failures are logged. *)
Definition enter_or_log (enter : option CacheEntry -> Z -> TransactionView -> PoolM CacheEntry) (m : Moved) :
    PoolM unit :=
  let '(cycles, size, tx) := m in _ ← attempt (enter cycles size tx); mret tt.

Abbreviation readd := (readd_dettached_tx script_verify system_cell consensus now order).
Definition readd_all (snapshot : Snapshot) (txs_verify_cache : gmap Byte32 CacheEntry) (txs : list TransactionView) :
    PoolM (list (Byte32 * CacheEntry)) :=
  foldr (fun tx k =>
    r ← readd snapshot txs_verify_cache tx;
    l ← k;
    mret (match r with Some x => x :: l | None => l end)) (mret []) txs.

Definition related_of (snapshot : Snapshot) (tx : TransactionView) : outcome Error (TransactionView * list OutPoint) :=
  let get_cell_data (o : OutPoint) :=
    fst <$> Store.get_cell_data CellOutput_calc_data_hash (snap_store snapshot) (op_tx_hash o) (op_index o) in
  match get_related_dep_out_points tx get_cell_data with
  | Ok related => Ok (tx, related)
  | _ => Panic
  end.

(** First what leaves the pool: the transactions of the attached blocks and those
    whose proposal has expired. *)
Definition reorg_remove (attached : list TransactionView) (detached_proposal_id : gset ProposalShortId)
    (snapshot : Snapshot) : PoolM unit :=
  _ ← modify_pool (fun self => set_snapshot self snapshot);
  txs ← lift (try_map (related_of snapshot) attached);
  _ ← remove_committed_txs_from_proposed txs;
  remove_expired (hash_iter detached_proposal_id).
(** Then the moves from gap, pending and conflicts to proposed and gap. *)
Definition reorg_move (snapshot : Snapshot) : PoolM unit :=
  entries ← move_gap snapshot;
  '(more, gaps) ← move_pending snapshot;
  '(rest, more_gaps) ← move_conflict snapshot;
  _ ← pool_for_each
        (enter_or_log (proposed_tx_and_descendants script_verify system_cell consensus now order))
        (entries ++ more ++ rest);
  pool_for_each (enter_or_log (gap_tx script_verify system_cell consensus now order)) (gaps ++ more_gaps).
Definition _update_tx_pool_for_reorg (txs_verify_cache : gmap Byte32 CacheEntry)
    (detached_blocks attached_blocks : list BlockView) (detached_proposal_id : gset ProposalShortId)
    (snapshot : Snapshot) : PoolM (gmap Byte32 CacheEntry) :=
  let detached := committed_txs detached_blocks in
  let attached := committed_txs attached_blocks in
  let retain := tx_difference detached attached in
  _ ← reorg_remove attached detached_proposal_id snapshot;
  to_update_cache ← readd_all snapshot txs_verify_cache retain;
  _ ← pool_for_each (try_proposed_orphan_by_ancestor script_verify system_cell consensus now order) attached;
  _ ← reorg_move snapshot;
  mret (collect_map to_update_cache).

(** The service: the cache is read for the detached transactions and written with
    the new entries. *)
Definition update_tx_pool_for_reorg (cache : lru CacheEntry) (detached_blocks attached_blocks : list BlockView)
    (detached_proposal_id : gset ProposalShortId) (snapshot : Snapshot) : PoolM (lru CacheEntry) :=
  let txs (blocks : list BlockView) := blocks ≫= fun blk => drop 1 (BlockView_transactions blk) in
  updated_cache ← _update_tx_pool_for_reorg
    (fetch_txs_verify_cache cache (tx_difference (txs detached_blocks) (txs attached_blocks)))
    detached_blocks attached_blocks detached_proposal_id snapshot;
  mret (cache_verified cache (map_to_list updated_cache)).
End ops.

(** ** The commit window *)

Section window.
Context `{NumExt} `{Hasher} `{LruCache Z} `{LC : LruCache CacheEntry} `{HashOrderSpec} `{LD : LruMap ProposalShortId DefectEntry}
  `{LH : LruMap ProposalShortId Byte32} `{LinkedHash} `{!LruMapSpec ProposalShortId DefectEntry LD}.
Context (script_verify : Store -> ResolvedTransaction -> Z -> outcome Error Z).
Context (system_cell : option (gmap CellDep ResolvedDep)) (consensus : Consensus).
Context (now : Z) (order : gmap ProposalShortId DefectEntry -> list (ProposalShortId * DefectEntry)).
#[local] Existing Instances PoolM_ret PoolM_bind into_self.

(** The proposed pool holds only transactions that the next block may commit. *)
Definition window_ok (self : TxPool) : Prop := window (pool_snapshot self) ∅ self.

Section moves.
Context (snapshot : Snapshot).
Abbreviation ok := (window snapshot ∅).
Abbreviation any := (fun _ => True).
(** A moved transaction that the tip allows to commit. *)
Definition committable (m : option CacheEntry * Z * TransactionView) : Prop :=
  TransactionView_proposal_short_id m.2 ∈ set (snap_proposals snapshot).

Lemma moved_committable q k e :
  own_ids (pq_inner q) -> PendingQueue_get q (key_id k) = Some e ->
  ProposalView_contains_proposed (snap_proposals snapshot) (key_id k) = true -> committable (moved_entry e).
Proof.
  intros Hq He Hk%bool_decide_eq_true. unfold committable. cbn.
  rewrite (Hq (key_id k)); [done|]. unfold txs_of. rewrite lookup_fmap.
  unfold PendingQueue_get, SortedTxMap_get in He. by rewrite He.
Qed.

Lemma queue_foldl_ids {A : Type} (f : PendingQueue -> A -> PendingQueue) l q :
  (forall q a, own_ids (pq_inner q) -> own_ids (pq_inner (f q a))) ->
  own_ids (pq_inner q) -> own_ids (pq_inner (foldl f q l)).
Proof. intros Hf. revert q. induction l as [|a l IH]; intros q Hq; [done|]. apply IH. by apply Hf. Qed.

Lemma move_gap_keeps : keeps ok (Forall committable) (move_gap snapshot).
Proof.
  unfold move_gap. repeat keeps_step; auto.
  - apply window_gap; [done|]. apply queue_foldl_ids; [|apply (win_gap _ _ _ Hp)].
    intros q k. apply queue_remove_descendants_ids.
  - apply try_map_Ok in Hm0. apply Forall_forall. intros m (i & Hi)%list_elem_of_lookup.
    eapply Forall2_lookup_r in Hm0 as (k & Hk & (e & He & [= <-])%bind_Ok); [|done].
    apply expect_Ok in He. apply list_elem_of_lookup_2, list_elem_of_filter in Hk as [Hk _].
    eapply moved_committable; [apply (win_gap _ _ _ Hp)|done|done].
Qed.

Lemma move_pending_keeps : keeps ok (fun eg => Forall committable eg.1) (move_pending snapshot).
Proof.
  unfold move_pending. repeat keeps_step; auto.
  - apply window_pending; [done|]. apply queue_foldl_ids; [|apply (win_pending _ _ _ Hp)].
    intros q k. apply queue_remove_ids.
  - subst. refine (try_fold_inv (fun '(entries, _, _) _ => Forall committable entries) _ _ _ _ Hm0 _ _); [done|].
    intros [[es gs] rs] k ks [[es' gs'] rs'] He (e & Hk & Hs)%bind_Ok. apply expect_Ok in Hk.
    destruct (ProposalView_contains_proposed _ _) eqn:Hc; [|by case_match; injection Hs as <- _ _].
    injection Hs as <- _ _. apply Forall_app_2; [done|]. apply Forall_singleton.
    eapply moved_committable; [apply (win_pending _ _ _ Hp)|done|done].
Qed.

Lemma move_conflict_keeps : keeps ok (fun eg => Forall committable eg.1) (move_conflict snapshot).
Proof.
  unfold move_conflict. keeps_step. pose proof (win_conflict _ _ _ Hp) as Hc.
  set (f := fun '(c, entries, gaps) '(id, entry) => _).
  assert (forall l st, (forall id e, (id, e) ∈ l -> TransactionView_proposal_short_id (de_transaction e) = id) ->
    (forall id e, lrm_get st.1.1 id = Some e -> TransactionView_proposal_short_id (de_transaction e) = id) ->
    Forall committable st.1.2 ->
    (forall id e, lrm_get (foldl f st l).1.1 id = Some e -> TransactionView_proposal_short_id (de_transaction e) = id) /\
    Forall committable (foldl f st l).1.2) as Hf.
  { induction l as [|[id e] l IH]; intros [[c es] gs] Hl Hst Hes; [done|]. cbn [foldl].
    assert (forall id', (forall id e, lrm_get (lrm_remove c id') id = Some e ->
      TransactionView_proposal_short_id (de_transaction e) = id)) as Hr.
    { intros id' x e'. rewrite lrm_get_remove. case_decide; [done|]. apply Hst. }
    apply IH; [intros id' e' H'; apply Hl; by right|..]; unfold f; cbn;
      destruct (ProposalView_contains_proposed _ id) eqn:Hp1; [apply Hr|case_match; [apply Hr|apply Hst]| |by case_match].
    apply Forall_app_2; [done|]. apply Forall_singleton. unfold committable. cbn. rewrite (Hl id e) by left.
    by apply bool_decide_eq_true in Hp1. }
  specialize (Hf (lrm_entries (conflict a)) (conflict a, [], [])).
  destruct (foldl f _ _) as [[c es] gs]. cbn in Hf. destruct Hf as [Hi He]; [|done|done|].
  { intros id e. rewrite lrm_entries_get. apply Hc. }
  repeat keeps_step; auto using window_conflict.
Qed.

Lemma readd_all_keeps cache txs :
  keeps ok any (readd_all script_verify system_cell consensus now order snapshot cache txs).
Proof.
  unfold readd_all. induction txs as [|tx txs IH]; [by apply keeps_ret|]. cbn.
  keeps_step; [by apply readd_keeps|]. keeps_step; [done|]. by apply keeps_ret.
Qed.

Lemma reorg_move_keeps :
  keeps ok any (reorg_move script_verify system_cell consensus now order snapshot).
Proof.
  unfold reorg_move. apply (keeps_bind _ _ _ _ _ move_gap_keeps). intros entries He.
  apply (keeps_bind _ _ _ _ _ move_pending_keeps). intros [more gaps] Hm.
  apply (keeps_bind _ _ _ _ _ move_conflict_keeps). intros [rest more_gaps] Hr. cbn in *.
  keeps_step.
  - apply keeps_for_each. intros [[c size] tx] Htx. unfold enter_or_log. repeat keeps_step; [|done].
    apply proposed_and_descendants_keeps.
    rewrite Forall_forall in He, Hm, Hr. rewrite !elem_of_app in Htx. by destruct Htx as [?%He|[?%Hm|?%Hr]].
  - apply keeps_for_each. intros [[c size] tx] _. unfold enter_or_log. repeat keeps_step; [|done].
    apply gap_tx_keeps.
Qed.
End moves.

Lemma window_new_tip self snapshot :
  window_ok self ->
  window snapshot (set (snap_proposals (pool_snapshot self)) ∖ set (snap_proposals snapshot)) (set_snapshot self snapshot).
Proof.
  intros [_ Hk Hp Hg Hc]. split; try done. unfold proposed_keys in *. cbn. intros id Hid. apply Hk in Hid.
  destruct (decide (id ∈ set (snap_proposals snapshot))); set_solver.
Qed.
Lemma remove_committed_infallible txs : infallible (remove_committed_txs_from_proposed txs).
Proof.
  apply infallible_for_each. intros [tx l]. apply infallible_bind; [done|]. intros self.
  destruct (ProposedPool_remove_committed_tx (proposed self) tx l) as [removed q].
  apply infallible_bind; [done|]. intros _. apply infallible_bind; [by apply infallible_for_each|done].
Qed.
Lemma related_of_no_err snapshot txs e : try_map (related_of snapshot) txs <> Err e.
Proof.
  induction txs as [|tx txs IH]; [done|]. cbn.
  assert (forall e, related_of snapshot tx <> Err e) as Hn by (intros e'; unfold related_of; by case_match).
  destruct (related_of snapshot tx); cbn; [|by destruct (Hn e0)|done]. by destruct (try_map (related_of snapshot) txs).
Qed.

Lemma reorg_remove_window attached ids snapshot self r self' :
  window_ok self -> set (snap_proposals (pool_snapshot self)) ∖ set (snap_proposals snapshot) ⊆ ids ->
  reorg_remove attached ids snapshot self = Ok (r, self') -> window snapshot ∅ self' /\ r = inr tt.
Proof.
  intros Hw Hids. unfold reorg_remove, mbind, PoolM_bind. cbn.
  pose proof (window_new_tip self snapshot Hw) as Hn. set (but := set _ ∖ set _) in *.
  unfold lift. destruct (try_map (related_of snapshot) attached) as [txs|e|] eqn:Ht; cbn;
    [|by apply related_of_no_err in Ht|done].
  intros ([r1 p1] & H1' & Hr)%bind_Ok.
  destruct (infallible_Ok _ _ _ _ (remove_committed_infallible txs) H1') as [? ->].
  destruct (infallible_Ok _ _ _ _ (remove_expired_infallible _) Hr) as [[] ->]. split; [|done].
  assert (window snapshot but p1) as Hp1.
  { refine (proj1 (keeps_for_each (window snapshot but) remove_committed_tx txs _ _ _ _ Hn H1')).
    intros txr _. apply remove_committed_keeps. }
  apply (remove_expired_window snapshot but) in Hr; [|done]. replace (∅ : gset ProposalShortId) with (but ∖ list_to_set (hash_iter ids)); [done|].
  apply set_eq. intros y. rewrite elem_of_difference, elem_of_list_to_set, hash_iter_perm, elem_of_elements, elem_of_empty.
  split; [|done]. intros [Hb Hi]. by apply Hi, Hids.
Qed.


(** *** Submission *)

Definition status_ok (snapshot : Snapshot) (tx : ResolvedTransaction) (status : TxStatus) : Prop :=
  status = TxStatus_Proposed -> TransactionView_proposal_short_id (transaction tx) ∈ set (snap_proposals snapshot).

Lemma resolve_tx_status pool snapshot provider tx rtx size fee status :
  resolve_tx system_cell consensus pool snapshot provider tx = Ok (rtx, size, fee, status) ->
  status_ok snapshot rtx status.
Proof.
  unfold resolve_tx, ProposalView_contains_proposed. intros ([|] & _ & Hr)%bind_Ok; [done|].
  case_bool_decide as Hp; apply bind_Ok in Hr as (rtx' & Hx & (fee' & _ & Hr)%bind_Ok); injection Hr as -> _ _ <-.
  - intros _. unfold resolve_tx_from_proposed, resolve_tx_with in Hx.
    apply bind_Ok in Hx as ([rtx1 seen] & Ht & [= <-]). apply resolve_transaction_Ok in Ht as [-> _]. done.
  - unfold status_ok. by case_match.
Qed.

Lemma pre_resolve_status pool txs tip snapshot rtxs status :
  pre_resolve_txs system_cell consensus pool txs = Ok (tip, snapshot, rtxs, status) ->
  snapshot = pool_snapshot pool /\ Forall2 (fun rtx '(_, _, st) => status_ok snapshot rtx st) rtxs status.
Proof.
  unfold pre_resolve_txs. intros ([] & _ & ([provider resolved] & Hf & [= _ <- <- <-])%bind_Ok)%bind_Ok.
  split; [done|].
  assert (Forall (fun '(rtx, _, _, st) => status_ok (pool_snapshot pool) rtx st) resolved) as Hs.
  { refine (try_fold_inv (fun '(_, resolved) _ => Forall (fun '(rtx, _, _, st) => status_ok (pool_snapshot pool) rtx st) resolved)
      _ _ _ _ Hf _ _); [done|].
    intros [p1 l1] tx l [p2 l2] Hl ([[[rtx size] fee] st] & Hr & [= <- <-])%bind_Ok.
    apply Forall_app_2; [done|]. apply Forall_singleton. by eapply resolve_tx_status. }
  clear Hf. induction Hs as [|[[[rtx size] fee] st] l Hst Hl IH]; [constructor|]. by constructor.
Qed.
Lemma verify_rtxs_fst snapshot rtxs cache max verified :
  verify_rtxs script_verify consensus snapshot rtxs cache max = Ok verified -> verified.*1 = rtxs.
Proof.
  unfold verify_rtxs. rewrite try_map_Ok. induction 1 as [|rtx v rtxs vs Hv _ IH]; [done|].
  apply bind_Ok in Hv as (c & _ & [= <-]). cbn. by f_equal.
Qed.
Lemma prepare_status pool cache txs verified tip status :
  prepare_txs script_verify system_cell consensus pool cache txs = Ok (verified, tip, status) ->
  Forall2 (fun v '(_, _, st) => status_ok (pool_snapshot pool) v.1 st) verified status.
Proof.
  unfold prepare_txs. intros ([[[t snapshot] rtxs] st] & Hp & (vs & Hv & [= <- _ <-])%bind_Ok)%bind_Ok.
  apply pre_resolve_status in Hp as [-> Hp]. apply verify_rtxs_fst in Hv. rewrite <- Hv in Hp.
  by apply Forall2_fmap_l in Hp.
Qed.

Lemma submit_tx_keeps s rtx c size fee status :
  status_ok s rtx status -> keeps (window s ∅) (fun _ => True) (submit_tx now (rtx, c, (size, fee, status))).
Proof.
  intros Hst. unfold submit_tx. repeat keeps_step; auto using add_statics_keeps, add_pending_keeps, add_gap_keeps.
  apply add_proposed_keeps. by apply Hst.
Qed.

(** C23: A submission keeps the proposed pool within the commit window when the tip
    is the same in its two parts, whatever else happens to the pool between them. *)
Theorem submit_keeps_window pool cache txs self r self' :
  window_ok self -> pool_snapshot self = pool_snapshot pool ->
  process_txs script_verify system_cell consensus now pool cache txs self = Ok (r, self') ->
  window_ok self' /\ pool_snapshot self' = pool_snapshot self.
Proof.
  intros Hw Hs Hr. assert (window (pool_snapshot self) ∅ self') as Hk.
  { refine (proj1 ((_ : keeps (window (pool_snapshot self) ∅) (fun _ => True) _) _ _ _ Hw Hr)). unfold process_txs.
    keeps_step. destruct a as [[verified tip] status]. apply prepare_status in Hm. rewrite <- Hs in Hm.
    keeps_step; [|by apply keeps_ret]. unfold submit_txs. keeps_step.
    keeps_step; [repeat keeps_step; done|]. apply keeps_for_each.
    intros [[rtx c] [[size fee] st]] Hin. apply submit_tx_keeps.
    apply elem_of_lookup_zip_with in Hin as (i & x & y & [= <- <-] & Hx & Hy).
    by apply (Forall2_lookup_lr _ _ _ _ _ _ Hm Hx) in Hy. }
  unfold window_ok. by rewrite (win_snapshot _ _ _ Hk).
Qed.
End window.

(** ** Concrete runs *)

#[local] Existing Instance numext_ref.

(** The transaction with the hash [[n; n; ...]] and [k] outputs of the capacity [c]. *)
Definition paid_tx (n : Z) (spent : list (Z * Z)) (k : nat) (c : Z) : TransactionView :=
  mkTransactionView
    (mkTransaction (mkRawTransaction 0 [] []
      ((fun p => mkCellInput 0 (mkOutPoint (repeat p.1 32) p.2)) <$> spent)
      (replicate k (mkCellOutput c (mkScript [] 0 []) None)) (replicate k [])) [])
    (repeat n 32) (repeat n 32).
(** A chain of one block, whose transaction 90 has two live outputs. *)
Definition pool_block : BlockView := cell_block 0 [0] [] [cell_tx [1] [OutPoint_null] 0; paid_tx 90 [] 2 (10 ^ 12)].
Definition pool_store : Store :=
  let s := insert_block empty_store pool_block in
  match attach_main (E:=unit) s pool_block with Ok s => s | _ => s end.
Definition pool_tip (hash : Byte32) (set gap : list Z) : Snapshot :=
  mkSnapshot (mkHeaderView (header_data (BlockView_header pool_block)) hash) 0 sample_epoch pool_store
    (mkProposalView (list_to_set (pool_id <$> gap)) (list_to_set (pool_id <$> set))).
Definition pool_config : TxPoolConfig := mkTxPoolConfig 10000 10000 100 100 0 1000 25.

Definition run_pool {A} (m : PoolM A) (p : TxPool) : TxPool := match m p with Ok (_, p) => p | _ => p end.
Definition pool_submit (pool : TxPool) (txs : list TransactionView) :=
  process_txs toy_scripts None toy_consensus 5000 pool ∅ txs.
Definition pool_reorg (detached attached : list BlockView) (ids : list Z) (tip : Snapshot) :=
  _update_tx_pool_for_reorg toy_scripts None toy_consensus 6000 map_to_list ∅ detached attached
    (list_to_set (pool_id <$> ids)) tip.

(** Transaction 1 is in the commit window of the first tip, and leaves it with the second. *)
Definition stale_pool : TxPool := TxPool_new pool_config (pool_tip [1] [1] []) 0.
Definition stale_after : TxPool := run_pool (pool_reorg [] [] [1] (pool_tip [2] [] [])) stale_pool.

Lemma run_pool_Ok {A} (m : PoolM A) p :
  match m p with Ok _ => true | _ => false end = true -> exists r, m p = Ok (r, run_pool m p).
Proof. unfold run_pool. destruct (m p) as [[r p']| |]; [by exists r|done..]. Qed.
Lemma pool_new_window config snapshot t : window_ok (TxPool_new config snapshot t).
Proof.
  split; [done|..].
  - unfold proposed_keys, txs_of. cbn. by rewrite fmap_empty, dom_empty_L.
  - unfold own_ids, txs_of. cbn. rewrite fmap_empty. apply map_Forall_empty.
  - unfold own_ids, txs_of. cbn. rewrite fmap_empty. apply map_Forall_empty.
  - cbn. intros id e. by rewrite lookup_empty.
Qed.


Lemma submit_keeps_window_witness :
  window_ok (run_pool (pool_submit stale_pool [paid_tx 1 [(90, 0)] 1 (10 ^ 11)]) stale_pool).
Proof.
  destruct (run_pool_Ok (pool_submit stale_pool [paid_tx 1 [(90, 0)] 1 (10 ^ 11)]) stale_pool) as [r Hr]; [by vm_compute|].
  exact (proj1 (submit_keeps_window toy_scripts None toy_consensus 5000 stale_pool ∅ _ stale_pool r _
    (pool_new_window _ _ _) eq_refl Hr)).
Defined.


(** Transaction 2 spends an output of transaction 1; both are proposed and wait in
    the gap pool. *)
Definition gap_pool : TxPool :=
  let pool := TxPool_new pool_config (pool_tip [1] [] [1; 2]) 0 in
  run_pool (pool_submit pool [paid_tx 1 [(90, 0)] 1 (5 * 10 ^ 11); paid_tx 2 [(1, 0)] 1 (10 ^ 11)]) pool.
Definition gap_after : TxPool := run_pool (pool_reorg [] [] [] (pool_tip [2] [1] [2])) gap_pool.
(** When transaction 1 may be committed, it moves to the proposed pool; transaction
    2, which is still in the gap, is removed with it and lost, and the totals still
    count it. *)
Theorem gap_descendant_lost :
  TxPool_contains_tx gap_pool (pool_id 2) = true /\
  ProposedPool_contains_key (proposed gap_after) (pool_id 1) = true /\
  TxPool_contains_tx gap_after (pool_id 2) = false /\
  total_tx_size gap_after = total_tx_size gap_pool /\ 0 < total_tx_size gap_pool.
Proof. by vm_compute. Qed.
