(* ===== verification/BlockAssembler.v ===== *)
(** * Block templates: src/tx-pool/src/block_assembler/mod.rs, the templates of
    src/tx-pool/src/process.rs and src/util/jsonrpc-types/src/block_template.rs

    A miner asks the transaction pool for a template: the assembler builds the
    cellbase, chooses uncles among the candidates, proposals and transactions from
    the pools, and computes the DAO field.  Templates are cached per tip and limits.
    The JSON types of a template hold the fields of the packed ones, so the template
    carries the packed data. *)

From S2P Require Import Prelude Capacity NumExt Rational Difficulty Types Molecule BlockCodec.
From S2P Require Import Errors Epoch Cell Consensus Hashes Store Dao Reward ProposalTable HeaderVerifier BlockVerifier.
From S2P Require Import TransactionVerifier UnclesVerifier ContextualVerifier Chain PoolEntry SortedTxMap ProposedPool.
From S2P Require Import CommitScanner PendingQueue OrphanPool CandidateUncles TxPool.

(** ** Templates *)

Record UncleTemplate := mkUncleTemplate {
  ut_hash : Byte32;
  ut_required : bool;
  ut_proposals : list ProposalShortId;
  ut_header : Header;
}.
Record CellbaseTemplate := mkCellbaseTemplate {
  ct_hash : Byte32;
  ct_cycles : option Z;
  ct_data : Transaction;
}.
Record TransactionTemplate := mkTransactionTemplate {
  tt_hash : Byte32;
  tt_required : bool;
  tt_cycles : option Z;
  tt_depends : option (list Z);
  tt_data : Transaction;
}.
Record BlockTemplate := mkBlockTemplate {
  bt_version : Z;
  bt_compact_target : Z;
  bt_current_time : Z;
  bt_number : Z;
  bt_epoch : EpochNumberWithFraction;
  bt_parent_hash : Byte32;
  bt_cycles_limit : Z;
  bt_bytes_limit : Z;
  bt_uncles_count_limit : Z;
  bt_uncles : list UncleTemplate;
  bt_transactions : list TransactionTemplate;
  bt_proposals : list ProposalShortId;
  bt_cellbase : CellbaseTemplate;
  bt_work_id : Z;
  bt_dao : Byte32;
}.
Definition set_current_time (t : BlockTemplate) (time : Z) : BlockTemplate :=
  mkBlockTemplate (bt_version t) (bt_compact_target t) time (bt_number t) (bt_epoch t)
    (bt_parent_hash t) (bt_cycles_limit t) (bt_bytes_limit t) (bt_uncles_count_limit t) (bt_uncles t)
    (bt_transactions t) (bt_proposals t) (bt_cellbase t) (bt_work_id t) (bt_dao t).

Definition UncleTemplate_into (t : UncleTemplate) : UncleBlock :=
  mkUncleBlock (ut_header t) (ut_proposals t).

(** The fields of a [RawHeader] that a builder leaves out are zero. *)
Definition default_raw_header : RawHeader :=
  mkRawHeader 0 0 0 0 0 Byte32_zero Byte32_zero Byte32_zero Byte32_zero Byte32_zero.

Inductive BlockAssemblerError :=
  | BlockAssemblerError_InvalidInput
  | BlockAssemblerError_InvalidParams (bytes_limit : Z).
(** The errors that a [failure::Error] carries here; the last one is the internal
    error with the reason [BlockAssembler disabled]. *)
Inductive FailureError :=
  | FailureError_Error (e : Error)
  | FailureError_Assembler (e : BlockAssemblerError)
  | FailureError_Disabled.
#[export] Instance into_failure_error : Into Error FailureError := FailureError_Error.
#[export] Instance into_failure_assembler : Into BlockAssemblerError FailureError := FailureError_Assembler.

Record BlockAssemblerConfig := mkBlockAssemblerConfig {
  ba_code_hash : Byte32;
  ba_hash_type : ScriptHashType;
  ba_args : bytes;
  ba_message : bytes;
}.

(** ** The cache of templates *)

Definition BLOCK_TEMPLATE_TIMEOUT : Z := 3000.
Definition TEMPLATE_CACHE_SIZE : Z := 10.
Record TemplateCache := mkTemplateCache {
  tc_time : Z;
  tc_uncles_updated_at : Z;
  tc_txs_updated_at : Z;
  tc_template : BlockTemplate;
}.
Definition TemplateCache_is_outdate (self : TemplateCache) (current_time : Z) : bool :=
  BLOCK_TEMPLATE_TIMEOUT <? saturating_sub current_time (tc_time self).
Definition TemplateCache_is_modified (self : TemplateCache)
    (last_uncles_updated_at last_txs_updated_at : Z) : bool :=
  negb (last_uncles_updated_at =? tc_uncles_updated_at self) ||
  negb (last_txs_updated_at =? tc_txs_updated_at self).
(** The tip, the limits on bytes and proposals, and the version. *)
Definition BlockTemplateCacheKey : Type := Byte32 * Z * Z * Z.

Section ops.
Context `{NumExt} `{Hasher} `{LruCache Z} `{HashOrder} `{UnstableSort} `{EntryOrder} `{UncleOrder}.
Context `{LD : LruMap ProposalShortId DefectEntry} `{LH : LruMap ProposalShortId Byte32}.
Context `{LT : LruMap BlockTemplateCacheKey TemplateCache}.
Context (system_cell : option (gmap CellDep ResolvedDep)) (consensus : Consensus).

Record BlockAssembler := mkBlockAssembler {
  ba_config : BlockAssemblerConfig;
  ba_work_id : Z;
  ba_last_uncles_updated_at : Z;
  ba_template_caches : lrm BlockTemplateCacheKey TemplateCache;
  ba_candidate_uncles : CandidateUncles;
}.
Definition BlockAssembler_new (config : BlockAssemblerConfig) : BlockAssembler :=
  mkBlockAssembler config 0 0 (lrm_new TEMPLATE_CACHE_SIZE) CandidateUncles_new.

Definition TransactionTemplate_into (t : TransactionTemplate) : Transaction := tt_data t.
(** [impl From<BlockTemplate> for packed::Block]. *)
Definition BlockTemplate_into (t : BlockTemplate) : Block :=
  let raw := mkRawHeader (bt_version t) (bt_compact_target t) (bt_current_time t) (bt_number t)
    (EpochFraction_full_value (bt_epoch t)) (bt_parent_hash t) Byte32_zero Byte32_zero Byte32_zero (bt_dao t) in
  Block_reset_header
    (mkBlock (mkHeader raw 0) (UncleTemplate_into <$> bt_uncles t)
       (ct_data (bt_cellbase t) :: (TransactionTemplate_into <$> bt_transactions t)) (bt_proposals t)).

(** ** The assembler *)

(** [Option::min] has [None] below every value, so that a missing limit is the
    limit of the consensus. *)
Definition min_limit (limit : option Z) (max : Z) : Z :=
  match limit with Some l => Z.min l max | None => max end.
Definition transform_params (bytes_limit proposals_limit max_version : option Z) : Z * Z * Z :=
  (min_limit bytes_limit (max_block_bytes consensus),
   min_limit proposals_limit (max_block_proposals_limit consensus),
   min_limit max_version (block_version consensus)).

Definition transform_uncle (uncle : UncleBlockView) : UncleTemplate :=
  mkUncleTemplate (uncle_hash uncle) false (uncle_proposals (uncle_data uncle))
    (uncle_header (uncle_data uncle)).
Definition transform_cellbase (tx : TransactionView) (cycles : option Z) : CellbaseTemplate :=
  mkCellbaseTemplate (tx_hash tx) cycles (tx_data tx).
Definition transform_tx (tx : TxEntry) (required : bool) (depends : option (list Z)) : TransactionTemplate :=
  mkTransactionTemplate (tx_hash (te_transaction tx)) required (Some (te_cycles tx)) depends
    (tx_data (te_transaction tx)).

Definition calculate_txs_size_limit (bytes_limit : Z) (cellbase : Transaction)
    (uncles : list UncleBlockView) (proposals : gset ProposalShortId) : outcome FailureError Z :=
  let block := mkBlock (mkHeader default_raw_header 0) (uncle_data <$> uncles) [cellbase]
    (hash_iter proposals) in
  serialized_size ← Block_serialized_size_without_uncle_proposals block;
  if serialized_size <=? bytes_limit then Ok (bytes_limit - serialized_size)
  else Err (into (BlockAssemblerError_InvalidParams bytes_limit)).

(** The transaction that the builder makes of these inputs, outputs and witnesses. *)
Definition cellbase_tx (input : CellInput) (witness : bytes) (outputs : list CellOutput) : TransactionView :=
  Transaction_into_view
    (mkTransaction (mkRawTransaction 0 [] [] [input] outputs ((fun _ => []) <$> outputs)) [witness]).
(** [Ok None] is the reward calculator running out of fuel. *)
Definition build_cellbase (snapshot : Snapshot) (tip : HeaderView) (cellbase_witness : CellbaseWitness) :
    outcome Error (option TransactionView) :=
  candidate_number ← u64_add (HeaderView_number tip) 1;
  r ← block_reward_to_finalize consensus (snap_store snapshot) tip;
  match r with
  | None => Ok None
  | Some (target_lock, block_reward) =>
      let input := CellInput_new_cellbase_input candidate_number in
      let output := mkCellOutput (reward_total block_reward) target_lock None in
      let witness := as_slice cellbase_witness in
      delay ← finalization_delay_length consensus;
      let no_finalization_target := candidate_number <=? delay in
      insufficient_reward_to_create_cell ← cap (CellOutput_is_lack_of_capacity output Capacity_zero);
      Ok (Some (cellbase_tx input witness
        (if no_finalization_target || insufficient_reward_to_create_cell then [] else [output])))
  end.

(** The condition under which the loop drops a candidate. *)
Definition refuses_uncle (snapshot : Snapshot) (candidate_number : Z) (current_epoch_ext : EpochExt)
    (uncles : list UncleBlockView) (uncle : UncleBlockView) : bool :=
  let store := snap_store snapshot in
  let raw := UncleBlockView_raw uncle in
  let on_chain h := bool_decide (is_Some (get_block_number store h)) in
  negb (compact_target raw =? epoch_compact_target current_epoch_ext)
  || negb (EpochFraction_number (RawHeader_epoch raw) =? epoch_number current_epoch_ext)
  || on_chain (uncle_hash uncle)
  || is_uncle store (uncle_hash uncle)
  || negb (existsb (fun u => bool_decide (uncle_hash u = parent_hash raw)) uncles
           || on_chain (parent_hash raw) || is_uncle store (parent_hash raw))
  || (candidate_number <=? number raw).
(** The loop over the candidates: the chosen uncles and the candidates to remove. *)
Fixpoint uncles_loop (snapshot : Snapshot) (candidate_number : Z) (current_epoch_ext : EpochExt)
    (uncles removed values : list UncleBlockView) : list UncleBlockView * list UncleBlockView :=
  match values with
  | [] => (uncles, removed)
  | uncle :: values =>
      if (length uncles =? max_uncles_num consensus)%nat then (uncles, removed)
      else if refuses_uncle snapshot candidate_number current_epoch_ext uncles uncle
      then uncles_loop snapshot candidate_number current_epoch_ext uncles (removed ++ [uncle]) values
      else uncles_loop snapshot candidate_number current_epoch_ext (uncles ++ [uncle]) removed values
  end.
Definition prepare_uncles {E : Type} (snapshot : Snapshot) (candidate_number : Z)
    (current_epoch_ext : EpochExt) (candidate_uncles : CandidateUncles) :
    outcome E (list UncleBlockView * CandidateUncles) :=
  let '(uncles, removed) :=
    uncles_loop snapshot candidate_number current_epoch_ext [] [] (CandidateUncles_values candidate_uncles) in
  candidate_uncles ← try_fold (fun c r => snd <$> CandidateUncles_remove c r) candidate_uncles removed;
  Ok (uncles, candidate_uncles).

(** ** The service *)

Definition template_time {E : Type} (now : Z) (tip_header : HeaderView) : outcome E Z :=
  t ← u64_add (HeaderView_timestamp tip_header) 1;
  Ok (Z.max now t).

Definition get_block_template_cache {E : Type} (bytes_limit proposals_limit version : Z)
    (snapshot : Snapshot) (self : BlockAssembler) (last_txs_updated_at now : Z) :
    outcome E (option BlockTemplate) :=
  let tip_header := snap_tip_header snapshot in
  current_time ← template_time now tip_header;
  match lrm_get (ba_template_caches self) (header_hash tip_header, bytes_limit, proposals_limit, version) with
  | Some template_cache =>
      Ok (if negb (TemplateCache_is_outdate template_cache current_time) ||
             negb (TemplateCache_is_modified template_cache (ba_last_uncles_updated_at self) last_txs_updated_at)
          then Some (set_current_time (tc_template template_cache) current_time) else None)
  | None => Ok None
  end.

Definition build_block_template_cellbase (snapshot : Snapshot) (config : BlockAssemblerConfig) :
    outcome Error (option TransactionView) :=
  let cellbase_lock := mkScript (ba_code_hash config) (ScriptHashType_into (ba_hash_type config)) (ba_args config) in
  build_cellbase snapshot (snap_tip_header snapshot) (mkCellbaseWitness cellbase_lock (ba_message config)).

(** The chosen uncles, the epoch of the next block, and the assembler with the
    remaining candidates. *)
Definition prepare_block_template_uncles (snapshot : Snapshot) (self : BlockAssembler) :
    outcome Error (list UncleBlockView * EpochExt * BlockAssembler) :=
  let tip_header := snap_tip_header snapshot in
  let last_epoch := snap_epoch_ext snapshot in
  next_epoch_ext ← store_next_epoch_ext (snap_store snapshot) consensus last_epoch tip_header;
  let current_epoch := default last_epoch next_epoch_ext in
  candidate_number ← u64_add (HeaderView_number tip_header) 1;
  '(uncles, candidates) ← prepare_uncles snapshot candidate_number current_epoch (ba_candidate_uncles self);
  Ok (uncles, current_epoch,
      mkBlockAssembler (ba_config self) (ba_work_id self) (ba_last_uncles_updated_at self)
        (ba_template_caches self) candidates).

Definition package_txs_for_block_template (pool : TxPool) (bytes_limit proposals_limit max_block_cycles : Z)
    (cellbase : TransactionView) (uncles : list UncleBlockView) :
    outcome FailureError (gset ProposalShortId * list TxEntry) :=
  let uncle_proposals : gset ProposalShortId := list_to_set (uncles ≫= fun u => uncle_proposals (uncle_data u)) in
  proposals ← get_proposals pool proposals_limit uncle_proposals;
  txs_size_limit ← calculate_txs_size_limit bytes_limit (tx_data cellbase) uncles proposals;
  '(entries, _, _) ← txs_to_commit (proposed pool) txs_size_limit max_block_cycles (min_fee_rate (config pool));
  Ok (proposals, entries).

Definition build_block_template (snapshot : Snapshot) (entries : list TxEntry)
    (proposals : gset ProposalShortId) (cellbase : TransactionView) (work_id : Z) (current_epoch : EpochExt)
    (uncles : list UncleBlockView) (bytes_limit version now : Z) : outcome FailureError BlockTemplate :=
  let tip_header := snap_tip_header snapshot in
  let store := snap_store snapshot in
  let txs := cellbase :: (te_transaction <$> entries) in
  let overlay_cell_provider :=
    OverlayCellProvider_cell
      (TransactionsProvider_cell CellOutput_calc_data_hash (TransactionsProvider_new txs))
      (store_cell CellOutput_calc_data_hash store) in
  '(rtxs, _) ← map_err (fun _ => into BlockAssemblerError_InvalidInput)
    (resolve_transactions system_cell overlay_cell_provider (Snapshot_check_valid consensus snapshot) ∅ txs);
  dao ← map_err into (dao_field CellOutput_calc_data_hash consensus store rtxs tip_header);
  candidate_number ← u64_add (HeaderView_number tip_header) 1;
  current_time ← template_time now tip_header;
  epoch ← EpochExt_number_with_fraction current_epoch candidate_number;
  Ok (mkBlockTemplate version (epoch_compact_target current_epoch) current_time candidate_number epoch
        (header_hash tip_header) (max_block_cycles consensus) bytes_limit
        (Z.of_nat (max_uncles_num consensus) mod 2 ^ 32) (transform_uncle <$> uncles)
        ((fun entry => transform_tx entry false None) <$> entries) (hash_iter proposals)
        (transform_cellbase cellbase None) work_id dao).

Definition update_block_template_cache (self : BlockAssembler) (key : BlockTemplateCacheKey)
    (uncles_updated_at txs_updated_at : Z) (template : BlockTemplate) : BlockAssembler :=
  mkBlockAssembler (ba_config self) (ba_work_id self) (ba_last_uncles_updated_at self)
    (lrm_insert (ba_template_caches self) key
       (mkTemplateCache (bt_current_time template) uncles_updated_at txs_updated_at template)).2
    (ba_candidate_uncles self).

(** [work_id.fetch_add(1)]. *)
Definition fetch_work_id (self : BlockAssembler) : Z * BlockAssembler :=
  (ba_work_id self,
   mkBlockAssembler (ba_config self) ((ba_work_id self + 1) mod 2 ^ 64) (ba_last_uncles_updated_at self)
     (ba_template_caches self) (ba_candidate_uncles self)).

(** The part of [get_block_template] after a miss of the cache. *)
Definition fresh_template (self : BlockAssembler) (pool : TxPool) (snapshot : Snapshot)
    (bytes_limit proposals_limit version now : Z) :
    outcome FailureError (option (BlockTemplate * BlockAssembler)) :=
  cellbase ← map_err into (build_block_template_cellbase snapshot (ba_config self));
  match cellbase with
  | None => Ok None
  | Some cellbase =>
      '(uncles, current_epoch, self) ← map_err into (prepare_block_template_uncles snapshot self);
      let uncles_updated_at := ba_last_uncles_updated_at self in
      '(proposals, entries) ← package_txs_for_block_template pool bytes_limit proposals_limit
        (max_block_cycles consensus) cellbase uncles;
      let txs_updated_at := last_txs_updated_at pool in
      let '(work_id, self) := fetch_work_id self in
      block_template ← build_block_template snapshot entries proposals cellbase work_id current_epoch uncles
        bytes_limit version now;
      Ok (Some (block_template,
        update_block_template_cache self
          (header_hash (snap_tip_header snapshot), bytes_limit, proposals_limit, version)
          uncles_updated_at txs_updated_at block_template))
  end.

(** [now] is the clock at the look-up in the cache, [now'] when the template is
    complete.  The candidates that [prepare_uncles] removes stay removed when a later
    step fails; an error does not carry the assembler. *)
Definition get_block_template (self : option BlockAssembler) (pool : TxPool) (snapshot : Snapshot)
    (bytes_limit proposals_limit max_version : option Z) (now now' : Z) :
    outcome FailureError (option (BlockTemplate * BlockAssembler)) :=
  match self with
  | None => Err FailureError_Disabled
  | Some self =>
      let '(bytes_limit, proposals_limit, version) :=
        transform_params bytes_limit proposals_limit max_version in
      cache ← get_block_template_cache bytes_limit proposals_limit version snapshot self
        (last_txs_updated_at pool) now;
      match cache with
      | Some template => Ok (Some (template, self))
      | None => fresh_template self pool snapshot bytes_limit proposals_limit version now'
      end
  end.
End ops.
