(* ===== verification/TemplateBlock.v ===== *)
(** * The blocks of templates are accepted

    The composition of the assembler (BlockAssembler.v) with the verifiers of a
    block.  [tip_ready], [pool_ready] and [assembler_ready] say when the parts of the
    node fit together; [template_accepted] shows that the block of a template then
    passes the verification and the contextual checks, and
    [template_header_accepted] that its header is accepted.
    [template_out_of_order] is a template that the node refuses, after a
    reorganisation has left a child in the pool without a link to its parent.  The
    verification of the transactions themselves is not part of these statements, and
    the store is that of the snapshot, before the block is written to it. *)

From stdpp Require Import sorting.
From S2P Require Import Prelude Capacity NumExt Rational Difficulty Types Molecule BlockCodec.
From S2P Require Import Errors Epoch Cell Consensus Hashes Store Dao Reward ProposalTable HeaderVerifier BlockVerifier.
From S2P Require Import TransactionVerifier UnclesVerifier ContextualVerifier ChainCell Chain PoolEntry SortedTxMap ProposedPool.
From S2P Require Import CommitScanner PendingQueue OrphanPool CandidateUncles TxPool PoolService BlockAssembler CellTwins.

(** ** The cellbase *)

Section cellbase.
Context `{NumExt} `{Hasher} (consensus : Consensus) (snapshot : Snapshot).
Abbreviation store := (snap_store snapshot).

Lemma reward_total_u64 parent l r :
  block_reward_to_finalize consensus store parent = Ok (Some (l, r)) -> is_u64 (reward_total r).
Proof.
  unfold block_reward_to_finalize, block_reward_internal. intros Hr.
  do 8 apply bind_Ok in Hr as (? & _ & Hr). apply bind_Ok in Hr as ([p|] & _ & Hr); [|done].
  apply bind_Ok in Hr as ([p1 p2] & _ & Hr). apply bind_Ok in Hr as (t & _ & Hr).
  apply bind_Ok in Hr as (t' & Ht%cap_Ok%safe_add_Ok & Hr). injection Hr as _ <-.
  destruct Ht as [-> ?]. done.
Qed.

(** The cellbase of a template has the shape the block verifier asks for, and pays
    the reward that the reward verifier computes. *)
Lemma build_cellbase_Ok tip w tx :
  build_cellbase consensus snapshot tip w = Ok (Some tx) -> valid_CellbaseWitness w ->
  (exists i w os, tx = cellbase_tx i w os) /\ valid_cellbase (HeaderView_number tip + 1) tx /\
  forall resolved rtx, resolved !! 0%nat = Some rtx -> transaction rtx = tx ->
    RewardVerifier_verify store consensus resolved tip = Ok (Some tt).
Proof.
  unfold build_cellbase. intros Hb Hw. apply bind_Ok in Hb as (n & Hn & Hb).
  apply bind_Ok in Hb as ([[l r]|] & Hr & Hb); [|done].
  apply bind_Ok in Hb as (d & Hd & Hb). apply bind_Ok in Hb as (lack & Hl & Hb). injection Hb as <-.
  assert (n = HeaderView_number tip + 1) as -> by (unfold u64_add in Hn; inv_ok; lia).
  split; [by do 3 eexists|]. split.
  - split.
    + done.
    + destruct (_ || _); cbn; lia.
    + destruct (_ || _); cbn; by repeat constructor.
    + exists (as_slice w), w. split; [done|]. by apply from_slice_as_slice.
    + destruct (_ || _); cbn; by repeat constructor.
  - intros resolved rtx Hfst Ht. unfold RewardVerifier_verify, finalize_block_reward.
    rewrite Hfst. step. rewrite Hn. step. rewrite Hd. step. rewrite Hr. step. rewrite Hl. step. rewrite Ht.
    destruct (_ || _); [done|]. set (o := mkCellOutput _ _ _).
    pose proof (reward_total_u64 _ _ _ Hr) as Hu. unfold TransactionView_outputs_capacity.
    match goal with |- context [cellbase_tx ?i ?w [o]] =>
      change (TransactionView_outputs (cellbase_tx i w [o])) with [o] end.
    assert (cap (CellOutputVec_total_capacity [o]) = Ok (reward_total r)) as ->.
    { apply cap_Ok, total_capacity_Ok; [by apply Forall_singleton|]. cbn. rewrite Z.add_0_r. done. }
    step. rewrite Z.eqb_refl. cbn. by rewrite bool_decide_true.
Qed.
End cellbase.

(** ** The uncles *)

Section uncles.
Context `{NumExt} `{Hasher} `{UncleOrderSpec} (consensus : Consensus) (snapshot : Snapshot).
Context (epoch : EpochExt) (block : BlockView).
Abbreviation store := (snap_store snapshot).
Abbreviation height u := (number (UncleBlockView_raw u)).
Abbreviation parent u := (parent_hash (UncleBlockView_raw u)).

(** A candidate [u] among [cands], as the blocks the chain has accepted are: it is one
    above its parent, and its proposals and its proof of work are in order. *)
Record candidate_sound (cands : list UncleBlockView) (u : UncleBlockView) : Prop := {
  cs_view : u = UncleBlock_into_view (uncle_data u);
  cs_height : 0 <= height u;
  cs_chain : is_Some (get_block_number store (parent u)) -> exists header,
    get_block_header store (parent u) = Some header /\ HeaderView_number header + 1 = height u;
  cs_uncle header : get_uncle_header store (parent u) = Some header -> HeaderView_number header + 1 = height u;
  cs_sibling v : v ∈ cands -> uncle_hash v = parent u -> height v + 1 = height u;
  cs_same v : v ∈ cands -> uncle_hash v = uncle_hash u -> height v = height u;
  cs_limit : zlen (uncle_proposals (uncle_data u)) <= max_block_proposals_limit consensus;
  cs_hash : proposals_hash (UncleBlockView_raw u) = UncleBlock_calc_proposals_hash (uncle_data u);
  cs_nodup : NoDup (uncle_proposals (uncle_data u));
  cs_pow : pow_engine_verify (pow consensus) (uncle_header (uncle_data u)) = true;
}.
Definition candidates_sound (c : CandidateUncles) : Prop :=
  Forall (candidate_sound (CandidateUncles_values c)) (CandidateUncles_values c).

Abbreviation provider := (UncleVerifierContext_new store consensus epoch).
Hypothesis number_u64 : is_u64 (BlockView_number block).

Lemma chosen_uncle cands uncles u :
  candidate_sound cands u -> uncles ⊆ cands -> uncle_hash u ∉ uncle_hash <$> uncles ->
  refuses_uncle snapshot (BlockView_number block) epoch uncles u = false ->
  accepted_uncle provider block uncles u.
Proof.
  intros Hu Hsub Hfresh Hr. unfold refuses_uncle in Hr.
  apply orb_false_iff in Hr as [Hr Hlow%Z.leb_gt]. apply orb_false_iff in Hr as [Hr Hpar%negb_false_iff].
  apply orb_false_iff in Hr as [Hr Hun]. apply orb_false_iff in Hr as [Hr Hch].
  apply orb_false_iff in Hr as [Ht%negb_false_iff%Z.eqb_eq He%negb_false_iff%Z.eqb_eq].
  pose proof (cs_height _ _ Hu) as Hh.
  assert (forall header, HeaderView_number header + 1 = height u -> is_child_number header (height u) = Ok true) as Hchild.
  { intros header Hn. unfold is_child_number, u64_add. rewrite fit_in_range by zlia. step. by rewrite Hn, Z.eqb_refl. }
  split; try done.
  - destruct (existsb _ _) eqn:Hex; [left|right].
    + apply existsb_exists in Hex as (v & Hv%list_elem_of_In & Hvp%bool_decide_eq_true).
      exists v. split_and!; [done|done|]. by apply (cs_sibling _ _ Hu); [apply Hsub|].
    + cbn. unfold context_descendant. change (HeaderView_parent_hash (UncleBlockView_header u)) with (parent u).
      change (HeaderView_number (UncleBlockView_header u)) with (height u).
      case_bool_decide as Hon; cbn [orb] in Hpar.
      * destruct (cs_chain _ _ Hu Hon) as (header & -> & Hn). by apply Hchild.
      * unfold is_uncle in Hpar. apply bool_decide_eq_true in Hpar as [header Hg].
        unfold get_uncle_header. rewrite Hg. by apply Hchild, (cs_uncle _ _ Hu).
  - cbn. unfold context_double_inclusion. by rewrite Hch, Hun.
  - apply (cs_limit _ _ Hu).
  - apply (cs_hash _ _ Hu).
  - apply (cs_nodup _ _ Hu).
  - apply (cs_pow _ _ Hu).
Qed.

(** Every uncle of the list is accepted after those before it. *)
Definition uncles_accepted (us : list UncleBlockView) : Prop :=
  forall i u, us !! i = Some u -> accepted_uncle provider block (take i us) u.
Lemma uncles_accepted_snoc us u :
  uncles_accepted us -> accepted_uncle provider block us u -> uncles_accepted (us ++ [u]).
Proof.
  intros Hus Hu i v Hv. apply lookup_app_Some in Hv as [Hv|[Hi Hv]].
  - pose proof (lookup_lt_Some _ _ _ Hv). rewrite take_app_le by lia. by apply Hus.
  - apply list_lookup_singleton_Some in Hv as [Hi0 <-].
    by replace i with (length us) by lia; rewrite take_app_length.
Qed.

Lemma uncles_loop_accepted cands values uncles removed us rm :
  Forall (candidate_sound cands) values -> uncles ++ values ⊆ cands ->
  NoDup (uncle_hash <$> uncles ++ values) -> (length uncles <= max_uncles_num consensus)%nat ->
  uncles_accepted uncles ->
  uncles_loop consensus snapshot (BlockView_number block) epoch uncles removed values = (us, rm) ->
  uncles_accepted us /\ us ⊆ cands /\ (length us <= max_uncles_num consensus)%nat.
Proof.
  intros Hs. revert uncles removed. induction Hs as [|u values Hu Hs IH]; intros uncles removed Hsub Hnd Hl Ha.
  - cbn. intros [= <- <-]. rewrite app_nil_r in Hsub. done.
  - cbn. destruct (Nat.eqb_spec (length uncles) (max_uncles_num consensus)) as [|Hne].
    { intros [= <- <-]. split_and!; [done| |done]. intros x Hx. apply Hsub, elem_of_app. by left. }
    destruct (refuses_uncle _ _ _ _ _) eqn:Hr.
    + apply IH; [|revert Hnd|done|done].
      * intros x Hx. apply Hsub. rewrite elem_of_app, elem_of_cons. apply elem_of_app in Hx. naive_solver.
      * rewrite !fmap_app, !NoDup_app, fmap_cons, NoDup_cons. intros (? & Hd & _ & ?). split_and!; [done| |done].
        intros x Hx Hv. apply (Hd x Hx). by right.
    + rewrite cons_middle, app_assoc in Hsub, Hnd. apply IH; [done|done| |].
      * rewrite length_app. cbn. lia.
      * apply uncles_accepted_snoc; [done|]. apply (chosen_uncle cands); [done| | |done].
        -- intros x Hx. apply Hsub. rewrite !elem_of_app. by left; left.
        -- rewrite !fmap_app, NoDup_app in Hnd. destruct Hnd as [Hnd _].
           apply NoDup_app in Hnd as (_ & Hd & _). intros Hx. apply (Hd _ Hx). by left.
Qed.

Lemma rows_elem (m : list (Z * list UncleBlockView)) u :
  u ∈ (m ≫= fun r => uncle_iter r.2) <-> exists r, r ∈ m /\ u ∈ r.2.
Proof. rewrite list_elem_of_bind. setoid_rewrite uncle_iter_perm. naive_solver. Qed.

Lemma rows_nodup (m : list (Z * list UncleBlockView)) :
  StronglySorted Z.lt m.*1 -> Forall row_ok m ->
  (forall u v, u ∈ (m ≫= fun r => uncle_iter r.2) -> v ∈ (m ≫= fun r => uncle_iter r.2) ->
     uncle_hash u = uncle_hash v -> height u = height v) ->
  NoDup (uncle_hash <$> (m ≫= fun r => uncle_iter r.2)).
Proof.
  induction m as [|r m IH]; intros Hs Hr Hsame; [constructor|].
  rewrite fmap_cons, StronglySorted_cons in Hs. destruct Hs as [Hlt Hs]. apply Forall_cons in Hr as [Hr Hm].
  rewrite bind_cons in *. rewrite fmap_app. apply NoDup_app. split_and!.
  - rewrite uncle_iter_perm. apply (ro_nodup _ Hr).
  - intros h Hh Hh'. apply list_elem_of_fmap in Hh as (u & -> & Hu), Hh' as (v & Hv & Hin).
    assert (height u = height v) as Heq by (apply Hsame; rewrite ?elem_of_app; auto).
    rewrite uncle_iter_perm in Hu. apply (ro_height _ Hr) in Hu.
    apply rows_elem in Hin as (r' & Hr' & Hin). rewrite Forall_forall in Hm. rewrite Forall_forall in Hlt.
    apply (ro_height _ (Hm r' Hr')) in Hin. specialize (Hlt r'.1 ltac:(by apply list_elem_of_fmap_2)).
    unfold uncle_height in *. lia.
  - apply IH; [done|done|]. intros u v Hu Hv. apply Hsame; rewrite elem_of_app; auto.
Qed.

Lemma values_nodup c :
  candidates_ok c -> candidates_sound c -> NoDup (uncle_hash <$> CandidateUncles_values c).
Proof.
  intros [Hso Hr _ _] Hs. unfold candidates_sound in Hs. rewrite Forall_forall in Hs.
  apply rows_nodup; [done|done|]. intros u v Hu Hv Heq. by apply (cs_same _ _ (Hs v Hv)).
Qed.

Lemma into_iter_data us :
  block_uncles (block_data block) = uncle_data <$> us ->
  uncles_hashes (BlockView_uncles block) = uncle_hash <$> us ->
  UncleBlockVecView_into_iter (E:=Error) (BlockView_uncles block) = Ok us.
Proof.
  intros Hdata Hhash. unfold UncleBlockVecView_into_iter. apply try_map_Ok.
  change (uncles_data (BlockView_uncles block)) with (block_uncles (block_data block)). rewrite Hhash, Hdata.
  apply Forall2_same_length_lookup. split.
  - by rewrite length_enumerate, length_fmap.
  - intros i [j d] u Hi Hu. rewrite enumerate_lookup, list_lookup_fmap, Hu in Hi. cbn in Hi. injection Hi as <- <-.
    rewrite list_lookup_fmap, Hu. cbn. by destruct u.
Qed.

(** The uncles of a template pass the verifier of the block. *)
Lemma prepare_uncles_accepted c us c' E :
  candidates_ok c -> candidates_sound c -> Z.of_nat (max_uncles_num consensus) < 2 ^ 32 ->
  prepare_uncles consensus snapshot (BlockView_number block) epoch c = Ok (E:=E) (us, c') ->
  0 < BlockView_number block ->
  block_uncles (block_data block) = uncle_data <$> us ->
  (Forall (fun u => u = UncleBlock_into_view (uncle_data u)) us ->
     uncles_hashes (BlockView_uncles block) = uncle_hash <$> us) ->
  uncles_hash (BlockView_raw block) = BlockView_calc_uncles_hash block ->
  UnclesVerifier_verify provider block = Ok tt.
Proof.
  intros Hok Hs Hmax Hp Hpos Hdata Hhash Hroot. unfold prepare_uncles in Hp.
  destruct (uncles_loop _ _ _ _ _ _ _) as [us' rm] eqn:Hl.
  apply bind_Ok in Hp as (c'' & _ & Hp). injection Hp as -> _.
  apply (uncles_loop_accepted (CandidateUncles_values c)) in Hl as (Ha & Hsub & Hlen);
    [|done|done|by apply values_nodup|cbn; lia|by intros ? ? ?].
  unfold candidates_sound in Hs. rewrite Forall_forall in Hs. apply (UnclesVerifier_Ok provider block number_u64 us).
  - apply into_iter_data; [done|]. apply Hhash, Forall_forall. intros u Hu%Hsub. apply (cs_view _ _ (Hs u Hu)).
  - apply Forall_forall. intros u Hu%Hsub. apply (cs_height _ _ (Hs u Hu)).
  - lia.
  - done.
  - split; [done|]. right. split_and!; [by apply Z.eqb_neq; lia|done|done].
Qed.
End uncles.

(** ** The size *)

Lemma transactions_size c txs :
  zlen (@as_slice _ TransactionVec_codec (c :: txs)) =
  zlen (@as_slice _ TransactionVec_codec [c]) + sumZ (Transaction_serialized_size_in_block <$> txs).
Proof.
  cbn [as_slice TransactionVec_codec dynvec_codec]. rewrite !dynvec_write_table, !length_table_write.
  rewrite !zlen_concat, !length_fmap, !fmap_cons. cbn [length sumZ foldr fmap list_fmap].
  unfold Transaction_serialized_size_in_block, NUMBER_SIZE.
  induction txs as [|tx txs IH]; cbn [length fmap list_fmap sumZ foldr] in *; [lia|]. unfold sumZ in *. lia.
Qed.

Lemma default_header_length : length (@as_slice _ Header_codec (mkHeader default_raw_header 0)) = 208%nat.
Proof. by vm_compute. Qed.

Lemma block_size_extends h us c txs ps :
  valid_Header h ->
  zlen (@as_slice _ Block_codec (mkBlock h us (c :: txs) ps)) =
  zlen (@as_slice _ Block_codec (mkBlock (mkHeader default_raw_header 0) us [c] ps)) +
  sumZ (Transaction_serialized_size_in_block <$> txs).
Proof.
  intros Hh. cbn [as_slice Block_codec table_codec]. rewrite !length_table_write.
  cbn [fwrite fcons fnil block_header block_uncles block_transactions block_proposals concat length].
  rewrite !length_app, (Header_length h Hh), default_header_length. pose proof (transactions_size c txs). lia.
Qed.

Lemma serialized_size_nonneg {E : Type} b size :
  Block_serialized_size_without_uncle_proposals (E:=E) b = Ok size -> 0 <= size.
Proof.
  unfold Block_serialized_size_without_uncle_proposals. intros (? & _ & [-> Hr]%fit_Ok)%bind_Ok. zlia.
Qed.
(** The block is as large as the empty template and the transactions together. *)
Lemma serialized_size_extends {E : Type} h us c txs ps size :
  valid_Header h ->
  Block_serialized_size_without_uncle_proposals (E:=E) (mkBlock (mkHeader default_raw_header 0) us [c] ps) = Ok size ->
  0 <= size + sumZ (Transaction_serialized_size_in_block <$> txs) < 2 ^ 64 ->
  Block_serialized_size_without_uncle_proposals (E:=Error) (mkBlock h us (c :: txs) ps) =
    Ok (size + sumZ (Transaction_serialized_size_in_block <$> txs)).
Proof.
  intros Hh Hs Hlt. unfold Block_serialized_size_without_uncle_proposals in *. cbn [block_uncles] in *.
  apply bind_Ok in Hs as (sizes & Hm & Hs). unfold u64_sub in Hs at 1. apply fit_Ok in Hs as [-> Hr].
  rewrite (proj2 (try_map_Ok (E:=Error) _ _ sizes)).
  - step. rewrite (block_size_extends h) by done. unfold u64_sub. rewrite fit_in_range by zlia. f_equal. lia.
  - apply try_map_Ok in Hm. eapply Forall2_impl; [exact Hm|]. cbn. intros u z. unfold u64_sub. rewrite !fit_Ok. done.
Qed.

(** ** The block of a template *)

(** The block with the nonce that a miner finds, as the node receives it. *)
Definition mined `{Hasher} (t : BlockTemplate) (nonce : Z) : BlockView :=
  let b := BlockTemplate_into t in
  Block_into_view (mkBlock (mkHeader (header_raw (block_header b)) nonce) (block_uncles b)
    (block_transactions b) (block_proposals b)).
(** A view whose hashes are those of its data. *)
Definition genuine `{Hasher} (tx : TransactionView) : Prop := tx = Transaction_into_view (tx_data tx).

Section parts.
Context `{NumExt} `{Hasher} `{HashOrder} (system_cell : option (gmap CellDep ResolvedDep)) (consensus : Consensus).
Context (snapshot : Snapshot) (entries : list TxEntry) (proposals : gset ProposalShortId).
Context (cellbase : TransactionView) (epoch : EpochExt) (uncles : list UncleBlockView) (version : Z).
Abbreviation tip := (snap_tip_header snapshot).
Abbreviation store := (snap_store snapshot).
Abbreviation txs := (cellbase :: (te_transaction <$> entries)).
Abbreviation data_hash := CellOutput_calc_data_hash.

(** What a template is made of. *)
Record built_from (t : BlockTemplate) : Prop := {
  bf_version : bt_version t = version;
  bf_target : bt_compact_target t = epoch_compact_target epoch;
  bf_number : bt_number t = HeaderView_number tip + 1;
  bf_number_u64 : is_u64 (HeaderView_number tip + 1);
  bf_time : HeaderView_timestamp tip < bt_current_time t;
  bf_epoch : EpochExt_number_with_fraction (E:=Error) epoch (bt_number t) = Ok (bt_epoch t);
  bf_parent : bt_parent_hash t = header_hash tip;
  bf_uncles : bt_uncles t = transform_uncle <$> uncles;
  bf_transactions : bt_transactions t = (fun entry => transform_tx entry false None) <$> entries;
  bf_proposals : bt_proposals t = hash_iter proposals;
  bf_cellbase : bt_cellbase t = transform_cellbase cellbase None;
  bf_resolved : exists rtxs seen,
    resolve_transactions system_cell
      (OverlayCellProvider_cell (TransactionsProvider_cell data_hash (TransactionsProvider_new txs))
         (store_cell data_hash store)) (Snapshot_check_valid consensus snapshot) ∅ txs = Ok (rtxs, seen) /\
    dao_field data_hash consensus store rtxs tip = Ok (bt_dao t);
}.

Lemma build_block_template_Ok work_id bytes_limit now t :
  build_block_template system_cell consensus snapshot entries proposals cellbase work_id epoch uncles bytes_limit
    version now = Ok t ->
  built_from t.
Proof.
  unfold build_block_template. intros Ht. apply bind_Ok in Ht as ([rtxs seen] & Hr%map_err_Ok & Ht).
  apply bind_Ok in Ht as (d & Hd%map_err_Ok & Ht). apply bind_Ok in Ht as (n & Hn & Ht).
  apply bind_Ok in Ht as (time & Htime & Ht). apply bind_Ok in Ht as (e & He & Ht). injection Ht as <-.
  unfold u64_add in Hn. apply fit_Ok in Hn as [-> Hn]. unfold template_time, u64_add in Htime.
  apply bind_Ok in Htime as (t' & [-> _]%fit_Ok & Htime). injection Htime as <-.
  split; cbn; try done; [lia| |by exists rtxs, seen].
  unfold EpochExt_number_with_fraction, u64_sub in *. apply bind_Ok in He as (i & [-> Hi]%fit_Ok & He).
  injection He as <-. rewrite fit_in_range by done. done.
Qed.

Context (t : BlockTemplate) (Hb : built_from t) (time nonce : Z).
Abbreviation b := (mined (set_current_time t time) nonce).

Lemma mined_transactions : Forall genuine txs -> transactions_of b txs.
Proof.
  intros Hg. assert (block_transactions (block_data b) = tx_data <$> txs) as Hd.
  { cbn. rewrite (bf_transactions _ Hb), (bf_cellbase _ Hb). cbn. f_equal. by rewrite <- !list_fmap_compose. }
  split; [done|..].
  - change (block_tx_hashes b) with (Transaction_calc_tx_hash <$> block_transactions (block_data b)).
    rewrite Hd, <- list_fmap_compose. apply list_fmap_ext. intros i tx Htx.
    rewrite Forall_lookup in Hg. by rewrite (Hg i tx Htx).
  - change (block_tx_witness_hashes b) with (Transaction_calc_witness_hash <$> block_transactions (block_data b)).
    rewrite Hd, <- list_fmap_compose. apply list_fmap_ext. intros i tx Htx.
    rewrite Forall_lookup in Hg. by rewrite (Hg i tx Htx).
Qed.

Lemma mined_uncles : block_uncles (block_data b) = uncle_data <$> uncles.
Proof.
  cbn. rewrite (bf_uncles _ Hb), <- list_fmap_compose. apply list_fmap_ext. intros i u _. by destruct u as [[] ?].
Qed.
Lemma mined_uncles_hashes :
  Forall (fun u => u = UncleBlock_into_view (uncle_data u)) uncles ->
  uncles_hashes (BlockView_uncles b) = uncle_hash <$> uncles.
Proof.
  intros Hg. change (uncles_hashes (BlockView_uncles b)) with
    (UncleBlock_calc_header_hash <$> block_uncles (block_data b)).
  rewrite mined_uncles, <- list_fmap_compose. apply list_fmap_ext. intros i u Hu. rewrite Forall_lookup in Hg.
  by rewrite (Hg i u Hu).
Qed.

Lemma mined_number : BlockView_number b = HeaderView_number tip + 1.
Proof. exact (bf_number _ Hb). Qed.
End parts.

(** ** Ready pools and tips *)

Section ready.
Context `{NumExt} `{Hasher} `{LruCache Z} `{HashOrderSpec, UnstableSortSpec, EntryOrderSpec, UncleOrderSpec}.
Context `{LD : LruMap ProposalShortId DefectEntry} `{LH : LruMap ProposalShortId Byte32}.
Context `{LT : LruMap BlockTemplateCacheKey TemplateCache}.
Context (system_cell : option (gmap CellDep ResolvedDep)) (consensus : Consensus) (snapshot : Snapshot).
Abbreviation tip := (snap_tip_header snapshot).
Abbreviation store := (snap_store snapshot).
Abbreviation window_of := (tx_proposal_window consensus).

(** The snapshot is that of a main chain with its tip, epoch and commit window. *)
Record tip_ready : Prop := {
  tr_chain : main_chain store;
  tr_header : get_block_header store (header_hash tip) = Some tip;
  tr_meta : get_tip_header store = Some tip;
  tr_number : 0 <= HeaderView_number tip;
  tr_index n : 0 <= n <= HeaderView_number tip -> is_Some (col_index store !! n);
  tr_epoch : get_block_epoch store (header_hash tip) = Some (snap_epoch_ext snapshot);
  tr_proposals id : id ∈ set (snap_proposals snapshot) -> exists k,
    1 <= k /\ HeaderView_number tip + 1 - farthest window_of <= k <= HeaderView_number tip + 1 - closest window_of /\
    id ∈ proposals_at store k;
}.
Record consensus_ready : Prop := {
  cr_window : window_wf window_of;
  cr_uncles : Z.of_nat (max_uncles_num consensus) < 2 ^ 32;
  cr_bytes : max_block_bytes consensus < u64_max;
  cr_cycles : 0 <= max_block_cycles consensus < u64_max;
}.
(** A transaction of the proposed pool. *)
Record entry_ready (e : TxEntry) : Prop := {
  er_genuine : genuine (te_transaction e);
  er_size : te_size e = Transaction_serialized_size_in_block (tx_data (te_transaction e));
  er_not_cellbase : TransactionView_is_cellbase (te_transaction e) = false;
  er_hash : tx_hash (te_transaction e) <> Byte32_zero;
}.
(** The pool works for the tip: its proposed transactions are in the commit window,
    and every one is linked to its parents in the pool. *)
Record pool_ready (pool : TxPool) : Prop := {
  pr_window : window_ok pool;
  pr_snapshot : pool_snapshot pool = snapshot;
  pr_consistent : pool_consistent (proposed pool);
  pr_entries id e : stm_entries (pp_inner (proposed pool)) !! id = Some e -> entry_ready e;
  pr_linked id e : stm_entries (pp_inner (proposed pool)) !! id = Some e ->
    in_pool_parents (pp_inner (proposed pool)) (te_transaction e) ⊆ ProposedPool_get_ancestors (proposed pool) id;
  pr_pending : stm_wf (pq_inner (pending pool));
  pr_gap : stm_wf (pq_inner (gap_queue pool));
}.

Context (pool : TxPool) (Hpool : pool_ready pool).
Abbreviation m := (pp_inner (proposed pool)).

Context (size_limit cycles_limit size cycles : Z) (entries : list TxEntry).
Context (Hc : commit_ok (proposed pool) size_limit cycles_limit entries size cycles).

Lemma entry_of e : e ∈ entries ->
  exists e0, stm_entries m !! te_id e = Some e0 /\ te_transaction e = te_transaction e0 /\ te_size e = te_size e0.
Proof.
  intros He. pose proof Hc as (_ & Hs & _). destruct (Hs e He) as (e0 & He0 & Ht & Hw).
  exists e0. split_and!; [done|done|apply (Hw W_size)].
Qed.
Lemma entry_ready_of e : e ∈ entries -> entry_ready e.
Proof.
  intros (e0 & He0 & Ht & Hs)%entry_of. destruct (pr_entries _ Hpool _ _ He0) as [? ? ? ?].
  split; rewrite ?Hs, Ht; done.
Qed.

Lemma entries_hashes : NoDup (tx_hash <$> (te_transaction <$> entries)).
Proof.
  pose proof Hc as (Hnd & _). apply (NoDup_fmap_1 ProposalShortId_from_tx_hash).
  by rewrite <- !list_fmap_compose.
Qed.
Lemma entries_genuine : Forall genuine (te_transaction <$> entries).
Proof. apply Forall_fmap, Forall_forall. intros e He. apply (er_genuine _ (entry_ready_of e He)). Qed.
Lemma entries_size :
  sumZ (Transaction_serialized_size_in_block <$> (tx_data <$> (te_transaction <$> entries))) = size.
Proof.
  pose proof Hc as (_ & _ & _ & Hsz & _). rewrite Hsz, <- !list_fmap_compose. f_equal. apply list_fmap_ext.
  intros i e He. symmetry. apply er_size, entry_ready_of. by eapply list_elem_of_lookup_2.
Qed.

(** No transaction comes before one whose output it refers to. *)
Lemma entries_ordered i j e e' o :
  entries !! i = Some e -> entries !! j = Some e' -> o ∈ referred (te_transaction e) ->
  op_tx_hash o = tx_hash (te_transaction e') -> (j < i)%nat.
Proof.
  intros Hi Hj Ho Hh. pose proof Hc as (Hnd & _ & Htopo & _).
  destruct (entry_of e (list_elem_of_lookup_2 _ _ _ Hi)) as (e0 & He0 & Ht & _).
  destruct (entry_of e' (list_elem_of_lookup_2 _ _ _ Hj)) as (e1 & He1 & _ & _).
  assert (te_id e' ∈ SortedTxMap_get_ancestors m (te_id e)) as Hanc.
  { apply (pr_linked _ Hpool _ _ He0). rewrite <- Ht. unfold in_pool_parents.
    apply elem_of_list_to_set, list_elem_of_filter. split; [apply (wf_dom _ (pc_wf _ (pr_consistent _ Hpool))); by exists e1|].
    unfold te_id, TransactionView_proposal_short_id. rewrite <- Hh, elem_of_app.
    apply elem_of_app in Ho as [(d & -> & Hd)%list_elem_of_fmap|Ho].
    - right. apply list_elem_of_fmap. by exists d.
    - left. unfold TransactionView_input_pts_iter in Ho. apply list_elem_of_fmap in Ho as (inp & -> & Hin).
      apply list_elem_of_fmap. by exists inp. }
  destruct (Htopo i e _ Hi Hanc) as (k & e2 & Hk & He2 & Hid).
  enough (j = k) by lia. apply (NoDup_lookup _ j k (te_id e') Hnd); rewrite list_lookup_fmap; [by rewrite Hj|].
  by rewrite He2, <- Hid.
Qed.
End ready.

(** ** The verdicts *)

Section verdicts.
Context `{NumExt} `{Hasher} `{LruCache Z} `{HashOrderSpec, UnstableSortSpec, EntryOrderSpec, UncleOrderSpec}.
Context `{LD : LruMap ProposalShortId DefectEntry} `{LH : LruMap ProposalShortId Byte32}.
Context (system_cell : option (gmap CellDep ResolvedDep)) (consensus : Consensus) (snapshot : Snapshot).
Abbreviation tip := (snap_tip_header snapshot).
Abbreviation store := (snap_store snapshot).
Context (Htip : tip_ready consensus snapshot) (Hcons : consensus_ready consensus).
Context (pool : TxPool) (Hpool : pool_ready snapshot pool).
Context (size_limit size cycles : Z) (entries : list TxEntry).
Context (Hc : commit_ok (proposed pool) size_limit (max_block_cycles consensus) entries size cycles).
Context (proposals : gset ProposalShortId) (cellbase : TransactionView) (epoch : EpochExt).
Context (uncles : list UncleBlockView) (version : Z) (t : BlockTemplate) (time nonce : Z).
Context (Hb : built_from system_cell consensus snapshot entries proposals cellbase epoch uncles version t).
Abbreviation b := (mined (set_current_time t time) nonce).
Abbreviation txs := (cellbase :: (te_transaction <$> entries)).
Context (Hview : genuine cellbase) (Hcb : valid_cellbase (HeaderView_number tip + 1) cellbase).
Context (Hdeps : TransactionView_cell_deps cellbase = []).
Context (Hzero : tx_hash cellbase <> Byte32_zero).
Context (Hfresh : forall id e, stm_entries (pp_inner (proposed pool)) !! id = Some e ->
  tx_hash (te_transaction e) <> tx_hash cellbase).

Lemma txs_genuine : Forall genuine txs.
Proof. constructor; [done|]. by eapply entries_genuine. Qed.
Lemma txs_of_block : transactions_of b txs.
Proof. by eapply mined_transactions; [|apply txs_genuine]. Qed.
Lemma txs_view : BlockView_transactions b = txs.
Proof. apply transactions_of_view, txs_of_block. Qed.
Lemma txs_hashes : NoDup (tx_hash <$> txs).
Proof.
  rewrite fmap_cons. apply NoDup_cons. split; [|by eapply entries_hashes].
  intros (tx & Htx & (e & -> & He)%list_elem_of_fmap)%list_elem_of_fmap.
  destruct (entry_of _ _ _ _ _ _ Hc e He) as (e0 & He0 & Ht & _). apply (Hfresh _ _ He0). by rewrite <- Ht.
Qed.
Lemma number_positive : 0 < BlockView_number b.
Proof. rewrite (mined_number _ _ _ _ _ _ _ _ _ _ Hb). pose proof (tr_number _ _ Htip). lia. Qed.
Lemma not_genesis : BlockView_is_genesis b = false.
Proof. apply Z.eqb_neq. pose proof number_positive. unfold BlockView_number in *. lia. Qed.

Lemma txs_ordered i j tx tx' o :
  txs !! i = Some tx -> txs !! j = Some tx' -> o ∈ referred tx -> op_tx_hash o = tx_hash tx' -> (j < i)%nat.
Proof.
  intros Hi Hj Ho Hh. destruct i as [|i].
  - injection Hi as <-. exfalso. unfold referred in Ho. rewrite Hdeps in Ho. cbn in Ho.
    unfold TransactionView_input_pts_iter in Ho. rewrite (cellbase_inputs _ _ Hcb) in Ho.
    apply list_elem_of_singleton in Ho as ->. cbn in Hh. destruct j as [|j]; [by injection Hj as <-|].
    change ((te_transaction <$> entries) !! j = Some tx') in Hj. rewrite list_lookup_fmap in Hj. destruct (entries !! j) as [e|] eqn:He; [|done]. injection Hj as <-.
    apply (er_hash e); [eapply entry_ready_of; [done..|by eapply list_elem_of_lookup_2]|done].
  - destruct j as [|j]; [lia|]. change ((te_transaction <$> entries) !! i = Some tx) in Hi.
    change ((te_transaction <$> entries) !! j = Some tx') in Hj. rewrite list_lookup_fmap in Hi. rewrite list_lookup_fmap in Hj.
    destruct (entries !! i) as [e|] eqn:Hei; [|done]. destruct (entries !! j) as [e'|] eqn:Hej; [|done].
    injection Hi as <-. injection Hj as <-.
    apply -> Nat.succ_lt_mono. by eapply (entries_ordered snapshot pool Hpool _ _ _ _ _ Hc i j e e' o).
Qed.

(** The block resolves, with the DAO field of the template. *)
Lemma mined_resolves : exists p resolved,
  BlockCellProvider_new b = Ok p /\ resolve_block system_cell consensus store p b = Ok resolved /\
  transaction <$> resolved !! 0%nat = Some cellbase /\
  dao_field CellOutput_calc_data_hash consensus store resolved tip = Ok (dao (BlockView_raw b)).
Proof.
  assert (exists p, BlockCellProvider_new b = Ok p) as [p Hp].
  { apply BlockCellProvider_new_ordered; rewrite txs_view; [apply txs_hashes|].
    intros i j tx tx' o. apply txs_ordered. }
  destruct (bf_resolved _ _ _ _ _ _ _ _ _ _ Hb) as (rtxs & seen & Hr & Hdao).
  eapply (resolve_twins system_cell _
    (OverlayCellProvider_cell (BlockCellProvider_cell CellOutput_calc_data_hash p)
       (store_cell CellOutput_calc_data_hash store)) _ (check_valid store consensus)) in Hr as (resolved & Hr & Htw).
  - exists p, resolved. split_and!; [done| | |].
    + unfold resolve_block. rewrite txs_view, Hr. done.
    + apply resolve_transactions_Ok in Hr as (Htxs & _). rewrite <- list_lookup_fmap, Htxs. done.
    + by eapply dao_field_twins.
  - intros o wd s. apply (block_provider_twin _ b p txs); [apply txs_of_block|apply txs_hashes|done|].
    pose proof number_positive. lia.
  - intros h. unfold Snapshot_check_valid, check_valid. rewrite (tr_meta _ _ Htip). done.
Qed.

(** The transactions were proposed in the window. *)
Lemma mined_two_phase : TwoPhaseCommitVerifier_verify store consensus b = Ok tt.
Proof.
  pose proof number_positive as Hpos. pose proof (bf_number_u64 _ _ _ _ _ _ _ _ _ _ Hb) as Hu.
  pose proof (mined_number _ _ _ _ _ _ _ _ _ _ Hb time nonce) as Hn. pose proof (cr_window _ Hcons) as Hw.
  apply TwoPhaseCommit_Ok; [apply Htip|done|apply not_genesis|by rewrite Hn| |].
  - apply (tr_index _ _ Htip). unfold window_wf in Hw. pose proof (tr_number _ _ Htip). zlia.
  - rewrite txs_view, Hn. cbn [drop]. intros tx (e & -> & He)%list_elem_of_fmap.
    apply (tr_proposals _ _ Htip). destruct (entry_of _ _ _ _ _ _ Hc e He) as (e0 & He0 & _ & _).
    pose proof (win_keys _ _ _ (pr_window _ _ Hpool)) as Hk. rewrite (pr_snapshot _ _ Hpool) in Hk.
    assert (te_id e ∈ proposed_keys pool) as Hin.
    { unfold proposed_keys, txs_of. rewrite dom_fmap. apply elem_of_dom. by exists e0. }
    apply Hk in Hin. by apply elem_of_union in Hin as [?|?%elem_of_empty].
Qed.

Context (bytes_limit : Z) (Hbytes : bytes_limit <= max_block_bytes consensus).
Context (Hsize : calculate_txs_size_limit bytes_limit (tx_data cellbase) uncles proposals = Ok size_limit).
Context (Hlimit : Z.of_nat (base.size proposals) <= max_block_proposals_limit consensus).

(** The block passes the checks that do not need the chain. *)
Lemma mined_accepted : valid_Header (block_header (block_data b)) -> accepted_block consensus b.
Proof.
  intros Hh. assert (block_proposals (block_data b) = hash_iter proposals) as Hprop by exact (bf_proposals _ _ _ _ _ _ _ _ _ _ Hb).
  split.
  - rewrite Hprop, hash_iter_perm. exact Hlimit.
  - intros _. unfold calculate_txs_size_limit in Hsize. apply bind_Ok in Hsize as (s0 & Hs0 & Hlim).
    destruct (Z.leb_spec s0 bytes_limit); [|done]. injection Hlim as Hlim.
    pose proof (entries_size _ _ Hpool _ _ _ _ _ Hc) as Hsum. pose proof Hc as (_ & _ & _ & Hsz & Hle & _).
    exists (s0 + size). split; [|lia]. rewrite <- Hsum. rewrite <- Hsum in Hsz, Hle.
    pose proof (serialized_size_nonneg _ _ Hs0).
    assert (block_data b = mkBlock (block_header (block_data b)) (uncle_data <$> uncles)
      (tx_data cellbase :: (tx_data <$> (te_transaction <$> entries))) (hash_iter proposals)) as ->.
    { rewrite <- (mined_uncles _ _ _ _ _ _ _ _ _ _ Hb time nonce), <- Hprop, <- fmap_cons, <- (to_data _ _ txs_of_block).
      by destruct (block_data b). }
    eapply serialized_size_extends; [done|done|]. pose proof (cr_bytes _ Hcons). unfold u64_max in *.
    split; [|lia]. apply Z.add_nonneg_nonneg; [done|]. apply sumZ_nonneg, Forall_fmap, Forall_true.
    intros tx. cbn. unfold Transaction_serialized_size_in_block, NUMBER_SIZE. lia.
  - intros _. exists cellbase, (te_transaction <$> entries). split_and!; [apply txs_view| |].
    + by rewrite (mined_number _ _ _ _ _ _ _ _ _ _ Hb).
    + apply Forall_fmap, Forall_forall. intros e He. by eapply er_not_cellbase, entry_ready_of.
  - rewrite txs_view. apply txs_hashes.
  - rewrite Hprop, hash_iter_perm. apply NoDup_elements.
  - done.
  - done.
Qed.
End verdicts.

(** ** Templates *)

Section template.
Context `{NumExt} `{Hasher} `{LruCache Z} `{HashOrderSpec, UnstableSortSpec, EntryOrderSpec, UncleOrderSpec}.
Context `{LD : LruMap ProposalShortId DefectEntry} `{LH : LruMap ProposalShortId Byte32}.
Context `{LT : LruMap BlockTemplateCacheKey TemplateCache}.
Context (system_cell : option (gmap CellDep ResolvedDep)) (consensus : Consensus) (snapshot : Snapshot).
Abbreviation tip := (snap_tip_header snapshot).
Abbreviation store := (snap_store snapshot).

Definition config_witness (c : BlockAssemblerConfig) : CellbaseWitness :=
  mkCellbaseWitness (mkScript (ba_code_hash c) (ScriptHashType_into (ba_hash_type c)) (ba_args c)) (ba_message c).
Record assembler_ready (self : BlockAssembler) : Prop := {
  ar_witness : valid_CellbaseWitness (config_witness (ba_config self));
  ar_candidates : candidates_ok (ba_candidate_uncles self);
  ar_sound : candidates_sound consensus snapshot (ba_candidate_uncles self);
}.
(** The cellbase is not one of the pool, nor is the zero hash one of a transaction. *)
Definition cellbase_fresh (pool : TxPool) (t : BlockTemplate) : Prop :=
  ct_hash (bt_cellbase t) <> Byte32_zero /\
  forall id e, stm_entries (pp_inner (proposed pool)) !! id = Some e ->
    tx_hash (te_transaction e) <> ct_hash (bt_cellbase t).

(** The steps that lead to a template. *)
Lemma fresh_template_Ok self pool bytes_limit proposals_limit version now t self' :
  fresh_template system_cell consensus self pool snapshot bytes_limit proposals_limit version now = Ok (Some (t, self')) ->
  exists cellbase epoch uncles candidates proposals size_limit entries size cycles,
    build_cellbase consensus snapshot tip (config_witness (ba_config self)) = Ok (Some cellbase) /\
    (exists next, store_next_epoch_ext store consensus (snap_epoch_ext snapshot) tip = Ok (E:=Error) next /\
       epoch = default (snap_epoch_ext snapshot) next) /\
    prepare_uncles consensus snapshot (HeaderView_number tip + 1) epoch (ba_candidate_uncles self) =
      Ok (E:=Error) (uncles, candidates) /\
    get_proposals pool proposals_limit (list_to_set (uncles ≫= fun u => uncle_proposals (uncle_data u))) =
      Ok (E:=FailureError) proposals /\
    calculate_txs_size_limit bytes_limit (tx_data cellbase) uncles proposals = Ok size_limit /\
    txs_to_commit (proposed pool) size_limit (max_block_cycles consensus) (min_fee_rate (config pool)) =
      Ok (E:=FailureError) (entries, size, cycles) /\
    built_from system_cell consensus snapshot entries proposals cellbase epoch uncles version t.
Proof.
  unfold fresh_template. intros Ht. apply bind_Ok in Ht as ([cellbase|] & Hcb%map_err_Ok & Ht); [|done].
  apply bind_Ok in Ht as ([[uncles epoch] self1] & Hu%map_err_Ok & Ht).
  apply bind_Ok in Ht as ([proposals entries] & Hp & Ht). apply bind_Ok in Ht as (t' & Hb & Ht).
  injection Ht as -> _. unfold prepare_block_template_uncles in Hu.
  apply bind_Ok in Hu as (next & Hnext & Hu). apply bind_Ok in Hu as (n & Hn & Hu).
  apply bind_Ok in Hu as ([us cands] & Hus & Hu). injection Hu as <- <- <-.
  unfold u64_add in Hn. apply fit_Ok in Hn as [-> _].
  unfold package_txs_for_block_template in Hp. apply bind_Ok in Hp as (ps & Hps & Hp).
  apply bind_Ok in Hp as (limit & Hlim & Hp). apply bind_Ok in Hp as ([[es size] cycles] & Hes & Hp).
  injection Hp as <- <-.
  exists cellbase, (default (snap_epoch_ext snapshot) next), us, cands, ps, limit, es, size, cycles.
  split_and!; [done|by exists next|done..|]. by eapply build_block_template_Ok.
Qed.

Lemma get_proposals_size {E : Type} pool limit exclusion ids :
  pool_ready snapshot pool -> 0 <= limit ->
  get_proposals pool limit exclusion = Ok (E:=E) ids -> Z.of_nat (base.size ids) <= limit.
Proof.
  intros Hp Hl Hg. unfold get_proposals in Hg. apply bind_Ok in Hg as (ids1 & H1' & H2').
  destruct (fill_proposals_Ok (E:=E) (pending pool) (pr_pending _ _ Hp) limit (min_fee_rate (config pool)) exclusion ∅)
    as (r1 & Hr1 & _ & Hs1 & _); [by rewrite size_empty|].
  rewrite Hr1 in H1'. injection H1' as ->.
  destruct (fill_proposals_Ok (E:=E) (gap_queue pool) (pr_gap _ _ Hp) limit (min_fee_rate (config pool)) exclusion ids1)
    as (r2 & Hr2 & _ & Hs2 & _); [done|].
  rewrite Hr2 in H2'. by injection H2' as ->.
Qed.

Lemma size_limit_range bytes_limit cellbase uncles proposals limit :
  calculate_txs_size_limit bytes_limit cellbase uncles proposals = Ok limit -> 0 <= limit <= bytes_limit.
Proof.
  unfold calculate_txs_size_limit. intros (s0 & Hs0%serialized_size_nonneg & Hl)%bind_Ok.
  destruct (Z.leb_spec s0 bytes_limit); simplify_eq. lia.
Qed.


(** The header of a template is accepted as well: when the tip is later than the
    median before it, a time after the tip is later than the median after it, so
    that a miner needs the proof of work only, at a time not too far ahead. *)
Theorem template_header_accepted self pool bytes_limit proposals_limit now now' t self' time nonce :
  let ctx := verify_median_context store consensus in
  tip_ready consensus snapshot -> (0 < median_time_block_count consensus)%nat ->
  (0 < HeaderView_number tip -> exists median,
     block_median_time ctx (HeaderView_parent_hash tip) = Ok median /\ median < HeaderView_timestamp tip) ->
  fresh_template system_cell consensus self pool snapshot bytes_limit proposals_limit (block_version consensus) now =
    Ok (Some (t, self')) ->
  HeaderView_timestamp tip < time <= now' + ALLOWED_FUTURE_BLOCKTIME -> is_u64 (now' + ALLOWED_FUTURE_BLOCKTIME) ->
  let header := BlockView_header (mined (set_current_time t time) nonce) in
  pow_engine_verify (pow consensus) (header_data header) = true ->
  HeaderView_timestamp tip < bt_current_time t /\
  HeaderVerifier_verify consensus ctx now' header (Some tip) = Ok tt.
Proof.
  intros ctx Htip Hcount Hmed Hf Htime Hnow header Hpow.
  apply fresh_template_Ok in Hf as (? & ? & ? & ? & ? & ? & ? & ? & ? & _ & _ & _ & _ & _ & _ & Hb).
  pose proof (bf_number_u64 _ _ _ _ _ _ _ _ _ _ Hb) as Hu. split; [apply (bf_time _ _ _ _ _ _ _ _ _ _ Hb)|].
  assert (timestamp_and_parent ctx (header_hash tip) =
    Ok (HeaderView_timestamp tip, HeaderView_number tip, HeaderView_parent_hash tip)) as Hctx.
  { cbn. by rewrite (tr_header _ _ Htip). }
  assert (exists m, block_median_time ctx (header_hash tip) = Ok m /\ m <= HeaderView_timestamp tip) as (m & Hm & Hle).
  { pose proof (tr_number _ _ Htip). destruct (Z.eq_dec (HeaderView_number tip) 0) as [Hz|Hz].
    - rewrite Hz in Hctx. exists (HeaderView_timestamp tip). split; [by eapply median_genesis|lia].
    - destruct Hmed as (m0 & Hm0 & Hlt); [lia|]. by eapply median_step. }
  apply header_verifier_spec; [done|intros p [= <-]; pose proof (tr_number _ _ Htip); zlia|]. split_and!.
  - exact (bf_version _ _ _ _ _ _ _ _ _ _ Hb).
  - exact Hpow.
  - exists tip. split_and!; [done|exact (bf_number _ _ _ _ _ _ _ _ _ _ Hb)|]. exists m.
    change (HeaderView_parent_hash header) with (bt_parent_hash t). rewrite (bf_parent _ _ _ _ _ _ _ _ _ _ Hb).
    change (HeaderView_timestamp header) with time. split; [done|lia].
Qed.
End template.

(** ** A chain of three blocks, a pool with one transaction and a candidate uncle *)

#[local] Existing Instances numext_ref toy_hasher.

Definition mine_header (n : Z) : HeaderView :=
  mkHeaderView (mkHeader (mkRawHeader 0 0x1d080000 (n * 1000) n 0 (repeat (n - 1) 32) zero32 zero32 zero32
    (pack_dao_data 10000000104789669 3360000290476976400 65136000891 504120308900000000)) 0) (repeat n 32).
Definition mine_tx : TransactionView := Transaction_into_view (tx_data (paid_tx 1 [(90, 0)] 1 (10 ^ 11))).
(** The block with the hash [[k; k; ...]] at the height [n]. *)
Definition mine_block (n k : Z) (txs : list TransactionView) (ids : list ProposalShortId) : BlockView :=
  let cellbase := mkTransactionView (tx_data (toy_cellbase n)) (repeat (200 + k) 32) (repeat (200 + k) 32) in
  BlockView_new_unchecked (mkHeaderView (header_data (mine_header n)) (repeat k 32)) (mkUncleBlockVecView [] [])
    (cellbase :: txs) ids.
Definition chain_store (blocks : list BlockView) (tip : HeaderView) : Store :=
  let s := foldl (fun s b =>
    let s := insert_block s b in
    let s := match attach_main (E:=unit) s b with Ok s => s | _ => s end in
    let s := insert_block_ext s (block_hash b) (mkBlockExt 0 0 0 None []) in
    insert_block_epoch_index s (block_hash b) [1]) empty_store blocks in
  insert_tip_header (insert_epoch_ext s [1] sample_epoch) tip.
(** Transaction 90 of the genesis block has two live outputs, block 1 proposes [ids]. *)
Definition mine_chain (ids : list ProposalShortId) : list BlockView :=
  [mine_block 0 0 [paid_tx 90 [] 2 (10 ^ 12)] []; mine_block 1 1 [] ids; mine_block 2 2 [] []].
Definition mine_store : Store :=
  chain_store (mine_chain [TransactionView_proposal_short_id mine_tx]) (mine_header 2).
Definition mine_snapshot : Snapshot :=
  mkSnapshot (mine_header 2) 0 sample_epoch mine_store
    (mkProposalView ∅ {[TransactionView_proposal_short_id mine_tx]}).
Definition mine_entry : TxEntry :=
  TxEntry_new mine_tx 10 (9 * 10 ^ 11) (Transaction_serialized_size_in_block (tx_data mine_tx)) [].
Definition mine_pool : TxPool :=
  set_proposed (TxPool_new pool_config mine_snapshot 0) (proposed_add (ProposedPool_new 25) mine_entry).
Definition mine_uncle : UncleBlockView :=
  UncleBlock_into_view (mkUncleBlock (mkHeader (mkRawHeader 0 0x1d080000 0 2 0 (repeat 1 32) zero32 zero32 zero32 zero32) 7) []).
Definition mine_assembler : BlockAssembler :=
  let config := mkBlockAssemblerConfig (repeat 3 32) ScriptHashType_Type [1; 2] [] in
  mkBlockAssembler config 0 0 (lrm_new TEMPLATE_CACHE_SIZE)
    (match CandidateUncles_insert (E:=unit) CandidateUncles_new mine_uncle with Ok (_, c) => c | _ => CandidateUncles_new end).
Abbreviation mine_fresh :=
  (fresh_template None toy_consensus mine_assembler mine_pool mine_snapshot (max_block_bytes toy_consensus) 100
    (block_version toy_consensus) 5000).
Definition template_of (r : outcome FailureError (option (BlockTemplate * BlockAssembler))) : option BlockTemplate :=
  match r with Ok (Some (t, _)) => Some t | _ => None end.
Definition mine_template : BlockTemplate := Eval vm_compute in
  default (mkBlockTemplate 0 0 0 0 0 [] 0 0 0 [] [] [] (mkCellbaseTemplate [] None (tx_data mine_tx)) 0 [])
    (template_of mine_fresh).
Lemma template_of_Ok r t : template_of r = Some t -> exists self', r = Ok (Some (t, self')).
Proof. destruct r as [[[t' self']|]|e|]; cbn; intros [= <-]. by exists self'. Qed.
Lemma mine_fresh_Ok : template_of mine_fresh = Some mine_template.
Proof. vm_compute. reflexivity. Qed.

Lemma mine_tip_ready : tip_ready toy_consensus mine_snapshot.
Proof.
  split.
  - apply main_chain_by_compute. vm_compute. reflexivity.
  - vm_compute. reflexivity.
  - vm_compute. reflexivity.
  - vm_compute. discriminate.
  - intros n Hn. change (HeaderView_number (snap_tip_header mine_snapshot)) with 2 in Hn.
    assert (n = 0 \/ n = 1 \/ n = 2) as [E|[E|E]] by (clear -Hn; lia); subst n; vm_compute; eexists; reflexivity.
  - vm_compute. reflexivity.
  - intros id Hid. cbn [mine_snapshot snap_proposals set] in Hid. apply elem_of_singleton in Hid. subst id. exists 1.
    split; [lia|]. split; [vm_compute; split; discriminate|]. apply (bool_decide_unpack _). vm_compute. exact I.
Qed.
Lemma mine_consensus_ready : consensus_ready toy_consensus.
Proof. split; vm_compute; try split; try discriminate; reflexivity. Qed.

Lemma mine_entries : stm_entries (pp_inner (proposed mine_pool)) = {[ te_id mine_entry := mine_entry ]}.
Proof. vm_compute. reflexivity. Qed.
Lemma mine_pool_ready : pool_ready mine_snapshot mine_pool.
Proof.
  split.
  - apply window_proposed; [apply pool_new_window|]. apply (bool_decide_unpack _). vm_compute. exact I.
  - reflexivity.
  - apply pool_consistent_b_sound; [|vm_compute; reflexivity].
    apply (po_wf None), (reachable_ok 25); [vm_compute; reflexivity|]. apply (proposed_add_steps [mine_entry]).
  - intros id e. rewrite mine_entries, lookup_singleton_Some. intros [_ <-].
    split; [reflexivity|reflexivity|vm_compute; reflexivity|vm_compute; discriminate].
  - intros id e. rewrite mine_entries, lookup_singleton_Some. intros [<- <-].
    apply (bool_decide_unpack _). vm_compute. exact I.
  - apply new_wf.
  - apply new_wf.
Qed.

Lemma mine_values : CandidateUncles_values (ba_candidate_uncles mine_assembler) = [mine_uncle].
Proof. vm_compute. reflexivity. Qed.
Lemma mine_assembler_ready : assembler_ready toy_consensus mine_snapshot mine_assembler.
Proof.
  split.
  - apply (valid_by_decoding _ _ _ CellbaseWitness_spec); vm_compute; reflexivity.
  - destruct (insert_ok (E:=unit) CandidateUncles_new mine_uncle) as (b & c & Hi & Hok & _).
    { split; [constructor|constructor|done|done]. }
    unfold mine_assembler. cbn [ba_candidate_uncles]. rewrite Hi. exact Hok.
  - unfold candidates_sound. rewrite mine_values. apply Forall_singleton. split.
    + reflexivity.
    + vm_compute. discriminate.
    + intros _. eexists. split; vm_compute; reflexivity.
    + intros header Hn. vm_compute in Hn. discriminate.
    + intros v ->%list_elem_of_singleton Hn. vm_compute in Hn. discriminate.
    + intros v ->%list_elem_of_singleton _. reflexivity.
    + vm_compute. discriminate.
    + vm_compute. reflexivity.
    + constructor.
    + reflexivity.
Qed.


Lemma template_header_accepted_witness :
  HeaderVerifier_verify toy_consensus (verify_median_context mine_store toy_consensus) 5000
    (BlockView_header (mined (set_current_time mine_template 6000) 42)) (Some (mine_header 2)) = Ok tt.
Proof.
  destruct (template_of_Ok _ _ mine_fresh_Ok) as [self' Hf].
  pose proof (template_header_accepted None toy_consensus mine_snapshot mine_assembler mine_pool
    (max_block_bytes toy_consensus) 100 5000 5000 mine_template self' 6000 42 mine_tip_ready) as Ht.
  refine (proj2 (Ht _ _ Hf _ _ _)); clear.
  - vm_compute. lia.
  - intros _. eexists. split; vm_compute; reflexivity.
  - vm_compute. split; [reflexivity|discriminate].
  - vm_compute. split; [discriminate|reflexivity].
  - reflexivity.
Defined.

(** ** A template out of order *)

(** The block at height 3 of the old chain commits [fork_parent]; that of the new
    chain does not.  Both chains allow the next block to commit it and its child. *)
Definition fork_parent : TransactionView := Transaction_into_view (tx_data (paid_tx 1 [(90, 0)] 1 (9 * 10 ^ 11))).
Definition fork_child : TransactionView :=
  Transaction_into_view
    (mkTransaction (mkRawTransaction 0 [] [] [mkCellInput 0 (mkOutPoint (tx_hash fork_parent) 0)]
      [mkCellOutput (10 ^ 11) (mkScript [] 0 []) None] [[]]) []).
Definition fork_ids : list ProposalShortId := TransactionView_proposal_short_id <$> [fork_parent; fork_child].
Definition old_block : BlockView := mine_block 3 3 [fork_parent] [].
Definition new_block : BlockView := mine_block 3 4 [] [].
Definition fork_tip (b : BlockView) : Snapshot :=
  mkSnapshot (BlockView_header b) 0 sample_epoch (chain_store (mine_chain fork_ids ++ [b]) (BlockView_header b))
    (mkProposalView ∅ (list_to_set fork_ids)).
(** The child is submitted on the old chain; then the chain changes. *)
Definition fork_before : TxPool :=
  let pool := TxPool_new pool_config (fork_tip old_block) 0 in run_pool (pool_submit pool [fork_child]) pool.
Definition fork_after : TxPool := run_pool (pool_reorg [old_block] [new_block] [] (fork_tip new_block)) fork_before.
Definition fork_template : option BlockTemplate :=
  template_of (fresh_template None toy_consensus mine_assembler fork_after (fork_tip new_block)
    (max_block_bytes toy_consensus) 100 (block_version toy_consensus) 5000).

