(* ===== verification/SkipList.v ===== *)
(** * The skip list of headers: the [HeaderView] of src/sync/src/types.rs

    The synchronizer keeps the headers it has accepted in a map from hashes.  A
    view of a header carries the total difficulty of its chain and, as a short
    cut, the hash of some further ancestor.  [get_ancestor] walks from a header
    to the ancestor at a height by parents and skips, and leaves the walk for
    the index of the main chain as soon as it reaches that chain.  The reference
    is [up], the walk by parents alone. *)

From S2P Require Import Prelude Capacity NumExt Difficulty Types.

(** ** The height a skip goes back to *)

(** [height as i64] and [.. as u64]. *)
Definition i64_of_u64 (z : Z) : Z := if z <? 2 ^ 63 then z else z - 2 ^ 64.
Definition u64_of_i64 (z : Z) : Z := z mod 2 ^ 64.
Definition i64_sub {E} (a b : Z) : outcome E Z :=
  if (- 2 ^ 63 <=? a - b) && (a - b <? 2 ^ 63) then Ok (a - b) else Panic.

Definition invert_lowest_one {E} (n : Z) : outcome E Z :=
  m ← i64_sub n 1;
  Ok (Z.land n m).

Definition get_skip_height {E} (height : Z) : outcome E Z :=
  if height <? 2 then Ok 0
  else if 0 <? Z.land height 1 then
    n ← i64_sub (i64_of_u64 height) 1;
    n ← invert_lowest_one n;
    n ← invert_lowest_one n;
    u64_add (u64_of_i64 n) 1
  else
    n ← invert_lowest_one (i64_of_u64 height);
    Ok (u64_of_i64 n).

(** ** The view of a header *)

Record SyncHeaderView := mkSyncHeaderView {
  inner : HeaderView;
  view_total_difficulty : Z;
  skip_hash : option Byte32;
}.
Definition SyncHeaderView_new (header : HeaderView) (total_difficulty : Z) : SyncHeaderView :=
  mkSyncHeaderView header total_difficulty None.
Definition view_number (v : SyncHeaderView) : Z := HeaderView_number (inner v).
Definition view_hash (v : SyncHeaderView) : Byte32 := header_hash (inner v).
Definition view_parent_hash (v : SyncHeaderView) : Byte32 := HeaderView_parent_hash (inner v).
Definition view_timestamp (v : SyncHeaderView) : Z := HeaderView_timestamp (inner v).
Definition is_better_than (v : SyncHeaderView) (total_difficulty : Z) : bool :=
  total_difficulty <? view_total_difficulty v.

Section skip_list.
Context {E : Type}.
Variable get_header_view : Byte32 -> option SyncHeaderView.
Variable fast_scanner : Z -> SyncHeaderView -> option SyncHeaderView.

(** The guard of the arm that follows the skip. *)
Definition follows_skip (number number_skip number_skip_prev : Z) : outcome E bool :=
  if number_skip =? number then Ok true
  else if number_skip <=? number then Ok false
  else
    t ← u64_add number_skip_prev 2;
    Ok (negb ((t <? number_skip) && (number <=? number_skip_prev))).

(** The match of the loop: the next header, [None] when it is missing, and its
    height. *)
Definition ancestor_step (number number_walk : Z) (current : SyncHeaderView) :
    outcome E (option SyncHeaderView * Z) :=
  number_skip ← get_skip_height number_walk;
  prev ← u64_sub number_walk 1;
  number_skip_prev ← get_skip_height prev;
  follow ←
    match skip_hash current with
    | Some hash =>
        b ← follows_skip number number_skip number_skip_prev;
        Ok (if (b : bool) then Some hash else None)
    | None => Ok None
    end;
  match follow with
  | Some hash => Ok (get_header_view hash, number_skip)
  | None => Ok (get_header_view (view_parent_hash current), prev)
  end.

(** [while number_walk > number]; the fuel is the distance to go, of which each
    turn takes at least one. *)
Fixpoint ancestor_loop (fuel : nat) (number number_walk : Z) (current : SyncHeaderView) :
    outcome E (option SyncHeaderView) :=
  if number_walk <=? number then Ok (Some current)
  else
    match fuel with
    | O => Panic
    | S fuel =>
        '(next, walk) ← ancestor_step number number_walk current;
        match next with
        | None => Ok None
        | Some current =>
            match fast_scanner number current with
            | Some target => Ok (Some target)
            | None => ancestor_loop fuel number walk current
            end
        end
    end.

Definition get_ancestor (self : SyncHeaderView) (number : Z) : outcome E (option HeaderView) :=
  if view_number self <? number then Ok None
  else
    r ← ancestor_loop (Z.to_nat (view_number self - number)) number (view_number self) self;
    Ok (fmap (M:=option) inner r).

Definition build_skip (self : SyncHeaderView) : outcome E SyncHeaderView :=
  skip ←
    match get_header_view (view_parent_hash self) with
    | None => Ok None
    | Some parent =>
        height ← get_skip_height (view_number self);
        get_ancestor parent height
    end;
  Ok (mkSyncHeaderView (inner self) (view_total_difficulty self) (header_hash <$> skip)).
End skip_list.

(** ** Skip heights *)

Lemma land_le_r a b : 0 <= b -> 0 <= Z.land a b <= b.
Proof.
  intros Hb. split; [apply Z.land_nonneg; lia|].
  assert (0 <= b - Z.land a b); [|lia]. rewrite Z.sub_nocarry_ldiff.
  - apply Z.ldiff_nonneg; lia.
  - apply Z.bits_inj'. intros i _. rewrite Z.ldiff_spec, Z.land_spec, Z.bits_0.
    by destruct (Z.testbit a i), (Z.testbit b i).
Qed.

Lemma i64_sub_Ok {E} a b : - 2 ^ 63 <= a - b < 2 ^ 63 -> i64_sub (E:=E) a b = Ok (a - b).
Proof.
  intros H. unfold i64_sub. rewrite (proj2 (Z.leb_le _ _)), (proj2 (Z.ltb_lt _ _)) by apply H. done.
Qed.

Lemma invert_lowest_one_Ok {E} n :
  0 <= n < 2 ^ 63 ->
  exists m, invert_lowest_one (E:=E) n = Ok m /\ 0 <= m <= n /\ (0 < n -> m < n).
Proof.
  intros Hn. exists (Z.land n (n - 1)). unfold invert_lowest_one.
  rewrite i64_sub_Ok by lia. step. split; [done|]. destruct (decide (n = 0)) as [->|]; [rewrite Z.land_0_l; lia|].
  pose proof (land_le_r n (n - 1)). lia.
Qed.

(** A skip from a height goes strictly below it. *)
Lemma get_skip_height_Ok {E} h :
  0 <= h < 2 ^ 63 ->
  exists k, get_skip_height (E:=E) h = Ok k /\ 0 <= k /\ k <= h /\ (0 < h -> k < h).
Proof.
  intros Hh. unfold get_skip_height, i64_of_u64, u64_of_i64. case_match; [exists 0; split; [done|lia]|].
  rewrite (proj2 (Z.ltb_lt h (2 ^ 63))) by lia. case_match.
  - rewrite i64_sub_Ok by lia. step. destruct (invert_lowest_one_Ok (E:=E) (h - 1)) as (m & -> & Hm & Hlt); [lia|]. step.
    destruct (invert_lowest_one_Ok (E:=E) m) as (k & -> & Hk & _); [lia|]. step.
    rewrite Z.mod_small by lia. unfold u64_add. rewrite fit_in_range by zlia.
    exists (k + 1). split; [done|lia].
  - destruct (invert_lowest_one_Ok (E:=E) h) as (k & -> & Hk & Hlt); [lia|]. step.
    rewrite Z.mod_small by lia. exists k. split; [done|lia].
Qed.

(** ** The reference: the walk by parents *)

Section ancestors.
Variable headers : Byte32 -> option HeaderView.

Fixpoint up (n : nat) (h : HeaderView) : option HeaderView :=
  match n with
  | O => Some h
  | S n => headers (HeaderView_parent_hash h) ≫= up n
  end.

(** The ancestor at a height. *)
Definition ancestor_at (h : HeaderView) (number : Z) : option HeaderView :=
  up (Z.to_nat (HeaderView_number h - number)) h.

(** Every known header above the genesis block has its parent. *)
Record linked : Prop := {
  ln_hash hash h : headers hash = Some h -> header_hash h = hash;
  ln_number hash h : headers hash = Some h -> 0 <= HeaderView_number h < 2 ^ 63;
  ln_parent hash h : headers hash = Some h -> 0 < HeaderView_number h ->
    exists p, headers (HeaderView_parent_hash h) = Some p /\
      HeaderView_number h = HeaderView_number p + 1;
}.

Definition known (h : HeaderView) : Prop := headers (header_hash h) = Some h.

Lemma up_add m n h : up (m + n) h = up m h ≫= up n.
Proof.
  revert h. induction m as [|m IH]; intros h; [done|]. cbn [up Nat.add].
  destruct (headers _) as [p|]; [apply IH|done].
Qed.

Context (HL : linked).

Lemma known_get hash h : headers hash = Some h -> known h.
Proof. intros H. unfold known. by rewrite (ln_hash HL _ _ H). Qed.

Lemma up_total h n :
  known h -> Z.of_nat n <= HeaderView_number h ->
  exists a, up n h = Some a /\ known a /\ HeaderView_number a = HeaderView_number h - Z.of_nat n.
Proof.
  revert h. induction n as [|n IH]; intros h Hk Hn; cbn [up].
  { exists h. split_and!; [done..|lia]. }
  destruct (ln_parent HL _ _ Hk) as (p & Hp & Hnum); [lia|]. rewrite Hp. cbn [mbind option_bind].
  destruct (IH p) as (a & Ha & Hka & Hna); [by eapply known_get|lia|].
  exists a. split_and!; [done..|lia].
Qed.

Lemma ancestor_at_total h k :
  known h -> 0 <= k <= HeaderView_number h ->
  exists a, ancestor_at h k = Some a /\ known a /\ HeaderView_number a = k.
Proof.
  intros Hk Hn. destruct (up_total h (Z.to_nat (HeaderView_number h - k))) as (a & Ha & Hka & Hna);
    [done|lia|]. exists a. split_and!; [done..|lia].
Qed.

Lemma ancestor_at_self h : ancestor_at h (HeaderView_number h) = Some h.
Proof. unfold ancestor_at. by rewrite Z.sub_diag. Qed.

(** An ancestor of an ancestor. *)
Lemma ancestor_at_trans h a j k :
  0 <= j <= k -> known h -> k <= HeaderView_number h -> ancestor_at h k = Some a ->
  ancestor_at h j = ancestor_at a j.
Proof.
  intros Hjk Hk Hn Ha. destruct (ancestor_at_total h k Hk) as (a' & Ha' & _ & Hna); [lia|].
  rewrite Ha in Ha'. injection Ha' as <-. unfold ancestor_at in *.
  replace (Z.to_nat (HeaderView_number h - j))
    with (Z.to_nat (HeaderView_number h - k) + Z.to_nat (HeaderView_number a - j))%nat by lia.
  by rewrite up_add, Ha.
Qed.

Lemma ancestor_at_parent h p :
  known h -> 0 < HeaderView_number h -> headers (HeaderView_parent_hash h) = Some p ->
  ancestor_at h (HeaderView_number h - 1) = Some p.
Proof.
  intros Hk Hn Hp. unfold ancestor_at. replace (Z.to_nat _) with 1%nat by lia.
  cbn [up]. by rewrite Hp.
Qed.
End ancestors.

(** More headers, the same ancestors. *)
Lemma up_mono headers headers' n h a :
  (forall hash x, headers hash = Some x -> headers' hash = Some x) ->
  up headers n h = Some a -> up headers' n h = Some a.
Proof.
  intros Hsub. revert h. induction n as [|n IH]; intros h; cbn [up]; [done|].
  destruct (headers _) as [p|] eqn:Hp; [|done]. rewrite (Hsub _ _ Hp). apply IH.
Qed.

(** ** The walk is the reference *)

Section walk.
Context {E : Type}.
Variable get_header_view : Byte32 -> option SyncHeaderView.
Variable fast_scanner : Z -> SyncHeaderView -> option SyncHeaderView.
Definition headers_of (hash : Byte32) : option HeaderView := inner <$> get_header_view hash.

(** A skip hash is the hash of the ancestor at the skip height. *)
Definition skips_ok (v : SyncHeaderView) : Prop :=
  forall hash, skip_hash v = Some hash -> 0 < view_number v ->
  exists k a, get_skip_height (E:=E) (view_number v) = Ok k /\
    ancestor_at headers_of (inner v) k = Some a /\ header_hash a = hash.

Definition views_ok : Prop := forall hash v, get_header_view hash = Some v -> skips_ok v.

(** What the short cut finds is the ancestor. *)
Definition scanner_ok : Prop := forall number v target,
  get_header_view (view_hash v) = Some v -> 0 <= number <= view_number v ->
  fast_scanner number v = Some target ->
  ancestor_at headers_of (inner v) number = Some (inner target).

Context (HL : linked headers_of) (HV : views_ok) (HF : scanner_ok).

Lemma view_known v : get_header_view (view_hash v) = Some v -> known headers_of (inner v).
Proof. intros H. unfold known, headers_of. fold (view_hash v). by rewrite H. Qed.

Lemma view_get hash v : get_header_view hash = Some v -> view_hash v = hash.
Proof. intros H. apply (ln_hash _ HL). unfold headers_of. by rewrite H. Qed.

Lemma view_of_header h :
  known headers_of h -> exists v, get_header_view (header_hash h) = Some v /\ inner v = h.
Proof. intros (v & Hv & ->)%fmap_Some. by exists v. Qed.

(** The step goes to the ancestor at a height between the goal and here. *)
Lemma ancestor_step_Ok number v :
  get_header_view (view_hash v) = Some v -> 0 <= number < view_number v ->
  exists a, ancestor_step (E:=E) get_header_view number (view_number v) v =
      Ok (Some a, view_number a) /\
    get_header_view (view_hash a) = Some a /\ number <= view_number a < view_number v /\
    ancestor_at headers_of (inner v) (view_number a) = Some (inner a).
Proof.
  intros Hv Hn. pose proof (view_known v Hv) as Hk.
  assert (0 <= view_number v < 2 ^ 63) as Hr by (by eapply (ln_number _ HL)).
  (* the ancestor at a height below, as a view *)
  assert (forall k h, number <= k < view_number v -> ancestor_at headers_of (inner v) k = Some h ->
    exists a, get_header_view (header_hash h) = Some a /\ view_number a = k /\
      get_header_view (view_hash a) = Some a /\
      ancestor_at headers_of (inner v) (view_number a) = Some (inner a)) as Hanc.
  { intros k h Hkn Hh. destruct (ancestor_at_total _ HL _ k Hk) as (h' & Hh' & Hkh & Hnh);
      [unfold view_number in *; lia|]. rewrite Hh in Hh'. injection Hh' as <-.
    destruct (view_of_header h Hkh) as (a & Ha & <-). exists a.
    unfold view_number, view_hash. rewrite Hnh. by split_and!. }
  unfold ancestor_step.
  destruct (get_skip_height_Ok (E:=E) (view_number v)) as (ks & Hks & Hks0 & _ & Hks1); [lia|].
  rewrite Hks. step. unfold u64_sub. rewrite fit_in_range by zlia. step.
  destruct (get_skip_height_Ok (E:=E) (view_number v - 1)) as (kp & -> & Hkp0 & Hkp1 & _); [lia|]. step.
  assert (exists a, Ok (E:=E) (get_header_view (view_parent_hash v), view_number v - 1) =
      Ok (Some a, view_number a) /\
    get_header_view (view_hash a) = Some a /\ number <= view_number a < view_number v /\
    ancestor_at headers_of (inner v) (view_number a) = Some (inner a)) as Hparent.
  { destruct (ln_parent _ HL _ _ Hk) as (p & Hp & Hnp); [unfold view_number in *; lia|].
    pose proof (ancestor_at_parent _ _ p Hk ltac:(unfold view_number in *; lia) Hp) as Hpp.
    destruct (Hanc (view_number v - 1) p) as (a & Ha & Hna & Hga & Hat); [lia|done|].
    rewrite (ln_hash _ HL _ _ Hp) in Ha. fold (view_parent_hash v) in Ha. rewrite Ha.
    exists a. rewrite <- Hna. split_and!; [done..|lia|lia|done]. }
  destruct (skip_hash v) as [hash|] eqn:Hskip.
  - assert (exists b, follows_skip (E:=E) number ks kp = Ok b /\ (b = true -> number <= ks))
      as (b & -> & Hb).
    { unfold follows_skip. case_match; [exists true; split; [done|lia]|].
      case_match; [by exists false|]. unfold u64_add. rewrite fit_in_range by zlia. step.
      eexists. split; [done|lia]. }
    step. destruct b; step.
    + destruct (HV _ _ Hv _ Hskip) as (k & h & Hk' & Hh & <-); [lia|].
      rewrite Hks in Hk'. injection Hk' as <-.
      destruct (Hanc ks h) as (a & Ha & <- & Hga & Hat); [lia|done|]. rewrite Ha.
      exists a. split_and!; [done..|lia|lia|done].
    + exact Hparent.
  - exact Hparent.
Qed.
Lemma ancestor_loop_Ok fuel number v :
  get_header_view (view_hash v) = Some v -> 0 <= number <= view_number v ->
  view_number v - number <= Z.of_nat fuel ->
  exists a, ancestor_loop (E:=E) get_header_view fast_scanner fuel number (view_number v) v =
      Ok (Some a) /\
    ancestor_at headers_of (inner v) number = Some (inner a).
Proof.
  revert v. induction fuel as [|fuel IH]; intros v Hv Hn Hf; cbn [ancestor_loop];
    (case_match; reflect_bools; [exists v; split; [done|]; replace number with (view_number v) by lia;
      apply ancestor_at_self|]); [lia|].
  destruct (ancestor_step_Ok number v Hv) as (a & -> & Ha & Hna & Hat); [lia|]. step.
  assert (ancestor_at headers_of (inner v) number = ancestor_at headers_of (inner a) number) as ->.
  { eapply (ancestor_at_trans _ HL); [|by apply view_known| |exact Hat]; [lia|].
    unfold view_number in *. lia. }
  destruct (fast_scanner number a) as [t|] eqn:Ht.
  - exists t. split; [done|]. apply HF; [done|lia|done].
  - apply IH; [done|lia|lia].
Qed.

Lemma get_ancestor_Ok v number :
  get_header_view (view_hash v) = Some v -> 0 <= number <= view_number v ->
  get_ancestor (E:=E) get_header_view fast_scanner v number =
    Ok (ancestor_at headers_of (inner v) number).
Proof.
  intros Hv Hn. unfold get_ancestor. rewrite (proj2 (Z.ltb_ge _ _)) by lia.
  destruct (ancestor_loop_Ok (Z.to_nat (view_number v - number)) number v) as (a & -> & ->); [done|lia..|].
  done.
Qed.

Lemma build_skip_Ok v p :
  0 < view_number v < 2 ^ 63 -> get_header_view (view_parent_hash v) = Some p ->
  view_number v = view_number p + 1 ->
  exists k a, get_skip_height (E:=E) (view_number v) = Ok k /\
    ancestor_at headers_of (inner p) k = Some a /\ 0 <= k <= view_number p /\
    build_skip (E:=E) get_header_view fast_scanner v =
      Ok (mkSyncHeaderView (inner v) (view_total_difficulty v) (Some (header_hash a))).
Proof.
  intros Hn Hp Hnum. destruct (get_skip_height_Ok (E:=E) (view_number v)) as (k & Hk & Hk0 & _ & Hk1); [lia|].
  assert (get_header_view (view_hash p) = Some p) as Hgp by (by rewrite (view_get _ _ Hp)).
  destruct (ancestor_at_total _ HL (inner p) k) as (a & Ha & _ & _);
    [by apply view_known|unfold view_number in *; lia|].
  exists k, a. split_and!; [done..|lia|lia|].
  unfold build_skip. rewrite Hp, Hk. step. rewrite (get_ancestor_Ok p k Hgp), Ha by lia. done.
Qed.
End walk.

(** A header that extends a known one keeps the map linked. *)
Section insert.
Context {E : Type}.
Variable get get' : Byte32 -> option SyncHeaderView.
Variable v p : SyncHeaderView.
Hypothesis HL : linked (headers_of get).
Hypothesis HV : views_ok (E:=E) get.
Hypothesis Hget : forall hash, get' hash = if decide (hash = view_hash v) then Some v else get hash.
Hypothesis Hold : forall w, get (view_hash v) = Some w -> inner w = inner v.
Hypothesis Hparent : get (view_parent_hash v) = Some p.
Hypothesis Hnumber : view_number v = view_number p + 1.
Hypothesis Hwidth : view_number v < 2 ^ 63.
Hypothesis Hskip : exists k a, get_skip_height (E:=E) (view_number v) = Ok k /\
  ancestor_at (headers_of get) (inner p) k = Some a /\ 0 <= k <= view_number p /\
  skip_hash v = Some (header_hash a).

Lemma insert_headers hash h : headers_of get hash = Some h -> headers_of get' hash = Some h.
Proof.
  unfold headers_of. rewrite Hget. case_decide as Hd; [subst|done].
  intros (w & Hw & ->)%fmap_Some. cbn. f_equal. symmetry. by apply Hold.
Qed.

Lemma insert_headers_inv hash h :
  headers_of get' hash = Some h -> h = inner v /\ hash = view_hash v \/ headers_of get hash = Some h.
Proof.
  unfold headers_of. rewrite Hget. case_decide as Hd; [|by right]. intros [= <-]. by left.
Qed.

Lemma parent_nonneg : 0 <= view_number p.
Proof. eapply (ln_number _ HL (view_parent_hash v)). unfold headers_of. by rewrite Hparent. Qed.

Lemma insert_linked : linked (headers_of get').
Proof.
  split.
  - intros hash h [[-> ->]|H]%insert_headers_inv; [done|by eapply HL].
  - intros hash h [[-> ->]|H]%insert_headers_inv; [|by eapply HL].
    pose proof parent_nonneg. unfold view_number in *. lia.
  - intros hash h [[-> ->]|H]%insert_headers_inv Hn.
    + exists (inner p). split; [|done]. apply insert_headers. unfold headers_of.
      fold (view_parent_hash v). by rewrite Hparent.
    + destruct (ln_parent _ HL _ _ H Hn) as (q & Hq & Hnq). exists q. split; [|done].
      by apply insert_headers.
Qed.

Lemma insert_views : views_ok (E:=E) get'.
Proof.
  intros hash w. rewrite Hget. case_decide as Hd.
  - intros [= <-] s Hs Hn. destruct Hskip as (k & a & Hk & Ha & Hkp & Hsk).
    exists k, a. split_and!; [done| |congruence].
    unfold ancestor_at. fold (view_number v).
    replace (Z.to_nat (view_number v - k)) with (S (Z.to_nat (view_number p - k))) by lia.
    cbn [up]. fold (view_parent_hash v).
    rewrite (insert_headers _ (inner p)) by (unfold headers_of; by rewrite Hparent).
    eapply up_mono; [apply insert_headers|exact Ha].
  - intros Hw s Hs Hn. destruct (HV _ _ Hw s Hs Hn) as (k & a & Hk & Ha & Hh).
    exists k, a. split_and!; [done| |done]. eapply up_mono; [apply insert_headers|exact Ha].
Qed.
End insert.

(** ** Properties *)

(** The walk by parents and skips, with the short cut over the main chain, ends
    at every height at or below that of the header, without a panic, at the
    ancestor that the walk by parents alone reaches: in a map of headers where
    each has its parent one below it, each skip hash is that of the ancestor at
    the skip height, and the short cut finds ancestors only. *)
Theorem get_ancestor_spec {E} get_header_view fast_scanner v number :
  linked (headers_of get_header_view) -> views_ok (E:=E) get_header_view ->
  scanner_ok get_header_view fast_scanner ->
  get_header_view (view_hash v) = Some v -> 0 <= number <= view_number v ->
  exists a, get_ancestor (E:=E) get_header_view fast_scanner v number = Ok (Some a) /\
    up (headers_of get_header_view) (Z.to_nat (view_number v - number)) (inner v) = Some a /\
    HeaderView_number a = number.
Proof.
  intros HL HV HF Hv Hn. rewrite (get_ancestor_Ok get_header_view) by done.
  destruct (ancestor_at_total _ HL (inner v) number) as (a & Ha & _ & Hna);
    [by apply view_known|done|].
  exists a. by rewrite Ha.
Qed.
