(* ===== verification/OrphanBlockPool.v ===== *)
(** * The orphan block pool: src/sync/src/orphan_block_pool.rs

    Blocks whose parent is not stored yet wait in a map from the hash of their
    parent.  When the parent is accepted, [remove_blocks_by_parent] takes all its
    descendants out, parents before children, so that the synchronizer can hand
    them to the chain service in that order. *)

From S2P Require Import Prelude Capacity NumExt Types.

(** The order in which a [HashMap] is visited is not specified. *)
Class MapOrder (K V : Type) `{Countable K} := { map_iter : gmap K V -> list (K * V) }.
Class MapOrderSpec (K V : Type) `{Countable K} (M : MapOrder K V) := {
  map_iter_perm (m : gmap K V) : map_iter m ≡ₚ map_to_list m;
}.
Definition list_order {K V} `{Countable K} : MapOrder K V := {| map_iter := map_to_list |}.
Lemma list_order_spec {K V} `{Countable K} : MapOrderSpec K V list_order.
Proof. by split. Qed.

Abbreviation PeerIndex := Z (only parsing).
Abbreviation OrphanBlock := (PeerIndex * BlockView)%type (only parsing).

Record OrphanBlockPool := mkOrphanBlockPool {
  ob_blocks : gmap Byte32 (gmap Byte32 OrphanBlock);
  ob_parents : gmap Byte32 Byte32;
}.
Definition OrphanBlockPool_empty : OrphanBlockPool := mkOrphanBlockPool ∅ ∅.

Definition block_parent (b : BlockView) : Byte32 := parent_hash (BlockView_raw b).

Definition OrphanBlockPool_insert (self : OrphanBlockPool) (peer : PeerIndex) (block : BlockView) :
    OrphanBlockPool :=
  let hash := block_hash block in
  let parent := block_parent block in
  mkOrphanBlockPool
    (<[parent := <[hash := (peer, block)]> (default ∅ (ob_blocks self !! parent))]> (ob_blocks self))
    (<[hash := parent]> (ob_parents self)).

Definition OrphanBlockPool_get_block (self : OrphanBlockPool) (hash : Byte32) : option BlockView :=
  parent ← ob_parents self !! hash;
  m ← ob_blocks self !! parent;
  snd <$> m !! hash.

Section remove.
Context `{MO : !MapOrder Byte32 OrphanBlock}.

(** The body of the loop for the hash at the front of the queue: the pool, the
    hashes that join the queue and the blocks that join [removed]. *)
Definition take_children (self : OrphanBlockPool) (parent : Byte32) :
    OrphanBlockPool * list (Byte32 * OrphanBlock) :=
  match ob_blocks self !! parent with
  | None => (self, [])
  | Some orphaned =>
      let l := map_iter orphaned in
      (mkOrphanBlockPool (delete parent (ob_blocks self))
         (foldl (fun m h => delete h m) (ob_parents self) l.*1), l)
  end.

(** [while let Some(parent_hash) = queue.pop_front()]; every turn takes one hash
    from the queue, and a hash that joins it leaves [parents]. *)
Fixpoint orphan_blocks_loop (fuel : nat) (self : OrphanBlockPool) (queue : list Byte32)
    (removed : list OrphanBlock) : OrphanBlockPool * list OrphanBlock :=
  match fuel, queue with
  | S fuel, parent :: queue =>
      let '(self, l) := take_children self parent in
      orphan_blocks_loop fuel self (queue ++ l.*1) (removed ++ l.*2)
  | _, _ => (self, removed)
  end.

Definition remove_blocks_by_parent (self : OrphanBlockPool) (hash : Byte32) :
    OrphanBlockPool * list OrphanBlock :=
  orphan_blocks_loop (S (size (ob_parents self))) self [hash] [].
End remove.

(** ** The invariant of the pool *)

(** The orphan with a hash. *)
Definition orphan (p : OrphanBlockPool) (hash : Byte32) : option OrphanBlock :=
  parent ← ob_parents p !! hash;
  m ← ob_blocks p !! parent;
  m !! hash.

Record orphans_wf (p : OrphanBlockPool) : Prop := {
  ow_blocks parent m hash x : ob_blocks p !! parent = Some m -> m !! hash = Some x ->
    block_hash x.2 = hash /\ block_parent x.2 = parent /\ ob_parents p !! hash = Some parent;
  ow_parents hash parent : ob_parents p !! hash = Some parent ->
    exists m, ob_blocks p !! parent = Some m /\ is_Some (m !! hash);
}.

Lemma orphan_blocks p parent m hash x :
  orphans_wf p -> ob_blocks p !! parent = Some m -> m !! hash = Some x -> orphan p hash = Some x.
Proof.
  intros Hw Hm Hx. unfold orphan. destruct (ow_blocks _ Hw _ _ _ _ Hm Hx) as (_ & _ & ->).
  cbn. by rewrite Hm.
Qed.

Lemma orphan_Some p hash x :
  orphans_wf p -> orphan p hash = Some x ->
  block_hash x.2 = hash /\ ob_parents p !! hash = Some (block_parent x.2) /\
  exists m, ob_blocks p !! block_parent x.2 = Some m /\ m !! hash = Some x.
Proof.
  intros Hw Hx. unfold orphan in Hx. apply bind_Some in Hx as (parent & Hp & Hx).
  apply bind_Some in Hx as (m & Hm & Hx).
  destruct (ow_blocks _ Hw _ _ _ _ Hm Hx) as (Hh & Hpar & _). subst parent.
  split_and!; [done..|]. by exists m.
Qed.

Lemma orphan_parents p hash : orphans_wf p -> is_Some (ob_parents p !! hash) <-> is_Some (orphan p hash).
Proof.
  intros Hw. unfold orphan. split.
  - intros [parent Hp]. destruct (ow_parents _ Hw _ _ Hp) as (m & Hm & Hs). rewrite Hp. cbn. by rewrite Hm.
  - intros [x Hx]. apply bind_Some in Hx as (parent & Hp & _). by eexists.
Qed.

(** The children of a hash that wait in the pool. *)
Definition children (p : OrphanBlockPool) (parent : Byte32) : gmap Byte32 OrphanBlock :=
  default ∅ (ob_blocks p !! parent).

Lemma children_orphan p parent hash x :
  orphans_wf p -> children p parent !! hash = Some x <->
  orphan p hash = Some x /\ block_parent x.2 = parent.
Proof.
  intros Hw. unfold children. split.
  - destruct (ob_blocks p !! parent) as [m|] eqn:Hm; [|cbn; by rewrite lookup_empty]. cbn. intros Hx.
    split; [by eapply orphan_blocks|]. by eapply (ow_blocks _ Hw).
  - intros [Hx <-]. destruct (orphan_Some _ _ _ Hw Hx) as (_ & _ & m & Hm & Hx'). rewrite Hm. done.
Qed.

Lemma delete_keys_lookup {A} (m : gmap Byte32 A) l h :
  foldl (fun m h => delete h m) m l !! h = if decide (h ∈ l) then None else m !! h.
Proof.
  revert m. induction l as [|k l IH]; intros m; cbn [foldl]; [by rewrite decide_False by set_solver|].
  rewrite IH. destruct (decide (h = k)) as [->|Hne].
  - rewrite (decide_True (P:=k ∈ k :: l)) by left. case_decide; [done|apply lookup_delete_eq].
  - rewrite lookup_delete_ne by done. repeat case_decide; set_solver.
Qed.

Lemma delete_keys_size {A} (m : gmap Byte32 A) l :
  NoDup l -> (forall h, h ∈ l -> is_Some (m !! h)) ->
  (size (foldl (fun m h => delete h m) m l) + length l = size m)%nat.
Proof.
  revert m. induction l as [|k l IH]; intros m Hnd Hin; cbn [foldl length]; [lia|].
  apply NoDup_cons in Hnd as [Hk Hnd]. destruct (Hin k ltac:(left)) as [x Hx].
  assert (size m = S (size (delete k m))) as ->.
  { rewrite <- (insert_delete_id m k x) at 1 by done. apply map_size_insert_None, lookup_delete_eq. }
  rewrite <- (IH (delete k m)); [lia|done|]. intros h Hh. rewrite lookup_delete_ne by set_solver.
  apply Hin. by right.
Qed.

Section take.
Context `{MO : !MapOrder Byte32 OrphanBlock} `{!MapOrderSpec Byte32 OrphanBlock MO}.

Lemma take_children_Ok p parent p' l :
  orphans_wf p -> take_children p parent = (p', l) ->
  orphans_wf p' /\ l ≡ₚ map_to_list (children p parent) /\
  (forall hash, orphan p' hash = if decide (hash ∈ l.*1) then None else orphan p hash) /\
  (size (ob_parents p') + length l = size (ob_parents p))%nat.
Proof.
  intros Hw. unfold take_children, children. destruct (ob_blocks p !! parent) as [o|] eqn:Ho; cbn;
    [|intros [= <- <-]; split_and!; [done|by rewrite map_to_list_empty| |cbn; lia]; intros hash;
      by rewrite decide_False by set_solver].
  intros [= <- <-]. set (l := map_iter o).
  assert (forall h, h ∈ l.*1 <-> is_Some (o !! h)) as Hl.
  { intros h. subst l. rewrite map_iter_perm. rewrite list_elem_of_fmap. split.
    - intros ([h' x] & -> & Hx%elem_of_map_to_list). by eexists.
    - intros [x Hx]. exists (h, x). split; [done|by apply elem_of_map_to_list]. }
  assert (forall h, ob_parents p !! h = Some parent <-> h ∈ l.*1) as Hpar.
  { intros h. rewrite Hl. split.
    - intros Hp. destruct (ow_parents _ Hw _ _ Hp) as (m & Hm & Hs). congruence.
    - intros [x Hx]. by eapply (ow_blocks _ Hw). }
  split_and!.
  - split; cbn.
    + intros q m h x Hm Hx. apply lookup_delete_Some in Hm as [Hne Hm].
      destruct (ow_blocks _ Hw _ _ _ _ Hm Hx) as (Hh & Hb & Hp). split_and!; [done..|].
      rewrite delete_keys_lookup, decide_False; [done|]. intros Hin%Hpar. congruence.
    + intros h q. rewrite delete_keys_lookup. case_decide as Hd; [done|]. intros Hp.
      destruct (ow_parents _ Hw _ _ Hp) as (m & Hm & Hs). exists m. split; [|done].
      rewrite lookup_delete_ne; [done|]. intros ->. by apply Hd, Hpar.
  - apply map_iter_perm.
  - intros h. unfold orphan. cbn. rewrite delete_keys_lookup. case_decide as Hd; [done|].
    destruct (ob_parents p !! h) as [q|] eqn:Hq; [|done]. cbn. rewrite lookup_delete_ne; [done|].
    intros ->. by apply Hd, Hpar.
  - cbn. rewrite <- (delete_keys_size (ob_parents p) l.*1).
    + by rewrite length_fmap.
    + subst l. rewrite map_iter_perm. apply NoDup_fst_map_to_list.
    + intros h Hh%Hpar. by eexists.
Qed.
End take.

(** ** Taking the descendants out *)

Definition hash_of (x : OrphanBlock) : Byte32 := block_hash x.2.

(** The orphans that descend from a block. *)
Inductive descends (p : OrphanBlockPool) (root : Byte32) : Byte32 -> Prop :=
| descends_child hash x : orphan p hash = Some x -> block_parent x.2 = root -> descends p root hash
| descends_step hash x : orphan p hash = Some x -> descends p root (block_parent x.2) ->
    descends p root hash.

Definition parents_first (root : Byte32) (l : list OrphanBlock) : Prop :=
  forall l1 x l2, l = l1 ++ x :: l2 -> block_parent x.2 = root \/ block_parent x.2 ∈ hash_of <$> l1.

Lemma parents_first_app root l1 l2 :
  parents_first root l1 ->
  (forall x, x ∈ l2 -> block_parent x.2 = root \/ block_parent x.2 ∈ hash_of <$> l1) ->
  parents_first root (l1 ++ l2).
Proof.
  intros H1 H2 k1 x k2 Heq. apply app_eq_inv in Heq as [(k & Hk1 & Hk2)|(k & Hk1 & Hk2)].
  - destruct k as [|y k]; simplify_eq/=.
    + destruct (H2 x ltac:(left)) as [|Hin]; [by left|right]. by rewrite app_nil_r in Hin.
    + by eapply H1.
  - subst k1 l2. destruct (H2 x) as [|Hin]; [set_solver|by left|right].
    rewrite fmap_app, elem_of_app. by left.
Qed.

Record removing (p0 : OrphanBlockPool) (root : Byte32)
    (p : OrphanBlockPool) (queue : list Byte32) (removed : list OrphanBlock) : Prop := {
  rm_wf : orphans_wf p;
  rm_old hash x : orphan p hash = Some x -> orphan p0 hash = Some x;
  rm_all hash x : orphan p0 hash = Some x -> orphan p hash = Some x \/ x ∈ removed;
  rm_gone x : x ∈ removed -> orphan p0 (hash_of x) = Some x /\ orphan p (hash_of x) = None /\
    descends p0 root (hash_of x);
  rm_nodup : NoDup (hash_of <$> removed);
  rm_queue hash : hash ∈ queue -> hash = root \/ hash ∈ hash_of <$> removed;
  rm_closed hash x : orphan p hash = Some x ->
    block_parent x.2 = root \/ block_parent x.2 ∈ hash_of <$> removed -> block_parent x.2 ∈ queue;
  rm_order : parents_first root removed;
}.

Section removal.
Context `{MO : !MapOrder Byte32 OrphanBlock} `{!MapOrderSpec Byte32 OrphanBlock MO}.
Variable p0 : OrphanBlockPool.
Variable root : Byte32.

(** The children taken, by hash and by block. *)
Lemma taken_hashes p q (l : list (Byte32 * OrphanBlock)) :
  orphans_wf p -> l ≡ₚ map_to_list (children p q) -> l.*1 = hash_of <$> l.*2.
Proof.
  intros Hw Hl. rewrite <- list_fmap_compose. apply list_fmap_ext. intros i [h x] Hi.
  assert ((h, x) ∈ map_to_list (children p q)) as Hin
    by (rewrite <- Hl; by eapply list_elem_of_lookup_2).
  apply elem_of_map_to_list, children_orphan in Hin as [Hx _]; [|done]. symmetry. cbn.
  by apply (orphan_Some _ _ _ Hw Hx).
Qed.

Lemma taken_elem p q (l : list (Byte32 * OrphanBlock)) x :
  orphans_wf p -> l ≡ₚ map_to_list (children p q) ->
  x ∈ l.*2 <-> orphan p (hash_of x) = Some x /\ block_parent x.2 = q.
Proof.
  intros Hw Hl. rewrite Hl, list_elem_of_fmap. split.
  - intros ([h y] & -> & Hin). apply elem_of_map_to_list, children_orphan in Hin as [Hy Hq]; [|done].
    cbn [snd]. split; [|done]. unfold hash_of. by rewrite (proj1 (orphan_Some _ _ _ Hw Hy)).
  - intros Hx. exists (hash_of x, x). split; [done|].
    by apply elem_of_map_to_list, children_orphan.
Qed.

Lemma orphans_removal_step p q queue removed p' l :
  removing p0 root p (q :: queue) removed -> take_children p q = (p', l) ->
  removing p0 root p' (queue ++ l.*1) (removed ++ l.*2).
Proof.
  intros [Hw Ho Ha Hg Hn Hq Hc Hf] Ht.
  destruct (take_children_Ok p q p' l Hw Ht) as (Hw' & Hl & Hor & _).
  pose proof (taken_hashes p q l Hw Hl) as Hh. pose proof (taken_elem p q l) as Hel.
  assert (forall x, x ∈ l.*2 -> orphan p (hash_of x) = Some x /\ block_parent x.2 = q) as Hin
    by (intros x; by apply Hel).
  split.
  - done.
  - intros hash x. rewrite Hor. case_decide; [done|apply Ho].
  - intros hash x Hx. rewrite Hor, elem_of_app. destruct (Ha hash x Hx) as [Hp|]; [|by right; left].
    case_decide as Hd; [|by left]. right; right. rewrite Hh in Hd.
    apply list_elem_of_fmap in Hd as (y & -> & Hy). destruct (Hin y Hy). by simplify_eq.
  - intros x [Hx|Hx]%elem_of_app.
    + destruct (Hg x Hx) as (H1 & H2 & H3). split_and!; [done| |done]. rewrite Hor. by case_decide.
    + destruct (Hin x Hx) as [Hox Hpx]. split_and!; [by apply Ho| |].
      * rewrite Hor, decide_True; [done|]. rewrite Hh. by apply list_elem_of_fmap_2.
      * destruct (Hq q ltac:(left)) as [->|Hqr]; [by eapply descends_child; [apply Ho|]|].
        apply list_elem_of_fmap in Hqr as (y & Hqy & Hy). eapply descends_step; [by apply Ho|].
        rewrite Hpx, Hqy. by apply Hg.
  - rewrite fmap_app, <- Hh, NoDup_app. split_and!; [done| |].
    + intros h (x & -> & Hx)%list_elem_of_fmap Hin'. rewrite Hh in Hin'.
      apply list_elem_of_fmap in Hin' as (y & Hxy & Hy). destruct (Hin y Hy) as [Hoy _].
      destruct (Hg x Hx) as (_ & Hnone & _). congruence.
    + rewrite Hl. apply NoDup_fst_map_to_list.
  - intros hash. rewrite elem_of_app, fmap_app, elem_of_app, Hh. intros [Hin'|Hin']; [|by right; right].
    destruct (Hq hash) as [|]; [by right|by left|by right; left].
  - intros hash x. rewrite Hor, fmap_app. case_decide as Hd; [done|]. intros Hx Hpar.
    rewrite elem_of_app. destruct (decide (block_parent x.2 ∈ l.*1)) as [|Hnl]; [by right|left].
    destruct (proj1 (elem_of_cons _ _ _) (Hc hash x Hx ltac:(rewrite elem_of_app, <- Hh in Hpar; tauto)))
      as [Heq|]; [|done]. exfalso. apply Hd. rewrite Hh.
    destruct (orphan_Some _ _ _ Hw Hx) as [Hhx _]. apply list_elem_of_fmap. exists x.
    split; [done|]. apply Hel; [done..|]. unfold hash_of. by rewrite Hhx.
  - apply parents_first_app; [done|]. intros x [_ ->]%Hin. apply Hq. left.
Qed.

Lemma remove_loop_Ok fuel p queue removed :
  removing p0 root p queue removed -> (length queue + size (ob_parents p) <= fuel)%nat ->
  let '(p', removed') := orphan_blocks_loop fuel p queue removed in removing p0 root p' [] removed'.
Proof.
  revert p queue removed. induction fuel as [|fuel IH]; intros p queue removed HI Hf; cbn [orphan_blocks_loop].
  { by destruct queue; [|cbn in Hf; lia]. }
  destruct queue as [|q queue]; [done|]. destruct (take_children p q) as [p' l] eqn:Ht.
  apply IH; [by eapply orphans_removal_step|].
  destruct (take_children_Ok p q p' l (rm_wf _ _ _ _ _ HI) Ht) as (_ & _ & _ & Hs).
  rewrite length_app, length_fmap. cbn in Hf. lia.
Qed.

Hypothesis Hw0 : orphans_wf p0.

Lemma orphans_removed p removed hash :
  removing p0 root p [] removed -> descends p0 root hash -> hash ∈ hash_of <$> removed.
Proof.
  intros HI. assert (forall h x, orphan p0 h = Some x ->
    block_parent x.2 = root \/ block_parent x.2 ∈ hash_of <$> removed ->
    h ∈ hash_of <$> removed) as Hstep.
  { intros h x Hx Hpar. destruct (rm_all _ _ _ _ _ HI h x Hx) as [Hp|Hin].
    - by destruct (not_elem_of_nil _ (rm_closed _ _ _ _ _ HI _ _ Hp Hpar)).
    - apply list_elem_of_fmap. exists x. split; [|done].
      by rewrite <- (proj1 (orphan_Some _ _ _ Hw0 Hx)). }
  induction 1 as [h x Hx Hp|h x Hx _ IH]; eapply Hstep; [exact Hx|by left|exact Hx|by right].
Qed.

Lemma orphans_removal_start : removing p0 root p0 [root] [].
Proof.
  split.
  - done.
  - done.
  - by left.
  - by intros x ?%not_elem_of_nil.
  - constructor.
  - intros hash ->%list_elem_of_singleton. by left.
  - intros hash x _ [->|?%not_elem_of_nil]; [left|done].
  - intros l1 x l2 Heq. by destruct l1.
Qed.
End removal.

Lemma orphans_wf_empty : orphans_wf OrphanBlockPool_empty.
Proof. split; cbn; intros until 0; by rewrite lookup_empty. Qed.

(** ** Properties *)

(** Inserting a block adds it and keeps the two maps of the pool in agreement,
    when a block of the pool with the same hash has the same parent. *)
Theorem orphan_insert_wf p peer b :
  orphans_wf p ->
  (forall x, orphan p (block_hash b) = Some x -> block_parent x.2 = block_parent b) ->
  orphans_wf (OrphanBlockPool_insert p peer b) /\
  forall hash, orphan (OrphanBlockPool_insert p peer b) hash =
    if decide (hash = block_hash b) then Some (peer, b) else orphan p hash.
Proof.
  intros Hw Hold.
  assert (forall h q, ob_parents p !! h = Some q -> h = block_hash b -> q = block_parent b) as Hpar.
  { intros h q Hq ->. destruct (proj1 (orphan_parents p (block_hash b) Hw) ltac:(by eexists)) as [x Hx].
    destruct (orphan_Some _ _ _ Hw Hx) as (_ & Hq' & _). rewrite <- (Hold x Hx). congruence. }
  split.
  - split; cbn.
    + intros q m h x. rewrite lookup_insert. case_decide as Hd; [subst q; intros [= <-]|].
      * rewrite lookup_insert. case_decide as Hh; [subst h; intros [= <-]; split_and!; [done..|]|].
        { apply lookup_insert_eq. }
        intros Hx. destruct (proj1 (children_orphan p (block_parent b) h x Hw) Hx) as [Ho Hq].
        destruct (orphan_Some _ _ _ Hw Ho) as (Hhx & Hp & _). split_and!; [done..|].
        rewrite lookup_insert_ne by done. by rewrite <- Hq.
      * intros Hm Hx. destruct (ow_blocks _ Hw _ _ _ _ Hm Hx) as (Hh & Hq & Hp). split_and!; [done..|].
        rewrite lookup_insert_ne; [done|]. intros Heq. apply Hd. symmetry. by apply (Hpar h).
    + intros h q. rewrite !lookup_insert. case_decide as Hh; [subst h; intros [= <-]|].
      * rewrite decide_True by done. eexists. split; [done|]. rewrite lookup_insert_eq. by eexists.
      * intros Hp. destruct (ow_parents _ Hw _ _ Hp) as (m & Hm & Hs). case_decide as Hq; [|by exists m].
        subst q. eexists. split; [done|]. rewrite Hm, lookup_insert_ne by done. done.
  - intros hash. unfold orphan. cbn. rewrite lookup_insert. case_decide as Hd.
    + subst hash. rewrite decide_True by done. cbn. rewrite lookup_insert_eq. cbn. apply lookup_insert_eq.
    + rewrite decide_False by done. destruct (ob_parents p !! hash) as [q|] eqn:Hq; [|done]. cbn.
      rewrite lookup_insert. case_decide as Hqb; [|done]. subst q. cbn. rewrite lookup_insert_ne by done.
      destruct (ow_parents _ Hw _ _ Hq) as (m & -> & _). done.
Qed.

Lemma remove_by_parent_Ok `{MO : !MapOrder Byte32 OrphanBlock}
    `{!MapOrderSpec Byte32 OrphanBlock MO} p root :
  orphans_wf p ->
  let '(p', removed) := remove_blocks_by_parent p root in
  orphans_wf p' /\
  NoDup (hash_of <$> removed) /\
  (forall x, x ∈ removed <-> orphan p (hash_of x) = Some x /\ descends p root (hash_of x)) /\
  parents_first root removed /\
  (forall hash x, orphan p' hash = Some x <-> orphan p hash = Some x /\ ~ descends p root hash).
Proof.
  intros Hw. unfold remove_blocks_by_parent.
  pose proof (remove_loop_Ok p root (S (size (ob_parents p))) p [root] []
    (orphans_removal_start p root Hw) ltac:(cbn; lia)) as HI.
  destruct (orphan_blocks_loop _ _ _ _) as [p' removed]. pose proof HI as [Hw' Ho Ha Hg Hn Hq Hc Hf].
  split_and!; [done..| |done|].
  - intros x. split; [intros Hx; by split; apply Hg|]. intros [Hx Hd].
    destruct (proj1 (list_elem_of_fmap _ _ _) (orphans_removed p root Hw _ _ _ HI Hd)) as (y & Hy & Hin).
    destruct (Hg y Hin) as (Hy' & _). rewrite <- Hy in Hy'. by simplify_eq.
  - intros hash x. split.
    + intros Hx. split; [by apply Ho|]. intros Hd.
      destruct (proj1 (list_elem_of_fmap _ _ _) (orphans_removed p root Hw _ _ _ HI Hd)) as (y & -> & Hin).
      destruct (Hg y Hin) as (_ & Hnone & _). congruence.
    + intros [Hx Hd]. destruct (Ha hash x Hx) as [|Hin]; [done|]. destruct Hd.
      rewrite <- (proj1 (orphan_Some _ _ _ Hw Hx)). by apply Hg.
Qed.

(** C18: [remove_blocks_by_parent] returns each orphan that descends from the block
    once and nothing else, every one after its parent, and leaves exactly the
    others in the pool, whatever the order of the hash maps. *)
Theorem remove_blocks_by_parent_spec `{MO : !MapOrder Byte32 OrphanBlock}
    `{!MapOrderSpec Byte32 OrphanBlock MO} p root :
  orphans_wf p ->
  let '(p', removed) := remove_blocks_by_parent p root in
  orphans_wf p' /\
  NoDup (hash_of <$> removed) /\
  (forall x, x ∈ removed <-> orphan p (hash_of x) = Some x /\ descends p root (hash_of x)) /\
  parents_first root removed /\
  (forall hash x, orphan p' hash = Some x <-> orphan p hash = Some x /\ ~ descends p root hash).
Proof. apply remove_by_parent_Ok. Qed.

(** The orphans [[2]] and [[3]] wait for [[1]], and [[4]] for [[3]]; [[6]] waits for [[5]]. *)
Definition orphan_sample (hash parent : Byte32) : BlockView :=
  BlockView_new_unchecked (mkHeaderView (mkHeader (mkRawHeader 0 0 0 0 0 parent [] [] [] []) 0) hash)
    (mkUncleBlockVecView [] []) [] [].
Definition orphan_samples : OrphanBlockPool :=
  foldl (fun p hp => OrphanBlockPool_insert p 1 (orphan_sample hp.1 hp.2)) OrphanBlockPool_empty
    [([2], [1]); ([3], [1]); ([4], [3]); ([6], [5])].

Lemma orphan_samples_wf : orphans_wf orphan_samples.
Proof.
  unfold orphan_samples. cbn [foldl].
  do 4 (apply orphan_insert_wf; [|intros x Hx; vm_compute in Hx; discriminate]). apply orphans_wf_empty.
Qed.

Lemma remove_blocks_by_parent_spec_witness :
  let '(p, removed) := remove_blocks_by_parent (MO:=list_order) orphan_samples [1] in
  hash_of <$> removed = [[3]; [2]; [4]] /\ orphans_wf p /\ parents_first [1] removed.
Proof.
  pose proof (remove_blocks_by_parent_spec (MapOrderSpec0:=list_order_spec) orphan_samples [1] orphan_samples_wf) as Hs.
  assert (hash_of <$> (remove_blocks_by_parent (MO:=list_order) orphan_samples [1]).2 = [[3]; [2]; [4]]) as Hr
    by (vm_compute; reflexivity).
  destruct (remove_blocks_by_parent _ _) as [p removed]. cbn in Hr. destruct Hs as (S1 & _ & _ & S4 & _). done.
Defined.
