(* ===== verification/InflightBlocks.v ===== *)
(** * Blocks in flight: [DownloadScheduler] and [InflightBlocks] of
    src/sync/src/types.rs

    The synchronizer asks each peer for a bounded number of blocks at a time.
    [inflight_states] says from whom and since when a block is awaited, a
    [DownloadScheduler] per peer holds the blocks asked from it and how many it
    may be asked for, and [trace_number] the blocks that hold the chain up.  The
    time, in milliseconds, is an argument. *)

From stdpp Require Import sorting.
From S2P Require Import Prelude Capacity NumExt Types OrphanBlockPool.

Definition INIT_BLOCKS_IN_TRANSIT_PER_PEER : Z := 16.
Definition FIRST_LEVEL_MAX : Z := 32.
Definition MAX_BLOCKS_IN_TRANSIT_PER_PEER : Z := 128.
Definition BLOCK_DOWNLOAD_TIMEOUT : Z := 30 * 1000.

Record InflightState := mkInflightState { st_peer : PeerIndex; st_timestamp : Z }.

(** [BlockNumberAndHash]: the number, then the hash, which is also the order. *)
Abbreviation BlockNumberAndHash := (Z * Byte32)%type (only parsing).

(** ** DownloadScheduler *)

Record DownloadScheduler := mkDownloadScheduler {
  task_count : Z;
  timeout_count : Z;
  breakthroughs_count : Z;
  sched_hashes : gset BlockNumberAndHash;
}.
Definition DownloadScheduler_default : DownloadScheduler :=
  mkDownloadScheduler INIT_BLOCKS_IN_TRANSIT_PER_PEER 0 0 ∅.
Definition inflight_count (d : DownloadScheduler) : Z := Z.of_nat (size (sched_hashes d)).
Definition can_fetch (d : DownloadScheduler) : Z := saturating_sub (task_count d) (inflight_count d).
Definition set_tasks (d : DownloadScheduler) (tasks timeouts breakthroughs : Z) : DownloadScheduler :=
  mkDownloadScheduler tasks timeouts breakthroughs (sched_hashes d).
Definition set_hashes (d : DownloadScheduler) (hashes : gset BlockNumberAndHash) : DownloadScheduler :=
  mkDownloadScheduler (task_count d) (timeout_count d) (breakthroughs_count d) hashes.

(** The match on the response time. *)
Definition adjust_tasks (d : DownloadScheduler) (elapsed : Z) : DownloadScheduler :=
  let '(mkDownloadScheduler tasks timeouts breakthroughs _) := d in
  if elapsed <=? 500 then
    if tasks <? FIRST_LEVEL_MAX - 1 then set_tasks d (tasks + 2) timeouts breakthroughs
    else set_tasks d tasks timeouts (breakthroughs + 1)
  else if elapsed <=? 1000 then
    if tasks <? FIRST_LEVEL_MAX then set_tasks d (tasks + 1) timeouts breakthroughs
    else set_tasks d tasks timeouts (breakthroughs + 1)
  else if elapsed <=? 1500 then d
  else if 3 <? timeouts + 1 then set_tasks d (saturating_sub tasks 1) 0 breakthroughs
  else set_tasks d tasks (timeouts + 1) breakthroughs.

Definition break_through (d : DownloadScheduler) : DownloadScheduler :=
  if 4 <? breakthroughs_count d then
    set_tasks d
      (if task_count d <? MAX_BLOCKS_IN_TRANSIT_PER_PEER then task_count d + 1 else task_count d)
      (timeout_count d) 0
  else d.

Definition adjust {E} (d : DownloadScheduler) (now time len : Z) : outcome E DownloadScheduler :=
  let '(quotient, remainder) := if 8 <? len then (Z.shiftr len 3, len mod 8) else (1, 0) in
  elapsed ← u64_sub now time;
  elapsed ← u64_div elapsed quotient;
  Ok (break_through (adjust_tasks d (saturating_sub elapsed (remainder * 100)))).

Definition punish (d : DownloadScheduler) : DownloadScheduler :=
  set_tasks d (Z.shiftr (task_count d) 1) (timeout_count d) (breakthroughs_count d).
Definition forget (block : BlockNumberAndHash) (d : DownloadScheduler) : DownloadScheduler :=
  set_hashes d (sched_hashes d ∖ {[block]}).

(** ** InflightBlocks *)

Record InflightBlocks := mkInflightBlocks {
  download_schedulers : gmap PeerIndex DownloadScheduler;
  inflight_states : gmap BlockNumberAndHash InflightState;
  trace_number : gmap BlockNumberAndHash Z;
  compact_reconstruct_inflight : gmap Byte32 (gset PeerIndex);
  restart_number : Z;
  adjustment : bool;
}.
Definition InflightBlocks_default : InflightBlocks := mkInflightBlocks ∅ ∅ ∅ ∅ 0 true.

Definition set_schedulers (s : InflightBlocks) x := mkInflightBlocks x (inflight_states s)
  (trace_number s) (compact_reconstruct_inflight s) (restart_number s) (adjustment s).
Definition set_states (s : InflightBlocks) x := mkInflightBlocks (download_schedulers s) x
  (trace_number s) (compact_reconstruct_inflight s) (restart_number s) (adjustment s).
Definition set_trace (s : InflightBlocks) x := mkInflightBlocks (download_schedulers s)
  (inflight_states s) x (compact_reconstruct_inflight s) (restart_number s) (adjustment s).
Definition set_compact (s : InflightBlocks) x := mkInflightBlocks (download_schedulers s)
  (inflight_states s) (trace_number s) x (restart_number s) (adjustment s).
Definition set_restart (s : InflightBlocks) x := mkInflightBlocks (download_schedulers s)
  (inflight_states s) (trace_number s) (compact_reconstruct_inflight s) x (adjustment s).
Definition set_adjustment (s : InflightBlocks) x := mkInflightBlocks (download_schedulers s)
  (inflight_states s) (trace_number s) (compact_reconstruct_inflight s) (restart_number s) x.

Definition total_inflight_count (s : InflightBlocks) : Z := Z.of_nat (size (inflight_states s)).
Definition peer_inflight_count (s : InflightBlocks) (peer : PeerIndex) : Z :=
  default 0 (inflight_count <$> download_schedulers s !! peer).
Definition peer_can_fetch_count (s : InflightBlocks) (peer : PeerIndex) : Z :=
  default INIT_BLOCKS_IN_TRANSIT_PER_PEER (can_fetch <$> download_schedulers s !! peer).
Definition inflight_state_by_block (s : InflightBlocks) (block : BlockNumberAndHash) :
    option InflightState := inflight_states s !! block.
Definition inflight_compact_by_block (s : InflightBlocks) (hash : Byte32) : option (gset PeerIndex) :=
  compact_reconstruct_inflight s !! hash.

Definition compact_reconstruct (s : InflightBlocks) (peer : PeerIndex) (hash : Byte32) :
    bool * InflightBlocks :=
  let entry := default ∅ (compact_reconstruct_inflight s !! hash) in
  if (2 <=? size entry)%nat then
    (false, set_compact s (<[hash := entry]> (compact_reconstruct_inflight s)))
  else
    (bool_decide (peer ∉ entry),
     set_compact s (<[hash := {[peer]} ∪ entry]> (compact_reconstruct_inflight s))).

Definition remove_compact (s : InflightBlocks) (peer : PeerIndex) (hash : Byte32) : InflightBlocks :=
  let s := set_compact s (alter (fun peers => peers ∖ {[peer]}) hash (compact_reconstruct_inflight s)) in
  set_trace s (filter (fun kv => kv.1.2 <> hash) (trace_number s)).

(** The order of the keys of the [BTreeMap]: by number, then by hash, byte by
    byte. *)
Fixpoint bytes_leb (a b : bytes) : bool :=
  match a, b with
  | [], _ => true
  | _ :: _, [] => false
  | x :: a, y :: b => if x =? y then bytes_leb a b else x <? y
  end.
Definition key_le (a b : BlockNumberAndHash) : Prop :=
  (if a.1 =? b.1 then bytes_leb a.2 b.2 else a.1 <? b.1) = true.
#[export] Instance key_le_dec a b : Decision (key_le a b).
Proof. unfold key_le. apply _. Defined.
Definition btree_keys {A} (m : gmap BlockNumberAndHash A) : list BlockNumberAndHash :=
  merge_sort key_le (map_to_list m).*1.
(** A [for] loop that breaks at the first key above a number. *)
Fixpoint until_above (number : Z) (keys : list BlockNumberAndHash) : list BlockNumberAndHash :=
  match keys with
  | [] => []
  | k :: keys => if number <? k.1 then [] else k :: until_above number keys
  end.

(** [.entry(block).or_insert(time)]. *)
Definition or_insert (m : gmap BlockNumberAndHash Z) (block : BlockNumberAndHash) (time : Z) :=
  if decide (is_Some (m !! block)) then m else <[block := time]> m.

Definition mark_slow_block {E} (s : InflightBlocks) (now tip : Z) : outcome E InflightBlocks :=
  match btree_keys (inflight_states s) with
  | [] => Ok s
  | keys =>
      limit ← u64_add tip 1;
      Ok (set_trace s (foldl (fun m key => or_insert m key now) (trace_number s) (until_above limit keys)))
  end.

Definition InflightBlocks_insert {E} (s : InflightBlocks) (now : Z) (peer : PeerIndex)
    (block : BlockNumberAndHash) : outcome E (bool * InflightBlocks) :=
  if decide (is_Some (compact_reconstruct_inflight s !! block.2)) then
    deadline ← u64_add now 500;
    Ok (false, set_trace s (or_insert (trace_number s) block deadline))
  else if decide (is_Some (inflight_states s !! block)) then Ok (false, s)
  else
    let s := set_states s (<[block := mkInflightState peer now]> (inflight_states s)) in
    s ←
      (if block.1 <=? restart_number s then
         deadline ← u64_add now 500;
         Ok (set_trace s (<[block := deadline]> (trace_number s)))
       else Ok s);
    let d := default DownloadScheduler_default (download_schedulers s !! peer) in
    Ok (bool_decide (block ∉ sched_hashes d),
        set_schedulers s (<[peer := set_hashes d ({[block]} ∪ sched_hashes d)]> (download_schedulers s))).

(** The loop body of [remove_by_peer]; each turn removes its own block, so the
    order of the set is immaterial. *)
Definition drop_block (peer : PeerIndex) (s : InflightBlocks) (block : BlockNumberAndHash) :
    InflightBlocks :=
  let s := set_compact s
    (alter (fun peers => peers ∖ {[peer]}) block.2 (compact_reconstruct_inflight s)) in
  let s := set_states s (delete block (inflight_states s)) in
  set_trace s (delete block (trace_number s)).

Definition remove_by_peer (s : InflightBlocks) (peer : PeerIndex) : bool * InflightBlocks :=
  match download_schedulers s !! peer with
  | None => (false, s)
  | Some blocks =>
      let s := set_schedulers s (delete peer (download_schedulers s)) in
      (true, foldl (drop_block peer) s (elements (sched_hashes blocks)))
  end.

Definition remove_by_block {E} (s : InflightBlocks) (now : Z) (block : BlockNumberAndHash) :
    outcome E (bool * InflightBlocks) :=
  let len := Z.of_nat (size (download_schedulers s)) in
  match inflight_states s !! block with
  | None => Ok (false, s)
  | Some state =>
      let s := set_states s (delete block (inflight_states s)) in
      match download_schedulers s !! st_peer state with
      | None => Ok (true, s)
      | Some set =>
          let set := forget block set in
          let s := set_compact s (delete block.2 (compact_reconstruct_inflight s)) in
          set ← (if adjustment s then adjust set now (st_timestamp state) len else Ok set);
          let s := set_schedulers s (<[st_peer state := set]> (download_schedulers s)) in
          Ok (true, set_trace s (delete block (trace_number s)))
      end
  end.

(** *** Pruning *)

(** The first loop: the blocks within [tip + 20] that took too long.  The keys
    to remove are collected and removed after it. *)
Definition prune_timeout {E} (now : Z)
    (acc : InflightBlocks * gset PeerIndex * list BlockNumberAndHash) (key : BlockNumberAndHash) :
    outcome E (InflightBlocks * gset PeerIndex * list BlockNumberAndHash) :=
  let '(s, disconnect_list, remove_key) := acc in
  match inflight_states s !! key with
  | None => Ok acc
  | Some value =>
      deadline ← u64_add (st_timestamp value) BLOCK_DOWNLOAD_TIMEOUT;
      if deadline <? now then
        let s := set_schedulers s (alter (forget key) (st_peer value) (download_schedulers s)) in
        let s := set_trace s (delete key (trace_number s)) in
        Ok (s, {[st_peer value]} ∪ disconnect_list, remove_key ++ [key])
      else Ok acc
  end.

(** The closure of [trace.retain]: whether the entry stays, and the rest of the
    state after it. *)
Definition retain_trace {E} (now : Z) (s : InflightBlocks) (entry : BlockNumberAndHash * Z) :
    outcome E (bool * InflightBlocks) :=
  let '(key, time) := entry in
  limit ← u64_add 1000 time;
  if limit <? now then
    let s :=
      match inflight_states s !! key with
      | Some state =>
          let s := set_states s (delete key (inflight_states s)) in
          set_schedulers s (alter (fun d => forget key (punish d)) (st_peer state) (download_schedulers s))
      | None =>
          match compact_reconstruct_inflight s !! key.2 with
          | Some v =>
              let s := set_compact s (delete key.2 (compact_reconstruct_inflight s)) in
              set_schedulers s (foldl (fun m peer => alter punish peer m) (download_schedulers s) (elements v))
          | None => s
          end
      end in
    Ok (false, if restart_number s <? key.1 then set_restart s key.1 else s)
  else Ok (true, s).

Definition retain_step {E} (now : Z) (s : InflightBlocks) (entry : BlockNumberAndHash * Z) :
    outcome E InflightBlocks :=
  '(keep, s) ← retain_trace now s entry;
  Ok (if (keep : bool) then s else set_trace s (delete entry.1 (trace_number s))).

Section InflightBlocks_prune.
Context `{MO : !MapOrder BlockNumberAndHash Z} {E : Type}.

Definition InflightBlocks_prune (s : InflightBlocks) (now tip : Z) : outcome E (gset PeerIndex * InflightBlocks) :=
  last ← u64_add tip 20;
  '(s, disconnect_list, remove_key) ←
    try_fold (prune_timeout now) (s, ∅, []) (until_above last (btree_keys (inflight_states s)));
  let s := set_states s (foldl (fun m key => delete key m) (inflight_states s) remove_key) in
  let slow := filter (fun kd => task_count kd.2 = 0) (download_schedulers s) in
  let disconnect_list := dom slow ∪ disconnect_list in
  let s := set_schedulers s (filter (fun kd => task_count kd.2 <> 0) (download_schedulers s)) in
  s ←
    (if restart_number s =? 0 then Ok s
     else
       next ← u64_add tip 1;
       Ok (if restart_number s <? next then set_restart s 0 else s));
  s ← try_fold (retain_step now) s (map_iter (trace_number s));
  Ok (disconnect_list, s).
End InflightBlocks_prune.

(** ** The invariant *)

(** The counters of a scheduler stay in their range. *)
Record sched_ok (d : DownloadScheduler) : Prop := {
  so_tasks : 0 <= task_count d <= MAX_BLOCKS_IN_TRANSIT_PER_PEER;
  so_timeouts : 0 <= timeout_count d <= 3;
  so_breakthroughs : 0 <= breakthroughs_count d <= 4;
}.

(** A block that a scheduler holds is awaited from that peer, so from no other. *)
Record scheds_wf (S : gmap PeerIndex DownloadScheduler) (T : gmap BlockNumberAndHash InflightState) :
    Prop := {
  sw_ok p d : S !! p = Some d -> sched_ok d;
  sw_peer p d b : S !! p = Some d -> b ∈ sched_hashes d ->
    exists st, T !! b = Some st /\ st_peer st = p;
}.

(** A block that is awaited is held by the scheduler of its peer. *)
Definition tracked (S : gmap PeerIndex DownloadScheduler) (T : gmap BlockNumberAndHash InflightState) :
    Prop := forall b st, T !! b = Some st ->
  exists d, S !! st_peer st = Some d /\ b ∈ sched_hashes d.

(** Nothing is dated after [now], apart from the half second given in advance. *)
Record times_ok (now : Z) (s : InflightBlocks) : Prop := {
  ti_states b st : inflight_states s !! b = Some st -> 0 <= st_timestamp st <= now;
  ti_trace b t : trace_number s !! b = Some t -> 0 <= t <= now + 500;
}.

Record inflight_ok (now : Z) (s : InflightBlocks) : Prop := {
  io_wf : scheds_wf (download_schedulers s) (inflight_states s);
  io_times : times_ok now s;
}.

(** *** Schedulers *)

Lemma adjust_tasks_ok d elapsed :
  sched_ok d -> 0 <= task_count (adjust_tasks d elapsed) <= MAX_BLOCKS_IN_TRANSIT_PER_PEER /\
    0 <= timeout_count (adjust_tasks d elapsed) <= 3 /\
    0 <= breakthroughs_count (adjust_tasks d elapsed) <= 5 /\
    sched_hashes (adjust_tasks d elapsed) = sched_hashes d.
Proof.
  intros [H1 H2 H3]. destruct d as [t m b h]. unfold adjust_tasks. cbn in *.
  unfold MAX_BLOCKS_IN_TRANSIT_PER_PEER, FIRST_LEVEL_MAX in *.
  repeat case_match; reflect_bools; cbn; (split_and!; zlia || done).
Qed.

Lemma adjust_Ok {E} d now time len :
  sched_ok d -> 0 <= time <= now -> now < 2 ^ 63 ->
  exists d', adjust (E:=E) d now time len = Ok d' /\ sched_ok d' /\ sched_hashes d' = sched_hashes d.
Proof.
  intros Hd Ht Hn. unfold adjust.
  assert (exists q r, (if 8 <? len then (Z.shiftr len 3, len mod 8) else (1, 0)) = (q, r) /\ 0 < q)
    as (q & r & -> & Hq).
  { case_match; do 2 eexists; (split; [done|]); [|lia].
    rewrite Z.shiftr_div_pow2 by lia. reflect_bools. change (2 ^ 3) with 8. divlia. }
  unfold u64_sub. rewrite fit_in_range by zlia. step. unfold u64_div.
  rewrite (proj2 (Z.eqb_neq q 0)) by lia. step. eexists. split; [done|].
  set (e := saturating_sub _ _). destruct (adjust_tasks_ok d e Hd) as (H1 & H2 & H3 & H4).
  unfold break_through. unfold MAX_BLOCKS_IN_TRANSIT_PER_PEER in *.
  case_match; reflect_bools; [|by split; [split; unfold MAX_BLOCKS_IN_TRANSIT_PER_PEER; lia|]].
  split; [|done]. split; cbn; [unfold MAX_BLOCKS_IN_TRANSIT_PER_PEER; case_match; zlia|lia|lia].
Qed.

Lemma punish_ok d : sched_ok d -> sched_ok (punish d).
Proof.
  intros [H1 H2 H3]. split; cbn; [|done..]. rewrite Z.shiftr_div_pow2 by lia.
  unfold MAX_BLOCKS_IN_TRANSIT_PER_PEER in *. change (2 ^ 1) with 2. divlia.
Qed.

(** *** Forgetting a block *)

(** The block leaves its scheduler, whose counters [f] may change. *)
Lemma forget_wf S T p key f :
  scheds_wf S T -> (forall st, T !! key = Some st -> st_peer st = p) ->
  (forall d, sched_ok d -> sched_ok (f d)) -> (forall d, sched_hashes (f d) = sched_hashes d) ->
  scheds_wf (alter (fun d => forget key (f d)) p S) (delete key T).
Proof.
  intros Hw Hp Hf Hh. split.
  - intros q d. rewrite lookup_alter. case_decide as Hq; [|apply Hw].
    intros (d0 & Hd0 & ->)%fmap_Some. destruct (Hf d0 ltac:(by eapply Hw)) as [H1 H2 H3]. by split.
  - intros q d b. rewrite lookup_alter. intros Hd Hb.
    assert (b <> key /\ exists d0, S !! q = Some d0 /\ b ∈ sched_hashes d0) as (Hne & d0 & Hd0 & Hb0).
    { case_decide as Hq.
      - apply fmap_Some in Hd as (d0 & Hd0 & ->). cbn in Hb. rewrite Hh in Hb. subst q.
        split; [set_solver|]. exists d0. split; [done|set_solver].
      - split; [|by exists d]. intros ->. destruct (sw_peer _ _ Hw _ _ _ Hd Hb) as (st & Hst & <-).
        by rewrite (Hp st Hst) in Hq. }
    rewrite lookup_delete_ne by done. by eapply (sw_peer _ _ Hw).
Qed.

Lemma forget_tracked S T p key f :
  tracked S T -> (forall d, sched_hashes (f d) = sched_hashes d) ->
  tracked (alter (fun d => forget key (f d)) p S) (delete key T).
Proof.
  intros Ht Hh b st Hb. apply lookup_delete_Some in Hb as [Hne Hb].
  destruct (Ht b st Hb) as (d & Hd & Hin). rewrite lookup_alter.
  case_decide as Hp; [subst p|by exists d]. rewrite Hd. eexists. split; [done|]. cbn. rewrite Hh. set_solver.
Qed.

(** Counters change, no block moves. *)
Lemma alter_punish_wf S T l :
  scheds_wf S T -> scheds_wf (foldl (fun m peer => alter punish peer m) S l) T.
Proof.
  revert S. induction l as [|p l IH]; intros S Hw; cbn [foldl]; [done|]. apply IH. split.
  - intros q d. rewrite lookup_alter. case_decide; [|apply Hw].
    intros (d0 & Hd0 & ->)%fmap_Some. by eapply punish_ok, (sw_ok _ _ Hw).
  - intros q d b. rewrite lookup_alter. case_decide; [|apply Hw].
    intros (d0 & Hd0 & ->)%fmap_Some. subst q. intros Hb. by eapply (sw_peer _ _ Hw _ d0).
Qed.

Lemma alter_punish_tracked S T l :
  tracked S T -> tracked (foldl (fun m peer => alter punish peer m) S l) T.
Proof.
  revert S. induction l as [|p l IH]; intros S Ht; cbn [foldl]; [done|]. apply IH.
  intros b st Hb. destruct (Ht b st Hb) as (d & Hd & Hin). rewrite lookup_alter.
  case_decide as Hp; [subst p|by exists d]. rewrite Hd. by eexists.
Qed.

(** *** The operations *)

Definition all_tracked (s : InflightBlocks) : Prop :=
  tracked (download_schedulers s) (inflight_states s).

Lemma times_later now now' s : times_ok now s -> now <= now' -> times_ok now' s.
Proof.
  intros [H1 H2] Hle. split; [intros b st H; specialize (H1 b st H); lia|].
  intros b t H. specialize (H2 b t H). lia.
Qed.

(** Fewer entries, the same bounds. *)
Lemma times_sub now s s' :
  times_ok now s -> (forall b st, inflight_states s' !! b = Some st -> inflight_states s !! b = Some st) ->
  (forall b t, trace_number s' !! b = Some t -> trace_number s !! b = Some t) -> times_ok now s'.
Proof. intros [H1 H2] Hs Ht. split; [intros b st Hb|intros b t Hb]; eauto. Qed.

Lemma or_insert_lookup m b time k t :
  or_insert m b time !! k = Some t -> m !! k = Some t \/ t = time.
Proof.
  unfold or_insert. case_decide; [by left|]. rewrite lookup_insert. case_decide; [|by left].
  intros [= <-]. by right.
Qed.

Lemma drop_blocks peer l s0 :
  let s1 := foldl (drop_block peer) s0 l in
  download_schedulers s1 = download_schedulers s0 /\
  (forall b, inflight_states s1 !! b = if decide (b ∈ l) then None else inflight_states s0 !! b) /\
  (forall b, trace_number s1 !! b = if decide (b ∈ l) then None else trace_number s0 !! b).
Proof.
  cbn. revert s0. induction l as [|k l IH]; intros s0; cbn [foldl].
  { split_and!; [done|intros b; by rewrite decide_False by set_solver..]. }
  destruct (IH (drop_block peer s0 k)) as (Hd & Hs & Ht). split_and!; [done|..]; intros b;
    [rewrite Hs|rewrite Ht]; cbn; rewrite lookup_delete; repeat case_decide; set_solver.
Qed.

Section operations.
Context {E : Type} (s : InflightBlocks) (now : Z).
Hypothesis Hok : inflight_ok now s.
Hypothesis Hnow : 0 <= now < 2 ^ 63.

Lemma insert_Ok peer block :
  exists b s', InflightBlocks_insert (E:=E) s now peer block = Ok (b, s') /\ inflight_ok now s' /\
    (all_tracked s -> all_tracked s') /\
    (b = true <-> compact_reconstruct_inflight s !! block.2 = None /\ inflight_states s !! block = None) /\
    (b = true -> inflight_states s' = <[block := mkInflightState peer now]> (inflight_states s)) /\
    (b = false -> inflight_states s' = inflight_states s).
Proof.
  destruct Hok as [Hw Ht]. unfold InflightBlocks_insert, u64_add.
  case_decide as Hc.
  { rewrite fit_in_range by zlia. step. do 2 eexists. split; [done|]. destruct Hc as [x Hc].
    split_and!; cbn; [|done|split; [done|intros [? _]; congruence]|done|done].
    split; [done|]. split; cbn; [apply Ht|]. intros b t [H| ->]%or_insert_lookup; [by eapply Ht|lia]. }
  apply eq_None_not_Some in Hc. case_decide as Hs.
  { do 2 eexists. split; [done|]. destruct Hs as [x Hs].
    split_and!; [by split|done|split; [done|intros [_ ?]; congruence]|done|done]. }
  apply eq_None_not_Some in Hs.
  assert (forall p d, download_schedulers s !! p = Some d -> block ∉ sched_hashes d) as Hfresh.
  { intros p d Hd Hb. destruct (sw_peer _ _ Hw _ _ _ Hd Hb) as (st & Hst & _). congruence. }
  cbn [set_states restart_number trace_number inflight_states]. rewrite !fit_in_range by zlia. step.
  set (s1 := if block.1 <=? restart_number s then _ else _ : outcome E InflightBlocks).
  assert (exists s1', s1 = Ok s1' /\ download_schedulers s1' = download_schedulers s /\
    inflight_states s1' = <[block := mkInflightState peer now]> (inflight_states s) /\
    forall b t, trace_number s1' !! b = Some t -> 0 <= t <= now + 500) as (s1' & -> & Hd1 & Hs1 & Ht1).
  { subst s1. case_match; eexists; (split_and!; [done..|]); cbn; [|apply Ht].
    intros b t. rewrite lookup_insert. case_decide; [intros [= <-]; lia|apply Ht]. }
  step. do 2 eexists. split; [done|]. rewrite Hd1.
  set (d := default DownloadScheduler_default (download_schedulers s !! peer)).
  assert (sched_ok d /\ block ∉ sched_hashes d /\
    forall b, b ∈ sched_hashes d -> exists st, inflight_states s !! b = Some st /\ st_peer st = peer)
    as (Hdo & Hnb & Hdp).
  { subst d. destruct (download_schedulers s !! peer) as [d|] eqn:Hd; cbn.
    - split_and!; [by eapply Hw|by eapply Hfresh|]. intros b. by eapply (sw_peer _ _ Hw).
    - split_and!; [|set_solver..]. by split. }
  rewrite bool_decide_true by done.
  split_and!; [|  |by split|by cbn|done].
  - split; [split|split]; cbn; rewrite ?Hd1, ?Hs1.
    + intros p d'. rewrite lookup_insert. case_decide; [intros [= <-]|by apply Hw].
      destruct Hdo as [D1 D2 D3]. by split.
    + intros p d' b. rewrite lookup_insert. case_decide as Hp; [subst p; intros [= <-]|]; intros Hb.
      * cbn in Hb. rewrite lookup_insert. case_decide; [by eexists|]. apply Hdp. set_solver.
      * intros Hb'. rewrite lookup_insert_ne; [by eapply (sw_peer _ _ Hw)|]. intros <-. by eapply Hfresh.
    + intros b st. rewrite lookup_insert. case_decide; [intros [= <-]; cbn; lia|apply Ht].
    + apply Ht1.
  - intros Htr b st. cbn. rewrite Hs1. rewrite lookup_insert. case_decide as Hb.
    + intros [= <-]. cbn. rewrite lookup_insert_eq. eexists. split; [done|]. cbn. set_solver.
    + intros Hst. destruct (Htr b st Hst) as (d' & Hd' & Hin). rewrite lookup_insert.
      case_decide as Hp; [|by exists d']. eexists. split; [done|]. cbn. subst d. rewrite Hp, Hd'. cbn. set_solver.
Qed.

Lemma remove_by_peer_Ok peer :
  let '(b, s') := remove_by_peer s peer in
  inflight_ok now s' /\ (all_tracked s -> all_tracked s') /\
  (all_tracked s -> forall b st, inflight_states s' !! b = Some st -> st_peer st <> peer).
Proof.
  unfold remove_by_peer. destruct (download_schedulers s !! peer) as [d|] eqn:Hd.
  2: { split_and!; [done..|]. intros Htr b st Hb Heq. destruct (Htr b st Hb) as (d & Hd' & _). congruence. }
  destruct Hok as [Hw Ht].
  destruct (drop_blocks peer (elements (sched_hashes d)) (set_schedulers s (delete peer (download_schedulers s))))
    as (Hd1 & Hs1 & Ht1). cbn in Hd1, Hs1, Ht1.
  set (s' := foldl _ _ _) in *.
  assert (forall b, b ∈ elements (sched_hashes d) -> exists st, inflight_states s !! b = Some st /\ st_peer st = peer)
    as Hmine by (intros b Hb%elem_of_elements; by eapply (sw_peer _ _ Hw)).
  assert (all_tracked s -> forall b st, inflight_states s' !! b = Some st ->
    st_peer st <> peer /\ inflight_states s !! b = Some st) as Hrest.
  { intros Htr b st. rewrite Hs1. case_decide as Hb; [done|]. intros Hst. split; [|done]. intros Heq.
    destruct (Htr b st Hst) as (d' & Hd' & Hin). apply Hb, elem_of_elements. rewrite Heq, Hd in Hd'.
    by simplify_eq. }
  split_and!.
  - split; [split|eapply times_sub; [exact Ht|..]]; rewrite ?Hd1.
    + intros p d' [_ Hp]%lookup_delete_Some. by eapply Hw.
    + intros p d' b [Hne Hp]%lookup_delete_Some Hb.
      destruct (sw_peer _ _ Hw _ _ _ Hp Hb) as (st & Hst & Hpeer). exists st. split; [|done].
      rewrite Hs1, decide_False; [done|]. intros (st' & Hst' & Hpeer')%Hmine. congruence.
    + intros b st. rewrite Hs1. by case_decide.
    + intros b t. rewrite Ht1. by case_decide.
  - intros Htr b st Hst. destruct (Hrest Htr b st Hst) as [Hne Hst0]. destruct (Htr b st Hst0) as (d' & Hd' & Hin).
    exists d'. split; [|done]. by rewrite Hd1, lookup_delete_ne.
  - intros Htr b st Hst. by apply Hrest in Hst as [].
Qed.
Lemma remove_by_block_Ok block :
  exists b s', remove_by_block (E:=E) s now block = Ok (b, s') /\ inflight_ok now s' /\
    (all_tracked s -> all_tracked s') /\ (b = true <-> is_Some (inflight_states s !! block)) /\
    inflight_states s' = delete block (inflight_states s).
Proof.
  destruct Hok as [Hw Ht]. unfold remove_by_block.
  destruct (inflight_states s !! block) as [st|] eqn:Hst.
  2: { do 2 eexists. split; [done|]. split_and!; [by split|done|split; [done|by intros []]|].
       by rewrite delete_id. }
  cbn [set_states download_schedulers].
  destruct (download_schedulers s !! st_peer st) as [d|] eqn:Hd.
  2: { do 2 eexists. split; [done|]. split_and!; cbn; [|  |by split; eauto|done].
       - split; [split|eapply times_sub; [exact Ht| |done]]; cbn; [apply Hw| |].
         + intros p d b Hp Hb. destruct (sw_peer _ _ Hw _ _ _ Hp Hb) as (st' & Hst' & Hpeer).
           exists st'. split; [|done]. rewrite lookup_delete_ne; [done|]. intros <-. congruence.
         + by intros b st' [_ ?]%lookup_delete_Some.
       - intros Htr. destruct (Htr _ _ Hst) as (d & Hd' & _). congruence. }
  cbn [set_states set_compact adjustment compact_reconstruct_inflight].
  assert (sched_ok (forget block d)) as Hfd.
  { destruct (sw_ok _ _ Hw _ _ Hd) as [D1 D2 D3]. by split. }
  set (m := if adjustment s then _ else _ : outcome E DownloadScheduler).
  assert (exists d', m = Ok d' /\ sched_ok d' /\ sched_hashes d' = sched_hashes (forget block d))
    as (d' & -> & Hd'o & Hd'h).
  { subst m. destruct (adjustment s); [|by exists (forget block d)].
    apply adjust_Ok; [done|by eapply Ht|lia]. }
  step. do 2 eexists. split; [done|]. cbn.
  (* the scheduler of the peer, as an update in place *)
  assert (<[st_peer st := d']> (download_schedulers s) =
    alter (fun x => forget block (set_tasks x (task_count d') (timeout_count d') (breakthroughs_count d')))
      (st_peer st) (download_schedulers s)) as ->.
  { apply map_eq. intros p. rewrite lookup_insert, lookup_alter. case_decide as Hp; [|done].
    rewrite Hd. cbn. f_equal. destruct d' as [x1 x2 x3 x4]. unfold forget, set_tasks, set_hashes. cbn in *.
    by rewrite Hd'h. }
  split_and!; [| |by split; eauto|done].
  - split; [|eapply times_sub; [exact Ht|..]; cbn; by intros ?? [_ ?]%lookup_delete_Some].
    apply forget_wf; [done| | |done].
    + intros st' Hst'. cbn in *. congruence.
    + intros x _. destruct Hd'o. by split.
  - intros Htr. apply forget_tracked; [apply Htr|done].
Qed.

Lemma mark_slow_block_Ok tip :
  0 <= tip < 2 ^ 63 ->
  exists s', mark_slow_block (E:=E) s now tip = Ok s' /\ inflight_ok now s' /\
    (all_tracked s -> all_tracked s').
Proof.
  intros Htip. destruct Hok as [Hw Ht]. unfold mark_slow_block.
  case_match; [eexists; split; [done|by split; [split|]]|].
  unfold u64_add. rewrite fit_in_range by zlia. step. eexists. split; [done|]. split; [|done].
  split; [done|]. split; [apply Ht|]. cbn [set_trace trace_number]. generalize (until_above (tip + 1) (p :: l)). intros keys.
  assert (forall b t, trace_number s !! b = Some t -> 0 <= t <= now + 500) as HI by apply Ht.
  revert HI. generalize (trace_number s). induction keys as [|k keys IH]; intros m HI; cbn [foldl]; [exact HI|].
  apply IH. intros b t [Hb| ->]%or_insert_lookup; [by eapply HI|lia].
Qed.

Lemma compact_reconstruct_Ok peer hash :
  let '(_, s') := compact_reconstruct s peer hash in
  inflight_ok now s' /\ (all_tracked s -> all_tracked s').
Proof.
  destruct Hok as [Hw [T1 T2]]. unfold compact_reconstruct.
  destruct (2 <=? _)%nat; (split; [|done]); by split; [|split].
Qed.

Lemma remove_compact_Ok peer hash :
  let s' := remove_compact s peer hash in inflight_ok now s' /\ (all_tracked s -> all_tracked s').
Proof.
  destruct Hok as [Hw Ht]. split; [|done]. split; [done|].
  eapply times_sub; [exact Ht|done|]. cbn. by intros b t [? _]%map_lookup_filter_Some.
Qed.
End operations.

(** *** Pruning *)

Lemma delete_all_lookup {A} (m : gmap BlockNumberAndHash A) l k :
  foldl (fun m key => delete key m) m l !! k = if decide (k ∈ l) then None else m !! k.
Proof.
  revert m. induction l as [|x l IH]; intros m; cbn [foldl]; [by rewrite decide_False by set_solver|].
  rewrite IH, lookup_delete. repeat case_decide; set_solver.
Qed.

(** The state as the first loop goes, with the collected keys already removed. *)
Definition drop_keys (s : InflightBlocks) (keys : list BlockNumberAndHash) : InflightBlocks :=
  set_states s (foldl (fun m key => delete key m) (inflight_states s) keys).

Section pruning.
Context {E : Type} (now : Z).
Hypothesis Hnow : 0 <= now < 2 ^ 63.

Definition expired (st : InflightState) : Prop := st_timestamp st + BLOCK_DOWNLOAD_TIMEOUT < now.

Record timing_out (s0 : InflightBlocks) (done_keys : list BlockNumberAndHash)
    (acc : InflightBlocks * gset PeerIndex * list BlockNumberAndHash) : Prop := {
  to_ok : inflight_ok now (drop_keys acc.1.1 acc.2);
  to_tracked : all_tracked s0 -> all_tracked (drop_keys acc.1.1 acc.2);
  to_states : inflight_states acc.1.1 = inflight_states s0;
  to_tasks : fmap task_count (download_schedulers acc.1.1) = fmap task_count (download_schedulers s0);
  to_keys k : k ∈ acc.2 <->
    k ∈ done_keys /\ exists st, inflight_states s0 !! k = Some st /\ expired st;
  to_peers p : p ∈ acc.1.2 <->
    exists k st, k ∈ acc.2 /\ inflight_states s0 !! k = Some st /\ st_peer st = p;
}.

Lemma drop_keys_snoc s keys key :
  inflight_states (drop_keys s (keys ++ [key])) = delete key (inflight_states (drop_keys s keys)).
Proof. cbn. by rewrite foldl_app. Qed.

Lemma prune_timeout_Ok s0 keys acc key :
  timing_out s0 keys acc -> (forall b st, inflight_states s0 !! b = Some st -> 0 <= st_timestamp st <= now) ->
  exists acc', prune_timeout (E:=E) now acc key = Ok acc' /\ timing_out s0 (keys ++ [key]) acc'.
Proof.
  intros HI Hts. destruct acc as [[s peers] rk]. unfold prune_timeout. pose proof (to_states _ _ _ HI) as Hsts. cbn in Hsts. rewrite Hsts.
  assert ((forall st, inflight_states s0 !! key = Some st -> ~ expired st) ->
    timing_out s0 (keys ++ [key]) (s, peers, rk)) as Hsame.
  { intros Hno. destruct HI as [H1 H2 H3 H4 H5 H6]. split; try done. intros k. rewrite H5, elem_of_app.
    split; [intros [? ?]; by split; [left|]|]. intros [[?| ->%list_elem_of_singleton] (st & Hst & He)]; [by eauto|].
    by destruct (Hno st Hst). }
  destruct (inflight_states s0 !! key) as [st|] eqn:Hst; [|exists (s, peers, rk); split; [done|by apply Hsame]].
  pose proof (Hts _ _ Hst). unfold u64_add. rewrite fit_in_range by (unfold BLOCK_DOWNLOAD_TIMEOUT; zlia). step.
  case_match eqn:He; reflect_bools; [|exists (s, peers, rk); split; [done|]; apply Hsame; intros ? [= <-];
    unfold expired; lia].
  clear Hsame. destruct HI as [[Hw Ht] Htr Hss Htask Hkeys Hpeers]. cbn [fst snd] in *.
  eexists. split; [done|]. split; cbn [fst snd].
  - split.
    + rewrite drop_keys_snoc. apply forget_wf; [done| |done|done].
      intros st' Hst'. cbn in Hst'. rewrite delete_all_lookup, Hss in Hst'. case_decide; [done|]. congruence.
    + eapply times_sub; [exact Ht| |].
      * rewrite drop_keys_snoc. by intros b st' [_ ?]%lookup_delete_Some.
      * cbn. by intros b t [_ ?]%lookup_delete_Some.
  - intros Htr0. unfold all_tracked. rewrite drop_keys_snoc. apply forget_tracked; [by apply Htr|done].
  - done.
  - cbn. rewrite <- Htask. apply map_eq. intros p. rewrite !lookup_fmap, lookup_alter.
    case_decide as Hp; [subst p|done]. by destruct (download_schedulers s !! _).
  - intros k. rewrite !elem_of_app, list_elem_of_singleton, Hkeys. split.
    + intros [[? ?]| ->]; [by split; [left|]|]. split; [by right|]. exists st. split; [done|]. unfold expired. lia.
    + intros [[?| ->] ?]; [by left|by right].
  - intros p. rewrite elem_of_union, elem_of_singleton, Hpeers. setoid_rewrite elem_of_app.
    setoid_rewrite list_elem_of_singleton. split.
    + intros [->|(k & st' & Hk & ? & ?)]; [by exists key, st; eauto|by exists k, st'; eauto].
    + intros (k & st' & [Hk| ->] & Hst' & <-); [right; by exists k, st'|left; congruence].
Qed.

Lemma prune_timeouts_Ok s0 keys acc l :
  timing_out s0 keys acc -> (forall b st, inflight_states s0 !! b = Some st -> 0 <= st_timestamp st <= now) ->
  exists acc', try_fold (prune_timeout (E:=E) now) acc l = Ok acc' /\ timing_out s0 (keys ++ l) acc'.
Proof.
  intros HI Hts. revert keys acc HI. induction l as [|k l IH]; intros keys acc HI; cbn [try_fold].
  { exists acc. split; [done|]. by rewrite app_nil_r. }
  destruct (prune_timeout_Ok s0 keys acc k HI Hts) as (acc' & -> & HI'). step.
  rewrite cons_middle, app_assoc. by apply IH.
Qed.

(** The closure of [retain] keeps the invariant. *)
Lemma retain_step_Ok s entry :
  inflight_ok now s -> 0 <= entry.2 <= now + 500 ->
  exists s', retain_step (E:=E) now s entry = Ok s' /\ inflight_ok now s' /\
    (all_tracked s -> all_tracked s') /\
    (forall b st, inflight_states s' !! b = Some st -> inflight_states s !! b = Some st).
Proof.
  intros [Hw Ht] Hb. destruct entry as [key time]. cbn in Hb. unfold retain_step, retain_trace, u64_add.
  rewrite fit_in_range by zlia. step. case_match; step; [|by exists s].
  set (s1 := match inflight_states s !! key with Some _ => _ | None => _ end).
  assert (scheds_wf (download_schedulers s1) (inflight_states s1) /\
    (all_tracked s -> all_tracked s1) /\ trace_number s1 = trace_number s /\
    forall b st, inflight_states s1 !! b = Some st -> inflight_states s !! b = Some st)
    as (Hw1 & Htr1 & Ht1 & Hs1).
  { subst s1. destruct (inflight_states s !! key) as [st|] eqn:Hst; cbn.
    - split_and!; [|  |done|by intros ?? [_ ?]%lookup_delete_Some].
      + apply forget_wf; [done| |apply punish_ok|done]. congruence.
      + intros Htr. by apply forget_tracked.
    - destruct (compact_reconstruct_inflight s !! key.2) as [v|]; [|done]. cbn.
      split_and!; [by apply alter_punish_wf|by apply alter_punish_tracked|done|done]. }
  eexists. split; [done|]. clearbody s1.
  split_and!; [split; [by case_match|]| |]; [|by case_match..].
  eapply times_sub; [exact Ht|by case_match|]. cbn.
  intros b t [_ Hbt]%lookup_delete_Some. rewrite <- Ht1. by case_match.
Qed.

Lemma retain_steps_Ok s l :
  inflight_ok now s -> Forall (fun e => 0 <= e.2 <= now + 500) l ->
  exists s', try_fold (retain_step (E:=E) now) s l = Ok s' /\ inflight_ok now s' /\
    (all_tracked s -> all_tracked s') /\
    (forall b st, inflight_states s' !! b = Some st -> inflight_states s !! b = Some st).
Proof.
  intros Hs Hl. revert s Hs. induction Hl as [|e l He Hl IH]; intros s Hs; cbn [try_fold]; [by exists s|].
  destruct (retain_step_Ok s e Hs He) as (s1 & -> & Hs1 & Ht1 & Hsub1). step.
  destruct (IH s1 Hs1) as (s2 & -> & Hs2 & Ht2 & Hsub2). exists s2. split_and!; auto.
Qed.
End pruning.

Lemma bytes_leb_refl a : bytes_leb a a = true.
Proof. induction a as [|x a IH]; cbn; [done|]. by rewrite Z.eqb_refl. Qed.

Lemma bytes_leb_trans a b c : bytes_leb a b = true -> bytes_leb b c = true -> bytes_leb a c = true.
Proof.
  revert b c. induction a as [|x a IH]; intros [|y b] [|z c]; cbn; try done.
  destruct (Z.eqb_spec x y), (Z.eqb_spec y z), (Z.eqb_spec x z); subst; try done; intros; try lia.
  by eapply IH.
Qed.

Lemma bytes_leb_total a b : bytes_leb a b = true \/ bytes_leb b a = true.
Proof.
  revert b. induction a as [|x a IH]; intros [|y b]; cbn; auto.
  destruct (Z.eqb_spec x y), (Z.eqb_spec y x); subst; first [done|lia|apply IH].
Qed.

#[export] Instance key_le_trans : Transitive key_le.
Proof.
  intros [a x] [b y] [c z]. unfold key_le. cbn.
  destruct (Z.eqb_spec a b), (Z.eqb_spec b c), (Z.eqb_spec a c); subst; try done; try lia.
  apply bytes_leb_trans.
Qed.

#[export] Instance key_le_total : Total key_le.
Proof.
  intros [a x] [b y]. unfold key_le. cbn.
  destruct (Z.eqb_spec a b), (Z.eqb_spec b a); subst; first [done|lia|apply bytes_leb_total].
Qed.

Lemma key_le_number a b : key_le a b -> a.1 <= b.1.
Proof. unfold key_le. case_match; reflect_bools; lia. Qed.

Lemma until_above_elem n l k :
  StronglySorted key_le l -> k ∈ until_above n l <-> k ∈ l /\ k.1 <= n.
Proof.
  induction 1 as [|x l Hs IH Hf]; cbn; [set_solver|]. case_match eqn:Hx; reflect_bools.
  - split; [by intros ?%not_elem_of_nil|]. intros [[->|Hk]%elem_of_cons Hle]; [lia|].
    rewrite Forall_forall in Hf. specialize (Hf k Hk). apply key_le_number in Hf. lia.
  - rewrite !elem_of_cons, IH. split; [intros [->|[? ?]]; auto|]. intros [[->|] ?]; auto.
Qed.

Lemma btree_until {A} (m : gmap BlockNumberAndHash A) n k :
  k ∈ until_above n (btree_keys m) <-> is_Some (m !! k) /\ k.1 <= n.
Proof.
  unfold btree_keys. rewrite until_above_elem by (apply StronglySorted_merge_sort; apply _).
  rewrite merge_sort_Permutation, list_elem_of_fmap. split.
  - intros [([k' x] & -> & Hx%elem_of_map_to_list) Hn]. split; [by eexists|done].
  - intros [[x Hx] Hn]. split; [|done]. exists (k, x). split; [done|by apply elem_of_map_to_list].
Qed.

Lemma timing_out_start now s : inflight_ok now s -> timing_out now s [] (s, ∅, []).
Proof.
  intros [Hw [T1 T2]]. split; cbn.
  - by split; [|split].
  - done.
  - done.
  - done.
  - set_solver.
  - intros p. split; [set_solver|]. intros (k & st & Hk & _). by apply not_elem_of_nil in Hk.
Qed.

Lemma prune_Ok `{MO : !MapOrder BlockNumberAndHash Z} `{!MapOrderSpec BlockNumberAndHash Z MO} {E} s now tip :
  inflight_ok now s -> 0 <= now < 2 ^ 63 -> 0 <= tip < 2 ^ 63 ->
  exists disconnect s', InflightBlocks_prune (E:=E) s now tip = Ok (disconnect, s') /\ inflight_ok now s' /\
    (all_tracked s -> (forall p d, download_schedulers s !! p = Some d -> task_count d <> 0) ->
      all_tracked s') /\
    (forall p, p ∈ disconnect <->
      (exists d, download_schedulers s !! p = Some d /\ task_count d = 0) \/
      (exists b st, inflight_states s !! b = Some st /\ b.1 <= tip + 20 /\ expired now st /\ st_peer st = p)) /\
    (forall b st, inflight_states s' !! b = Some st ->
      inflight_states s !! b = Some st /\ (b.1 <= tip + 20 -> ~ expired now st)).
Proof.
  intros Hok Hnow Htip. unfold InflightBlocks_prune, u64_add. rewrite !fit_in_range by zlia. step.
  destruct (prune_timeouts_Ok (E:=E) now Hnow s [] (s, ∅, []) (until_above (tip + 20) (btree_keys (inflight_states s)))
    (timing_out_start now s Hok)) as ([[s1 peers] rk] & -> & [[Hw1 Ht1] Htr1 Hs1 Htk1 Hk1 Hp1]); [by eapply Hok|].
  step. cbn [app fst snd] in *. setoid_rewrite btree_until in Hk1.
  change (set_states s1 _) with (drop_keys s1 rk). set (s2 := drop_keys s1 rk) in *.
  assert (forall p, (exists d, download_schedulers s2 !! p = Some d /\ task_count d = 0) <->
    (exists d, download_schedulers s !! p = Some d /\ task_count d = 0)) as Hzero.
  { intros p. assert (task_count <$> download_schedulers s2 !! p = task_count <$> download_schedulers s !! p) as Heq
      by (by rewrite <- !lookup_fmap, <- Htk1).
    clear -Heq. destruct (download_schedulers s2 !! p), (download_schedulers s !! p); try done.
    injection Heq as Heq. split; intros (? & [= <-] & ?); eexists; (split; [done|]); congruence. }
  set (s3 := set_schedulers s2 _).
  assert (inflight_ok now s3 /\ (all_tracked s -> (forall p d, download_schedulers s !! p = Some d ->
    task_count d <> 0) -> all_tracked s3)) as [Hok3 Htr3].
  { split; [split; [split|by apply (times_sub now s2)]|]; cbn.
    - intros p d [Hp _]%map_lookup_filter_Some. by eapply (sw_ok _ _ Hw1).
    - intros p d b [Hp _]%map_lookup_filter_Some. by apply (sw_peer _ _ Hw1).
    - intros Htr Hnz b st Hb. destruct (Htr1 Htr b st Hb) as (d & Hd & Hin). exists d. split; [|done].
      apply map_lookup_filter_Some. split; [done|]. cbn. intros Hz.
      destruct (proj1 (Hzero (st_peer st))) as (d' & Hd' & Hz'); [by exists d|]. by eapply Hnz. }
  set (m := if restart_number s3 =? 0 then _ else _).
  assert (exists s4, m = Ok s4 /\ inflight_ok now s4 /\ (all_tracked s3 -> all_tracked s4) /\
    inflight_states s4 = inflight_states s2) as (s4 & -> & Hok4 & Htr4 & Hs4).
  { subst m. case_match; [by exists s3|]. eexists. split; [done|].
    case_match; [|done]. destruct Hok3 as [Hw3 [T1 T2]]. split_and!; [by split; [|split]|done|done]. }
  step. destruct (retain_steps_Ok (E:=E) now Hnow s4 (map_iter (trace_number s4))) as (s5 & -> & Hok5 & Htr5 & Hsub5);
    [done|rewrite map_iter_perm; apply Forall_forall; intros [k t] Hk%elem_of_map_to_list; by eapply Hok4|].
  step. do 2 eexists. split; [done|]. split_and!; [done|auto| |].
  - intros p. rewrite elem_of_union, elem_of_dom. apply Morphisms_Prop.or_iff_morphism.
    + rewrite <- Hzero. split; [intros [d [Hd Hz]%map_lookup_filter_Some]; by exists d|].
      intros (d & Hd & Hz). exists d. by apply map_lookup_filter_Some.
    + rewrite Hp1. setoid_rewrite Hk1. split.
      * intros (k & st & ((_ & Hn) & st' & Hst' & He) & Hst & <-). exists k, st. by simplify_eq.
      * intros (k & st & Hst & Hn & He & <-). exists k, st. split_and!; [by eexists|done|by eexists|done..].
  - intros b st Hb%Hsub5. rewrite Hs4 in Hb. subst s2. cbn in Hb. rewrite delete_all_lookup, Hs1 in Hb.
    case_decide as Hin; [done|]. split; [done|]. intros Hn He. apply Hin, Hk1. by split; eauto.
Qed.

(** ** Runs *)

Inductive InflightOp :=
| OpInsert (peer : PeerIndex) (block : BlockNumberAndHash)
| OpRemoveByPeer (peer : PeerIndex)
| OpRemoveByBlock (block : BlockNumberAndHash)
| OpPrune (tip : Z)
| OpMarkSlowBlock (tip : Z)
| OpCompactReconstruct (peer : PeerIndex) (hash : Byte32)
| OpRemoveCompact (peer : PeerIndex) (hash : Byte32).

Section runs.
Context `{MO : !MapOrder BlockNumberAndHash Z} {E : Type}.

(** An operation at a time. *)
Definition run_op (s : InflightBlocks) (op : Z * InflightOp) : outcome E InflightBlocks :=
  let '(now, op) := op in
  match op with
  | OpInsert peer block => snd <$> InflightBlocks_insert s now peer block
  | OpRemoveByPeer peer => Ok (remove_by_peer s peer).2
  | OpRemoveByBlock block => snd <$> remove_by_block s now block
  | OpPrune tip => snd <$> InflightBlocks_prune s now tip
  | OpMarkSlowBlock tip => mark_slow_block s now tip
  | OpCompactReconstruct peer hash => Ok (compact_reconstruct s peer hash).2
  | OpRemoveCompact peer hash => Ok (remove_compact s peer hash)
  end.
End runs.

(** The clock does not go back, and the tips are block numbers. *)
Definition op_ok (op : InflightOp) : Prop :=
  match op with
  | OpPrune tip | OpMarkSlowBlock tip => 0 <= tip < 2 ^ 63
  | _ => True
  end.
Fixpoint clocked (time : Z) (ops : list (Z * InflightOp)) : Prop :=
  match ops with
  | [] => True
  | (now, op) :: ops => time <= now < 2 ^ 63 /\ op_ok op /\ clocked now ops
  end.
Definition last_time (ops : list (Z * InflightOp)) : Z := default 0 (fst <$> last ops).

(** [InflightBlocks_prune] drops the scheduler of a peer that is left without tasks. *)
Definition drops_none (s : InflightBlocks) (op : InflightOp) : Prop :=
  match op with
  | OpPrune _ => forall p d, download_schedulers s !! p = Some d -> task_count d <> 0
  | _ => True
  end.

Section invariant.
Context `{MO : !MapOrder BlockNumberAndHash Z} `{!MapOrderSpec BlockNumberAndHash Z MO} {E : Type}.

Lemma run_op_Ok s time now op :
  inflight_ok time s -> 0 <= time <= now -> now < 2 ^ 63 -> op_ok op ->
  exists s', run_op (E:=E) s (now, op) = Ok s' /\ inflight_ok now s' /\
    (all_tracked s -> drops_none s op -> all_tracked s').
Proof.
  intros [Hw Ht] Htime Hnow Hop. assert (inflight_ok now s) as Hok by (split; [done|eapply times_later; [done|lia]]).
  destruct op as [peer block|peer|block|tip|tip|peer hash|peer hash]; cbn [run_op drops_none op_ok] in *.
  - destruct (insert_Ok (E:=E) s now Hok ltac:(lia) peer block) as (b & s' & -> & H1 & H2 & _). by exists s'; auto.
  - pose proof (remove_by_peer_Ok s now Hok peer) as H. destruct (remove_by_peer s peer) as [b s'].
    destruct H as (H1 & H2 & _). by exists s'; auto.
  - destruct (remove_by_block_Ok (E:=E) s now Hok ltac:(lia) block) as (b & s' & -> & H1 & H2 & _). by exists s'; auto.
  - destruct (prune_Ok (E:=E) s now tip Hok ltac:(lia) Hop) as (b & s' & -> & H1 & H2 & _). by exists s'; auto.
  - destruct (mark_slow_block_Ok (E:=E) s now Hok ltac:(lia) tip Hop) as (s' & -> & H1 & H2). by exists s'; auto.
  - pose proof (compact_reconstruct_Ok s now Hok peer hash) as H. destruct (compact_reconstruct s peer hash) as [b s'].
    destruct H as (H1 & H2). by exists s'; auto.
  - destruct (remove_compact_Ok s now Hok peer hash) as (H1 & H2). by eexists; auto.
Qed.

Lemma run_ops_Ok s time ops :
  inflight_ok time s -> 0 <= time -> clocked time ops ->
  exists s', try_fold (run_op (E:=E)) s ops = Ok s' /\ inflight_ok (default time (fst <$> last ops)) s'.
Proof.
  revert s time. induction ops as [|[now op] ops IH]; intros s time Hok Htime Hc; cbn [try_fold]; [by exists s|].
  destruct Hc as (Hn & Hop & Hc). destruct (run_op_Ok s time now op) as (s1 & -> & Hs1 & _); [done|lia|lia|done|].
  step. destruct (IH s1 now) as (s2 & -> & Hs2); [done|lia|done|]. exists s2. split; [done|].
  rewrite last_cons. by destruct (last ops) as [[]|].
Qed.
End invariant.

Lemma remove_by_peer_sub s peer b x :
  inflight_states (remove_by_peer s peer).2 !! b = Some x -> inflight_states s !! b = Some x.
Proof.
  unfold remove_by_peer. destruct (download_schedulers s !! peer) as [d|]; [|done]. cbn.
  destruct (drop_blocks peer (elements (sched_hashes d))
    (set_schedulers s (delete peer (download_schedulers s)))) as (_ & -> & _). by case_decide.
Qed.
Lemma mark_slow_block_states {E} s now tip s' :
  mark_slow_block (E:=E) s now tip = Ok s' -> inflight_states s' = inflight_states s.
Proof. unfold mark_slow_block. case_match; intros Hs; inv_ok; done. Qed.

Lemma inflight_ok_default : inflight_ok 0 InflightBlocks_default.
Proof. split; split; cbn; intros until 0; by rewrite lookup_empty. Qed.

(** ** Properties *)

(** C19: Whatever the order of the operations and of the hash maps, as long as the
    clock does not go back: none panics, every counter of a scheduler stays in
    its range, with at most 128 tasks for a peer, and a block that is in the
    scheduler of a peer is awaited from that peer, so from no other one. *)
Theorem inflight_invariant `{MO : !MapOrder BlockNumberAndHash Z} `{!MapOrderSpec BlockNumberAndHash Z MO}
    {E} ops :
  clocked 0 ops ->
  exists s, try_fold (run_op (E:=E)) InflightBlocks_default ops = Ok s /\ inflight_ok (last_time ops) s.
Proof. intros Hc. by apply run_ops_Ok; [apply inflight_ok_default| |]. Qed.

(** [InflightBlocks_prune] gives up exactly the peers that have no task left or owe a block
    near the tip for more than 30 seconds; no such block is awaited after it, and
    nothing new is. *)
Theorem prune_spec `{MO : !MapOrder BlockNumberAndHash Z} `{!MapOrderSpec BlockNumberAndHash Z MO} {E} s now tip :
  inflight_ok now s -> 0 <= now < 2 ^ 63 -> 0 <= tip < 2 ^ 63 ->
  exists disconnect s', InflightBlocks_prune (E:=E) s now tip = Ok (disconnect, s') /\ inflight_ok now s' /\
    (forall p, p ∈ disconnect <->
      (exists d, download_schedulers s !! p = Some d /\ task_count d = 0) \/
      (exists b st, inflight_states s !! b = Some st /\ b.1 <= tip + 20 /\ expired now st /\ st_peer st = p)) /\
    (forall b st, inflight_states s' !! b = Some st ->
      inflight_states s !! b = Some st /\ (b.1 <= tip + 20 -> ~ expired now st)).
Proof.
  intros Hok Hn Ht. destruct (prune_Ok (E:=E) s now tip Hok Hn Ht) as (l & s' & H1 & H2 & _ & H3 & H4).
  by exists l, s'.
Qed.

(** When a peer leaves, every block it owed can be asked from another: after
    [remove_by_peer] the insertion succeeds unless the block is being
    reconstructed from a compact block. *)
Theorem blocks_asked_again {E} s now peer peer' block st :
  inflight_ok now s -> all_tracked s -> 0 <= now < 2 ^ 63 ->
  inflight_states s !! block = Some st -> st_peer st = peer ->
  let s1 := (remove_by_peer s peer).2 in
  compact_reconstruct_inflight s1 !! block.2 = None ->
  exists s2, InflightBlocks_insert (E:=E) s1 now peer' block = Ok (true, s2) /\
    inflight_states s2 !! block = Some (mkInflightState peer' now).
Proof.
  intros Hok Htr Hn Hst Hp s1 Hc. pose proof (remove_by_peer_Ok s now Hok peer) as H.
  pose proof (remove_by_peer_sub s peer) as Hsub.
  subst s1. destruct (remove_by_peer s peer) as [b1 s1]. cbn [snd] in *. destruct H as (Hok1 & _ & Hgone).
  destruct (insert_Ok (E:=E) s1 now Hok1 Hn peer' block) as (b & s2 & Hins & _ & _ & Hb & Htrue & _).
  assert (inflight_states s1 !! block = None) as Hnone.
  { destruct (inflight_states s1 !! block) as [x|] eqn:Hx; [|done]. exfalso.
    apply (Hgone Htr block x Hx). rewrite (Hsub _ _ Hx) in Hst. by simplify_eq. }
  assert (b = true) as -> by (by apply Hb). exists s2. split; [done|]. rewrite Htrue by done. apply lookup_insert_eq.
Qed.

#[local] Existing Instance list_order.

Definition sample_block (n : Z) : BlockNumberAndHash := (n, repeat n 32).
(** A peer that holds up five blocks is punished down to no task, and the next
    [InflightBlocks_prune] drops its scheduler with a sixth block in it. *)
Definition slow_peer_ops : list (Z * InflightOp) :=
  ((fun n => (1000, OpInsert 1 (sample_block n))) <$> [1; 2; 3; 4; 5; 100]) ++
  [(1000, OpMarkSlowBlock 4); (2001, OpPrune 4); (2002, OpPrune 4); (2003, OpRemoveByPeer 1)].

Lemma inflight_invariant_witness :
  exists s, try_fold (run_op (E:=unit)) InflightBlocks_default slow_peer_ops = Ok s /\
    inflight_ok (last_time slow_peer_ops) s.
Proof. apply (inflight_invariant (MapOrderSpec0 := list_order_spec)). cbn. repeat split; lia. Defined.

Definition run_from (s : InflightBlocks) (ops : list (Z * InflightOp)) : option InflightBlocks :=
  match try_fold (run_op (E:=unit)) s ops with Ok s => Some s | _ => None end.
Definition insert_result (s : option InflightBlocks) (now : Z) (peer : PeerIndex) (block : BlockNumberAndHash) :
    option (outcome unit bool) :=
  (fun s => fst <$> InflightBlocks_insert s now peer block) <$> s.


(** [adjust] subtracts the time of the request from the time of the answer
    without saturating, so that a clock set back between the two is a panic. *)
Theorem adjust_clock_back :
  (fun s => remove_by_block (E:=unit) s 999 (sample_block 1)) <$>
    run_from InflightBlocks_default [(1000, OpInsert 1 (sample_block 1))] = Some Panic.
Proof. vm_compute. reflexivity. Qed.
