(* ===== verification/SyncState.v ===== *)
(** * The state of the synchronizer: src/sync/src/types.rs,
    src/sync/src/block_status.rs

    [SyncShared] is what the sync and relay protocols share: the chain service,
    and the in-memory [SyncState] with the headers accepted so far, the status of
    blocks, the peers, the orphan blocks and the blocks in flight.  [ActiveChain]
    adds a snapshot of the chain.

    What the synchronizer needs of the chain service is the class [ChainPort].
    The time, in milliseconds, is an argument.  Locks are left out: an operation
    runs on the state it finds.  The filters of known transactions and the
    pending compact blocks and proposals are not part of the state here. *)

From stdpp Require Import sorting.
From S2P Require Import Prelude Capacity NumExt Difficulty Types Errors Epoch Cell Consensus Hashes Store.
From S2P Require Import TransactionVerifier ChainCell Chain Reorg ChainIndex.
From S2P Require Import SkipList OrphanBlockPool InflightBlocks.

(** ** BlockStatus, a [u32] of flags *)

Definition UNKNOWN : Z := 0.
Definition HEADER_VALID : Z := 1.
Definition BLOCK_RECEIVED : Z := Z.lor HEADER_VALID (Z.shiftl 1 1).
Definition BLOCK_STORED : Z := Z.lor (Z.lor HEADER_VALID BLOCK_RECEIVED) (Z.shiftl 1 3).
Definition BLOCK_VALID : Z :=
  Z.lor (Z.lor (Z.lor HEADER_VALID BLOCK_RECEIVED) BLOCK_STORED) (Z.shiftl 1 4).
Definition BLOCK_INVALID : Z := Z.shiftl 1 12.
(** [bitflags]' [contains]. *)
Definition BlockStatus_contains (self other : Z) : bool := Z.land self other =? other.

(** ** Peers *)

Definition MAX_TIP_AGE : Z := 24 * 60 * 60 * 1000.
Definition SUSPEND_SYNC_TIME : Z := 5 * 60 * 1000.
Definition MAX_HEADERS_LEN : Z := 2000.
Definition ONE_DAY_BLOCK_NUMBER : Z := 8192.
Definition MAX_ASK_MAP_SIZE : Z := 50000.
Definition MAX_ASK_SET_SIZE : Z := MAX_ASK_MAP_SIZE * 2.
Definition RETRY_ASK_TX_TIMEOUT_INCREASE : Z := 30 * 1000.

Record PeerFlags := mkPeerFlags { is_outbound : bool; is_protect : bool; is_whitelist : bool }.
Definition PeerFlags_default : PeerFlags := mkPeerFlags false false false.

Record ChainSyncState := mkChainSyncState {
  cs_timeout : Z;
  work_header : option HeaderView;
  cs_total_difficulty : option Z;
  sent_getheaders : bool;
  not_sync_until : option Z;
}.
Definition ChainSyncState_default : ChainSyncState := mkChainSyncState 0 None None false None.

Record PeerState := mkPeerState {
  sync_started : bool;
  headers_sync_timeout : option Z;
  peer_flags : PeerFlags;
  ps_disconnect : bool;
  chain_sync : ChainSyncState;
  tx_ask_for_map : gmap Z (list Byte32);
  tx_ask_for_set : gset Byte32;
  best_known_header : option SyncHeaderView;
  last_common_header : option HeaderView;
  unknown_header_list : list Byte32;
}.
Definition PeerState_new (flags : PeerFlags) : PeerState :=
  mkPeerState false None flags false ChainSyncState_default ∅ ∅ None None [].

Definition set_sync (p : PeerState) (started : bool) (timeout : option Z) : PeerState :=
  mkPeerState started timeout (peer_flags p) (ps_disconnect p) (chain_sync p) (tx_ask_for_map p)
    (tx_ask_for_set p) (best_known_header p) (last_common_header p) (unknown_header_list p).
Definition set_flags (p : PeerState) (flags : PeerFlags) : PeerState :=
  mkPeerState (sync_started p) (headers_sync_timeout p) flags (ps_disconnect p) (chain_sync p)
    (tx_ask_for_map p) (tx_ask_for_set p) (best_known_header p) (last_common_header p)
    (unknown_header_list p).
Definition set_disconnect (p : PeerState) (b : bool) : PeerState :=
  mkPeerState (sync_started p) (headers_sync_timeout p) (peer_flags p) b (chain_sync p)
    (tx_ask_for_map p) (tx_ask_for_set p) (best_known_header p) (last_common_header p)
    (unknown_header_list p).
Definition set_chain_sync (p : PeerState) (c : ChainSyncState) : PeerState :=
  mkPeerState (sync_started p) (headers_sync_timeout p) (peer_flags p) (ps_disconnect p) c
    (tx_ask_for_map p) (tx_ask_for_set p) (best_known_header p) (last_common_header p)
    (unknown_header_list p).
Definition set_ask (p : PeerState) (m : gmap Z (list Byte32)) (s : gset Byte32) : PeerState :=
  mkPeerState (sync_started p) (headers_sync_timeout p) (peer_flags p) (ps_disconnect p)
    (chain_sync p) m s (best_known_header p) (last_common_header p) (unknown_header_list p).
Definition set_best_known (p : PeerState) (h : option SyncHeaderView) : PeerState :=
  mkPeerState (sync_started p) (headers_sync_timeout p) (peer_flags p) (ps_disconnect p)
    (chain_sync p) (tx_ask_for_map p) (tx_ask_for_set p) h (last_common_header p)
    (unknown_header_list p).
Definition set_last_common (p : PeerState) (h : option HeaderView) : PeerState :=
  mkPeerState (sync_started p) (headers_sync_timeout p) (peer_flags p) (ps_disconnect p)
    (chain_sync p) (tx_ask_for_map p) (tx_ask_for_set p) (best_known_header p) h
    (unknown_header_list p).
Definition set_unknown (p : PeerState) (l : list Byte32) : PeerState :=
  mkPeerState (sync_started p) (headers_sync_timeout p) (peer_flags p) (ps_disconnect p)
    (chain_sync p) (tx_ask_for_map p) (tx_ask_for_set p) (best_known_header p)
    (last_common_header p) l.

Definition can_sync (p : PeerState) (now : Z) (ibd : bool) : bool :=
  (is_protect (peer_flags p) || is_whitelist (peer_flags p) || negb ibd) && negb (sync_started p) &&
  match not_sync_until (chain_sync p) with Some ts => ts <? now | None => true end.

Definition set_not_sync_until (p : PeerState) (t : option Z) : PeerState :=
  let c := chain_sync p in
  set_chain_sync p (mkChainSyncState (cs_timeout c) (work_header c) (cs_total_difficulty c)
    (sent_getheaders c) t).
Definition start_sync (p : PeerState) (timeout : Z) : PeerState :=
  set_sync (set_not_sync_until p None) true (Some timeout).
Definition PeerState_suspend_sync {E} (p : PeerState) (now suspend_time : Z) : outcome E PeerState :=
  until ← u64_add now suspend_time;
  Ok (set_sync (set_not_sync_until p (Some until)) false None).

Definition add_ask_for_tx (p : PeerState) (now : Z) (tx_hash : Byte32) (last_ask_timeout : option Z) :
    option Z * PeerState :=
  if MAX_ASK_MAP_SIZE <? Z.of_nat (size (tx_ask_for_map p)) then (None, p)
  else if MAX_ASK_SET_SIZE <? Z.of_nat (size (tx_ask_for_set p)) then (None, p)
  else if decide (tx_hash ∈ tx_ask_for_set p) then (None, p)
  else
    let next_ask_timeout :=
      match last_ask_timeout with
      | Some time => Z.max (time + RETRY_ASK_TX_TIMEOUT_INCREASE) now
      | None => now
      end in
    (Some next_ask_timeout,
     set_ask p
       (<[next_ask_timeout := default [] (tx_ask_for_map p !! next_ask_timeout) ++ [tx_hash]]> (tx_ask_for_map p))
       ({[tx_hash]} ∪ tx_ask_for_set p)).
Definition remove_ask_for_tx (p : PeerState) (tx_hash : Byte32) : PeerState :=
  set_ask p (tx_ask_for_map p) (tx_ask_for_set p ∖ {[tx_hash]}).

(** The timeouts of the [BTreeMap] in order, up to the first that is not past. *)
Fixpoint timeouts_before (now : Z) (l : list Z) : list Z :=
  match l with
  | [] => []
  | t :: l => if now <=? t then [] else t :: timeouts_before now l
  end.
Definition pop_ask_for_txs (p : PeerState) (now : Z) : list Byte32 * PeerState :=
  let timeouts := timeouts_before now (merge_sort Z.le (map_to_list (tx_ask_for_map p)).*1) in
  (timeouts ≫= (fun t => default [] (tx_ask_for_map p !! t)),
   set_ask p (foldl (fun m t => delete t m) (tx_ask_for_map p) timeouts) (tx_ask_for_set p)).

Abbreviation Peers := (gmap PeerIndex PeerState).

Definition Peers_on_connected (ps : Peers) (peer : PeerIndex) (flags : PeerFlags) : Peers :=
  match ps !! peer with
  | Some state => <[peer := set_flags state flags]> ps
  | None => <[peer := PeerState_new flags]> ps
  end.
Definition get_best_known_header (ps : Peers) (pi : PeerIndex) : option SyncHeaderView :=
  ps !! pi ≫= best_known_header.
Definition set_best_known_header (ps : Peers) (pi : PeerIndex) (v : SyncHeaderView) : Peers :=
  alter (fun p => set_best_known p (Some v)) pi ps.
Definition get_last_common_header (ps : Peers) (pi : PeerIndex) : option HeaderView :=
  ps !! pi ≫= last_common_header.
Definition set_last_common_header (ps : Peers) (pi : PeerIndex) (h : HeaderView) : Peers :=
  alter (fun p => set_last_common p (Some h)) pi ps.
(** [new_header_received] on the state of the peer. *)
Definition better_known (v : SyncHeaderView) (p : PeerState) : PeerState :=
  match best_known_header p with
  | Some hv => if is_better_than v (view_total_difficulty hv) then set_best_known p (Some v) else p
  | None => set_best_known p (Some v)
  end.
Definition new_header_received (ps : Peers) (peer : PeerIndex) (v : SyncHeaderView) : Peers :=
  alter (better_known v) peer ps.
Definition insert_unknown_header_hash (ps : Peers) (peer : PeerIndex) (hash : Byte32) : Peers :=
  alter (fun p => set_unknown p (unknown_header_list p ++ [hash])) peer ps.
Definition unknown_header_list_is_empty (ps : Peers) (peer : PeerIndex) : bool :=
  match ps !! peer with Some p => is_empty (unknown_header_list p) | None => true end.
Definition clear_unknown_list (ps : Peers) : Peers := (fun p => set_unknown p []) <$> ps.
(** The [HashMap] is visited in some order; the result is used as a set. *)
Definition is_behind (tip : Z) (p : PeerState) : bool :=
  is_empty (unknown_header_list p) &&
  match best_known_header p with Some v => view_number v <? tip | None => false end.
Definition get_best_known_less_than_tip_and_unknown_empty (ps : Peers) (tip : Z) : gset PeerIndex :=
  dom (filter (fun kp : PeerIndex * PeerState => is_behind tip kp.2 = true) ps).
Definition take_unknown_last (ps : Peers) (peer : PeerIndex) : option Byte32 * Peers :=
  match ps !! peer with
  | None => (None, ps)
  | Some p =>
      match last (unknown_header_list p) with
      | None => (None, ps)
      | Some hash =>
          (Some hash, <[peer := set_unknown p (take (length (unknown_header_list p) - 1) (unknown_header_list p))]> ps)
      end
  end.
Definition get_flag (ps : Peers) (peer : PeerIndex) : option PeerFlags := peer_flags <$> ps !! peer.

(** ** SyncState *)

(** [LruCache<(PeerIndex, Byte32), Instant>] of the lru-cache crate: when headers
    were asked from a peer for the last time. *)
Class RequestCache := {
  request_cache : Type;
  request_new : Z -> request_cache;
  request_get_refresh : request_cache -> PeerIndex * Byte32 -> option Z * request_cache;
  request_insert : request_cache -> PeerIndex * Byte32 -> Z -> request_cache;
}.
(** A cache that never evicts. *)
Definition map_requests : RequestCache := {|
  request_cache := gmap (PeerIndex * Byte32) Z;
  request_new _ := ∅;
  request_get_refresh c k := (c !! k, c);
  request_insert c k t := <[k := t]> c;
|}.

Section sync_state.
Context `{RC : RequestCache}.

Record SyncState := mkSyncState {
  n_sync_started : Z;
  n_protected_outbound_peers : Z;
  ibd_finished : bool;
  shared_best_header : SyncHeaderView;
  header_map : gmap Byte32 SyncHeaderView;
  block_status_map : gmap Byte32 Z;
  peers : Peers;
  misbehavior_scores : gmap PeerIndex Z;
  pending_get_headers : request_cache;
  orphan_block_pool : OrphanBlockPool;
  inflight_blocks : InflightBlocks;
}.
Definition set_started (s : SyncState) (n : Z) : SyncState :=
  mkSyncState n (n_protected_outbound_peers s) (ibd_finished s) (shared_best_header s) (header_map s)
    (block_status_map s) (peers s) (misbehavior_scores s) (pending_get_headers s) (orphan_block_pool s)
    (inflight_blocks s).
Definition set_protected (s : SyncState) (n : Z) : SyncState :=
  mkSyncState (n_sync_started s) n (ibd_finished s) (shared_best_header s) (header_map s)
    (block_status_map s) (peers s) (misbehavior_scores s) (pending_get_headers s) (orphan_block_pool s)
    (inflight_blocks s).
Definition set_ibd_finished (s : SyncState) (b : bool) : SyncState :=
  mkSyncState (n_sync_started s) (n_protected_outbound_peers s) b (shared_best_header s) (header_map s)
    (block_status_map s) (peers s) (misbehavior_scores s) (pending_get_headers s) (orphan_block_pool s)
    (inflight_blocks s).
Definition set_best_header (s : SyncState) (v : SyncHeaderView) : SyncState :=
  mkSyncState (n_sync_started s) (n_protected_outbound_peers s) (ibd_finished s) v (header_map s)
    (block_status_map s) (peers s) (misbehavior_scores s) (pending_get_headers s) (orphan_block_pool s)
    (inflight_blocks s).
Definition set_header_map (s : SyncState) (m : gmap Byte32 SyncHeaderView) : SyncState :=
  mkSyncState (n_sync_started s) (n_protected_outbound_peers s) (ibd_finished s) (shared_best_header s) m
    (block_status_map s) (peers s) (misbehavior_scores s) (pending_get_headers s) (orphan_block_pool s)
    (inflight_blocks s).
Definition set_status_map (s : SyncState) (m : gmap Byte32 Z) : SyncState :=
  mkSyncState (n_sync_started s) (n_protected_outbound_peers s) (ibd_finished s) (shared_best_header s)
    (header_map s) m (peers s) (misbehavior_scores s) (pending_get_headers s) (orphan_block_pool s)
    (inflight_blocks s).
Definition set_peers (s : SyncState) (ps : Peers) : SyncState :=
  mkSyncState (n_sync_started s) (n_protected_outbound_peers s) (ibd_finished s) (shared_best_header s)
    (header_map s) (block_status_map s) ps (misbehavior_scores s) (pending_get_headers s)
    (orphan_block_pool s) (inflight_blocks s).
Definition set_misbehavior (s : SyncState) (m : gmap PeerIndex Z) : SyncState :=
  mkSyncState (n_sync_started s) (n_protected_outbound_peers s) (ibd_finished s) (shared_best_header s)
    (header_map s) (block_status_map s) (peers s) m (pending_get_headers s) (orphan_block_pool s)
    (inflight_blocks s).
Definition set_pending_headers (s : SyncState) (m : request_cache) : SyncState :=
  mkSyncState (n_sync_started s) (n_protected_outbound_peers s) (ibd_finished s) (shared_best_header s)
    (header_map s) (block_status_map s) (peers s) (misbehavior_scores s) m (orphan_block_pool s)
    (inflight_blocks s).
Definition set_orphans (s : SyncState) (p : OrphanBlockPool) : SyncState :=
  mkSyncState (n_sync_started s) (n_protected_outbound_peers s) (ibd_finished s) (shared_best_header s)
    (header_map s) (block_status_map s) (peers s) (misbehavior_scores s) (pending_get_headers s) p
    (inflight_blocks s).
Definition set_inflight (s : SyncState) (i : InflightBlocks) : SyncState :=
  mkSyncState (n_sync_started s) (n_protected_outbound_peers s) (ibd_finished s) (shared_best_header s)
    (header_map s) (block_status_map s) (peers s) (misbehavior_scores s) (pending_get_headers s)
    (orphan_block_pool s) i.

(** *** The operations of SyncState *)

Definition misbehavior {E} (s : SyncState) (pi : PeerIndex) (score : Z) : outcome E SyncState :=
  if score =? 0 then Ok s
  else
    match misbehavior_scores s !! pi with
    | Some old =>
        new ← fit 32 (old + score);
        Ok (set_misbehavior s (<[pi := new]> (misbehavior_scores s)))
    | None => Ok (set_misbehavior s (<[pi := score]> (misbehavior_scores s)))
    end.

Definition is_initial_header_sync (s : SyncState) (now : Z) : bool :=
  MAX_TIP_AGE <? saturating_sub now (view_timestamp (shared_best_header s)).

(** The assertion is a panic. *)
Definition set_shared_best_header {E} (s : SyncState) (header : SyncHeaderView) : outcome E SyncState :=
  if decide (is_Some (header_map s !! view_hash header)) then Ok (set_best_header s header) else Panic.

Definition remove_header_view (s : SyncState) (hash : Byte32) : SyncState :=
  set_header_map s (delete hash (header_map s)).
Definition insert_block_status (s : SyncState) (hash : Byte32) (status : Z) : SyncState :=
  set_status_map s (<[hash := status]> (block_status_map s)).
Definition remove_block_status (s : SyncState) (hash : Byte32) : SyncState :=
  set_status_map s (delete hash (block_status_map s)).

(** [fetch_sub] wraps around, but the assertion fails first. *)
Definition count_down {E} (n : Z) : outcome E Z := if n =? 0 then Panic else Ok (n - 1).

(** [suspend_sync] on the state of a connected peer. *)
Definition suspend_sync {E} (s : SyncState) (now : Z) (peer : PeerIndex) (state : PeerState) :
    outcome E SyncState :=
  state ← PeerState_suspend_sync state now SUSPEND_SYNC_TIME;
  n ← count_down (n_sync_started s);
  Ok (set_started (set_peers s (<[peer := state]> (peers s))) n).

Definition new_block_received {E} (s : SyncState) (now : Z) (block : BlockView) :
    outcome E (bool * SyncState) :=
  '(removed, inflight) ← remove_by_block (inflight_blocks s) now (BlockView_number block, block_hash block);
  let s := set_inflight s inflight in
  if (removed : bool) then Ok (true, insert_block_status s (block_hash block) BLOCK_RECEIVED)
  else Ok (false, s).

Definition insert_orphan_block (s : SyncState) (peer : PeerIndex) (block : BlockView) : SyncState :=
  let s := insert_block_status s (block_hash block) BLOCK_RECEIVED in
  set_orphans s (OrphanBlockPool_insert (orphan_block_pool s) peer block).

Definition remove_orphan_by_parent `{MO : !MapOrder Byte32 (PeerIndex * BlockView)} (s : SyncState)
    (parent_hash : Byte32) : list (PeerIndex * BlockView) * SyncState :=
  let '(pool, blocks) := remove_blocks_by_parent (orphan_block_pool s) parent_hash in
  let s := set_orphans s pool in
  (blocks, foldl (fun s pb => remove_block_status s (block_hash pb.2)) s blocks).

Definition get_orphan_block (s : SyncState) (hash : Byte32) : option BlockView :=
  OrphanBlockPool_get_block (orphan_block_pool s) hash.

(** The peers forget the peer, which is returned. *)
Definition SyncState_disconnected (s : SyncState) (pi : PeerIndex) : option PeerState * SyncState :=
  let s := set_inflight s (remove_by_peer (inflight_blocks s) pi).2 in
  (peers s !! pi, set_peers s (delete pi (peers s))).

Fixpoint collect_unknown (s : SyncState) (pi : PeerIndex) (header_list : list Byte32) : SyncState :=
  match header_list with
  | [] => s
  | hash :: header_list =>
      match header_map s !! hash with
      | Some header => set_peers s (new_header_received (peers s) pi header)
      | None => collect_unknown (set_peers s (insert_unknown_header_hash (peers s) pi hash)) pi header_list
      end
  end.
Definition insert_peer_unknown_header_list (s : SyncState) (pi : PeerIndex) (header_list : list Byte32) :
    SyncState :=
  if unknown_header_list_is_empty (peers s) pi then collect_unknown s pi header_list else s.

(** [while let Some(hash) = take_unknown_last(pi)]; each turn but the last
    shortens the list. *)
Fixpoint update_known_loop (fuel : nat) (s : SyncState) (pi : PeerIndex) : SyncState :=
  match fuel with
  | O => s
  | S fuel =>
      let '(hash, ps) := take_unknown_last (peers s) pi in
      let s := set_peers s ps in
      match hash with
      | None => s
      | Some hash =>
          match header_map s !! hash with
          | Some header => update_known_loop fuel (set_peers s (new_header_received (peers s) pi header)) pi
          | None => set_peers s (insert_unknown_header_hash (peers s) pi hash)
          end
      end
  end.
Definition try_update_best_known_with_unknown_header_list (s : SyncState) (pi : PeerIndex) : SyncState :=
  let list := default [] (unknown_header_list <$> peers s !! pi) in
  update_known_loop (S (length list)) s pi.
End sync_state.
#[global] Arguments SyncState : clear implicits.
#[global] Arguments SyncState {RC}.

(** ** The chain service, as the synchronizer sees it *)

Class ChainPort (C : Type) := {
  port_store : C -> Store;
  port_snapshot : C -> Snapshot;
  (** [ChainController::process_block] *)
  port_process : C -> Z -> BlockView -> outcome Error bool * C;
}.

(** The index of a snapshot is a chain of stored blocks up to its tip. *)
Record index_ok (store : Store) (snap : Snapshot) : Prop := {
  ix_synced : snap_store snap = store;
  ix_tip : get_block_header store (header_hash (snap_tip_header snap)) = Some (snap_tip_header snap);
  ix_ext hash : is_Some (get_block_header store hash) <-> is_Some (get_block_ext store hash);
  ix_index n hash : 0 <= n -> get_block_hash store n = Some hash ->
    exists h, get_block_header store hash = Some h /\ HeaderView_number h = n /\
      (0 < n -> get_block_hash store (n - 1) = Some (HeaderView_parent_hash h));
  ix_number hash n : get_block_number store hash = Some n <-> 0 <= n /\ get_block_hash store n = Some hash;
  ix_height n : 0 <= n ->
    is_Some (get_block_hash store n) <-> n <= HeaderView_number (snap_tip_header snap);
}.

(** The chain keeps an invariant that gives the index, as long as the blocks come
    with verified headers.  A block that is accepted is stored, unless it was
    before, and no other header changes; a block that is refused leaves no trace. *)
Class ChainPortSpec {C : Type} (P : ChainPort C) := {
  port_inv : C -> Prop;
  port_index c : port_inv c -> index_ok (port_store c) (port_snapshot c);
  port_keeps c now b r c' : port_inv c ->
    is_Some (col_header (port_store c) !! block_hash b) \/ insertable (port_store c) b ->
    port_process c now b = (r, c') -> r <> Panic -> port_inv c';
  port_accepts c now b r c' : port_process c now b = (Ok r, c') ->
    is_Some (col_header (port_store c) !! block_hash b) /\ port_store c' = port_store c \/
    col_header (port_store c) !! block_hash b = None /\
      col_header (port_store c') = <[block_hash b := BlockView_header b]> (col_header (port_store c));
  port_refuses c now b e c' : port_process c now b = (Err e, c') -> port_store c' = port_store c;
  (** The stored headers form a tree, as long as their numbers fit in an [i64]. *)
  port_linked c : port_inv c ->
    (forall hash h, get_block_header (port_store c) hash = Some h -> HeaderView_number h < 2 ^ 63) ->
    linked (get_block_header (port_store c));
  (** What is stored can be read. *)
  port_block c hash : port_inv c -> exists b, get_block (E:=Error) (port_store c) hash = Ok b;
}.

(** The chain service offers it. *)
Section chain_port.
Context `{NumExt} `{Hasher} `{LruCache Z} `{LruCache CacheEntry}.
Context (script_verify : Store -> ResolvedTransaction -> Z -> outcome Error Z).
Context (system_cell : option (gmap CellDep ResolvedDep)) (consensus : Consensus).
Context (order : BlockView -> list nat).

(** Running out of fuel in the reward calculator is no result. *)
Definition chain_port : ChainPort ChainService := {|
  port_store := db;
  port_snapshot := snapshot;
  port_process s now b :=
    let '(r, s', _) := process_block script_verify system_cell consensus order s now b NONE in
    (match r with Ok (Some r) => Ok r | Err e => Err e | _ => Panic end, s');
|}.

Lemma chain_port_process s now b r s' :
  port_process (ChainPort:=chain_port) s now b = (r, s') ->
  exists r0 messages,
    ChainService_insert_block script_verify system_cell consensus order s now b NONE = (r0, s', messages) /\
    r = match r0 with Ok (Some r) => Ok r | Err e => Err e | _ => Panic end.
Proof.
  cbn. unfold process_block. destruct (ChainService_insert_block _ _ _ _ _ _ _ _) as [[r0 s0] ms].
  intros [= <- <-]. by exists r0, ms.
Qed.

Lemma chain_inv_index s p : chain_inv s p -> index_ok (db s) (snapshot s).
Proof.
  intros Hinv. pose proof (ci_consistent _ _ Hinv) as [C1 C2 C3 C4].
  pose proof (ci_path _ _ Hinv) as Hp. destruct (ci_index _ _ Hinv) as [I1 I2].
  assert (forall n h, get_block_hash (db s) n = Some h <-> exists b, 0 <= n /\ p !! Z.to_nat n = Some b /\ block_hash b = h)
    as Hidx.
  { intros n h. unfold get_block_hash. rewrite (I1 n h). split.
    - intros (b & [i Hi]%list_elem_of_lookup & <- & <-). exists b. rewrite (path_number _ _ Hp _ _ Hi), Nat2Z.id.
      split_and!; [lia|done|done].
    - intros (b & Hn & Hi & <-). exists b. split_and!; [by eapply list_elem_of_lookup_2| |done].
      rewrite (path_number _ _ Hp _ _ Hi). lia. }
  split; [done|done|apply Hinv| | |].
  - intros n hash Hn (b & _ & Hb & <-)%Hidx. exists (BlockView_header b).
    pose proof (path_lookup_store _ _ _ _ Hp Hb) as [[Hh _] _ _ _]. split; [done|].
    pose proof (path_number _ _ Hp _ _ Hb) as Hnum. split; [change (BlockView_number b = n); lia|]. intros Hn1.
    destruct (lookup_lt_is_Some_2 p (Z.to_nat (n - 1))) as [b' Hb']; [apply lookup_lt_Some in Hb; lia|].
    apply Hidx. exists b'. split_and!; [lia|done|].
    symmetry. apply (path_link _ _ Hp (Z.to_nat (n - 1)) b' b); [done|].
    by replace (S (Z.to_nat (n - 1))) with (Z.to_nat n) by lia.
  - intros hash n. unfold get_block_number. rewrite (I2 hash n). unfold get_block_hash. rewrite (I1 n hash). split; [|naive_solver].
    intros (b & Hb & <- & <-). split; [|naive_solver]. apply list_elem_of_lookup in Hb as [i Hi].
    rewrite (path_number _ _ Hp _ _ Hi). lia.
  - intros n Hn. pose proof (ci_tip _ _ Hinv) as (b & Hl & ->)%fmap_Some. rewrite last_lookup in Hl.
    change (is_Some (get_block_hash (db s) n) <-> n <= BlockView_number b).
    rewrite (path_number _ _ Hp _ _ Hl). apply lookup_lt_Some in Hl. split.
    + intros [h (b' & _ & Hb'%lookup_lt_Some & _)%Hidx]. lia.
    + intros Hle. destruct (lookup_lt_is_Some_2 p (Z.to_nat n)) as [b' Hb']; [lia|]. exists (block_hash b').
      apply Hidx. by exists b'.
Qed.

Lemma chain_inv_linked s p :
  chain_inv s p -> (forall hash h, get_block_header (db s) hash = Some h -> HeaderView_number h < 2 ^ 63) ->
  linked (get_block_header (db s)).
Proof.
  intros Hinv Hw.
  assert (forall hash h, get_block_header (db s) hash = Some h -> exists q b,
    path (db s) q /\ q !! (length q - 1)%nat = Some b /\ h = BlockView_header b /\ block_hash b = hash) as Hpath.
  { intros hash h Hh. destruct (ci_rooted _ _ Hinv hash) as (q & Hq & _ & (b & Hl & ->)%fmap_Some); [by exists h|].
    rewrite last_lookup in Hl. exists q, b. split_and!; [done|by rewrite Nat.sub_1_r| |done].
    destruct (path_lookup_store _ _ _ _ Hq Hl) as [[Hb _] _ _ _]. unfold get_block_header in Hh. congruence. }
  split.
  - intros hash h (q & b & _ & _ & -> & <-)%Hpath. done.
  - intros hash h Hh. specialize (Hw _ _ Hh). apply Hpath in Hh as (q & b & Hq & Hb & -> & _).
    split; [|done]. change (0 <= BlockView_number b). rewrite (path_number _ _ Hq _ _ Hb). lia.
  - intros hash h (q & b & Hq & Hb & -> & _)%Hpath Hn. change (0 < BlockView_number b) in Hn.
    pose proof (path_number _ _ Hq _ _ Hb) as Hbn.
    destruct (lookup_lt_is_Some_2 q (length q - 2)) as [b' Hb']; [apply lookup_lt_Some in Hb; lia|].
    exists (BlockView_header b'). replace (length q - 1)%nat with (S (length q - 2)) in Hb by lia.
    pose proof (path_link _ _ Hq _ _ _ Hb' Hb) as Hl. change (HeaderView_parent_hash (BlockView_header b))
      with (parent_hash (BlockView_raw b)). rewrite Hl.
    destruct (path_lookup_store _ _ _ _ Hq Hb') as [[Hs _] _ _ _]. split; [done|].
    change (BlockView_number b = BlockView_number b' + 1). rewrite (path_number _ _ Hq _ _ Hb'). lia.
Qed.

Definition chain_port_spec : ChainPortSpec chain_port.
Proof.
  refine {| port_inv s := exists p, chain_inv s p |}.
  - intros s [p Hp]. by eapply chain_inv_index.
  - intros s now b r s' [p Hp] [Hs|Hb] (r0 & ms & Hi & ->)%chain_port_process Hr.
    { unfold ChainService_insert_block, block_exists in Hi. rewrite bool_decide_true in Hi by done.
      injection Hi as _ <- _. by exists p. }
    destruct (insert_block_inv _ _ _ _ _ _ _ _ _ _ _ _ Hp Hb Hi) as (p' & _ & ?); [by intros ->|]. by exists p'.
  - intros s now b r s' (r0 & ms & Hi & Hr)%chain_port_process. cbn.
    destruct (block_exists (db s) (block_hash b)) eqn:Hex; unfold block_exists in Hex; reflect_bools.
    { left. split; [done|]. unfold ChainService_insert_block in Hi. unfold block_exists in Hi.
      rewrite bool_decide_true in Hi by done. by injection Hi as _ <- _. }
    right. apply eq_None_not_Some in Hex. split; [done|]. apply insert_block_cases in Hi.
    destruct Hi as [Hk|r0 cache Hr0|txn ext epoch ne Hp Hle|txn ext epoch ne cache txn' fork r0 s' ms Hp Hlt Hsw Hb].
    + unfold block_exists in Hk. by rewrite bool_decide_false in Hk by (by rewrite Hex; intros [? ?]).
    + by destruct Hr0 as [[e ->]|[->| ->]].
    + by apply prepare_block_Ok in Hp as (-> & _).
    + apply new_best_cases in Hb as [->|(? & ? & ? & _ & -> & -> & _)]; [done|].
      apply switch_to_tip in Hsw as (_ & Hh & _). apply prepare_block_Ok in Hp as (-> & _). exact Hh.
  - intros s now b e s' (r0 & ms & Hi & Hr)%chain_port_process. cbn. apply insert_block_cases in Hi.
    destruct Hi as [Hk|r0 cache Hr0|txn ext epoch ne Hp Hle|txn ext epoch ne cache txn' fork r0 s' ms Hp Hlt Hsw Hb];
      [done|done|done|]. by apply new_best_cases in Hb as [->|(? & ? & ? & _ & -> & _)].
  - intros s [p Hp]. by eapply chain_inv_linked.
  - intros s hash [p Hp]. cbn. destruct (get_block_header (db s) hash) as [h|] eqn:Hh.
    + destruct (ci_rooted _ _ Hp hash) as (q & Hq & _ & (b & Hl & ->)%fmap_Some); [by exists h|].
      rewrite last_lookup in Hl. pose proof (in_store_get (E:=Error) _ _ (path_lookup_store _ _ _ _ Hq Hl)) as Hb.
      unfold expect_block in Hb. apply bind_Ok in Hb as (ob & -> & _). by exists ob.
    + exists None. unfold get_block. by rewrite Hh.
Defined.
End chain_port.
