(* ===== verification/SyncShared.v ===== *)
(** * SyncShared and ActiveChain: src/sync/src/types.rs

    The operations of the synchronizer on the chain and its own state together:
    accepting headers and blocks, and the questions about the tree of headers
    (ancestors, locators, common ancestors) that the protocols ask of an
    [ActiveChain], which is a snapshot taken earlier beside the live state. *)

From S2P Require Import Prelude Capacity NumExt Difficulty Types Errors Epoch Cell Consensus Hashes Store.
From S2P Require Import TransactionVerifier ChainCell Chain SkipList OrphanBlockPool InflightBlocks.
From S2P Require Import SyncState.

(** What the handlers ask of the network. *)
Inductive SyncAction :=
| SendGetHeaders (peer : PeerIndex) (locator : list Byte32)
| SendHeaders (peer : PeerIndex) (headers : list HeaderView)
| SendInIBD (peer : PeerIndex)
| SendGetBlocks (peer : PeerIndex) (hashes : list Byte32)
| SendBlock (peer : PeerIndex) (block : BlockView)
| Disconnect (peer : PeerIndex)
| BanPeer (peer : PeerIndex) (seconds : Z).

Definition GET_HEADERS_TIMEOUT : Z := 15 * 1000.

(** [Result<bool, Error>] as a value. *)
Abbreviation block_result := (bool + Error)%type.

Section shared.
Context `{NumExt} `{Hasher} {C : Type} `{P : !ChainPort C} `{RC : RequestCache}.
Context `{MO : !MapOrder Byte32 (PeerIndex * BlockView)}.
Context (consensus : Consensus).

Record SyncShared := mkSyncShared { chain : C; state : SyncState }.
Definition with_state (sh : SyncShared) (s : SyncState) : SyncShared := mkSyncShared (chain sh) s.

Definition SyncShared_new (c : C) : SyncShared :=
  let snapshot := port_snapshot c in
  let best := SyncHeaderView_new (snap_tip_header snapshot) (snap_total_difficulty snapshot) in
  mkSyncShared c
    (mkSyncState 0 0 false best ∅ ∅ ∅ ∅ (request_new 10000) OrphanBlockPool_empty InflightBlocks_default).

Definition store (sh : SyncShared) : Store := port_store (chain sh).

(** ** Headers *)

Definition get_header_view (sh : SyncShared) (hash : Byte32) : option SyncHeaderView :=
  match header_map (state sh) !! hash with
  | Some v => Some v
  | None =>
      header ← get_block_header (store sh) hash;
      block_ext ← get_block_ext (store sh) hash;
      Some (SyncHeaderView_new header (total_difficulty block_ext))
  end.

Definition get_header (sh : SyncShared) (hash : Byte32) : option HeaderView :=
  match header_map (state sh) !! hash with
  | Some v => Some (inner v)
  | None => get_block_header (store sh) hash
  end.

Definition is_parent_stored (sh : SyncShared) (block : BlockView) : bool :=
  bool_decide (is_Some (get_block_header (store sh) (block_parent block))).

Definition tip_number (snap : Snapshot) : Z := HeaderView_number (snap_tip_header snap).

(** The closure that looks for an ancestor on the main chain. *)
Definition main_chain_scanner (snap : Snapshot) (sh : SyncShared) (number : Z)
    (current : SyncHeaderView) : option SyncHeaderView :=
  if (view_number current <=? tip_number snap) && is_main_chain (snap_store snap) (view_hash current)
  then get_block_hash (snap_store snap) number ≫= get_header_view sh
  else None.

Definition insert_valid_header (sh : SyncShared) (peer : PeerIndex) (header : HeaderView) :
    outcome Error SyncShared :=
  parent_view ← expect (get_header_view sh (HeaderView_parent_hash header));
  difficulty ← HeaderView_difficulty header;
  total_difficulty ← u256_add (view_total_difficulty parent_view) difficulty;
  header_view ← build_skip (get_header_view sh) (main_chain_scanner (port_snapshot (chain sh)) sh)
                  (SyncHeaderView_new header total_difficulty);
  let s := state sh in
  let s := set_header_map s (<[header_hash header := header_view]> (header_map s)) in
  let s := insert_block_status s (header_hash header) HEADER_VALID in
  s ←
    (if is_better_than header_view (view_total_difficulty (shared_best_header s))
     then set_shared_best_header s header_view else Ok s);
  Ok (with_state sh (set_peers s (new_header_received (peers s) peer header_view))).

(** ** Blocks *)

Definition accept_block (sh : SyncShared) (now : Z) (peer : PeerIndex) (block : BlockView) :
    outcome Error (block_result * SyncShared) :=
  match port_process (chain sh) now block with
  | (Panic, _) => Panic
  | (Err e, c) =>
      Ok (inr e, mkSyncShared c (insert_block_status (state sh) (block_hash block) BLOCK_INVALID))
  | (Ok r, c) =>
      let s := remove_block_status (state sh) (block_hash block) in
      let s := remove_header_view s (block_hash block) in
      Ok (inl r,
          mkSyncShared c (set_peers s (set_last_common_header (peers s) peer (BlockView_header block))))
  end.

(** The body of the loop over the descendants. *)
Definition accept_orphan (now : Z) (sh : SyncShared) (pb : PeerIndex * BlockView) :
    outcome Error SyncShared :=
  let '(peer, block) := pb in
  if negb (is_parent_stored sh block) then Ok sh
  else
    '(_, sh) ← accept_block sh now peer block;
    Ok sh.

Definition try_search_orphan_pool (sh : SyncShared) (now : Z) (parent_hash : Byte32) :
    outcome Error SyncShared :=
  let '(descendants, s) := remove_orphan_by_parent (state sh) parent_hash in
  try_fold (accept_orphan now) (with_state sh s) descendants.

Definition insert_new_block (sh : SyncShared) (now : Z) (pi : PeerIndex) (block : BlockView) :
    outcome Error (block_result * SyncShared) :=
  if negb (is_parent_stored sh block) then
    Ok (inl false, with_state sh (insert_orphan_block (state sh) pi block))
  else
    '(ret, sh) ← accept_block sh now pi block;
    match ret with
    | inr e => Ok (inr e, sh)
    | inl r =>
        sh ← try_search_orphan_pool sh now (block_hash block);
        Ok (inl r, sh)
    end.

(** ** ActiveChain *)

Definition is_initial_block_download (snap : Snapshot) (sh : SyncShared) (now : Z) : bool * SyncShared :=
  if ibd_finished (state sh) then (false, sh)
  else if MAX_TIP_AGE <? saturating_sub now (HeaderView_timestamp (snap_tip_header snap)) then (true, sh)
  else (false, with_state sh (set_ibd_finished (state sh) true)).

Definition active_get_ancestor (snap : Snapshot) (sh : SyncShared) (base : Byte32) (number : Z) :
    outcome Error (option HeaderView) :=
  match get_header_view sh base with
  | None => Ok None
  | Some v => get_ancestor (get_header_view sh) (main_chain_scanner snap sh) v number
  end.

(** The loop of [get_locator]: [index] decreases at every turn, so its first
    value and one bound the number of turns. *)
Fixpoint locator_loop (fuel : nat) (snap : Snapshot) (sh : SyncShared) (step index : Z) (base : Byte32)
    (locator : list Byte32) : outcome Error (list Byte32) :=
  match fuel with
  | O => Panic
  | S fuel =>
      ancestor ← active_get_ancestor snap sh base index;
      header ← expect ancestor;
      let header_hash := header_hash header in
      let locator := locator ++ [header_hash] in
      let step := if (10 <=? length locator)%nat then (step * 2) mod 2 ^ 64 else step in
      if index <? step then
        if (length locator <? 31)%nat && (ONE_DAY_BLOCK_NUMBER <? index) then
          locator_loop fuel snap sh step (Z.shiftr index 1) header_hash locator
        else Ok (if index =? 0 then locator else locator ++ [genesis_hash consensus])
      else locator_loop fuel snap sh step (index - step) header_hash locator
  end.
Definition get_locator (snap : Snapshot) (sh : SyncShared) (start : HeaderView) :
    outcome Error (list Byte32) :=
  locator_loop (S (Z.to_nat (HeaderView_number start))) snap sh 1 (HeaderView_number start)
    (header_hash start) [].

(** [while m_left != m_right]; both go down by one, to the genesis block at most. *)
Fixpoint common_loop (fuel : nat) (snap : Snapshot) (sh : SyncShared) (m_left m_right : HeaderView) :
    outcome Error (option HeaderView) :=
  if decide (header_hash m_left = header_hash m_right) then Ok (Some m_left)
  else
    match fuel with
    | O => Panic
    | S fuel =>
        n ← u64_sub (HeaderView_number m_left) 1;
        left' ← active_get_ancestor snap sh (header_hash m_left) n;
        match left' with
        | None => Ok None
        | Some left' =>
            n ← u64_sub (HeaderView_number m_right) 1;
            right' ← active_get_ancestor snap sh (header_hash m_right) n;
            match right' with
            | None => Ok None
            | Some right' => common_loop fuel snap sh left' right'
            end
        end
    end.
Definition last_common_ancestor (snap : Snapshot) (sh : SyncShared)
    (last_common_header best_known_header : HeaderView) : outcome Error (option HeaderView) :=
  m_right ← active_get_ancestor snap sh (header_hash best_known_header) (HeaderView_number last_common_header);
  match m_right with
  | None => Ok None
  | Some m_right =>
      if decide (header_hash m_right = header_hash last_common_header) then Ok (Some m_right)
      else
        match get_header sh (header_hash last_common_header) with
        | None => Ok None
        | Some m_left =>
            common_loop (Z.to_nat (HeaderView_number m_left)) snap sh m_left m_right
        end
  end.

(** The search for the first known hash: its index and number. *)
Fixpoint find_known (snap : Snapshot) (index : nat) (locator : list Byte32) : option (nat * Z) :=
  match locator with
  | [] => None
  | hash :: locator =>
      match get_block_number (snap_store snap) hash with
      | Some number => Some (index, number)
      | None => find_known snap (S index) locator
      end
  end.
(** The walk from a stored block off the main chain down to it; heights decrease. *)
Fixpoint fork_point (fuel : nat) (snap : Snapshot) (sh : SyncShared) (latest_common : Z)
    (hash : Byte32) : outcome Error Z :=
  match get_block_header (store sh) hash with
  | None => Ok latest_common
  | Some header =>
      match get_block_number (snap_store snap) hash with
      | Some number => Ok number
      | None =>
          match fuel with
          | O => Panic
          | S fuel => fork_point fuel snap sh latest_common (HeaderView_parent_hash header)
          end
      end
  end.
Definition locate_latest_common_block (snap : Snapshot) (sh : SyncShared) (locator : list Byte32) :
    outcome Error (option Z) :=
  match last locator with
  | None => Ok None
  | Some locator_hash =>
      if negb (bool_decide (locator_hash = genesis_hash consensus)) then Ok None
      else
        found ← expect (find_known snap 0 locator);
        let '(index, latest_common) := found in
        if (index =? 0)%nat || (latest_common =? 0) then Ok (Some latest_common)
        else
          match locator !! (index - 1)%nat ≫= get_block_header (store sh) with
          | Some header =>
              n ← fork_point (Z.to_nat (HeaderView_number header)) snap sh latest_common
                    (HeaderView_parent_hash header);
              Ok (Some n)
          | None => Ok (Some latest_common)
          end
  end.

Fixpoint take_while_ne (stop : Byte32) (l : list Byte32) : list Byte32 :=
  match l with
  | [] => []
  | h :: l => if decide (h = stop) then [] else h :: take_while_ne stop l
  end.
Definition get_locator_response (snap : Snapshot) (sh : SyncShared) (block_number : Z)
    (hash_stop : Byte32) : outcome Error (list HeaderView) :=
  first ← u64_add block_number 1;
  bound ← u64_add first MAX_HEADERS_LEN;
  next ← u64_add (tip_number snap) 1;
  let max_height := Z.min bound next in
  Ok (omap (get_block_header (store sh))
        (take_while_ne hash_stop
          (omap (get_block_hash (snap_store snap)) (seqZ first (max_height - first))))).

Definition send_getheaders_to_peer (snap : Snapshot) (sh : SyncShared) (now : Z) (peer : PeerIndex)
    (header : HeaderView) : outcome Error (SyncShared * list SyncAction) :=
  let '(last_time, cache) := request_get_refresh (pending_get_headers (state sh)) (peer, header_hash header) in
  let sh := with_state sh (set_pending_headers (state sh) cache) in
  if (match last_time with Some last_time => now <? last_time + GET_HEADERS_TIMEOUT | None => false end)
  then Ok (sh, [])
  else
    let cache := request_insert (pending_get_headers (state sh)) (peer, header_hash header) now in
    let sh := with_state sh (set_pending_headers (state sh) cache) in
    locator ← get_locator snap sh header;
    Ok (sh, [SendGetHeaders peer locator]).

Definition get_block_status (snap : Snapshot) (sh : SyncShared) (hash : Byte32) : Z * SyncShared :=
  match block_status_map (state sh) !! hash with
  | Some status => (status, sh)
  | None =>
      match verified <$> get_block_ext (snap_store snap) hash with
      | None => (UNKNOWN, sh)
      | Some None => (BLOCK_STORED, sh)
      | Some (Some true) => (BLOCK_VALID, with_state sh (insert_block_status (state sh) hash BLOCK_VALID))
      | Some (Some false) => (BLOCK_INVALID, with_state sh (insert_block_status (state sh) hash BLOCK_INVALID))
      end
  end.
Definition contains_block_status (snap : Snapshot) (sh : SyncShared) (hash : Byte32) (status : Z) :
    bool * SyncShared :=
  let '(s, sh) := get_block_status snap sh hash in (BlockStatus_contains s status, sh).
Definition unknown_block_status (snap : Snapshot) (sh : SyncShared) (hash : Byte32) : bool * SyncShared :=
  let '(s, sh) := get_block_status snap sh hash in (s =? UNKNOWN, sh).
End shared.
