(* ===== verification/ActiveChain.v ===== *)
(** * Locators and common ancestors: what the [ActiveChain] of
    src/sync/src/types.rs computes

    Against the walk by parents: [get_locator] is a list of ancestors that ends
    with the genesis block and fits in a message, [last_common_ancestor] is the
    highest common ancestor, [locate_latest_common_block] a block that both
    nodes have, and the answer to a locator continues the chain of the peer that
    asked. *)

From Stdlib Require Import Sorted.
From S2P Require Import Prelude Capacity NumExt Difficulty Types Errors Epoch Cell Consensus Hashes Store.
From S2P Require Import TransactionVerifier ChainCell Chain SkipList OrphanBlockPool InflightBlocks.
From S2P Require Import SyncState SyncShared.

Section active_chain.
Context `{NumExt} `{Hasher} {C : Type} `{P : !ChainPort C} `{RC : RequestCache}.

Abbreviation Shared := (SyncShared (C:=C)).
Abbreviation headers sh := (headers_of (get_header_view sh)).

(** The headers the synchronizer knows form a tree, with skips to ancestors. *)
Record tree_ok (sh : Shared) : Prop := {
  tr_linked : linked (headers sh);
  tr_views : views_ok (E:=Error) (get_header_view sh);
}.

(** The index of a snapshot is a chain of known headers, from the genesis block
    to the tip. *)
Record main_ok (snap : Snapshot) (sh : Shared) : Prop := {
  mo_index n hash : 0 <= n -> get_block_hash (snap_store snap) n = Some hash ->
    exists h, headers sh hash = Some h /\ HeaderView_number h = n /\
      (0 < n -> get_block_hash (snap_store snap) (n - 1) = Some (HeaderView_parent_hash h));
  mo_number hash n : get_block_number (snap_store snap) hash = Some n <->
    0 <= n /\ get_block_hash (snap_store snap) n = Some hash;
  mo_tip n : 0 <= n -> is_Some (get_block_hash (snap_store snap) n) <-> n <= tip_number snap;
}.

(** A header of the main chain has its ancestors there. *)
Lemma main_ancestor snap sh h k :
  linked (headers sh) -> main_ok snap sh -> known (headers sh) h ->
  get_block_hash (snap_store snap) (HeaderView_number h) = Some (header_hash h) ->
  0 <= k <= HeaderView_number h ->
  exists a, ancestor_at (headers sh) h k = Some a /\
    get_block_hash (snap_store snap) k = Some (header_hash a).
Proof.
  intros HL HM Hk Hh Hn. remember (Z.to_nat (HeaderView_number h - k)) as d eqn:Hd.
  revert k Hn Hd. induction d as [|d IH]; intros k Hn Hd.
  { replace k with (HeaderView_number h) by lia. exists h. by rewrite ancestor_at_self. }
  destruct (IH (k + 1)) as (a & Ha & Hia); [lia|lia|].
  destruct (ancestor_at_total _ HL h (k + 1) Hk) as (a' & Ha' & Hka & Hna); [lia|].
  rewrite Ha in Ha'. injection Ha' as <-.
  destruct (mo_index _ _ HM (k + 1) _ ltac:(lia) Hia) as (h' & Hh' & _ & Hpar).
  assert (h' = a) as -> by (unfold known in Hka; congruence). specialize (Hpar ltac:(lia)).
  replace (k + 1 - 1) with k in Hpar by lia.
  destruct (mo_index _ _ HM k _ ltac:(lia) Hpar) as (p & Hp & Hnp & _).
  exists p. split; [|by rewrite (ln_hash _ HL _ _ Hp)].
  rewrite (ancestor_at_trans _ HL h a k (k + 1)); [|lia|done|lia|done].
  replace k with (HeaderView_number a - 1) by lia. by apply ancestor_at_parent; [|lia|].
Qed.

Lemma scanner_main snap sh :
  linked (headers sh) -> main_ok snap sh -> scanner_ok (get_header_view sh) (main_chain_scanner snap sh).
Proof.
  intros HL HM number v target Hv Hn. unfold main_chain_scanner. case_match eqn:Hc; [|done].
  reflect_bools. unfold is_main_chain in *. reflect_bools. intros Ht.
  apply bind_Some in Ht as (hash & Hhash & Ht).
  match goal with Hm : is_Some (col_index_hash _ !! _) |- _ => destruct Hm as [n Hi] end.
  apply (mo_number _ _ HM) in Hi as [Hn0 Hi].
  destruct (mo_index _ _ HM n _ Hn0 Hi) as (h & Hh & Hnh & _).
  assert (h = inner v) as -> by (unfold headers_of in Hh; rewrite Hv in Hh; by injection Hh).
  destruct (main_ancestor snap sh (inner v) number HL HM) as (a & Ha & Hia);
    [by apply (view_known (get_header_view sh))|by rewrite Hnh|done|].
  rewrite Ha. f_equal. rewrite Hia in Hhash. injection Hhash as <-.
  destruct (ancestor_at_total _ HL (inner v) number) as (a' & Ha' & Hka & _);
    [by apply (view_known (get_header_view sh))|done|].
  rewrite Ha in Ha'. injection Ha' as <-. unfold known, headers_of in Hka. rewrite Ht in Hka.
  by injection Hka.
Qed.

Section facts.
Context (snap : Snapshot) (sh : Shared).
Hypothesis HT : tree_ok sh.
Hypothesis HM : main_ok snap sh.

Lemma active_ancestor_Ok h number :
  known (headers sh) h -> 0 <= number <= HeaderView_number h ->
  active_get_ancestor snap sh (header_hash h) number = Ok (ancestor_at (headers sh) h number).
Proof.
  intros Hk Hn. unfold active_get_ancestor.
  destruct (view_of_header (get_header_view sh) h Hk) as (v & Hv & <-). rewrite Hv.
  apply get_ancestor_Ok; [apply HT|apply HT|apply scanner_main; [apply HT|done]|done|done].
Qed.

(** ** Locators *)

Context (consensus : Consensus).
(** Every known header at height 0 is the genesis block. *)
Hypothesis HG : forall h, known (headers sh) h -> HeaderView_number h = 0 ->
  header_hash h = genesis_hash consensus.

Definition above (a b : HeaderView) : Prop := HeaderView_number b < HeaderView_number a.

(** The hashes a locator adds from an ancestor of [b] on. *)
Record locates (b : HeaderView) (index : Z) (hs : list HeaderView) : Prop := {
  lo_head : head hs = ancestor_at (headers sh) b index;
  lo_all : Forall (fun h => known (headers sh) h /\ HeaderView_number h <= index /\
    ancestor_at (headers sh) b (HeaderView_number h) = Some h) hs;
  lo_down : StronglySorted above hs;
  lo_last : exists g, last hs = Some g /\ HeaderView_number g = 0;
}.

(** One more ancestor in front. *)
Lemma locates_cons b index a index' hs :
  known (headers sh) b -> 0 <= index' < index -> index <= HeaderView_number b ->
  ancestor_at (headers sh) b index = Some a -> known (headers sh) a -> HeaderView_number a = index ->
  locates a index' hs -> locates b index (a :: hs).
Proof.
  intros Hb Hi Hn Ha Hka Hna [H1 H2 H3 (g & Hg & Hg0)]. split.
  - done.
  - constructor; [rewrite Hna; split_and!; [done|lia|done]|]. eapply Forall_impl; [exact H2|]. cbn.
    intros h (Hkh & Hh & Hah). split_and!; [done|lia|].
    rewrite (ancestor_at_trans _ (tr_linked _ HT) b a _ index); [done| |done|lia|done].
    pose proof (ln_number _ (tr_linked _ HT) _ _ Hkh). lia.
  - constructor; [done|]. eapply Forall_impl; [exact H2|]. cbn. unfold above. intros h (_ & Hh & _). lia.
  - exists g. split; [|done]. by rewrite last_cons, Hg.
Qed.

(** The step of the loop is a power of two. *)
Definition step_at (len : nat) : Z := 2 ^ Z.max 0 (Z.of_nat len - 9).

Lemma step_at_next len :
  (len <= 71)%nat ->
  (if (10 <=? S len)%nat then (step_at len * 2) mod 2 ^ 64 else step_at len) = step_at (S len).
Proof.
  intros Hlen. unfold step_at. destruct (Nat.leb_spec 10 (S len)); [|f_equal; lia].
  replace (Z.max 0 (Z.of_nat (S len) - 9)) with (Z.succ (Z.max 0 (Z.of_nat len - 9))) by lia.
  rewrite (Z.mul_comm _ 2), <- Z.pow_succ_r by lia.
  apply Z.mod_small. split; [lia|]. apply Z.pow_lt_mono_r; lia.
Qed.

Lemma locates_one b index a :
  known (headers sh) a -> ancestor_at (headers sh) b index = Some a -> HeaderView_number a = 0 ->
  0 <= index -> ancestor_at (headers sh) b 0 = Some a -> locates b index [a].
Proof.
  intros Hk Ha Hn Hi Ha0. split; [done| |repeat constructor|by exists a].
  constructor; [|constructor]. rewrite Hn. by split_and!.
Qed.

(** How the loop ends. *)
Lemma locates_end b index a L :
  known (headers sh) b -> 0 <= index <= HeaderView_number b ->
  ancestor_at (headers sh) b index = Some a ->
  exists hs, (if index =? 0 then L ++ [header_hash a] else (L ++ [header_hash a]) ++ [genesis_hash consensus]) =
      L ++ (header_hash <$> hs) /\
    locates b index hs /\ (length hs <= 2)%nat.
Proof.
  intros Hb Hi Ha. destruct (ancestor_at_total _ (tr_linked _ HT) b index Hb Hi) as (a' & Ha' & Hka & Hna).
  rewrite Ha in Ha'. injection Ha' as <-. destruct (Z.eqb_spec index 0) as [->|Hne].
  { exists [a]. split_and!; [done|by apply locates_one|cbn; lia]. }
  destruct (ancestor_at_total _ (tr_linked _ HT) b 0 Hb) as (g & Hg & Hkg & Hng); [lia|].
  exists [a; g]. split_and!; [cbn; by rewrite (HG g), <- app_assoc| |cbn; lia].
  assert (ancestor_at (headers sh) a 0 = Some g) as Hag.
  { rewrite <- Hg. symmetry. by eapply (ancestor_at_trans _ (tr_linked _ HT) _ _ _ index); [lia| |lia|]. }
  eapply (locates_cons b index a 0); [done|lia|lia|done..|]. by apply locates_one.
Qed.

Lemma locator_loop_Ok fuel index b L :
  known (headers sh) b -> 0 <= index <= HeaderView_number b -> index < Z.of_nat fuel ->
  (length L <= 71)%nat ->
  exists hs, locator_loop consensus fuel snap sh (step_at (length L)) index (header_hash b) L =
      Ok (L ++ (header_hash <$> hs)) /\
    locates b index hs /\ (length L + length hs <= 73)%nat.
Proof.
  revert index b L. induction fuel as [|fuel IH]; intros index b L Hb Hi Hf HL; [lia|].
  cbn [locator_loop]. rewrite active_ancestor_Ok by done. step.
  destruct (ancestor_at_total _ (tr_linked _ HT) b index Hb Hi) as (a & Ha & Hka & Hna).
  rewrite Ha. step. pose proof (ln_number _ (tr_linked _ HT) _ _ Hb) as Hw.
  assert (length (L ++ [header_hash a]) = S (length L)) as Hlen by (rewrite length_app; cbn; lia).
  rewrite Hlen, step_at_next by done.
  assert (forall index', 0 <= index' < index -> (length L < 71)%nat ->
    exists hs, locator_loop consensus fuel snap sh (step_at (S (length L))) index' (header_hash a)
        (L ++ [header_hash a]) = Ok (L ++ (header_hash <$> hs)) /\
      locates b index hs /\ (length L + length hs <= 73)%nat) as Hrec.
  { intros index' Hi' HL'. destruct (IH index' a (L ++ [header_hash a])) as (hs & Hhs & Hlo & Hle);
      [done|lia|lia|lia|].
    rewrite Hlen in Hhs, Hle. exists (a :: hs). rewrite Hhs. split_and!; [by rewrite <- app_assoc| |cbn; lia].
    eapply locates_cons; [done|exact Hi'|lia|done..]. }
  destruct (Z.ltb_spec index (step_at (S (length L)))) as [Hlt|Hge].
  - case_match eqn:Hc; reflect_bools.
    + apply Hrec; [|match goal with Hs : (_ <? 31)%nat = true |- _ => apply Nat.ltb_lt in Hs end; lia].
      unfold ONE_DAY_BLOCK_NUMBER in *. rewrite Z.shiftr_div_pow2 by lia. change (2 ^ 1) with 2. divlia.
    + destruct (locates_end b index a L Hb Hi Ha) as (hs & -> & Hlo & Hle). exists hs.
      split_and!; [done..|lia].
  - apply Hrec; [pose proof (Z.pow_pos_nonneg 2 (Z.max 0 (Z.of_nat (S (length L)) - 9))); unfold step_at in *; lia|].
    destruct (decide (length L = 71)%nat) as [H71|]; [|lia]. exfalso.
    rewrite H71 in Hge. change (step_at 72) with (2 ^ 63) in Hge. lia.
Qed.

(** ** Common ancestors *)

Lemma get_header_known h : known (headers sh) h -> get_header sh (header_hash h) = Some h.
Proof.
  unfold known, headers_of, get_header, get_header_view. destruct (header_map _ !! _); [done|].
  destruct (get_block_header _ _) as [x|]; [|done]. cbn. destruct (get_block_ext _ _); [|done]. done.
Qed.

(** The highest ancestor two headers share. *)
Record joins (l r c : HeaderView) : Prop := {
  jo_left : ancestor_at (headers sh) l (HeaderView_number c) = Some c;
  jo_right : ancestor_at (headers sh) r (HeaderView_number c) = Some c;
  jo_highest k : HeaderView_number c < k <= HeaderView_number l ->
    ancestor_at (headers sh) l k <> ancestor_at (headers sh) r k;
}.

Lemma joins_down l r l' r' c :
  known (headers sh) l -> known (headers sh) r -> HeaderView_number l = HeaderView_number r ->
  header_hash l <> header_hash r -> 0 < HeaderView_number l ->
  ancestor_at (headers sh) l (HeaderView_number l - 1) = Some l' ->
  ancestor_at (headers sh) r (HeaderView_number r - 1) = Some r' ->
  known (headers sh) c -> HeaderView_number c <= HeaderView_number l - 1 ->
  joins l' r' c -> joins l r c.
Proof.
  intros Hl Hr Hn Hne Hpos Hl' Hr' Hc Hcn [J1 J2 J3]. pose proof (tr_linked _ HT) as HL.
  pose proof (ln_number _ HL _ _ Hc) as Hc0.
  destruct (ancestor_at_total _ HL l (HeaderView_number l - 1) Hl) as (x & Hx & _ & Hxn); [lia|]. simplify_eq.
  split.
  - rewrite <- J1. eapply (ancestor_at_trans _ HL); [|done| |exact Hl']; lia.
  - rewrite <- J2. eapply (ancestor_at_trans _ HL); [|done| |exact Hr']; lia.
  - intros k Hk. destruct (decide (k = HeaderView_number l)) as [->|Hkn].
    + rewrite Hn at 2. rewrite !ancestor_at_self. congruence.
    + rewrite (ancestor_at_trans _ HL l l' k (HeaderView_number l - 1)); [|lia|done|lia|done].
      rewrite (ancestor_at_trans _ HL r r' k (HeaderView_number r - 1)); [|lia|done|lia|done].
      apply J3. lia.
Qed.

Lemma common_loop_Ok fuel l r :
  known (headers sh) l -> known (headers sh) r -> HeaderView_number l = HeaderView_number r ->
  HeaderView_number l <= Z.of_nat fuel ->
  exists c, common_loop fuel snap sh l r = Ok (Some c) /\ known (headers sh) c /\
    HeaderView_number c <= HeaderView_number l /\ joins l r c.
Proof.
  pose proof (tr_linked _ HT) as HL. revert l r.
  induction fuel as [|fuel IH]; intros l r Hl Hr Hn Hf; cbn [common_loop]; case_decide as Heq.
  1, 3: assert (l = r) as <- by (unfold known in *; congruence); exists l; split_and!; [done..|];
    split; [apply ancestor_at_self..|lia].
  { destruct Heq. pose proof (ln_number _ HL _ _ Hl). rewrite (HG l), (HG r); [done|done|lia|done|lia]. }
  destruct (decide (HeaderView_number l = 0)) as [Hz|Hpos].
  { destruct Heq. rewrite (HG l), (HG r); [done|done|lia|done|lia]. }
  pose proof (ln_number _ HL _ _ Hl) as Hw. unfold u64_sub. rewrite !fit_in_range by zlia. step.
  destruct (ancestor_at_total _ HL l (HeaderView_number l - 1) Hl) as (l' & Hl' & Hkl & Hnl); [lia|].
  destruct (ancestor_at_total _ HL r (HeaderView_number r - 1) Hr) as (r' & Hr' & Hkr & Hnr); [lia|].
  rewrite (active_ancestor_Ok l), Hl' by (done || lia). step.
  rewrite (active_ancestor_Ok r), Hr' by (done || lia). step.
  destruct (IH l' r') as (c & -> & Hkc & Hcn & Hj); [done|done|lia|lia|].
  exists c. split_and!; [done..|lia|]. eapply (joins_down l r l' r'); [done..|lia|done|done|done|lia|done].
Qed.

Lemma last_common_Ok lc best :
  known (headers sh) lc -> known (headers sh) best -> HeaderView_number lc <= HeaderView_number best ->
  exists c, last_common_ancestor snap sh lc best = Ok (Some c) /\ known (headers sh) c /\
    HeaderView_number c <= HeaderView_number lc /\ joins lc best c.
Proof.
  intros Hl Hb Hn. pose proof (tr_linked _ HT) as HL. pose proof (ln_number _ HL _ _ Hl) as Hw.
  unfold last_common_ancestor. rewrite active_ancestor_Ok by (done || lia). step.
  destruct (ancestor_at_total _ HL best (HeaderView_number lc) Hb) as (r & Hr & Hkr & Hnr); [lia|].
  rewrite Hr. case_decide as Heq.
  - assert (r = lc) as -> by (unfold known in *; congruence). exists lc. split_and!; [done..|].
    split; [apply ancestor_at_self|done|lia].
  - rewrite get_header_known by done. destruct (common_loop_Ok (Z.to_nat (HeaderView_number lc)) lc r)
      as (c & -> & Hkc & Hcn & [J1 J2 J3]); [done|done|lia|lia|].
    exists c. split_and!; [done..|]. pose proof (ln_number _ HL _ _ Hkc). split; [done| |].
    + rewrite <- J2. eapply (ancestor_at_trans _ HL); [|done| |exact Hr]; lia.
    + intros k Hk. rewrite (ancestor_at_trans _ HL best r k (HeaderView_number lc)); [|lia|done|lia|done].
      apply J3. lia.
Qed.
End facts.

(** ** Answering a locator *)

(** The blocks of the main chain are stored. *)
Definition main_stored (snap : Snapshot) (sh : Shared) : Prop := forall n hash,
  0 <= n -> get_block_hash (snap_store snap) n = Some hash ->
  is_Some (get_block_header (store sh) hash).
(** What is stored is known. *)
Definition stored_known (sh : Shared) : Prop := forall hash h,
  get_block_header (store sh) hash = Some h -> headers sh hash = Some h.

Section answer.
(** [asker] is the node that sends the locator, [sh] the one that answers. *)
Context (snap : Snapshot) (sh asker : Shared) (consensus : Consensus).
Hypothesis HM : main_ok snap sh.
Hypothesis HS : stored_known sh.
Hypothesis HLa : linked (headers asker).
(** Two nodes that know a hash know the same header. *)
Hypothesis Hagree : forall hash h h', headers asker hash = Some h -> headers sh hash = Some h' -> h = h'.
Hypothesis Hgenesis : get_block_hash (snap_store snap) 0 = Some (genesis_hash consensus).
Hypothesis HGa : forall h, known (headers asker) h -> HeaderView_number h = 0 ->
  header_hash h = genesis_hash consensus.

(** A block that both have, on the main chain of the one that answers. *)
Definition common (h : HeaderView) (n : Z) : Prop := exists a,
  ancestor_at (headers asker) h n = Some a /\ get_block_hash (snap_store snap) n = Some (header_hash a).

Lemma main_number_common h n :
  known (headers asker) h -> get_block_number (snap_store snap) (header_hash h) = Some n ->
  n = HeaderView_number h /\ common h n.
Proof.
  intros Hk Hi. apply (mo_number _ _ HM) in Hi as [Hn Hi].
  destruct (mo_index _ _ HM n _ Hn Hi) as (h' & Hh' & Hnum & _).
  rewrite <- (Hagree _ _ _ Hk Hh') in Hnum. subst n. split; [done|]. exists h. by rewrite ancestor_at_self.
Qed.

Lemma common_trans h a k n :
  known (headers asker) h -> 0 <= n <= k -> k <= HeaderView_number h ->
  ancestor_at (headers asker) h k = Some a -> common a n -> common h n.
Proof.
  intros Hk Hn Hkn Ha (b & Hb & Hi). exists b. split; [|done]. rewrite <- Hb.
  by eapply (ancestor_at_trans _ HLa).
Qed.

Lemma fork_point_Ok fuel lc h :
  known (headers asker) h -> HeaderView_number h <= Z.of_nat fuel ->
  exists n, fork_point fuel snap sh lc (header_hash h) = Ok n /\
    (n = lc \/ (0 <= n <= HeaderView_number h /\ common h n)).
Proof.
  revert h. induction fuel as [|fuel IH]; intros h Hk Hf; cbn [fork_point];
    (destruct (get_block_header (store sh) (header_hash h)) as [h'|] eqn:Hh; [|exists lc; split; [done|by left]]);
    (destruct (get_block_number _ _) as [n|] eqn:Hnum;
      [exists n; split; [done|right]; destruct (main_number_common h n Hk Hnum) as [-> Hc];
       split; [pose proof (ln_number _ HLa _ _ Hk); lia|done]|]).
  - exfalso. pose proof (ln_number _ HLa _ _ Hk). rewrite (HGa h Hk) in Hnum by lia.
    rewrite (proj2 (mo_number _ _ HM (genesis_hash consensus) 0)) in Hnum; [done|]. by split; [lia|].
  - pose proof (ln_number _ HLa _ _ Hk).
    assert (HeaderView_number h <> 0) as Hne.
    { intros Hz. rewrite (HGa h Hk Hz) in Hnum.
      rewrite (proj2 (mo_number _ _ HM (genesis_hash consensus) 0)) in Hnum; [done|]. by split; [lia|]. }
    rewrite <- (Hagree _ _ _ Hk (HS _ _ Hh)).
    destruct (ln_parent _ HLa _ _ Hk) as (p & Hp & Hnp); [lia|].
    pose proof (known_get _ HLa _ _ Hp) as Hkp. rewrite <- (ln_hash _ HLa _ _ Hp).
    destruct (IH p) as (n & -> & Hn); [done|lia|]. exists n. split; [done|]. destruct Hn as [|[Hn Hc]]; [by left|right].
    split; [lia|]. eapply (common_trans h p (HeaderView_number h - 1)); [done|lia|lia| |done].
    by apply ancestor_at_parent; [|lia|].
Qed.

Lemma find_known_Ok i hs n :
  find_known snap i (header_hash <$> hs) = Some n -> exists j h,
    n.1 = (i + j)%nat /\ hs !! j = Some h /\ get_block_number (snap_store snap) (header_hash h) = Some n.2.
Proof.
  revert i. induction hs as [|h hs IH]; intros i; cbn [fmap list_fmap find_known]; [done|].
  destruct (get_block_number _ _) as [m|] eqn:Hm.
  - intros [= <-]. exists 0%nat, h. split_and!; [cbn; lia|done..].
  - intros (j & h' & Hj & Hh & Hn)%IH. exists (S j), h'. split_and!; [lia|done..].
Qed.

Lemma find_known_total i hs h :
  h ∈ hs -> is_Some (get_block_number (snap_store snap) (header_hash h)) ->
  is_Some (find_known snap i (header_hash <$> hs)).
Proof.
  revert i. induction hs as [|x hs IH]; intros i Hin Hs; [by apply not_elem_of_nil in Hin|].
  cbn [fmap list_fmap find_known]. destruct (get_block_number _ (header_hash x)) as [m|] eqn:Hm; [done|].
  apply elem_of_cons in Hin as [->|Hin]; [rewrite Hm in Hs; by destruct Hs|by apply IH].
Qed.

Lemma sorted_lookup {A} (R : A -> A -> Prop) l i j a b :
  StronglySorted R l -> l !! i = Some a -> l !! j = Some b -> (i < j)%nat -> R a b.
Proof.
  intros Hs. revert i j. induction Hs as [|x l Hs IH Hf]; intros i j Hi Hj Hlt; [done|].
  destruct j as [|j]; [lia|]. destruct i as [|i]; cbn in Hi, Hj.
  - simplify_eq. rewrite Forall_forall in Hf. apply Hf. by eapply list_elem_of_lookup_2.
  - eapply IH; [done..|lia].
Qed.

(** The common block is found in every locator made from a header. *)
Lemma locate_Ok start hs :
  known (headers asker) start -> locates asker start (HeaderView_number start) hs ->
  exists n, locate_latest_common_block consensus snap sh (header_hash <$> hs) = Ok (Some n) /\
    0 <= n <= HeaderView_number start /\ common start n.
Proof.
  intros Hs [L1 L2 L3 (g & Hg & Hg0)]. rewrite Forall_forall in L2.
  assert (g ∈ hs) as Hgin by (by apply last_Some_elem_of).
  destruct (L2 g Hgin) as (Hkg & _ & _). pose proof (HGa g Hkg Hg0) as Hgh.
  unfold locate_latest_common_block. 
  assert (last (header_hash <$> hs) = Some (genesis_hash consensus)) as ->
    by (rewrite fmap_last, Hg; cbn; by rewrite Hgh).
  rewrite bool_decide_true by done. cbn [negb].
  destruct (find_known_total 0 hs g) as [[i n] Hf]; [done| |].
  { rewrite Hgh, (proj2 (mo_number _ _ HM (genesis_hash consensus) 0)); [done|]. by split; [lia|]. }
  rewrite Hf. step. apply find_known_Ok in Hf as (j & h & Hj & Hh & Hn). cbn in Hj, Hn. subst i.
  destruct (L2 h ltac:(by eapply list_elem_of_lookup_2)) as (Hkh & Hhn & Hha).
  destruct (main_number_common h n Hkh Hn) as [-> Hcom]. pose proof (ln_number _ HLa _ _ Hkh) as Hh0.
  assert (common start (HeaderView_number h)) as Hcs.
  { eapply common_trans; [done| |exact Hhn|done|done]. lia. }
  assert (exists n, Ok (E:=Error) (Some (HeaderView_number h)) = Ok (Some n) /\
    0 <= n <= HeaderView_number start /\ common start n) as Hlc by (eexists; split; [done|]; split; [lia|done]).
  destruct (((j =? 0)%nat || (HeaderView_number h =? 0))%bool) eqn:Hj; [exact Hlc|]. reflect_bools.
  match goal with Hne : (_ =? _)%nat = false |- _ => apply Nat.eqb_neq in Hne end.
  rewrite list_lookup_fmap. destruct (hs !! (j - 1)%nat) as [y|] eqn:Hy; [|exact Hlc].
  cbn [fmap option_fmap option_map mbind option_bind].
  destruct (get_block_header (store sh) (header_hash y)) as [y'|] eqn:Hy'; [|exact Hlc].
  destruct (L2 y ltac:(by eapply list_elem_of_lookup_2)) as (Hky & Hyn & Hya).
  assert (HeaderView_number h < HeaderView_number y) as Hhy.
  { apply (sorted_lookup above hs (j - 1) j y h); [done..|lia]. }
  rewrite <- (Hagree _ _ _ Hky (HS _ _ Hy')).
  destruct (ln_parent _ HLa _ _ Hky) as (p & Hp & Hnp); [lia|].
  pose proof (known_get _ HLa _ _ Hp) as Hkp. rewrite <- (ln_hash _ HLa _ _ Hp).
  destruct (fork_point_Ok (Z.to_nat (HeaderView_number y)) (HeaderView_number h) p) as (n & -> & Hn'); [done|lia|].
  step. exists n. split; [done|]. destruct Hn' as [->|[Hn' Hc]]; [split; [lia|done]|]. split; [lia|].
  eapply (common_trans start y (HeaderView_number y)); [done|lia|lia|done|].
  eapply (common_trans y p (HeaderView_number y - 1)); [done|lia|lia| |done].
  by apply ancestor_at_parent; [|lia|].
Qed.

(** *** The answer *)

Hypothesis HMS : main_stored snap sh.
Hypothesis HLs : linked (headers sh).

(** The header of the main chain at a height. *)
Definition main_at (n : Z) (h : HeaderView) : Prop :=
  get_block_hash (snap_store snap) n = Some (header_hash h) /\ HeaderView_number h = n /\
  (0 < n -> get_block_hash (snap_store snap) (n - 1) = Some (HeaderView_parent_hash h)).

Lemma omap_main stop first len :
  (forall n, get_block_hash (snap_store snap) n <> Some stop) -> 0 <= first ->
  first + Z.of_nat len <= tip_number snap + 1 ->
  exists hs, omap (get_block_header (store sh))
      (take_while_ne stop (omap (get_block_hash (snap_store snap)) (seqZ first (Z.of_nat len)))) = hs /\
    Forall2 main_at (seqZ first (Z.of_nat len)) hs.
Proof.
  intros Hstop. revert first. induction len as [|len IH]; intros first Hf Hlen; [by exists []|].
  rewrite seqZ_cons by lia. replace (Z.pred (Z.of_nat (S len))) with (Z.of_nat len) by lia.
  destruct (proj2 (mo_tip _ _ HM first Hf) ltac:(lia)) as [hash Hhash].
  destruct (HMS first hash Hf Hhash) as [h Hh]. destruct (IH (Z.succ first)) as (hs & Heq & Hhs); [lia|lia|].
  exists (h :: hs). cbn [omap list_omap]. rewrite Hhash. cbn [take_while_ne].
  rewrite decide_False by (intros ->; by eapply Hstop). cbn [omap list_omap]. rewrite Hh. split.
  - f_equal. exact Heq.
  - constructor; [|done]. destruct (mo_index _ _ HM first hash Hf Hhash) as (h' & Hh' & Hn & Hpar).
    pose proof (HS _ _ Hh) as Hh2. rewrite Hh2 in Hh'. injection Hh' as <-.
    split_and!; [|done|done]. by rewrite (ln_hash _ HLs _ _ Hh2).
Qed.

Lemma locator_response_Ok n stop :
  (forall n, get_block_hash (snap_store snap) n <> Some stop) -> 0 <= n <= tip_number snap ->
  tip_number snap < 2 ^ 63 ->
  exists hs, get_locator_response snap sh n stop = Ok hs /\
    Forall2 main_at (seqZ (n + 1) (Z.min MAX_HEADERS_LEN (tip_number snap - n))) hs.
Proof.
  intros Hstop Hn Htip. unfold get_locator_response, u64_add, MAX_HEADERS_LEN.
  rewrite !fit_in_range by zlia. step. rewrite !fit_in_range by zlia. step.
  destruct (omap_main stop (n + 1) (Z.to_nat (Z.min 2000 (tip_number snap - n)))) as (hs & Heq & Hhs);
    [done|lia|lia|]. rewrite Z2Nat.id in Heq, Hhs by lia.
  exists hs. split; [|done]. rewrite <- Heq. do 5 f_equal. lia.
Qed.
End answer.
End active_chain.

(** ** Properties *)

Definition MAX_LOCATOR_SIZE : Z := 101.

Section properties.
Context `{NumExt} `{Hasher} {C : Type} `{P : !ChainPort C} `{RC : RequestCache}.
Context (consensus : Consensus).

(** Every known header at height 0 is the genesis block. *)
Definition genesis_ok (sh : SyncShared (C:=C)) : Prop := forall h,
  known (headers_of (get_header_view sh)) h -> HeaderView_number h = 0 ->
  header_hash h = genesis_hash consensus.

(** What a synchronizer that knows a tree of headers, and the chain of its
    snapshot in it, satisfies. *)
Record sync_ready (snap : Snapshot) (sh : SyncShared (C:=C)) : Prop := {
  sr_tree : tree_ok sh;
  sr_main : main_ok snap sh;
  sr_genesis : genesis_ok sh;
}.

(** The locator of a known header never panics.  It starts with the header
    itself, goes down through its ancestors to the genesis block, and is short
    enough for a peer not to take it for a malformed message. *)
Theorem get_locator_spec snap sh start :
  sync_ready snap sh -> known (headers_of (get_header_view sh)) start ->
  exists hs, get_locator consensus snap sh start = Ok (header_hash <$> hs) /\
    head hs = Some start /\ StronglySorted above hs /\
    Forall (fun h => ancestor_at (headers_of (get_header_view sh)) start (HeaderView_number h) = Some h) hs /\
    last (header_hash <$> hs) = Some (genesis_hash consensus) /\
    Z.of_nat (length hs) <= MAX_LOCATOR_SIZE.
Proof.
  intros [HT HM HG] Hk. pose proof (ln_number _ (tr_linked _ HT) _ _ Hk) as Hw.
  destruct (locator_loop_Ok snap sh HT HM consensus HG (S (Z.to_nat (HeaderView_number start)))
    (HeaderView_number start) start []) as (hs & Hhs & [L1 L2 L3 (g & L4 & L5)] & Hlen);
    [done|lia|lia|cbn; lia|].
  exists hs. cbn in Hlen. split_and!; [exact Hhs|by rewrite L1, ancestor_at_self|done| | |unfold MAX_LOCATOR_SIZE; lia].
  - eapply Forall_impl; [exact L2|]. by intros h (_ & _ & ?).
  - rewrite fmap_last, L4. cbn. f_equal. rewrite Forall_forall in L2.
    apply HG; [|done]. by apply L2, last_Some_elem_of.
Qed.

(** The last common ancestor of two known headers is found, and is the highest:
    it is an ancestor of both, and above it their ancestors differ. *)
Theorem last_common_ancestor_spec snap sh lc best :
  sync_ready snap sh -> known (headers_of (get_header_view sh)) lc ->
  known (headers_of (get_header_view sh)) best -> HeaderView_number lc <= HeaderView_number best ->
  exists c, last_common_ancestor snap sh lc best = Ok (Some c) /\ joins sh lc best c.
Proof.
  intros [HT HM HG] Hl Hb Hn.
  destruct (last_common_Ok snap sh HT HM consensus HG lc best Hl Hb Hn) as (c & Hc & _ & _ & Hj). by exists c.
Qed.

(** The locator of one node and the answer of another, with what the theorem on a
    round of synchronisation needs of both. *)
Lemma sync_round_Ok snap_a asker snap sh start stop :
  sync_ready snap_a asker -> sync_ready snap sh ->
  (forall hash h h', headers_of (get_header_view asker) hash = Some h ->
    headers_of (get_header_view sh) hash = Some h' -> h = h') ->
  get_block_hash (snap_store snap) 0 = Some (genesis_hash consensus) ->
  stored_known sh -> main_stored snap sh ->
  tip_number snap < 2 ^ 63 -> (forall n, get_block_hash (snap_store snap) n <> Some stop) ->
  known (headers_of (get_header_view asker)) start ->
  exists locator n a answer,
    get_locator consensus snap_a asker start = Ok locator /\
    Z.of_nat (length locator) <= MAX_LOCATOR_SIZE /\
    locate_latest_common_block consensus snap sh locator = Ok (Some n) /\
    ancestor_at (headers_of (get_header_view asker)) start n = Some a /\
    get_block_hash (snap_store snap) n = Some (header_hash a) /\
    get_locator_response snap sh n stop = Ok answer /\
    Z.of_nat (length answer) = Z.min MAX_HEADERS_LEN (tip_number snap - n) /\
    (forall i h, answer !! i = Some h -> main_at snap (n + 1 + Z.of_nat i) h) /\
    (forall h, answer !! 0%nat = Some h -> HeaderView_parent_hash h = header_hash a).
Proof.
  intros [HTa HMa HGa] [HT HM HG] Hag Hgen HS HMS Htip Hstop Hk.
  pose proof (ln_number _ (tr_linked _ HTa) _ _ Hk) as Hw.
  destruct (locator_loop_Ok snap_a asker HTa HMa consensus HGa (S (Z.to_nat (HeaderView_number start)))
    (HeaderView_number start) start []) as (hs & Hhs & Hlo & Hlen); [done|lia|lia|cbn; lia|].
  destruct (locate_Ok snap sh asker consensus HM HS (tr_linked _ HTa) Hag Hgen HGa start hs Hk Hlo)
    as (n & Hn & Hn0 & a & Ha & Hia).
  assert (n <= tip_number snap) as Hnt by (apply (mo_tip _ _ HM); [lia|by rewrite Hia]).
  destruct (locator_response_Ok snap sh HM HS HMS (tr_linked _ HT) n stop) as (answer & Hans & Hall); [done|lia|done|].
  assert (forall i h, answer !! i = Some h -> main_at snap (n + 1 + Z.of_nat i) h) as Hmain.
  { intros i h Hi. destruct (Forall2_lookup_r _ _ _ _ _ Hall Hi) as (k & Hk' & Hm).
    apply lookup_seqZ in Hk' as [-> _]. done. }
  exists (header_hash <$> hs), n, a, answer. split_and!; [exact Hhs| |done..| |done|].
  - rewrite length_fmap. cbn in Hlen. unfold MAX_LOCATOR_SIZE. lia.
  - rewrite <- (Forall2_length _ _ _ Hall), length_seqZ. unfold MAX_HEADERS_LEN. lia.
  - intros h Hh. destruct (Hmain 0%nat h Hh) as (_ & _ & Hpar). specialize (Hpar ltac:(lia)).
    replace (n + 1 + Z.of_nat 0 - 1) with n in Hpar by lia. congruence.
Qed.
End properties.
