(* ===== verification/Synchronizer.v ===== *)
(** * The synchronizer: src/sync/src/synchronizer/mod.rs, headers_process.rs,
    get_headers_process.rs, get_blocks_process.rs, block_process.rs,
    block_fetcher.rs, in_ibd_process.rs, src/sync/src/status.rs,
    src/util/types/src/extension/check_data.rs

    The handlers of the sync protocol and its timers.  A handler takes the state
    it finds to the next one and a list of what it asks of the network, in
    order.  Whether the network takes a message is the parameter [send_ok]; the
    text that goes with a status is left out. *)

From stdpp Require Import sorting.
From S2P Require Import Prelude Capacity NumExt Difficulty Types Errors Epoch Cell Consensus Hashes Store.
From S2P Require Import HeaderVerifier TransactionVerifier ChainCell Chain SortedTxMap.
From S2P Require Import SkipList OrphanBlockPool InflightBlocks SyncState SyncShared ActiveChain.

(** ** Status *)

Inductive StatusCode :=
| StatusOK
| Ignored
| ProtocolMessageIsMalformed
| BlockIsInvalid
| GetHeadersMissCommonAncestors
| Network.
(** The numbers of the codes. *)
Definition status_number (c : StatusCode) : Z :=
  match c with
  | StatusOK => 100
  | Ignored => 101
  | ProtocolMessageIsMalformed => 400
  | BlockIsInvalid => 401
  | GetHeadersMissCommonAncestors => 414
  | Network => 502
  end.
Definition BAD_MESSAGE_BAN_TIME : Z := 5 * 60.
Definition SYNC_USELESS_BAN_TIME : Z := 10 * 60.
Definition should_ban (c : StatusCode) : option Z :=
  if (400 <=? status_number c) && (status_number c <? 500) then
    match c with
    | GetHeadersMissCommonAncestors => Some SYNC_USELESS_BAN_TIME
    | _ => Some BAD_MESSAGE_BAN_TIME
    end
  else None.

(** ** Messages *)

(** The parts of a message that the encoding leaves open. *)
Definition verify_value (v : Z) : bool := v <=? 1.
Definition Script_check_data (s : Script) : bool := verify_value (hash_type s).
Definition CellOutput_check_data (o : CellOutput) : bool :=
  Script_check_data (lock o) && match type_ o with Some s => Script_check_data s | None => true end.
Definition CellDep_check_data (d : CellDep) : bool := verify_value (dep_type d).
Definition Transaction_check_data (tx : Transaction) : bool :=
  let raw := tx_raw tx in
  (length (outputs raw) =? length (outputs_data raw))%nat &&
  forallb CellDep_check_data (cell_deps raw) && forallb CellOutput_check_data (outputs raw).
Definition Block_check_data (b : Block) : bool := forallb Transaction_check_data (block_transactions b).

(** [SyncMessageUnion]; the last are those that a node does not answer. *)
Inductive SyncMessage :=
| MsgGetHeaders (hash_stop : Byte32) (locator : list Byte32)
| MsgSendHeaders (headers : list Header)
| MsgGetBlocks (hashes : list Byte32)
| MsgSendBlock (block : Block)
| MsgInIBD
| MsgUnexpected.

(** ** ValidationResult *)

Inductive ValidationError :=
| ValidationError_Verify (e : Error)
| ValidationError_Version
| ValidationError_InvalidParent.
Record ValidationResult := mkValidationResult {
  vr_error : option ValidationError;
  vr_misbehavior : Z;
  vr_is_valid : bool;
}.
Definition ValidationResult_default : ValidationResult := mkValidationResult None 0 true.
Definition dos (error : ValidationError) (score : Z) : ValidationResult :=
  mkValidationResult (Some error) score false.
(** The match of [non_contextual_check] on the kind of the error. *)
Definition refused_header (e : Error) : ValidationResult :=
  match e with
  | Error_Header (HeaderError_Pow _) => dos (ValidationError_Verify e) 100
  | Error_Header (HeaderError_Epoch _) => dos (ValidationError_Verify e) 50
  | _ => dos (ValidationError_Verify e) 0
  end.

Definition CHAIN_SYNC_TIMEOUT : Z := 12 * 60 * 1000.
Definition EVICTION_HEADERS_RESPONSE_TIME : Z := 120 * 1000.
Definition HEADERS_DOWNLOAD_TIMEOUT_BASE : Z := 6 * 60 * 1000.
Definition HEADERS_DOWNLOAD_TIMEOUT_PER_HEADER : Z := 1.
Definition POW_SPACE : Z := 10000.
Definition MAX_OUTBOUND_PEERS_TO_PROTECT_FROM_DISCONNECT : Z := 4.
Definition BLOCK_DOWNLOAD_WINDOW : Z := 1024 * 8.
Definition CHECK_POINT_WINDOW : Z := MAX_BLOCKS_IN_TRANSIT_PER_PEER * 4.

Section synchronizer.
Context `{NumExt} `{Hasher} {C : Type} `{P : !ChainPort C} `{RC : RequestCache}.
Context `{MO : !MapOrder Byte32 (PeerIndex * BlockView)} `{MT : !MapOrder (Z * Byte32) Z}.
Context `{MP : !MapOrder PeerIndex PeerState}.
Context (consensus : Consensus) (send_ok : SyncAction -> bool).

Abbreviation Shared := (SyncShared (C:=C)).
(** What a handler does: its status, the state after it, and the actions. *)
Abbreviation handled := (outcome Error (StatusCode * Shared * list SyncAction)).
Definition active_chain (sh : Shared) : Snapshot := port_snapshot (chain sh).
Definition on_state (f : SyncState -> SyncState) (sh : Shared) : Shared := with_state sh (f (state sh)).
Definition on_peers (f : Peers -> Peers) : Shared -> Shared :=
  on_state (fun s => set_peers s (f (peers s))).
Definition punish_peer (sh : Shared) (peer : PeerIndex) (score : Z) : outcome Error Shared :=
  s ← misbehavior (state sh) peer score;
  Ok (with_state sh s).

(** ** SendHeaders *)

(** [impl BlockMedianTimeContext for VerifierResolver]. *)
Definition VerifierResolver (sh : Shared) : BlockMedianTimeContext :=
  mkBlockMedianTimeContext (median_time_block_count consensus) (fun block_hash =>
    header ← expect (get_header sh block_hash);
    Ok (HeaderView_timestamp header, HeaderView_number header, HeaderView_parent_hash header)).

Definition mark_invalid_header (sh : Shared) (header : HeaderView) : Shared :=
  on_state (fun s => insert_block_status s (header_hash header) BLOCK_INVALID) sh.

Definition HeaderAcceptor_accept (snap : Snapshot) (sh : Shared) (now : Z) (peer : PeerIndex)
    (header : HeaderView) (parent : option HeaderView) : outcome Error (ValidationResult * Shared) :=
  let '(is_known, sh) := contains_block_status snap sh (header_hash header) HEADER_VALID in
  if is_known then
    header_view ← expect (get_header_view sh (header_hash header));
    Ok (ValidationResult_default, on_peers (fun ps => new_header_received ps peer header_view) sh)
  else
    let '(invalid_parent, sh) := contains_block_status snap sh (HeaderView_parent_hash header) BLOCK_INVALID in
    if invalid_parent then
      Ok (dos ValidationError_InvalidParent 100, mark_invalid_header sh header)
    else
      match HeaderVerifier_verify consensus (VerifierResolver sh) now header parent with
      | Panic => Panic
      | Err e => Ok (refused_header e, mark_invalid_header sh header)
      | Ok _ =>
          if negb (version (HeaderView_raw header) =? 0) then
            Ok (dos ValidationError_Version 0, mark_invalid_header sh header)
          else
            sh ← insert_valid_header sh peer header;
            Ok (ValidationResult_default, sh)
      end.

Fixpoint is_continuous (headers : list HeaderView) : bool :=
  match headers with
  | parent :: ((header :: _) as rest) =>
      bool_decide (HeaderView_parent_hash header = header_hash parent) && is_continuous rest
  | _ => true
  end.

(** The headers of the message, the first with the parent that is known, each of
    the others with the one before it.  [false] when one is refused, which ends
    the message. *)
Fixpoint accept_headers (snap : Snapshot) (sh : Shared) (now : Z) (peer : PeerIndex)
    (parent : option HeaderView) (headers : list HeaderView) : outcome Error (bool * Shared) :=
  match headers with
  | [] => Ok (true, sh)
  | header :: headers =>
      '(result, sh) ← HeaderAcceptor_accept snap sh now peer header parent;
      if vr_is_valid result then accept_headers snap sh now peer (Some header) headers
      else
        sh ← (if 0 <? vr_misbehavior result then punish_peer sh peer (vr_misbehavior result) else Ok sh);
        Ok (false, sh)
  end.

(** What follows when all the headers are accepted. *)
Definition headers_accepted (snap : Snapshot) (sh : Shared) (now : Z) (peer : PeerIndex)
    (headers : list HeaderView) : handled :=
  let full := Z.of_nat (length headers) =? MAX_HEADERS_LEN in
  '(sh, sent) ←
    (if full then
       start ← expect (last headers);
       send_getheaders_to_peer consensus snap sh now peer start
     else Ok (sh, []));
  let flags := default PeerFlags_default (get_flag (peers (state sh)) peer) in
  let '(ibd, sh) := is_initial_block_download snap sh now in
  if ibd && negb full && negb (is_protect flags) && negb (is_whitelist flags) && is_outbound flags then
    Ok (if send_ok (Disconnect peer) then StatusOK else Network, sh, sent ++ [Disconnect peer])
  else Ok (StatusOK, sh, sent).

Definition HeadersProcess_execute (sh : Shared) (now : Z) (peer : PeerIndex) (headers : list HeaderView) :
    handled :=
  let snap := active_chain sh in
  if MAX_HEADERS_LEN <? Z.of_nat (length headers) then
    sh ← punish_peer sh peer 20;
    Ok (StatusOK, sh, [])
  else
    match headers with
    | [] =>
        p ← expect (peers (state sh) !! peer);
        Ok (StatusOK, on_peers (insert peer (set_sync p (sync_started p) None)) sh, [])
    | first :: _ =>
        if negb (is_continuous headers) then
          sh ← punish_peer sh peer 20;
          Ok (StatusOK, sh, [])
        else
          '(accepted, sh) ←
            accept_headers snap sh now peer (get_header sh (HeaderView_parent_hash first)) headers;
          if (accepted : bool) then headers_accepted snap sh now peer headers
          else Ok (StatusOK, sh, [])
    end.

(** ** GetHeaders *)

Definition GetHeadersProcess_execute (sh : Shared) (now : Z) (peer : PeerIndex)
    (locator : list Byte32) (hash_stop : Byte32) : handled :=
  let snap := active_chain sh in
  if MAX_LOCATOR_SIZE <? Z.of_nat (length locator) then Ok (ProtocolMessageIsMalformed, sh, [])
  else
    let '(ibd, sh) := is_initial_block_download snap sh now in
    if ibd then
      let sh :=
        match get_flag (peers (state sh)) peer with
        | Some flag =>
            if is_outbound flag || is_whitelist flag || is_protect flag
            then on_state (fun s => insert_peer_unknown_header_list s peer locator) sh else sh
        | None => sh
        end in
      Ok (Ignored, sh, [SendInIBD peer])
    else
      common ← locate_latest_common_block consensus snap sh locator;
      match common with
      | Some block_number =>
          headers ← get_locator_response snap sh block_number hash_stop;
          let message := SendHeaders peer headers in
          Ok (if send_ok message then StatusOK else Network, sh, [message])
      | None => Ok (GetHeadersMissCommonAncestors, sh, [])
      end.

(** ** GetBlocks *)

(** The loop over the first hashes; [paused] says whether the session is full
    when a block is to be sent. *)
Fixpoint send_blocks (snap : Snapshot) (paused : Byte32 -> bool) (sh : Shared) (peer : PeerIndex)
    (hashes : list Byte32) : handled :=
  match hashes with
  | [] => Ok (StatusOK, sh, [])
  | hash :: hashes =>
      let '(valid, sh) := contains_block_status snap sh hash BLOCK_VALID in
      if negb valid then send_blocks snap paused sh peer hashes
      else if paused hash then Ok (StatusOK, sh, [])
      else
        block ← get_block (store sh) hash;
        match block with
        | None => Ok (StatusOK, sh, [])
        | Some block =>
            let message := SendBlock peer block in
            if send_ok message then
              '(status, sh, sent) ← send_blocks snap paused sh peer hashes;
              Ok (status, sh, message :: sent)
            else Ok (Network, sh, [message])
        end
  end.
Definition GetBlocksProcess_execute (paused : Byte32 -> bool) (sh : Shared) (peer : PeerIndex)
    (block_hashes : list Byte32) : handled :=
  if MAX_HEADERS_LEN <? Z.of_nat (length block_hashes) then Ok (ProtocolMessageIsMalformed, sh, [])
  else
    send_blocks (active_chain sh) paused sh peer
      (take (Z.to_nat INIT_BLOCKS_IN_TRANSIT_PER_PEER) block_hashes).

(** ** SendBlock *)

Definition process_new_block (sh : Shared) (now : Z) (peer : PeerIndex) (block : BlockView) :
    outcome Error (block_result * Shared) :=
  let '(status, sh) := get_block_status (active_chain sh) sh (block_hash block) in
  if BlockStatus_contains status BLOCK_STORED then
    Ok (inl false, on_peers (fun ps => set_last_common_header ps peer (BlockView_header block)) sh)
  else if BlockStatus_contains status HEADER_VALID then insert_new_block sh now peer block
  else Ok (inl false, sh).

Definition BlockProcess_execute (sh : Shared) (now : Z) (peer : PeerIndex) (block : BlockView) : handled :=
  '(requested, s) ← new_block_received (state sh) now block;
  let sh := with_state sh s in
  if (requested : bool) then
    '(result, sh) ← process_new_block sh now peer block;
    match result with
    | inr _ =>
        Ok (BlockIsInvalid, on_state (fun s => insert_block_status s (block_hash block) BLOCK_INVALID) sh, [])
    | inl _ => Ok (StatusOK, sh, [])
    end
  else
    let '(stored, sh) := contains_block_status (active_chain sh) sh (block_hash block) BLOCK_STORED in
    Ok (StatusOK,
        if stored then on_peers (fun ps => set_last_common_header ps peer (BlockView_header block)) sh else sh, []).

(** ** InIBD *)

Definition InIBDProcess_execute (sh : Shared) (now : Z) (peer : PeerIndex) : handled :=
  match peers (state sh) !! peer with
  | None => Ok (StatusOK, sh, [])
  | Some p =>
      if negb (sync_started p) then Ok (Ignored, sh, [])
      else if is_outbound (peer_flags p) && negb (is_whitelist (peer_flags p) || is_protect (peer_flags p)) then
        Ok (if send_ok (Disconnect peer) then StatusOK else Network, sh, [Disconnect peer])
      else
        s ← suspend_sync (state sh) now peer p;
        Ok (StatusOK, with_state sh s, [])
  end.

(** ** Fetching blocks *)

Definition fetcher_last_common (snap : Snapshot) (sh : Shared) (peer : PeerIndex) (best : SyncHeaderView) :
    outcome Error (option HeaderView) :=
  let tip_header := snap_tip_header snap in
  let last_common :=
    match get_last_common_header (peers (state sh)) peer with
    | Some header => if HeaderView_number tip_header <? HeaderView_number header then Some tip_header else Some header
    | None =>
        if view_number best <? HeaderView_number tip_header
        then get_block_hash (snap_store snap) (view_number best) ≫= get_block_header (store sh)
        else Some tip_header
    end in
  match last_common with
  | None => Ok None
  | Some header => last_common_ancestor snap sh header (inner best)
  end.

(** [for _ in 0..span], from a header down; no list when a parent is missing,
    which ends the fetch. *)
Fixpoint fetch_span (span : nat) (snap : Snapshot) (now : Z) (peer : PeerIndex) (sh : Shared)
    (header : HeaderView) (fetch : list HeaderView) : outcome Error (option (list HeaderView) * Shared) :=
  match span with
  | O => Ok (Some fetch, sh)
  | S span =>
      let '(status, sh) := get_block_status snap sh (header_hash header) in
      if BlockStatus_contains status BLOCK_STORED then Ok (Some fetch, sh)
      else
        '(added, sh) ←
          (if BlockStatus_contains status BLOCK_RECEIVED then Ok (false, sh)
           else
             '(added, inflight) ← InflightBlocks_insert (inflight_blocks (state sh)) now peer
                                    (HeaderView_number header, header_hash header);
             Ok (added, on_state (fun s => set_inflight s inflight) sh));
        let fetch := if (added : bool) then fetch ++ [header] else fetch in
        match get_header_view sh (HeaderView_parent_hash header) with
        | None => Ok (None, sh)
        | Some parent => fetch_span span snap now peer sh (inner parent) fetch
        end
  end.

(** [while fetch.len() < n_fetch && start <= end]; [start] moves by at least one. *)
Fixpoint fetch_loop (fuel : nat) (snap : Snapshot) (now : Z) (peer : PeerIndex) (best : Byte32)
    (n_fetch start last : Z) (sh : Shared) (fetch : list HeaderView) :
    outcome Error (option (list HeaderView) * Shared) :=
  let len := Z.of_nat (length fetch) in
  if (len <? n_fetch) && (start <=? last) then
    match fuel with
    | O => Panic
    | S fuel =>
        let span := Z.min (last - start + 1) (n_fetch - len) in
        header ← active_get_ancestor snap sh best (start + span - 1);
        match header with
        | None => Ok (None, sh)
        | Some header =>
            '(fetch, sh) ← fetch_span (Z.to_nat span) snap now peer sh header fetch;
            match fetch with
            | None => Ok (None, sh)
            | Some fetch => fetch_loop fuel snap now peer best n_fetch (start + span) last sh fetch
            end
        end
    end
  else Ok (Some fetch, sh).

(** [slice::chunks]. *)
Fixpoint chunks_loop {A} (fuel : nat) (n : nat) (l : list A) : list (list A) :=
  match fuel, l with
  | S fuel, _ :: _ => take n l :: chunks_loop fuel n (drop n l)
  | _, _ => []
  end.
Definition chunks {A} (n : nat) (l : list A) : list (list A) := chunks_loop (length l) n l.

(** From the last common block on. *)
Definition fetch_from (snap : Snapshot) (now : Z) (peer : PeerIndex) (sh : Shared)
    (best : SyncHeaderView) (fixed : HeaderView) : outcome Error (option (list (list Byte32)) * Shared) :=
  start ← u64_add (HeaderView_number fixed) 1;
  window ← u64_add start BLOCK_DOWNLOAD_WINDOW;
  let last_number := Z.min (view_number best) window in
  let n_fetch := Z.min (saturating_sub last_number start + 1)
                   (peer_can_fetch_count (inflight_blocks (state sh)) peer) in
  '(fetch, sh) ← fetch_loop (Z.to_nat (last_number - start + 1)) snap now peer (view_hash best) n_fetch start
                   last_number sh [];
  match fetch with
  | None => Ok (None, sh)
  | Some fetch =>
      let fetch := sort_by_key HeaderView_number fetch in
      sh ←
        (match last fetch with
         | Some header =>
             if tip_number snap <? saturating_sub (HeaderView_number header) CHECK_POINT_WINDOW then
               inflight ← mark_slow_block (inflight_blocks (state sh)) now (tip_number snap);
               Ok (on_state (fun s => set_inflight s inflight) sh)
             else Ok sh
         | None => Ok sh
         end);
      Ok (Some (chunks (Z.to_nat INIT_BLOCKS_IN_TRANSIT_PER_PEER) (header_hash <$> fetch)), sh)
  end.

Definition BlockFetcher_fetch (sh : Shared) (now : Z) (peer : PeerIndex) (ibd : bool) :
    outcome Error (option (list (list Byte32)) * Shared) :=
  let snap := active_chain sh in
  if peer_can_fetch_count (inflight_blocks (state sh)) peer =? 0 then Ok (None, sh)
  else
    let sh := if ibd then on_state (fun s => try_update_best_known_with_unknown_header_list s peer) sh else sh in
    match get_best_known_header (peers (state sh)) peer with
    | None => Ok (None, sh)
    | Some best =>
        if negb (is_better_than best (snap_total_difficulty snap)) then Ok (None, sh)
        else
          fixed ← fetcher_last_common snap sh peer best;
          match fixed with
          | None => Ok (None, sh)
          | Some fixed =>
              if decide (header_hash fixed = view_hash best) then Ok (None, sh)
              else fetch_from snap now peer sh best fixed
          end
    end.

(** A fetch for a list of peers, as [BlockFetchCMD::run] does for a command: it
    always fetches as in the initial download. *)
Fixpoint run_fetch (sh : Shared) (now : Z) (ids : list PeerIndex) : outcome Error (Shared * list SyncAction) :=
  match ids with
  | [] => Ok (sh, [])
  | peer :: ids =>
      '(fetch, sh) ← BlockFetcher_fetch sh now peer true;
      '(sh, sent) ← run_fetch sh now ids;
      Ok (sh, (SendGetBlocks peer <$> default [] fetch) ++ sent)
  end.

(** [find_blocks_to_fetch] up to the command it sends to the thread that fetches:
    the peers, those with the most tasks first. *)
Definition may_fetch (ibd : bool) (p : PeerState) : bool :=
  if ibd then is_outbound (peer_flags p) || is_whitelist (peer_flags p) || is_protect (peer_flags p)
  else sync_started p.
Definition tasks_of (i : InflightBlocks) (peer : PeerIndex) : Z :=
  match download_schedulers i !! peer with Some d => task_count d | None => INIT_BLOCKS_IN_TRANSIT_PER_PEER end.
Definition is_protected (ps : Peers) (peer : PeerIndex) : bool :=
  match get_flag ps peer with Some flag => is_whitelist flag || is_protect flag | None => false end.
Definition find_blocks_to_fetch (sh : Shared) (now : Z) (ibd can_fetch_block : bool) :
    outcome Error (Shared * list SyncAction * option (list PeerIndex)) :=
  let tip := tip_number (active_chain sh) in
  '(pruned, inflight) ← InflightBlocks_prune (inflight_blocks (state sh)) now tip;
  let sh := on_state (fun s => set_inflight s inflight) sh in
  let ps := peers (state sh) in
  let disconnect_list := if ibd then get_best_known_less_than_tip_and_unknown_empty ps tip ∪ pruned else pruned in
  let actions := Disconnect <$> filter (fun peer => is_protected ps peer = false) (elements disconnect_list) in
  if ibd && negb can_fetch_block then Ok (sh, actions, None)
  else
    let ids := (filter (fun kp : PeerIndex * PeerState => kp.1 ∉ disconnect_list /\ may_fetch ibd kp.2 = true)
                 (map_iter ps)).*1 in
    Ok (sh, actions, Some (reverse (sort_by_key (tasks_of (inflight_blocks (state sh))) ids))).

(** ** Connections *)

Definition on_connected (sh : Shared) (peer : PeerIndex) (outbound whitelist : bool) : Shared :=
  let s := state sh in
  let protect :=
    outbound && (n_protected_outbound_peers s <? MAX_OUTBOUND_PEERS_TO_PROTECT_FROM_DISCONNECT) in
  let s := if protect then set_protected s (n_protected_outbound_peers s + 1) else s in
  with_state sh (set_peers s (Peers_on_connected (peers s) peer (mkPeerFlags outbound protect whitelist))).

Definition disconnected (sh : Shared) (peer : PeerIndex) : outcome Error Shared :=
  let '(p, s) := SyncState_disconnected (state sh) peer in
  match p with
  | None => Ok (with_state sh s)
  | Some p =>
      s ← (if sync_started p then n ← count_down (n_sync_started s); Ok (set_started s n) else Ok s);
      s ← (if is_protect (peer_flags p)
           then n ← count_down (n_protected_outbound_peers s); Ok (set_protected s n) else Ok s);
      Ok (with_state sh s)
  end.

(** ** Timers *)

Definition predict_headers_sync_time (now : Z) (header : HeaderView) : outcome Error Z :=
  let expected := Z.min MAX_HEADERS_LEN (saturating_sub now (HeaderView_timestamp header) / POW_SPACE) in
  t ← u64_add now HEADERS_DOWNLOAD_TIMEOUT_BASE;
  u64_add t (HEADERS_DOWNLOAD_TIMEOUT_PER_HEADER * expected).

(** The body of the loop of [start_sync_headers] for a peer that can sync. *)
Definition mark_started (now : Z) (tip : HeaderView) (sh : Shared) (peer : PeerIndex) : outcome Error Shared :=
  match peers (state sh) !! peer with
  | Some p =>
      if sync_started p then Ok sh
      else
        timeout ← predict_headers_sync_time now tip;
        let s := set_peers (state sh) (<[peer := start_sync p timeout]> (peers (state sh))) in
        Ok (with_state sh (set_started s (n_sync_started s + 1)))
  | None => Ok sh
  end.
Definition start_peer (snap : Snapshot) (now : Z) (tip : HeaderView) (sh : Shared) (peer : PeerIndex) :
    outcome Error (Shared * list SyncAction) :=
  sh ← mark_started now tip sh peer;
  send_getheaders_to_peer consensus snap sh now peer tip.
Fixpoint start_peers (snap : Snapshot) (now : Z) (ibd : bool) (tip : HeaderView) (sh : Shared)
    (ids : list PeerIndex) : outcome Error (Shared * list SyncAction) :=
  match ids with
  | [] => Ok (sh, [])
  | peer :: ids =>
      if ibd && negb (n_sync_started (state sh) =? 0) then Ok (sh, [])
      else
        '(sh, sent) ← start_peer snap now tip sh peer;
        '(sh, sent') ← start_peers snap now ibd tip sh ids;
        Ok (sh, sent ++ sent')
  end.
Definition start_sync_headers (sh : Shared) (now : Z) : outcome Error (Shared * list SyncAction) :=
  let snap := active_chain sh in
  let '(ibd, sh) := is_initial_block_download snap sh now in
  let ids := (filter (fun kp : PeerIndex * PeerState => can_sync kp.2 now ibd = true)
               (map_iter (peers (state sh)))).*1 in
  let best_known := shared_best_header (state sh) in
  let tip :=
    if view_total_difficulty best_known <? snap_total_difficulty snap then snap_tip_header snap
    else inner best_known in
  start_peers snap now ibd tip sh ids.

(** The timeout of the headers: whether the loop goes on with the peer. *)
Definition evict_headers (now : Z) (initial : bool) (p : PeerState) : bool * PeerState :=
  match headers_sync_timeout p with
  | None => (true, p)
  | Some timeout =>
      if initial then
        if (timeout <? now) && negb (ps_disconnect p) then (false, set_disconnect p true) else (true, p)
      else (true, set_sync p (sync_started p) None)
  end.

Definition knows_at_least (p : PeerState) (total_difficulty : option Z) : bool :=
  match best_known_header p, total_difficulty with
  | Some v, Some t => t <=? view_total_difficulty v
  | Some _, None => true
  | None, Some _ => false
  | None, None => true
  end.

(** The chain of an outbound peer, compared with the tip: the state, the actions,
    and whether the peer goes. *)
Definition evict_chain (snap : Snapshot) (now : Z) (sh : Shared) (peer : PeerIndex) (p : PeerState) :
    outcome Error (Shared * list SyncAction * bool) :=
  let put p sh := on_peers (insert peer p) sh in
  let c := chain_sync p in
  if knows_at_least p (Some (snap_total_difficulty snap)) then
    if negb (cs_timeout c =? 0) then
      Ok (put (set_chain_sync p (mkChainSyncState 0 None None false (not_sync_until c))) sh, [], false)
    else Ok (put p sh, [], false)
  else if (cs_timeout c =? 0) ||
          (bool_decide (is_Some (best_known_header p)) && knows_at_least p (cs_total_difficulty c)) then
    timeout ← u64_add now CHAIN_SYNC_TIMEOUT;
    Ok (put (set_chain_sync p (mkChainSyncState timeout (Some (snap_tip_header snap))
              (Some (snap_total_difficulty snap)) false (not_sync_until c))) sh, [], false)
  else if (0 <? cs_timeout c) && (cs_timeout c <? now) then
    if sent_getheaders c then
      if is_protect (peer_flags p) || is_whitelist (peer_flags p) then
        if sync_started p then
          s ← suspend_sync (state sh) now peer p;
          Ok (with_state sh s, [], false)
        else Ok (put p sh, [], false)
      else Ok (put (set_disconnect p true) sh, [], true)
    else
      timeout ← u64_add now EVICTION_HEADERS_RESPONSE_TIME;
      let sh := put (set_chain_sync p (mkChainSyncState timeout (work_header c) (cs_total_difficulty c) true
                       (not_sync_until c))) sh in
      header ← expect (work_header c);
      '(sh, sent) ← send_getheaders_to_peer consensus snap sh now peer header;
      Ok (sh, sent, false)
  else Ok (put p sh, [], false).

Definition evict_peer (snap : Snapshot) (now : Z) (initial : bool) (sh : Shared) (peer : PeerIndex) :
    outcome Error (Shared * list SyncAction * bool) :=
  match peers (state sh) !! peer with
  | None => Ok (sh, [], false)
  | Some p =>
      let '(go_on, p) := evict_headers now initial p in
      if negb go_on then Ok (on_peers (insert peer p) sh, [], true)
      else if is_outbound (peer_flags p) then evict_chain snap now sh peer p
      else Ok (on_peers (insert peer p) sh, [], false)
  end.
Fixpoint evict_loop (snap : Snapshot) (now : Z) (initial : bool) (sh : Shared) (ids : list PeerIndex) :
    outcome Error (Shared * list SyncAction * list PeerIndex) :=
  match ids with
  | [] => Ok (sh, [], [])
  | peer :: ids =>
      '(sh, sent, out) ← evict_peer snap now initial sh peer;
      '(sh, sent', evicted) ← evict_loop snap now initial sh ids;
      Ok (sh, sent ++ sent', if (out : bool) then peer :: evicted else evicted)
  end.
Definition eviction (sh : Shared) (now : Z) : outcome Error (Shared * list SyncAction) :=
  let snap := active_chain sh in
  '(sh, sent, evicted) ← evict_loop snap now (is_initial_header_sync (state sh) now) sh
                           (map_iter (peers (state sh))).*1;
  Ok (sh, sent ++ (Disconnect <$> evicted)).

(** ** The protocol handler *)

Definition try_process (paused : Byte32 -> bool) (sh : Shared) (now : Z) (peer : PeerIndex)
    (message : SyncMessage) : handled :=
  match message with
  | MsgGetHeaders hash_stop locator => GetHeadersProcess_execute sh now peer locator hash_stop
  | MsgSendHeaders headers => HeadersProcess_execute sh now peer (Header_into_view <$> headers)
  | MsgGetBlocks hashes => GetBlocksProcess_execute paused sh peer hashes
  | MsgSendBlock block =>
      if Block_check_data block then BlockProcess_execute sh now peer (Block_into_view block)
      else Ok (ProtocolMessageIsMalformed, sh, [])
  | MsgInIBD => InIBDProcess_execute sh now peer
  | MsgUnexpected => Ok (ProtocolMessageIsMalformed, sh, [])
  end.
Definition process (paused : Byte32 -> bool) (sh : Shared) (now : Z) (peer : PeerIndex)
    (message : SyncMessage) : outcome Error (Shared * list SyncAction) :=
  '(status, sh, sent) ← try_process paused sh now peer message;
  Ok (sh, match should_ban status with Some time => sent ++ [BanPeer peer time] | None => sent end).
(** [None] when the bytes are no message. *)
Definition received (paused : Byte32 -> bool) (sh : Shared) (now : Z) (peer : PeerIndex)
    (message : option SyncMessage) : outcome Error (Shared * list SyncAction) :=
  match message with
  | None => Ok (sh, [BanPeer peer BAD_MESSAGE_BAN_TIME])
  | Some message => process paused sh now peer message
  end.

Definition SEND_GET_HEADERS_TOKEN : Z := 0.
Definition IBD_BLOCK_FETCH_TOKEN : Z := 1.
Definition NOT_IBD_BLOCK_FETCH_TOKEN : Z := 2.
Definition TIMEOUT_EVICTION_TOKEN : Z := 3.

(** A timer; [None] or the command for the thread that fetches blocks, which
    runs [run_fetch] when it comes to it. *)
Definition notify (can_fetch_block : bool) (sh : Shared) (now token : Z) :
    outcome Error (Shared * list SyncAction * option (list PeerIndex)) :=
  let no_command r := '(sh, sent) ← r; Ok (sh, sent, None) in
  if bool_decide (peers (state sh) = ∅) then Ok (sh, [], None)
  else if token =? SEND_GET_HEADERS_TOKEN then no_command (start_sync_headers sh now)
  else if token =? IBD_BLOCK_FETCH_TOKEN then
    let '(ibd, sh) := is_initial_block_download (active_chain sh) sh now in
    if ibd then find_blocks_to_fetch sh now true can_fetch_block
    else
      let sh := on_state (fun s => set_inflight s (set_adjustment (inflight_blocks s) false)) sh in
      Ok (on_peers clear_unknown_list sh, [], None)
  else if token =? NOT_IBD_BLOCK_FETCH_TOKEN then
    let '(ibd, sh) := is_initial_block_download (active_chain sh) sh now in
    if ibd then Ok (sh, [], None) else find_blocks_to_fetch sh now false can_fetch_block
  else if token =? TIMEOUT_EVICTION_TOKEN then no_command (eviction sh now)
  else Ok (sh, [], None).
End synchronizer.
