(* ===== verification/SyncInvariant.v ===== *)
(** * The synchronizer is safe: src/sync/src/types.rs, src/sync/src/synchronizer/

    The invariant [sync_ok] of the state of the synchronizer, and that the
    handlers keep it: a message with headers never brings the node down, what
    is accepted joins the tree of headers, and the blocks that arrive, orphans
    among them, leave the tree as it is. *)

From stdpp Require Import sorting.
From S2P Require Import Prelude Capacity NumExt Difficulty Types Errors Epoch Cell Consensus Hashes Store.
From S2P Require Import HeaderVerifier TransactionVerifier ChainCell Chain Reorg ChainIndex SortedTxMap.
From S2P Require Import SkipList OrphanBlockPool InflightBlocks SyncState SyncShared ActiveChain Synchronizer.

(** ** The invariant *)

Section invariant.
Context `{NumExt} `{Hasher} {C : Type} `{P : !ChainPort C} `{PS : !ChainPortSpec P} `{RC : RequestCache}.
Context (consensus : Consensus).

Abbreviation Shared := (SyncShared (C:=C)).
Abbreviation headers sh := (headers_of (get_header_view sh)).

(** What the node remembers of a peer is about known headers. *)
Record peer_ok (known_header : HeaderView -> Prop) (p : PeerState) : Prop := {
  po_best v : best_known_header p = Some v -> known_header (inner v);
  po_common h : last_common_header p = Some h -> known_header h;
  po_work h : work_header (chain_sync p) = Some h -> known_header h;
  po_timeout : cs_timeout (chain_sync p) <> 0 -> is_Some (work_header (chain_sync p));
}.

Record sync_ok (sh : Shared) : Prop := {
  so_tree : tree_ok sh;
  so_genesis : genesis_ok consensus sh;
  so_chain : port_inv (chain sh);
  so_agree hash v h : header_map (state sh) !! hash = Some v ->
    get_block_header (store sh) hash = Some h -> inner v = h;
  so_status hash s : block_status_map (state sh) !! hash = Some s ->
    BlockStatus_contains s HEADER_VALID = true -> is_Some (get_header_view sh hash);
  so_best : known (headers sh) (inner (shared_best_header (state sh)));
  so_peers : map_Forall (fun _ => peer_ok (known (headers sh))) (peers (state sh));
}.

Lemma peer_ok_mono (K K' : HeaderView -> Prop) p : (forall h, K h -> K' h) -> peer_ok K p -> peer_ok K' p.
Proof. intros HK [H1 H2 H3 H4]. split; [eauto..|done]. Qed.

(** *** Reading the headers *)

Lemma view_same sh sh' :
  chain sh' = chain sh -> header_map (state sh') = header_map (state sh) ->
  get_header_view sh' = get_header_view sh.
Proof. unfold get_header_view, store. by intros -> ->. Qed.

Lemma so_index sh : sync_ok sh -> index_ok (store sh) (active_chain sh).
Proof. intros Hok. apply port_index, Hok. Qed.
Lemma so_synced sh : sync_ok sh -> snap_store (active_chain sh) = store sh.
Proof. intros Hok. apply so_index, Hok. Qed.
Lemma so_ext sh : sync_ok sh -> forall hash,
  is_Some (get_block_header (store sh) hash) <-> is_Some (get_block_ext (store sh) hash).
Proof. intros Hok. apply so_index, Hok. Qed.

Lemma get_header_headers sh hash : sync_ok sh -> get_header sh hash = headers sh hash.
Proof.
  intros Hok. unfold get_header, headers_of, get_header_view.
  destruct (header_map (state sh) !! hash); [done|].
  destruct (get_block_header (store sh) hash) eqn:Hh; [|done].
  destruct (proj1 (so_ext _ Hok hash)) as [e He]; [by rewrite Hh|]. by rewrite He.
Qed.

Lemma sync_ok_stored sh : sync_ok sh -> stored_known sh.
Proof.
  intros Hok hash h Hh. rewrite <- (get_header_headers sh hash Hok). unfold get_header.
  destruct (header_map (state sh) !! hash) as [v|] eqn:Hv; [|done]. f_equal. by eapply (so_agree _ Hok).
Qed.

(** The chain of the snapshot is a chain of known headers. *)
Lemma so_main sh : sync_ok sh -> main_ok (active_chain sh) sh.
Proof.
  intros Hok. destruct (so_index _ Hok) as [I1 I2 I3 I4 I5 I6]. split; rewrite I1; [|done|done].
  intros n hash Hn Hi. destruct (I4 n hash Hn Hi) as (h & Hh & ?). exists h. split; [|done].
  by apply (sync_ok_stored sh Hok).
Qed.
Lemma so_tip sh : sync_ok sh -> known (headers sh) (snap_tip_header (active_chain sh)).
Proof. intros Hok. apply (sync_ok_stored sh Hok), (so_index _ Hok). Qed.
Lemma sync_ok_ready sh : sync_ok sh -> sync_ready consensus (active_chain sh) sh.
Proof. intros Hok. split; [apply Hok|by apply so_main|apply Hok]. Qed.

(** A change of the state that leaves the headers. *)
Lemma sync_ok_state sh s :
  sync_ok sh -> header_map s = header_map (state sh) ->
  (forall hash st, block_status_map s !! hash = Some st -> BlockStatus_contains st HEADER_VALID = true ->
    is_Some (get_header_view sh hash)) ->
  known (headers sh) (inner (shared_best_header s)) ->
  map_Forall (fun _ => peer_ok (known (headers sh))) (peers s) ->
  sync_ok (with_state sh s).
Proof.
  intros [] Hmap Hst Hbest Hpeers.
  assert (get_header_view (with_state sh s) = get_header_view sh) as Hv by (by apply view_same).
  split; unfold genesis_ok; rewrite ?Hv; cbn; try done.
  - destruct so_tree0. by split; rewrite Hv.
  - rewrite Hmap. done.
Qed.

(** *** Changes of the status and of the peers *)

Lemma sync_ok_status sh hash st :
  sync_ok sh -> (BlockStatus_contains st HEADER_VALID = true -> is_Some (get_header_view sh hash)) ->
  sync_ok (on_state (fun s => insert_block_status s hash st) sh).
Proof.
  intros Hok Hst. apply sync_ok_state; [done..| |apply Hok|apply Hok]. intros h st'. cbn.
  rewrite lookup_insert_Some. intros [[<- <-]|[_ Hl]]; [done|by apply (so_status _ Hok h st')].
Qed.

Lemma sync_ok_peers sh ps :
  sync_ok sh -> map_Forall (fun _ => peer_ok (known (headers sh))) ps ->
  sync_ok (on_peers (fun _ => ps) sh).
Proof. intros Hok Hps. apply sync_ok_state; [done..|apply Hok|apply Hok|done]. Qed.

Lemma peers_alter K (f : PeerState -> PeerState) (ps : Peers) peer :
  (forall p, peer_ok K p -> peer_ok K (f p)) ->
  map_Forall (fun _ => peer_ok K) ps -> map_Forall (fun _ => peer_ok K) (alter f peer ps).
Proof.
  intros Hf Hps i p. rewrite lookup_alter_Some. intros [(-> & q & Hq & ->)|[_ Hp]]; [apply Hf|];
    by eapply Hps.
Qed.

Lemma better_known_ok (K : HeaderView -> Prop) v p : K (inner v) -> peer_ok K p -> peer_ok K (better_known v p).
Proof.
  intros Hv [H1 H2 H3 H4]. unfold better_known.
  destruct (best_known_header p) as [hv|] eqn:Hb; [case_match|]; split; cbn; try done.
  - by intros v' [= <-].
  - by rewrite Hb.
  - by intros v' [= <-].
Qed.

Lemma get_block_status_ok sh hash st sh' :
  sync_ok sh -> get_block_status (active_chain sh) sh hash = (st, sh') ->
  sync_ok sh' /\ (sh' = sh \/ sh' = on_state (fun s => insert_block_status s hash st) sh) /\
  (BlockStatus_contains st HEADER_VALID = true -> is_Some (get_header_view sh hash)).
Proof.
  intros Hok. unfold get_block_status. destruct (block_status_map (state sh) !! hash) as [st'|] eqn:Hs.
  { intros [= <- <-]. split_and!; [done|by left|]. by apply (so_status _ Hok). }
  rewrite (so_synced _ Hok). destruct (get_block_ext (store sh) hash) as [e|] eqn:He; cbn [fmap option_fmap option_map].
  - assert (is_Some (get_header_view sh hash)) as Hv.
    { unfold get_header_view. destruct (header_map (state sh) !! hash); [done|].
      destruct (proj2 (so_ext _ Hok hash)) as [h Hh]; [by rewrite He|]. rewrite Hh, He. done. }
    destruct (verified e) as [[]|]; intros [= <- <-]; (split_and!; [|eauto|done]); [|..|done];
      by apply sync_ok_status.
  - intros [= <- <-]. by split_and!; [|left|].
Qed.

(** ** Headers *)

(** What a handler that takes headers leaves and what it adds. *)
Record grows (sh sh' : Shared) : Prop := {
  gr_chain : chain sh' = chain sh;
  gr_scores : misbehavior_scores (state sh') = misbehavior_scores (state sh);
  gr_headers hash h : headers sh hash = Some h -> headers sh' hash = Some h;
  gr_best : view_total_difficulty (shared_best_header (state sh)) <=
    view_total_difficulty (shared_best_header (state sh'));
  gr_peers : dom (peers (state sh')) = dom (peers (state sh));
}.
#[export] Instance grows_preorder : PreOrder grows.
Proof.
  split; [by intros sh; split|]. intros x y z [] [].
  split; [congruence|congruence|auto|lia|congruence].
Qed.

(** No other header is new. *)
Definition adds_only (h : HeaderView) (sh sh' : Shared) : Prop := forall hash x,
  headers sh' hash = Some x -> x = h \/ headers sh hash = Some x.

Lemma grows_state sh s :
  header_map s = header_map (state sh) -> misbehavior_scores s = misbehavior_scores (state sh) ->
  shared_best_header s = shared_best_header (state sh) -> dom (peers s) = dom (peers (state sh)) ->
  grows sh (with_state sh s).
Proof.
  intros Hm Hs Hb Hp. split; cbn; [done|done| |by rewrite Hb|done].
  by rewrite (view_same sh (with_state sh s)).
Qed.

Lemma get_block_status_grows snap sh hash st sh' : get_block_status snap sh hash = (st, sh') -> grows sh sh'.
Proof.
  unfold get_block_status. repeat case_match; intros [= <- <-]; try done; by apply grows_state.
Qed.

(** The headers of a message carry their own hashes, so equal hashes are equal
    headers; their fields are within their widths. *)
Definition honest (sh : Shared) (hs : list HeaderView) : Prop := forall h x,
  h ∈ hs -> headers sh (header_hash h) = Some x \/ (x ∈ hs /\ header_hash x = header_hash h) -> x = h.
Definition header_typed (h : HeaderView) : Prop :=
  0 <= HeaderView_number h < 2 ^ 63 /\ is_u32 (compact_target (HeaderView_raw h)).

(** The work of the headers of a message. *)
Definition work (hs : list HeaderView) : Z :=
  foldr (fun h w => (match HeaderView_difficulty (E:=Error) h with Ok d => d | _ => 0 end) + w) 0 hs.
Definition work_below (sh : Shared) (t : Z) : Prop := forall hash v,
  get_header_view sh hash = Some v -> 0 <= view_total_difficulty v <= t.

(** A view joins the header map. *)
Definition put_view (v : SyncHeaderView) : Shared -> Shared :=
  on_state (fun s => insert_block_status (set_header_map s (<[view_hash v := v]> (header_map s)))
    (view_hash v) HEADER_VALID).

Lemma put_view_get sh v hash :
  get_header_view (put_view v sh) hash = if decide (hash = view_hash v) then Some v else get_header_view sh hash.
Proof.
  unfold get_header_view. cbn. destruct (decide (hash = view_hash v)) as [->|Hne];
    [by rewrite lookup_insert_eq|by rewrite lookup_insert_ne].
Qed.

Lemma put_view_ok sh v p :
  sync_ok sh -> honest sh [inner v] -> get_header_view sh (view_parent_hash v) = Some p ->
  view_number v = view_number p + 1 -> view_number v < 2 ^ 63 ->
  (exists k a, get_skip_height (E:=Error) (view_number v) = Ok k /\
    ancestor_at (headers sh) (inner p) k = Some a /\ 0 <= k <= view_number p /\
    skip_hash v = Some (header_hash a)) ->
  sync_ok (put_view v sh) /\ grows sh (put_view v sh) /\ known (headers (put_view v sh)) (inner v).
Proof.
  intros Hok Hhon Hp Hn Hw Hskip. pose proof (put_view_get sh v) as Hget.
  assert (forall w, get_header_view sh (view_hash v) = Some w -> inner w = inner v) as Hold.
  { intros w Hw'. apply Hhon; [by left|]. left. unfold headers_of. fold (view_hash v). by rewrite Hw'. }
  destruct (so_tree _ Hok) as [HL HV].
  pose proof (insert_headers _ _ _ Hget Hold) as Hgrow.
  pose proof (insert_linked _ _ _ _ HL Hget Hold Hp Hn Hw) as HL'.
  pose proof (parent_nonneg _ _ _ HL Hp) as Hp0.
  assert (known (headers (put_view v sh)) (inner v)) as Hkv.
  { unfold known, headers_of. fold (view_hash v). rewrite Hget. by rewrite decide_True. }
  split_and!; [|by split; cbn|done]. split; cbn [chain state put_view on_state with_state store].
  - split; [done|]. by eapply (insert_views (E:=Error) (get_header_view sh)).
  - intros h Hk Hn0. apply (so_genesis _ Hok); [|done].
    destruct (insert_headers_inv _ _ _ Hget _ _ Hk) as [[-> _]|?]; [|done].
    unfold view_number in *. lia.
  - apply Hok.
  - intros hash w h. cbn. rewrite lookup_insert_Some. intros [[<- <-]|[_ Hl]]; [|by apply (so_agree _ Hok)].
    intros Hh%(sync_ok_stored sh Hok). symmetry. apply Hhon; [by left|by left].
  - intros hash s. cbn. rewrite lookup_insert_Some. intros [[<- _]|[_ Hl]] Hs; rewrite Hget.
    + by rewrite decide_True.
    + destruct (decide (hash = view_hash v)); [done|]. by apply (so_status _ Hok hash s).
  - apply Hgrow, (so_best _ Hok).
  - eapply map_Forall_impl; [apply Hok|]. intros i q. apply peer_ok_mono. intros h. apply Hgrow.
Qed.

Lemma put_view_work sh v t t' :
  work_below sh t -> t <= t' -> 0 <= view_total_difficulty v <= t' -> work_below (put_view v sh) t'.
Proof.
  intros Hwork Ht Hv hash w. rewrite put_view_get. case_decide; [by intros [= <-]|].
  intros Hw%Hwork. lia.
Qed.

(** A better header becomes the best one. *)
Lemma set_best_ok sh v :
  sync_ok sh -> header_map (state sh) !! view_hash v = Some v ->
  exists s, (if is_better_than v (view_total_difficulty (shared_best_header (state sh)))
             then set_shared_best_header (state sh) v else Ok (E:=Error) (state sh)) = Ok s /\
    sync_ok (with_state sh s) /\ grows sh (with_state sh s) /\ header_map s = header_map (state sh).
Proof.
  intros Hok Hv. unfold is_better_than. case_match; reflect_bools.
  - unfold set_shared_best_header. rewrite decide_True by done. eexists. split_and!; [done| | |done].
    + apply sync_ok_state; [done..|apply Hok| |apply Hok]. unfold known, headers_of, get_header_view. cbn.
      fold (view_hash v). by rewrite Hv.
    + split; cbn; [done|done|by rewrite (view_same sh (with_state sh _))|lia|done].
  - eexists. split_and!; [done| |by apply grows_state|done]. by apply sync_ok_state; try apply Hok.
Qed.

(** The header of a peer. *)
Lemma header_received_ok sh peer v :
  sync_ok sh -> known (headers sh) (inner v) ->
  let sh' := on_peers (fun ps => new_header_received ps peer v) sh in sync_ok sh' /\ grows sh sh'.
Proof.
  intros Hok Hv. split; [|apply grows_state; [done..|apply dom_alter_L]].
  apply (sync_ok_peers sh (new_header_received (peers (state sh)) peer v)); [done|].
  apply peers_alter; [|apply Hok]. intros p. by apply better_known_ok.
Qed.

Context `{NS : !NumExtSpec H}.

Lemma insert_valid_header_Ok sh peer header parent t d :
  sync_ok sh -> header_typed header -> honest sh [header] ->
  known (headers sh) parent -> HeaderView_parent_hash header = header_hash parent ->
  HeaderView_number header = HeaderView_number parent + 1 ->
  work_below sh t -> HeaderView_difficulty (E:=Error) header = Ok d -> 0 <= d -> t + d < 2 ^ 256 ->
  exists sh', insert_valid_header sh peer header = Ok sh' /\ sync_ok sh' /\ grows sh sh' /\
    known (headers sh') header /\ adds_only header sh sh' /\ work_below sh' (t + d).
Proof.
  intros Hok [Hty _] Hhon Hpar Hph Hn Hwork Hd Hd0 Hfit. unfold insert_valid_header.
  destruct (so_tree _ Hok) as [HL HV].
  destruct (view_of_header _ _ Hpar) as (p & Hp & Hip). rewrite Hph, Hp. step. rewrite Hd. step.
  pose proof (Hwork _ _ Hp) as Hpw. rewrite u256_add_Ok by lia. step.
  set (w := SyncHeaderView_new header (view_total_difficulty p + d)).
  pose proof (ln_number _ HL _ _ Hpar) as Hpn.
  destruct (build_skip_Ok (E:=Error) (get_header_view sh) (main_chain_scanner (active_chain sh) sh) HL HV
    ltac:(apply scanner_main; [done|by apply so_main]) w p) as (k & a & Hk & Ha & Hkp & Hb).
  { unfold view_number. cbn. lia. }
  { unfold view_parent_hash. cbn. by rewrite Hph. }
  { unfold view_number. cbn. by rewrite Hip. }
  unfold active_chain in Hb. rewrite Hb. step. set (v := mkSyncHeaderView _ _ _).
  destruct (put_view_ok sh v p) as (Hok1 & Hg1 & Hk1); [done..| | | |by exists k, a|].
  { unfold view_parent_hash. cbn. by rewrite Hph. }
  { unfold view_number. cbn. by rewrite Hip. }
  { unfold view_number. cbn. lia. }
  destruct (set_best_ok (put_view v sh) v Hok1) as (s & Hs & Hok2 & Hg2 & Hm2).
  { cbn. by rewrite lookup_insert_eq. }
  exists (on_peers (fun ps => new_header_received ps peer v) (with_state sh s)).
  destruct (header_received_ok (with_state sh s) peer v) as [Hok3 Hg3]; [done|by apply Hg2|].
  split_and!; [|done|by do 2 (etrans; [eassumption|])|by apply Hg3, Hg2| |].
  - transitivity (s ← Ok s; Ok (E:=Error) (with_state sh (set_peers s (new_header_received (peers s) peer v))));
      [|done]. f_equal. exact Hs.
  - intros hash x. rewrite (view_same (put_view v sh)) by done.
    intros [[-> _]|Hx]%(insert_headers_inv _ _ _ (put_view_get sh v)); [by left|by right].
  - intros hash x. rewrite (view_same (put_view v sh)) by done.
    apply (put_view_work _ _ t); [done|lia|]. cbn. lia.
Qed.

(** *** Verification *)

Lemma resolver_ancestors sh n h :
  sync_ok sh -> known (headers sh) h -> has_ancestors (VerifierResolver consensus sh) n (header_hash h).
Proof.
  intros Hok. revert h. induction n as [|n IH]; intros h Hk; [done|]. cbn [has_ancestors].
  exists (HeaderView_timestamp h), (HeaderView_number h), (HeaderView_parent_hash h).
  cbn [timestamp_and_parent VerifierResolver]. rewrite (get_header_headers _ _ Hok), Hk. split; [done|].
  pose proof (tr_linked _ (so_tree _ Hok)) as HL. pose proof (ln_number _ HL _ _ Hk).
  destruct (decide (HeaderView_number h = 0)); [by left|right].
  destruct (ln_parent _ HL _ _ Hk) as (p & Hp & _); [lia|]. rewrite <- (ln_hash _ HL _ _ Hp).
  apply IH. by eapply known_get.
Qed.

(** The parent that a header is verified against. *)
Definition parent_of (sh : Shared) (header : HeaderView) (parent : option HeaderView) : Prop :=
  forall p, parent = Some p -> known (headers sh) p /\ HeaderView_parent_hash header = header_hash p.

Context (Hcount : (0 < median_time_block_count consensus)%nat).

Lemma verify_cases sh now header parent :
  sync_ok sh -> is_u64 (now + ALLOWED_FUTURE_BLOCKTIME) -> parent_of sh header parent ->
  (exists e, HeaderVerifier_verify consensus (VerifierResolver consensus sh) now header parent = Err e) \/
  (HeaderVerifier_verify consensus (VerifierResolver consensus sh) now header parent = Ok tt /\
   exists p, parent = Some p /\ HeaderView_number header = HeaderView_number p + 1).
Proof.
  intros Hok Hnow Hpar. unfold HeaderVerifier_verify, VersionVerifier_verify, PowVerifier_verify.
  destruct (negb _); step; [by left; eexists|]. destruct (pow_engine_verify _ _); step; [|by left; eexists].
  destruct parent as [p|]; step; [|by left; eexists]. destruct (Hpar p eq_refl) as [Hk Hph].
  pose proof (ln_number _ (tr_linked _ (so_tree _ Hok)) _ _ Hk) as Hn.
  unfold NumberVerifier_verify, u64_add. rewrite fit_in_range by zlia. step.
  destruct (Z.eqb_spec (HeaderView_number header) (HeaderView_number p + 1)) as [Heq|]; cbn [negb]; step;
    [|by left; eexists].
  unfold TimestampVerifier_verify, HeaderView_is_genesis. rewrite (proj2 (Z.eqb_neq _ _)) by lia. rewrite Hph.
  destruct (median_timestamps_Ok (VerifierResolver consensus sh) (median_time_block_count consensus)
    (header_hash p)) as (ts & Hts & Hl & Hl0); [by apply resolver_ancestors|]. specialize (Hl0 Hcount).
  unfold block_median_time. cbn [median_block_count VerifierResolver]. rewrite Hts. step.
  destruct (lookup_lt_is_Some_2 (merge_sort Z.le ts) (length (merge_sort Z.le ts) / 2)) as [m ->].
  { rewrite (Permutation_length (merge_sort_Permutation Z.le ts)). apply Nat.div_lt; lia. }
  step. case_match; [by left; eexists|]. unfold u64_add. rewrite fit_in_range by done. step.
  case_match; [by left; eexists|]. right. eauto.
Qed.

Lemma not_header_valid_invalid : BlockStatus_contains BLOCK_INVALID HEADER_VALID = false.
Proof. done. Qed.

Lemma mark_invalid_ok sh header : sync_ok sh ->
  sync_ok (mark_invalid_header sh header) /\ grows sh (mark_invalid_header sh header).
Proof.
  intros Hok. split; [by apply sync_ok_status; [|rewrite not_header_valid_invalid]|by apply grows_state].
Qed.

Lemma refused_invalid e : vr_is_valid (refused_header e) = false /\ 0 <= vr_misbehavior (refused_header e) <= 100.
Proof. unfold refused_header. repeat case_match; cbn; split; lia || done. Qed.

(** What the acceptor gives: the header is refused with a score, or it is known
    now and the work of the tree grew by no more than its difficulty. *)
Lemma HeaderAcceptor_accept_Ok sh now peer header parent t d :
  sync_ok sh -> is_u64 (now + ALLOWED_FUTURE_BLOCKTIME) -> parent_of sh header parent ->
  header_typed header -> honest sh [header] -> work_below sh t ->
  HeaderView_difficulty (E:=Error) header = Ok d -> 0 <= d -> t + d < 2 ^ 256 ->
  exists r sh', HeaderAcceptor_accept consensus (active_chain sh) sh now peer header parent = Ok (r, sh') /\
    sync_ok sh' /\ grows sh sh' /\ adds_only header sh sh' /\
    (if vr_is_valid r then known (headers sh') header /\ work_below sh' (t + d)
     else 0 <= vr_misbehavior r <= 100).
Proof.
  intros Hok Hnow Hpar Hty Hhon Hwork Hd Hd0 Hfit. unfold HeaderAcceptor_accept, contains_block_status.
  assert (forall sh', get_header_view sh' = get_header_view sh -> adds_only header sh sh') as Hsame
    by (intros sh' Heq hash x Hx; right; by rewrite <- Heq).
  destruct (get_block_status _ sh (header_hash header)) as [st sh1] eqn:H1.
  pose proof (get_block_status_grows _ _ _ _ _ H1) as Hg1.
  apply get_block_status_ok in H1 as (Hok1 & Hsh1 & Hv1); [|done].
  assert (get_header_view sh1 = get_header_view sh) as Hgv1 by (destruct Hsh1 as [->| ->]; by apply view_same).
  assert (active_chain sh1 = active_chain sh) as Hac1 by (unfold active_chain; by rewrite (gr_chain _ _ Hg1)).
  destruct (BlockStatus_contains st HEADER_VALID) eqn:Hst.
  { destruct (Hv1 eq_refl) as [v Hv]. rewrite Hgv1, Hv. step.
    pose proof (view_get _ (tr_linked _ (so_tree _ Hok)) _ _ Hv) as Hvh.
    assert (inner v = header) as Hiv.
    { apply Hhon; [by left|]. left. unfold headers_of. by rewrite Hv. }
    assert (known (headers sh1) header) as Hk.
    { unfold known, headers_of. rewrite Hgv1, Hv. cbn. by rewrite Hiv. }
    destruct (header_received_ok sh1 peer v Hok1) as [Hok2 Hg2]; [by rewrite Hiv|].
    eexists _, _. split; [done|]. split_and!; [done|by etrans|by apply Hsame|]. split; [by apply Hg2|].
    intros hash w Hw. rewrite (view_same sh1), Hgv1 in Hw by done. specialize (Hwork _ _ Hw). lia. }
  rewrite <- Hac1. destruct (get_block_status _ sh1 (HeaderView_parent_hash header)) as [st2 sh2] eqn:H2.
  pose proof (get_block_status_grows _ _ _ _ _ H2) as Hg2.
  apply get_block_status_ok in H2 as (Hok2 & Hsh2 & _); [|done].
  assert (get_header_view sh2 = get_header_view sh) as Hgv2
    by (rewrite <- Hgv1; destruct Hsh2 as [->| ->]; by apply view_same).
  assert (grows sh sh2) as Hg by (by etrans).
  destruct (BlockStatus_contains st2 BLOCK_INVALID).
  { destruct (mark_invalid_ok sh2 header Hok2) as [Hok3 Hg3]. eexists _, _. split; [done|].
    split_and!; [done|by etrans|by apply Hsame|]. cbn. lia. }
  assert (parent_of sh2 header parent) as Hpar2 by (unfold parent_of; by rewrite Hgv2).
  destruct (verify_cases sh2 now header parent Hok2 Hnow Hpar2) as [[e ->]|[-> (p & -> & Hn)]].
  { destruct (mark_invalid_ok sh2 header Hok2) as [Hok3 Hg3]. eexists _, _. split; [done|].
    destruct (refused_invalid e) as [-> ?]. split_and!; [done|by etrans|by apply Hsame|lia|lia]. }
  case_match.
  { destruct (mark_invalid_ok sh2 header Hok2) as [Hok3 Hg3]. eexists _, _. split; [done|].
    split_and!; [done|by etrans|by apply Hsame|]. cbn. lia. }
  destruct (Hpar2 p eq_refl) as [Hkp Hph].
  destruct (insert_valid_header_Ok sh2 peer header p t d) as (sh3 & -> & Hok3 & Hg3 & Hk3 & Ha3 & Hw3); try done.
  { unfold honest. by rewrite Hgv2. }
  { intros hash v. rewrite Hgv2. apply Hwork. }
  step. eexists _, _. split; [done|]. split_and!; [done|by etrans| |done].
  intros hash x Hx%Ha3. by rewrite <- Hgv2.
Qed.

(** *** A message *)

Lemma header_work h : header_typed h ->
  exists d, HeaderView_difficulty (E:=Error) h = Ok d /\ 0 <= d.
Proof. intros [_ (d & Hd & Hd0 & _)%(compact_to_difficulty_Ok (E:=Error))]. by exists d. Qed.

Lemma work_cons h hs d : HeaderView_difficulty (E:=Error) h = Ok d -> work (h :: hs) = d + work hs.
Proof. unfold work. cbn [foldr]. by intros ->. Qed.

Lemma work_nonneg hs : Forall header_typed hs -> 0 <= work hs.
Proof.
  induction 1 as [|h hs Hh _ IH]; [done|]. destruct (header_work h Hh) as (d & Hd & ?).
  rewrite (work_cons _ _ _ Hd). lia.
Qed.

(** The score of a peer has room for one more misbehavior. *)
Definition score_ok (sh : Shared) (peer : PeerIndex) : Prop := forall score,
  misbehavior_scores (state sh) !! peer = Some score -> 0 <= score < 2 ^ 32 - 100.

Lemma punish_peer_ok sh peer score :
  sync_ok sh -> score_ok sh peer -> 0 <= score <= 100 ->
  exists sh', punish_peer sh peer score = Ok sh' /\ sync_ok sh' /\ chain sh' = chain sh /\
    get_header_view sh' = get_header_view sh /\ peers (state sh') = peers (state sh) /\
    shared_best_header (state sh') = shared_best_header (state sh).
Proof.
  intros Hok Hscore Hs. unfold punish_peer, misbehavior.
  assert (forall m, sync_ok (with_state sh (set_misbehavior (state sh) m))) as Hset
    by (intros m; by apply sync_ok_state; try apply Hok).
  destruct (score =? 0); step; [exists (with_state sh (state sh)); by destruct sh|].
  destruct (misbehavior_scores (state sh) !! peer) as [old|] eqn:Hold.
  - specialize (Hscore old Hold). rewrite fit_in_range by zlia. step. eexists. by split_and!.
  - eexists. by split_and!.
Qed.

Lemma honest_grows sh sh' h hs : honest sh (h :: hs) -> adds_only h sh sh' -> linked (headers sh') -> honest sh' hs.
Proof.
  intros Hhon Hadds HL y x Hy Hx. apply Hhon; [by right|]. destruct Hx as [Hx|[Hx Hxy]].
  - destruct (Hadds _ _ Hx) as [->|?]; [|by left]. right. split; [by left|]. by apply (ln_hash _ HL).
  - right. split; [by right|done].
Qed.

Lemma accept_headers_Ok sh now peer parent hs t :
  sync_ok sh -> is_u64 (now + ALLOWED_FUTURE_BLOCKTIME) ->
  (forall h, head hs = Some h -> parent_of sh h parent) -> is_continuous hs = true ->
  Forall header_typed hs -> honest sh hs -> work_below sh t -> t + work hs < 2 ^ 256 -> score_ok sh peer ->
  exists b sh', accept_headers consensus (active_chain sh) sh now peer parent hs = Ok (b, sh') /\ sync_ok sh' /\
    chain sh' = chain sh /\ dom (peers (state sh')) = dom (peers (state sh)) /\
    (forall hash h, headers sh hash = Some h -> headers sh' hash = Some h) /\
    view_total_difficulty (shared_best_header (state sh)) <= view_total_difficulty (shared_best_header (state sh')) /\
    (b = true -> Forall (known (headers sh')) hs).
Proof.
  revert sh parent t. induction hs as [|h hs IH]; intros sh parent t Hok Hnow Hpar Hcont Hty Hhon Hwork Hfit Hscore.
  { exists true, sh. by split_and!. }
  apply Forall_cons in Hty as [Hh Hty]. destruct (header_work h Hh) as (d & Hd & Hd0).
  pose proof (work_nonneg hs Hty) as Hw0. rewrite (work_cons _ _ _ Hd) in Hfit.
  destruct (HeaderAcceptor_accept_Ok sh now peer h parent t d) as (r & sh1 & Hacc & Hok1 & Hg1 & Ha1 & Hr);
    [done|done|by apply Hpar|done| |done|done|done|lia|].
  { intros y x Hy Hx. apply Hhon; set_solver. }
  cbn [accept_headers]. rewrite Hacc. step. pose proof (tr_linked _ (so_tree _ Hok1)) as HL1.
  assert (score_ok sh1 peer) as Hscore1 by (unfold score_ok; by rewrite (gr_scores _ _ Hg1)).
  destruct (vr_is_valid r).
  - destruct Hr as [Hk1 Hw1].
    destruct (IH sh1 (Some h) (t + d)) as (b & sh2 & Hacc2 & Hok2 & Hc2 & Hp2 & Hg2 & Hb2 & Hall);
      [done|done| | |done|by eapply honest_grows|done|lia|done|].
    { intros y Hy p [= <-]. split; [done|]. destruct hs; [done|]. injection Hy as ->.
      cbn in Hcont. by reflect_bools. }
    { destruct hs; [done|]. cbn in Hcont. by reflect_bools. }
    exists b, sh2. unfold active_chain in *. rewrite (gr_chain _ _ Hg1) in *. destruct Hg1.
    split_and!; [done|done|congruence|congruence|auto|lia|].
    intros Hb. constructor; [by apply Hg2|auto].
  - assert (exists sh2, (if 0 <? vr_misbehavior r then punish_peer sh1 peer (vr_misbehavior r) else Ok sh1) = Ok sh2 /\
      sync_ok sh2 /\ chain sh2 = chain sh1 /\ get_header_view sh2 = get_header_view sh1 /\
      peers (state sh2) = peers (state sh1) /\ shared_best_header (state sh2) = shared_best_header (state sh1))
      as (sh2 & -> & Hok2 & Hc2 & Hv2 & Hp2 & Hb2).
    { case_match; [by apply punish_peer_ok|]. by exists sh1. }
    step. exists false, sh2. destruct Hg1. rewrite Hc2, Hv2, Hp2, Hb2. by split_and!.
Qed.

(** A request for headers from a known header. *)
Lemma send_getheaders_Ok sh now peer header :
  sync_ok sh -> known (headers sh) header ->
  exists s sent, send_getheaders_to_peer consensus (active_chain sh) sh now peer header = Ok (with_state sh s, sent) /\
    sync_ok (with_state sh s) /\ header_map s = header_map (state sh) /\
    shared_best_header s = shared_best_header (state sh) /\ peers s = peers (state sh) /\
    block_status_map s = block_status_map (state sh) /\ n_sync_started s = n_sync_started (state sh) /\
    n_protected_outbound_peers s = n_protected_outbound_peers (state sh).
Proof.
  intros Hok Hk. unfold send_getheaders_to_peer.
  assert (forall m, sync_ok (with_state sh (set_pending_headers (state sh) m))) as Hset
    by (intros m; by apply sync_ok_state; try apply Hok).
  destruct (request_get_refresh _ _) as [last_time cache]. cbn [state with_state]. case_match.
  { eexists _, _. by split_and!. }
  set (s := set_pending_headers (state sh)
    (request_insert (pending_get_headers (set_pending_headers (state sh) cache)) (peer, header_hash header) now)).
  specialize (Hset (pending_get_headers s)).
  change (sync_ok (with_state sh s)) in Hset. destruct (so_tree _ Hset) as [HL HV].
  assert (known (headers (with_state sh s)) header) as Hk'.
  { unfold known. by rewrite (view_same sh). }
  pose proof (ln_number _ HL _ _ Hk') as Hn.
  destruct (locator_loop_Ok (active_chain sh) (with_state sh s) (so_tree _ Hset) (so_main _ Hset) consensus
    (so_genesis _ Hset) (S (Z.to_nat (HeaderView_number header))) (HeaderView_number header) header [])
    as (l & Hl & _); [done|lia|lia|cbn; lia|].
  match goal with |- context [get_locator _ _ ?x _] => change x with (with_state sh s) end.
  change (get_locator consensus (active_chain sh) (with_state sh s) header = Ok ([] ++ (header_hash <$> l))) in Hl.
  rewrite Hl. step. eexists _, _. by split_and!.
Qed.

Lemma initial_download_ok snap sh now b sh' :
  sync_ok sh -> is_initial_block_download snap sh now = (b, sh') ->
  sync_ok sh' /\ exists s, sh' = with_state sh s /\ header_map s = header_map (state sh) /\
    shared_best_header s = shared_best_header (state sh) /\ peers s = peers (state sh).
Proof.
  intros Hok. unfold is_initial_block_download. destruct sh as [c s0].
  repeat case_match; intros [= <- <-]; (split; [|by eexists]); [done|done|].
  by apply (sync_ok_state (mkSyncShared c s0)); try apply Hok.
Qed.

Lemma headers_accepted_Ok send_ok sh now peer hs :
  sync_ok sh -> hs <> [] -> Forall (known (headers sh)) hs ->
  exists status sh' sent, headers_accepted consensus send_ok (active_chain sh) sh now peer hs = Ok (status, sh', sent) /\
    sync_ok sh' /\ chain sh' = chain sh /\ get_header_view sh' = get_header_view sh /\
    peers (state sh') = peers (state sh) /\ shared_best_header (state sh') = shared_best_header (state sh).
Proof.
  intros Hok Hne Hall. destruct (last hs) as [start|] eqn:Hl; [|by apply last_None in Hl].
  rewrite Forall_forall in Hall. apply last_Some_elem_of in Hl as Hin. specialize (Hall _ Hin).
  assert (exists s sent, (if Z.of_nat (length hs) =? MAX_HEADERS_LEN
      then start ← expect (last hs); send_getheaders_to_peer consensus (active_chain sh) sh now peer start
      else Ok (sh, [])) = Ok (with_state sh s, sent) /\
    sync_ok (with_state sh s) /\ header_map s = header_map (state sh) /\
    shared_best_header s = shared_best_header (state sh) /\ peers s = peers (state sh))
    as (s & sent & Hs & Hok1 & Hm1 & Hb1 & Hp1).
  { rewrite Hl. step. case_match.
    - destruct (send_getheaders_Ok sh now peer start Hok Hall) as (s & sent & -> & ? & ? & ? & ? & _).
      by exists s, sent.
    - exists (state sh), []. by destruct sh. }
  unfold headers_accepted. rewrite Hs. step. destruct (is_initial_block_download _ _ _) as [ibd sh2] eqn:Hibd.
  apply initial_download_ok in Hibd as (Hok2 & s2 & -> & Hm2 & Hb2 & Hp2); [|done].
  change (with_state (with_state sh s) s2) with (with_state sh s2) in *. cbn in Hm2, Hb2, Hp2.
  destruct (ibd && _ && _ && _ && _); (eexists _, _, _; split; [done|]); (split_and!; [done|done| | |]); cbn; try congruence;
    apply view_same; cbn; congruence.
Qed.

(** The empty message resets a timeout. *)
Lemma reset_timeout_ok sh peer p :
  sync_ok sh -> peers (state sh) !! peer = Some p ->
  sync_ok (on_peers (insert peer (set_sync p (sync_started p) None)) sh).
Proof.
  intros Hok Hp. apply (sync_ok_peers sh (insert peer _ (peers (state sh)))); [done|].
  apply map_Forall_insert_2; [|apply Hok]. by destruct (so_peers _ Hok peer p Hp).
Qed.

(** A handler that takes headers: it returns, the invariant holds, the chain and
    the connections are the same, no header is lost and the best one is at least
    as good. *)
Definition headers_step (sh : Shared) (r : outcome Error (StatusCode * Shared * list SyncAction)) : Prop :=
  exists status sh' sent, r = Ok (status, sh', sent) /\ sync_ok sh' /\
    chain sh' = chain sh /\ dom (peers (state sh')) = dom (peers (state sh)) /\
    (forall hash h, headers sh hash = Some h -> headers sh' hash = Some h) /\
    view_total_difficulty (shared_best_header (state sh)) <= view_total_difficulty (shared_best_header (state sh')).

Lemma headers_process_Ok send_ok sh now peer hs t :
  sync_ok sh -> is_Some (peers (state sh) !! peer) -> is_u64 (now + ALLOWED_FUTURE_BLOCKTIME) ->
  Forall header_typed hs -> honest sh hs -> work_below sh t -> t + work hs < 2 ^ 256 -> score_ok sh peer ->
  headers_step sh (HeadersProcess_execute consensus send_ok sh now peer hs).
Proof.
  intros Hok [p Hp] Hnow Hty Hhon Hwork Hfit Hscore. unfold HeadersProcess_execute.
  assert (headers_step sh (sh1 ← punish_peer sh peer 20; Ok (StatusOK, sh1, []))) as Hpunish.
  { destruct (punish_peer_ok sh peer 20) as (sh1 & -> & Hok1 & Hc1 & Hv1 & Hp1 & Hb1); [done|done|lia|]. step.
    eexists _, sh1, _. split; [done|]. by rewrite Hv1, Hp1, Hb1. }
  case_match; [exact Hpunish|]. destruct hs as [|first hs].
  { rewrite Hp. step. eexists _, _, _. split; [done|]. split_and!; [by apply reset_timeout_ok|done| |done|done].
    cbn. rewrite dom_insert_L. apply elem_of_dom_2 in Hp. set_solver. }
  case_match eqn:Hcont; [exact Hpunish|]. apply negb_false_iff in Hcont.
  destruct (accept_headers_Ok sh now peer (get_header sh (HeaderView_parent_hash first)) (first :: hs) t)
    as (b & sh1 & -> & Hok1 & Hc1 & Hp1 & Hg1 & Hb1 & Hall); try done.
  { intros h [= <-] q Hq. rewrite (get_header_headers _ _ Hok) in Hq.
    pose proof (tr_linked _ (so_tree _ Hok)) as HL. split; [by eapply known_get|].
    symmetry. by apply (ln_hash _ HL). }
  step. destruct b; [|eexists _, sh1, _; split; [done|]; by split_and!].
  destruct (headers_accepted_Ok send_ok sh1 now peer (first :: hs)) as (st & sh2 & sent & Hh2 & Hok2 & Hc2 & Hv2 & Hp2 & Hb2);
    [done|done|auto|].
  unfold active_chain in *. rewrite Hc1 in Hh2. rewrite Hh2. exists st, sh2, sent. split; [done|].
  rewrite Hc2, Hp2, Hv2, Hb2. by split_and!.
Qed.
End invariant.
