(* ===== verification/SyncBlocks.v ===== *)
(** * Blocks arrive: src/sync/src/types.rs, src/sync/src/synchronizer/block_process.rs

    What [accept_block], [insert_new_block] and the search of the orphan pool do
    to the invariant of the synchronizer: the tree of headers stays as it is,
    the orphans that wait for a block are taken when it comes, and a block that
    is released is stored, refused or dropped with its branch. *)

From S2P Require Import Prelude Capacity NumExt Difficulty Types Errors Epoch Cell Consensus Hashes Store.
From S2P Require Import TransactionVerifier ChainCell Chain Reorg ChainIndex SortedTxMap.
From S2P Require Import SkipList OrphanBlockPool InflightBlocks SyncState SyncShared ActiveChain Synchronizer.
From S2P Require Import SyncInvariant.

(** The same headers, the same ancestors. *)
Lemma up_ext f g n h : (forall hash, f hash = g hash) -> up f n h = up g n h.
Proof.
  intros Hfg. revert h. induction n as [|n IH]; intros h; [done|]. cbn [up]. rewrite Hfg.
  destruct (g _); [apply IH|done].
Qed.
Lemma linked_ext f g : (forall hash, g hash = f hash) -> linked f -> linked g.
Proof.
  intros Hfg [L1 L2 L3]. split; intros hash h Hh; rewrite Hfg in Hh; [by apply L1|by eapply L2|].
  intros Hn. rewrite Hfg. by apply (L3 hash).
Qed.

Section blocks.
Context `{NumExt} `{Hasher} {C : Type} `{P : !ChainPort C} `{PS : !ChainPortSpec P} `{RC : RequestCache}.
Context `{MO : !MapOrder Byte32 (PeerIndex * BlockView)} `{MS : !MapOrderSpec Byte32 (PeerIndex * BlockView) MO}.
Context (consensus : Consensus).

Abbreviation Shared := (SyncShared (C:=C)).
Abbreviation headers sh := (headers_of (get_header_view sh)).

Lemma view_is_Some (sh : Shared) hash : is_Some (get_header_view sh hash) <-> is_Some (headers sh hash).
Proof. unfold headers_of. by rewrite fmap_is_Some. Qed.

(** A change that leaves the headers, though not the views of those that are
    stored now. *)
Lemma sync_ok_headers (sh sh' : Shared) :
  sync_ok consensus sh -> (forall hash, headers sh' hash = headers sh hash) -> port_inv (chain sh') ->
  (forall hash v, get_header_view sh' hash = Some v -> skip_hash v = None \/ get_header_view sh hash = Some v) ->
  (forall hash v h, header_map (state sh') !! hash = Some v ->
    get_block_header (store sh') hash = Some h -> inner v = h) ->
  (forall hash st, block_status_map (state sh') !! hash = Some st ->
    BlockStatus_contains st HEADER_VALID = true -> is_Some (headers sh hash)) ->
  shared_best_header (state sh') = shared_best_header (state sh) ->
  map_Forall (fun _ => peer_ok (known (headers sh))) (peers (state sh')) ->
  sync_ok consensus sh'.
Proof.
  intros Hok Heq Hinv Hviews Hagree Hst Hbest Hpeers.
  assert (forall h, known (headers sh) h <-> known (headers sh') h) as Hk by (intros h; unfold known; by rewrite Heq).
  split.
  - split; [by eapply linked_ext, Hok|]. intros hash v Hv s Hs Hn.
    destruct (Hviews hash v Hv) as [Hnone|Hold]; [congruence|].
    destruct (tr_views _ (so_tree _ _ Hok) _ _ Hold s Hs Hn) as (k & a & Hk' & Ha & Hh).
    exists k, a. split_and!; [done| |done]. unfold ancestor_at. rewrite (up_ext _ (headers sh)); [exact Ha|done].
  - intros h Hkh. apply (so_genesis _ _ Hok). by apply Hk.
  - done.
  - done.
  - intros hash st Hs Hc. apply view_is_Some. rewrite Heq. by eapply Hst.
  - rewrite Hbest. apply Hk, (so_best _ _ Hok).
  - eapply map_Forall_impl; [exact Hpeers|]. intros i p. apply peer_ok_mono. intros h. apply Hk.
Qed.

(** A block of a message: the view of its parts, with a header that is known. *)
Record block_known (sh : Shared) (b : BlockView) : Prop := {
  bk_view : BlockView_new_unchecked (BlockView_header b) (BlockView_uncles b)
    (BlockView_transactions b) (block_proposals (block_data b)) = b;
  bk_header : known (headers sh) (BlockView_header b);
}.

Lemma block_insertable sh b :
  sync_ok consensus sh -> block_known sh b -> is_parent_stored sh b = true ->
  is_Some (col_header (store sh) !! block_hash b) \/ insertable (store sh) b.
Proof.
  intros Hok [Hv Hk] Hp. unfold is_parent_stored in Hp. reflect_bools.
  match goal with Hs : is_Some _ |- _ => destruct Hs as [p Hp] end.
  pose proof (tr_linked _ (so_tree _ _ Hok)) as HL. pose proof (ln_number _ HL _ _ Hk) as Hn.
  change (HeaderView_number (BlockView_header b)) with (BlockView_number b) in Hn.
  destruct (decide (BlockView_number b = 0)) as [H0n|Hne].
  - left. pose proof (so_genesis _ _ Hok _ Hk H0n) as Hg.
    change (header_hash (BlockView_header b)) with (block_hash b) in Hg. rewrite Hg.
    pose proof (so_index _ _ Hok) as Hi.
    pose proof (ln_number _ HL _ _ (so_tip _ _ Hok)) as Ht.
    destruct (proj2 (ix_height _ _ Hi 0 ltac:(lia)) ltac:(lia)) as [g Hgh].
    destruct (ix_index _ _ Hi 0 g ltac:(lia) Hgh) as (h & Hh & Hhn & _).
    pose proof (sync_ok_stored _ _ Hok _ _ Hh) as Hhk.
    pose proof (so_genesis _ _ Hok h ltac:(by eapply known_get) Hhn) as Hhg.
    rewrite <- Hhg, (ln_hash _ HL _ _ Hhk). unfold get_block_header in Hh. by rewrite Hh.
  - right. split; [done| |lia]. exists p. split; [done|].
    destruct (ln_parent _ HL _ _ Hk) as (q & Hq & Hqn); [change (0 < BlockView_number b); lia|].
    change (HeaderView_parent_hash (BlockView_header b)) with (block_parent b) in Hq.
    rewrite (sync_ok_stored _ _ Hok _ _ Hp) in Hq. by injection Hq as <-.
Qed.

Lemma peers_last_common K (ps : Peers) peer h :
  (K h : Prop) -> map_Forall (fun _ => peer_ok K) ps -> map_Forall (fun _ => peer_ok K) (set_last_common_header ps peer h).
Proof.
  intros Hh. apply peers_alter. intros p [P1 P2 P3 P4]. split; cbn; try done. by intros h' [= <-].
Qed.

(** *** One block *)

(** What [accept_block] does with a block, [r] its answer. *)
Record accepted (sh : Shared) (b : BlockView) (r : block_result) (sh' : Shared) : Prop := {
  ac_ok : sync_ok consensus sh';
  ac_headers hash : headers sh' hash = headers sh hash;
  ac_orphans : orphan_block_pool (state sh') = orphan_block_pool (state sh);
  ac_stored hash : is_Some (get_block_header (store sh') hash) <->
    is_Some (get_block_header (store sh) hash) \/ (hash = block_hash b /\ exists x, r = inl x);
  ac_invalid : (exists e, r = inr e) -> block_status_map (state sh') !! block_hash b = Some BLOCK_INVALID;
  ac_status hash : hash <> block_hash b ->
    block_status_map (state sh') !! hash = block_status_map (state sh) !! hash;
}.

Lemma refused_accepted sh now b e c :
  sync_ok consensus sh -> block_known sh b -> is_parent_stored sh b = true ->
  port_process (chain sh) now b = (Err e, c) ->
  accepted sh b (inr e) (mkSyncShared c (insert_block_status (state sh) (block_hash b) BLOCK_INVALID)).
Proof.
  intros Hok Hb Hp Hc. pose proof (port_refuses _ _ _ _ _ Hc) as Hst.
  set (sh' := mkSyncShared c _).
  assert (get_header_view sh' = get_header_view sh) as Hv by (unfold get_header_view, store; cbn; by rewrite Hst).
  assert (port_inv c) as Hinv.
  { eapply port_keeps; [apply Hok|by apply (block_insertable sh)|exact Hc|done]. }
  split; unfold store; cbn; try rewrite Hst; [|by rewrite Hv|done| | |].
  - apply (sync_ok_headers sh); [done|by rewrite Hv|done|rewrite Hv; by right| | |done|apply Hok].
    + intros hash v h. unfold store. cbn. rewrite Hst. apply (so_agree _ _ Hok).
    + intros hash st. cbn. rewrite lookup_insert_Some. intros [[_ <-]|[_ Hs]] Hcont; [done|].
      apply view_is_Some. by apply (so_status _ _ Hok hash st).
  - intros hash. split; [by left|]. intros [?|[_ [x ?]]]; done.
  - intros _. apply lookup_insert_eq.
  - intros hash Hne. by apply lookup_insert_ne.
Qed.

Lemma stored_accepted sh now peer b r c :
  sync_ok consensus sh -> block_known sh b -> is_parent_stored sh b = true ->
  port_process (chain sh) now b = (Ok r, c) ->
  let s := remove_header_view (remove_block_status (state sh) (block_hash b)) (block_hash b) in
  accepted sh b (inl r)
    (mkSyncShared c (set_peers s (set_last_common_header (peers s) peer (BlockView_header b)))).
Proof.
  intros Hok Hb Hp Hc s. set (sh' := mkSyncShared c _).
  assert (port_inv c) as Hinv.
  { eapply port_keeps; [apply Hok|by apply (block_insertable sh)|exact Hc|done]. }
  pose proof (bk_header _ _ Hb) as Hk. pose proof (so_index _ _ Hok) as Hi.
  assert (index_ok (port_store c) (port_snapshot c)) as Hi' by (by apply port_index).
  assert (forall hash, get_block_header (port_store c) hash =
    if decide (hash = block_hash b) then Some (BlockView_header b) else get_block_header (store sh) hash) as Hh.
  { intros hash. unfold get_block_header. destruct (port_accepts _ _ _ _ _ Hc) as [[[x Hx] ->]|[_ ->]].
    - case_decide; [subst|done]. unfold store. rewrite Hx. f_equal.
      pose proof (sync_ok_stored _ _ Hok _ _ Hx) as Hx'. unfold known in Hk.
      change (header_hash (BlockView_header b)) with (block_hash b) in Hk. congruence.
    - case_decide; [subst; apply lookup_insert_eq|by apply lookup_insert_ne]. }
  assert (forall hash, headers sh' hash = headers sh hash) as Heq.
  { intros hash. unfold headers_of, get_header_view. change (store sh') with (port_store c). cbn. rewrite Hh.
    destruct (decide (hash = block_hash b)) as [->|Hne].
    - rewrite lookup_delete_eq. destruct (proj1 (ix_ext _ _ Hi' (block_hash b))) as [x Hx].
      { rewrite Hh, decide_True by done. done. }
      cbn. rewrite Hx. symmetry. exact Hk.
    - rewrite lookup_delete_ne by done. destruct (header_map (state sh) !! hash); [done|].
      destruct (get_block_header (store sh) hash) as [h|] eqn:Hs; [|done]. cbn.
      destruct (proj1 (ix_ext _ _ Hi' hash)) as [x ->]; [rewrite Hh, decide_False by done; by rewrite Hs|].
      destruct (proj1 (ix_ext _ _ Hi hash)) as [y ->]; [by rewrite Hs|]. done. }
  split; [|done|done| | |].
  - apply (sync_ok_headers sh); [done|done|done| | | |done|].
    + intros hash v. unfold get_header_view, store. cbn. destruct (decide (hash = block_hash b)) as [->|Hne].
      * rewrite lookup_delete_eq. intros (h & _ & (x & _ & [= <-])%bind_Some)%bind_Some. by left.
      * rewrite lookup_delete_ne by done. destruct (header_map (state sh) !! hash); [by right|].
        intros (h & _ & (x & _ & [= <-])%bind_Some)%bind_Some. by left.
    + intros hash v h. unfold store. cbn. rewrite lookup_delete_Some, Hh. intros [Hne Hm].
      rewrite decide_False by done. by apply (so_agree _ _ Hok).
    + intros hash st. cbn. rewrite lookup_delete_Some. intros [_ Hs] Hcont.
      apply view_is_Some. by apply (so_status _ _ Hok hash st).
    + apply peers_last_common; [done|apply Hok].
  - intros hash. unfold store at 1. cbn. rewrite Hh. case_decide as Hd.
    + split; [right; by eauto|done].
    + split; [by left|]. intros [?|[? _]]; done.
  - by intros [e ?].
  - intros hash Hne. cbn. by apply lookup_delete_ne.
Qed.

(** The chain service panics on a block it was to insert: the only panics left. *)
Definition chain_panics (now : Z) : Prop := exists c b,
  port_inv c /\ (is_Some (col_header (port_store c) !! block_hash b) \/ insertable (port_store c) b) /\
  (port_process c now b).1 = Panic.

Lemma accept_block_ok sh now peer b :
  sync_ok consensus sh -> block_known sh b -> is_parent_stored sh b = true ->
  match accept_block sh now peer b with
  | Ok (r, sh') => accepted sh b r sh'
  | Err _ => False
  | Panic => chain_panics now
  end.
Proof.
  intros Hok Hb Hp. unfold accept_block. destruct (port_process (chain sh) now b) as [[r|e|] c] eqn:Hc.
  - by eapply stored_accepted.
  - by eapply refused_accepted.
  - exists (chain sh), b. rewrite Hc. split_and!; [apply Hok|by apply (block_insertable sh)|done].
Qed.

(** *** Orphans *)

Abbreviation pool sh := (orphan_block_pool (state sh)).
Definition is_stored (sh : Shared) (hash : Byte32) : Prop := is_Some (get_block_header (store sh) hash).

(** The orphans have known headers, and wait: none has its parent stored. *)
Record orphans_ok (sh : Shared) : Prop := {
  oo_wf : orphans_wf (pool sh);
  oo_known hash x : orphan (pool sh) hash = Some x -> block_known sh x.2;
  oo_waiting hash x : orphan (pool sh) hash = Some x -> ~ is_stored sh (block_parent x.2);
}.

Lemma block_known_same sh sh' b : (forall hash, headers sh' hash = headers sh hash) -> block_known sh b -> block_known sh' b.
Proof. intros Heq [B1 B2]. split; [done|]. unfold known in *. by rewrite Heq. Qed.

(** Without the status of some blocks. *)
Lemma forget_status_ok (sh : Shared) (l : list (PeerIndex * BlockView)) p :
  sync_ok consensus sh ->
  let s := foldl (fun s pb => remove_block_status s (block_hash pb.2)) (set_orphans (state sh) p) l in
  sync_ok consensus (with_state sh s) /\ get_header_view (with_state sh s) = get_header_view sh /\
  orphan_block_pool s = p.
Proof.
  intros Hok s.
  assert (header_map s = header_map (state sh) /\ shared_best_header s = shared_best_header (state sh) /\
    peers s = peers (state sh) /\ orphan_block_pool s = p /\
    forall hash st, block_status_map s !! hash = Some st -> block_status_map (state sh) !! hash = Some st)
    as (Hm & Hb & Hp & Ho & Hst).
  { subst s. induction l as [|x l IH] using rev_ind; [done|]. rewrite foldl_snoc.
    destruct IH as (? & ? & ? & ? & IH). split_and!; [done..|]. intros hash st. cbn.
    rewrite lookup_delete_Some. intros [_ Hs]. by apply IH. }
  split_and!; [|by apply view_same|done]. apply sync_ok_state; [done|done| |rewrite Hb; apply Hok|rewrite Hp; apply Hok].
  intros hash st Hs. by apply (so_status _ _ Hok hash st), Hst.
Qed.

(** What the loop over the released orphans does with each of them. *)
Definition settled (sh' : Shared) (x : PeerIndex * BlockView) : Prop :=
  is_stored sh' (hash_of x) \/ block_status_map (state sh') !! hash_of x = Some BLOCK_INVALID \/
  ~ is_stored sh' (block_parent x.2).

(** No orphan of the list is the parent of one before it, or of itself. *)
Definition no_later_parent (l : list (PeerIndex * BlockView)) : Prop :=
  forall l1 x l2, l = l1 ++ x :: l2 -> block_parent x.2 ∉ hash_of <$> x :: l2.

Record released (sh : Shared) (l : list (PeerIndex * BlockView)) (sh' : Shared) : Prop := {
  rl_ok : sync_ok consensus sh';
  rl_headers hash : headers sh' hash = headers sh hash;
  rl_orphans : pool sh' = pool sh;
  rl_grow hash : is_stored sh hash -> is_stored sh' hash;
  rl_only hash : is_stored sh' hash -> is_stored sh hash \/ hash ∈ hash_of <$> l;
  rl_status hash : hash ∉ hash_of <$> l -> block_status_map (state sh') !! hash = block_status_map (state sh) !! hash;
  rl_settled x : x ∈ l -> settled sh' x;
}.

Lemma accept_orphan_ok sh now x :
  sync_ok consensus sh -> block_known sh x.2 -> block_parent x.2 <> hash_of x ->
  match accept_orphan now sh x with
  | Ok sh' => released sh [x] sh'
  | Err _ => False
  | Panic => chain_panics now
  end.
Proof.
  intros Hok Hb Hne. destruct x as [peer b]. cbn in *. destruct (is_parent_stored sh b) eqn:Hp; cbn [negb].
  - pose proof (accept_block_ok sh now peer b Hok Hb Hp) as Ha.
    destruct (accept_block sh now peer b) as [[r sh']| |]; step; [|done|by eauto].
    destruct Ha as [A1 A2 A3 A4 A5 A6]. split; unfold is_stored; [done|done|done| | | |].
    + intros hash Hs. apply A4. by left.
    + intros hash [?|[-> _]]%A4; [by left|right]. by left.
    + intros hash Hn. apply A6. set_solver.
    + intros y ->%list_elem_of_singleton. unfold settled, is_stored, hash_of. cbn. destruct r as [x|e].
      * left. apply A4. right. eauto.
      * right. left. apply A5. eauto.
  - split; [done|done|done|done|by left|done|]. intros y ->%list_elem_of_singleton. right. right. cbn.
    unfold is_parent_stored in Hp. by reflect_bools.
Qed.

Lemma released_cons sh x l sh1 sh' :
  no_later_parent (x :: l) -> NoDup (hash_of <$> x :: l) ->
  released sh [x] sh1 -> released sh1 l sh' -> released sh (x :: l) sh'.
Proof.
  intros Hpar [Hx _]%NoDup_cons [A1 A2 A3 A4 A5 A6 A7] [B1 B2 B3 B4 B5 B6 B7].
  split; [done|congruence|congruence|auto| | |].
  - intros hash [[?|Hin]%A5|?]%B5; [by left|right|right]; set_solver.
  - intros hash Hn. rewrite B6, A6; set_solver.
  - intros y [->|Hy]%elem_of_cons; [|by apply B7].
    destruct (A7 x ltac:(left)) as [Hs|[Hs|Hs]]; [left; auto|right; left|right; right].
    + by rewrite B6.
    + intros [?|Hin]%B5; [done|]. apply (Hpar [] x l); [done|]. by right.
Qed.

Lemma release_ok l sh now :
  sync_ok consensus sh -> Forall (fun x => block_known sh x.2) l -> no_later_parent l -> NoDup (hash_of <$> l) ->
  match try_fold (accept_orphan now) sh l with
  | Ok sh' => released sh l sh'
  | Err _ => False
  | Panic => chain_panics now
  end.
Proof.
  revert sh. induction l as [|x l IH]; intros sh Hok Hb Hpar Hnd; cbn [try_fold].
  { split; [done|done|done|done|by left|done|]. intros x Hx. by apply not_elem_of_nil in Hx. }
  apply Forall_cons in Hb as [Hbx Hb].
  pose proof (accept_orphan_ok sh now x Hok Hbx) as Hx.
  assert (block_parent x.2 <> hash_of x) as Hne.
  { intros Heq. apply (Hpar [] x l); [done|]. rewrite Heq. by left. }
  specialize (Hx Hne). destruct (accept_orphan now sh x) as [sh1| |]; step; [|done|done].
  assert (no_later_parent l) as Hpar'.
  { intros l1 y l2 ->. by apply (Hpar (x :: l1) y l2). }
  pose proof Hnd as [_ Hnd']%NoDup_cons.
  assert (Forall (fun x => block_known sh1 x.2) l) as Hb'.
  { eapply Forall_impl; [exact Hb|]. intros y. apply block_known_same, Hx. }
  specialize (IH sh1 (rl_ok _ _ _ Hx) Hb' Hpar' Hnd').
  destruct (try_fold _ sh1 l) as [sh'| |]; [|done|done]. by eapply released_cons.
Qed.

(** Blocks of one hash have one parent. *)
Lemma known_parent sh b b' :
  block_known sh b -> block_known sh b' -> block_hash b = block_hash b' -> block_parent b = block_parent b'.
Proof.
  intros [_ H1] [_ H2] Heq. unfold known in *.
  change (headers sh (block_hash b) = Some (BlockView_header b)) in H1.
  change (headers sh (block_hash b') = Some (BlockView_header b')) in H2. rewrite Heq, H2 in H1.
  injection H1 as H1. unfold block_parent, BlockView_raw. by rewrite H1.
Qed.

Lemma not_orphan sh b : orphans_ok sh -> block_known sh b -> is_parent_stored sh b = true ->
  orphan (pool sh) (block_hash b) = None.
Proof.
  intros Ho Hb Hp. destruct (orphan (pool sh) (block_hash b)) as [x|] eqn:Hx; [|done].
  destruct (oo_waiting _ Ho _ _ Hx). unfold is_parent_stored in Hp. reflect_bools.
  unfold is_stored. rewrite (known_parent sh x.2 b); [done|by eapply oo_known|done|].
  by destruct (orphan_Some _ _ _ (oo_wf _ Ho) Hx).
Qed.

Lemma search_orphans_ok sh sh1 now root :
  orphans_ok sh -> orphan (pool sh) root = None ->
  sync_ok consensus sh1 -> (forall hash, headers sh1 hash = headers sh hash) -> pool sh1 = pool sh ->
  (forall hash, is_stored sh1 hash <-> is_stored sh hash \/ hash = root) ->
  match try_search_orphan_pool sh1 now root with
  | Ok sh' => sync_ok consensus sh' /\ orphans_ok sh' /\ (forall hash, headers sh' hash = headers sh hash) /\
      is_stored sh' root /\
      forall hash x, orphan (pool sh) hash = Some x ->
        descends (pool sh) root hash /\ orphan (pool sh') hash = None /\ settled sh' x \/
        ~ descends (pool sh) root hash /\ orphan (pool sh') hash = Some x
  | Err _ => False
  | Panic => chain_panics now
  end.
Proof.
  intros Ho Hroot Hok1 Hh1 Hp1 Hs1. unfold try_search_orphan_pool, remove_orphan_by_parent.
  pose proof (remove_by_parent_Ok (pool sh1) root) as Hrem. rewrite Hp1 in *.
  destruct (remove_blocks_by_parent (pool sh) root) as [p' l]. destruct (Hrem (oo_wf _ Ho)) as (Hw' & Hnd & Hl & Hpf & Hp').
  clear Hrem. destruct (forget_status_ok sh1 l p' Hok1) as (Hok2 & Hv2 & Ho2).
  set (s2 := foldl _ _ _) in *.
  assert (forall hash, headers (with_state sh1 s2) hash = headers sh hash) as Hh2 by (intros hash; by rewrite Hv2).
  assert (no_later_parent l) as Hnl.
  { intros l1 x l2 ->. rewrite fmap_app in Hnd. destruct (Hpf l1 x l2 eq_refl) as [->|Hin].
    - intros (y & -> & Hy)%list_elem_of_fmap. destruct (proj1 (Hl y)) as [Hy' _]; [by apply elem_of_app; right|]. congruence.
    - intros Hin'. apply NoDup_app in Hnd as (_ & Hd & _). by apply (Hd _ Hin). }
  assert (Forall (fun x => block_known (with_state sh1 s2) x.2) l) as Hkn.
  { apply Forall_forall. intros x [Hx _]%Hl. eapply block_known_same; [exact Hh2|]. by eapply oo_known. }
  pose proof (release_ok l (with_state sh1 s2) now Hok2 Hkn Hnl Hnd) as Hr.
  destruct (try_fold _ _ l) as [sh'| |]; [|done|done]. destruct Hr as [R1 R2 R3 R4 R5 R6 R7].
  assert (forall hash, is_stored sh' hash -> is_stored sh hash \/ hash = root \/ descends (pool sh) root hash) as Hst.
  { intros hash [[?|?]%Hs1|Hin]%R5; [by left|by right; left|right; right].
    apply list_elem_of_fmap in Hin as (x & -> & Hx). by apply Hl. }
  assert (forall hash, headers sh' hash = headers sh hash) as Hh' by (intros hash; by rewrite R2).
  cbn in R3. rewrite Ho2 in R3. split_and!; [done| |done|by apply R4, Hs1; right|].
  - split; rewrite R3; [done| |].
    + intros hash x [Hx _]%Hp'. eapply block_known_same; [exact Hh'|]. by eapply oo_known.
    + intros hash x [Hx Hnd']%Hp' [?|[?|?]]%Hst; [by eapply oo_waiting| |].
      * apply Hnd'. by eapply descends_child.
      * apply Hnd'. by eapply descends_step.
  - intros hash x Hx. rewrite R3.
    destruct (orphan_Some _ _ _ (oo_wf _ Ho) Hx) as [Hhx _].
    destruct (orphan p' hash) as [y|] eqn:Hy.
    + apply Hp' in Hy as [Hy Hnd']. right. by simplify_eq.
    + left. destruct (decide (hash ∈ hash_of <$> l)) as [(y & -> & Hin)%list_elem_of_fmap|Hin].
      * destruct (proj1 (Hl y) Hin) as [Hy' Hd]. simplify_eq. split_and!; [done..|by apply R7].
      * exfalso. assert (orphan p' hash = Some x); [|congruence]. apply Hp'. split; [done|]. intros Hd. apply Hin.
        rewrite <- Hhx. apply list_elem_of_fmap. exists x. split; [done|]. apply Hl. unfold hash_of. by rewrite Hhx.
Qed.

(** *** A new block *)

Lemma insert_orphan_ok sh pi b :
  sync_ok consensus sh -> orphans_ok sh -> block_known sh b -> is_parent_stored sh b = false ->
  let sh' := with_state sh (insert_orphan_block (state sh) pi b) in
  sync_ok consensus sh' /\ orphans_ok sh' /\ (forall hash, headers sh' hash = headers sh hash) /\
  orphan (pool sh') (block_hash b) = Some (pi, b).
Proof.
  intros Hok Ho Hb Hp sh'.
  destruct (orphan_insert_wf (pool sh) pi b (oo_wf _ Ho)) as [Hw Hor].
  { intros x Hx. apply (known_parent sh); [by eapply oo_known|done|]. by destruct (orphan_Some _ _ _ (oo_wf _ Ho) Hx). }
  assert (get_header_view sh' = get_header_view sh) as Hv by (by apply view_same).
  change (OrphanBlockPool_insert (pool sh) pi b) with (pool sh') in *.
  split_and!; [| |by rewrite Hv|by rewrite Hor, decide_True].
  - apply sync_ok_state; [done|done| |apply Hok|apply Hok]. intros hash st. cbn.
    rewrite lookup_insert_Some. intros [[<- _]|[_ Hs]] Hc; [|by apply (so_status _ _ Hok hash st)].
    apply view_is_Some. change (block_hash b) with (header_hash (BlockView_header b)). by rewrite (bk_header _ _ Hb).
  - split; [done| |].
    + intros hash x. rewrite Hor. intros Hx. eapply (block_known_same sh); [by rewrite Hv|].
      case_decide; [by injection Hx as <-|by eapply oo_known].
    + intros hash x. rewrite Hor. case_decide; [|apply (oo_waiting _ Ho)]. intros [= <-]. cbn.
      unfold is_parent_stored in Hp. by reflect_bools.
Qed.

Lemma insert_new_block_Ok sh now pi b :
  sync_ok consensus sh -> orphans_ok sh -> block_known sh b ->
  match insert_new_block sh now pi b with
  | Ok (r, sh') =>
      sync_ok consensus sh' /\ orphans_ok sh' /\ (forall hash, headers sh' hash = headers sh hash) /\
      if is_parent_stored sh b then
        match r with
        | inl _ => is_stored sh' (block_hash b) /\
            forall hash x, orphan (pool sh) hash = Some x ->
              descends (pool sh) (block_hash b) hash /\ orphan (pool sh') hash = None /\ settled sh' x \/
              ~ descends (pool sh) (block_hash b) hash /\ orphan (pool sh') hash = Some x
        | inr _ => block_status_map (state sh') !! block_hash b = Some BLOCK_INVALID /\ pool sh' = pool sh
        end
      else r = inl false /\ orphan (pool sh') (block_hash b) = Some (pi, b)
  | Err _ => False
  | Panic => chain_panics now
  end.
Proof.
  intros Hok Ho Hb. unfold insert_new_block. destruct (is_parent_stored sh b) eqn:Hp; cbn [negb].
  - pose proof (accept_block_ok sh now pi b Hok Hb Hp) as Ha.
    destruct (accept_block sh now pi b) as [[r sh1]| |]; step; [|done|by eauto].
    destruct Ha as [A1 A2 A3 A4 A5 A6]. destruct r as [r|e].
    + pose proof (search_orphans_ok sh sh1 now (block_hash b) Ho (not_orphan sh b Ho Hb Hp) A1 A2 A3) as Hs.
      destruct (try_search_orphan_pool sh1 now (block_hash b)) as [sh'| |]; step.
      * destruct Hs as (S1 & S2 & S3 & S4 & S5); [|by split_and!].
        intros hash. unfold is_stored. rewrite A4. naive_solver.
      * apply Hs. intros hash. unfold is_stored. rewrite A4. naive_solver.
      * apply Hs. intros hash. unfold is_stored. rewrite A4. naive_solver.
    + split_and!; [done| |done|by apply A5; eauto|done]. destruct Ho as [O1 O2 O3]. split; rewrite A3; [done| |].
      * intros hash x Hx. eapply block_known_same; [exact A2|by eapply O2].
      * intros hash x Hx [?|[_ [? ?]]]%A4; [by eapply O3|done].
  - destruct (insert_orphan_ok sh pi b Hok Ho Hb Hp) as (I1 & I2 & I3 & I4). by split_and!.
Qed.
End blocks.
