(* ===== verification/SyncNode.v ===== *)
(** * The synchronizer as a whole: src/sync/src/synchronizer/mod.rs

    The invariant [node_ok] joins those of the headers, of the orphans, of the
    blocks in flight and of the counters of the peers.  Whatever peers send, in
    whatever order the messages, the timers and the connections come, every
    handler returns and the invariant holds after it. *)

From S2P Require Import Prelude Capacity NumExt Difficulty Types Errors Epoch Cell Consensus Hashes Store.
From S2P Require Import HeaderVerifier TransactionVerifier ChainCell Chain Reorg ChainIndex SortedTxMap.
From S2P Require Import SkipList OrphanBlockPool InflightBlocks SyncState SyncShared ActiveChain Synchronizer.
From S2P Require Import SyncInvariant SyncBlocks.

(** ** Counting peers *)

Definition peer_core (p : PeerState) : bool * PeerFlags := (sync_started p, peer_flags p).
Definition count_peers (f : bool * PeerFlags -> bool) (ps : Peers) : Z :=
  Z.of_nat (size (filter (fun kp : PeerIndex * (bool * PeerFlags) => f kp.2 = true) (peer_core <$> ps))).
Definition n_started : Peers -> Z := count_peers fst.
Definition n_protected : Peers -> Z := count_peers (fun c => is_protect c.2).

Lemma count_peers_nonneg f ps : 0 <= count_peers f ps.
Proof. unfold count_peers. lia. Qed.

Lemma count_new f ps i p : ps !! i = None -> count_peers f (<[i := p]> ps) = count_peers f ps + Z.b2z (f (peer_core p)).
Proof.
  intros Hi. unfold count_peers. rewrite fmap_insert.
  assert ((peer_core <$> ps) !! i = None) as Hi' by (by rewrite lookup_fmap, Hi).
  destruct (f (peer_core p)) eqn:Hf.
  - rewrite map_filter_insert_True by done. rewrite map_size_insert_None; [cbn; lia|].
    apply map_lookup_filter_None. by left.
  - rewrite map_filter_insert_False by (cbn; congruence). rewrite delete_id by done. cbn. lia.
Qed.

Lemma count_delete f ps i p : ps !! i = Some p -> count_peers f ps = count_peers f (delete i ps) + Z.b2z (f (peer_core p)).
Proof.
  intros Hi. rewrite <- (insert_delete_id ps i p) at 1 by done. apply count_new, lookup_delete_eq.
Qed.

Lemma count_insert f ps i p q : ps !! i = Some p ->
  count_peers f (<[i := q]> ps) = count_peers f ps - Z.b2z (f (peer_core p)) + Z.b2z (f (peer_core q)).
Proof.
  intros Hi. rewrite (count_delete f ps i p Hi), <- insert_delete_eq, count_new by apply lookup_delete_eq. lia.
Qed.

Lemma core_alter (g : PeerState -> PeerState) (ps : Peers) i :
  (forall p, peer_core (g p) = peer_core p) -> peer_core <$> alter g i ps = peer_core <$> ps.
Proof.
  intros Hg. apply map_eq. intros j. rewrite !lookup_fmap. destruct (decide (i = j)) as [<-|Hne].
  - rewrite lookup_alter_eq. destruct (ps !! i) as [p|]; [cbn; by rewrite Hg|done].
  - by rewrite lookup_alter_ne.
Qed.

Section quiet.
Context `{NumExt} `{Hasher} {C : Type} `{P : !ChainPort C} `{RC : RequestCache}.
Context `{MO : !MapOrder Byte32 (PeerIndex * BlockView)}.
Context (consensus : Consensus) (send_ok : SyncAction -> bool).
Abbreviation Shared := (SyncShared (C:=C)).

(** A change that neither starts nor stops a synchronisation, nor a download. *)
Record quiet (s s' : SyncState) : Prop := {
  q_started : n_sync_started s' = n_sync_started s;
  q_protected : n_protected_outbound_peers s' = n_protected_outbound_peers s;
  q_inflight : inflight_blocks s' = inflight_blocks s;
  q_core : peer_core <$> peers s' = peer_core <$> peers s;
}.
#[global] Instance quiet_preorder : PreOrder quiet.
Proof. split; [by intros s|]. intros x y z [] []. split; congruence. Qed.

(** And no orphan comes or goes. *)
Record calm (s s' : SyncState) : Prop := {
  c_quiet : quiet s s';
  c_pool : orphan_block_pool s' = orphan_block_pool s;
}.
#[global] Instance calm_preorder : PreOrder calm.
Proof. split; [by intros s|]. intros x y z [] []. split; [by etrans|congruence]. Qed.

Lemma calm_peers s ps : peer_core <$> ps = peer_core <$> peers s -> calm s (set_peers s ps).
Proof. by split. Qed.
Lemma core_received (ps : Peers) peer v : peer_core <$> new_header_received ps peer v = peer_core <$> ps.
Proof. apply core_alter. intros p. unfold better_known. by repeat case_match. Qed.
Lemma core_common (ps : Peers) peer h : peer_core <$> set_last_common_header ps peer h = peer_core <$> ps.
Proof. by apply core_alter. Qed.
Lemma core_unknown (ps : Peers) peer hash : peer_core <$> insert_unknown_header_hash ps peer hash = peer_core <$> ps.
Proof. by apply core_alter. Qed.
Lemma core_insert (ps : Peers) i p q : ps !! i = Some p -> peer_core q = peer_core p -> peer_core <$> <[i := q]> ps = peer_core <$> ps.
Proof. intros Hi Hq. rewrite fmap_insert, Hq. apply insert_id. by rewrite lookup_fmap, Hi. Qed.

(** *** Blocks *)

Lemma status_calm snap (sh : Shared) hash st sh' : get_block_status snap sh hash = (st, sh') -> calm (state sh) (state sh').
Proof. unfold get_block_status. repeat case_match; intros [= <- <-]; by repeat split. Qed.

Lemma accept_block_calm (sh : Shared) now peer b r sh' :
  accept_block sh now peer b = Ok (r, sh') -> calm (state sh) (state sh').
Proof.
  unfold accept_block. destruct (port_process _ _ _) as [[?|?|] c]; [| |done]; intros [= <- <-]; [|by repeat split].
  split; [split|]; cbn; [done..| |done]. apply core_common.
Qed.

Lemma search_quiet (sh : Shared) now parent sh' :
  try_search_orphan_pool sh now parent = Ok sh' -> quiet (state sh) (state sh').
Proof.
  unfold try_search_orphan_pool, remove_orphan_by_parent. destruct (remove_blocks_by_parent _ _) as [p l]. intros Hs.
  set (s1 := foldl _ _ _) in Hs.
  assert (quiet (state sh) s1) as Hs1.
  { subst s1. generalize l at 1. intros l0. induction l0 as [|x l0 IH] using rev_ind; [by split|].
    rewrite foldl_snoc. destruct IH. by split. }
  apply (try_fold_inv (fun x _ => quiet (state sh) (state x)) _ _ _ _ Hs); [done|].
  intros x [peer b] rest y Hx Hy. unfold accept_orphan in Hy. destruct (negb _); [by simplify_eq|].
  apply bind_Ok in Hy as ([r z] & Hz%accept_block_calm & Hy). simplify_eq. etrans; [exact Hx|apply Hz].
Qed.

Lemma insert_new_block_quiet (sh : Shared) now pi b r sh' :
  insert_new_block sh now pi b = Ok (r, sh') -> quiet (state sh) (state sh').
Proof.
  unfold insert_new_block. destruct (negb _); [intros [= <- <-]; by split|].
  intros ([r1 sh1] & Q1%accept_block_calm & Hs)%bind_Ok. destruct r1; [|by simplify_eq; apply Q1].
  apply bind_Ok in Hs as (sh2 & Q2%search_quiet & Hs). simplify_eq. etrans; [apply Q1|done].
Qed.

Lemma process_new_block_quiet (sh : Shared) now peer b r sh' :
  process_new_block sh now peer b = Ok (r, sh') -> quiet (state sh) (state sh').
Proof.
  unfold process_new_block. destruct (get_block_status _ _ _) as [st sh1] eqn:Q1. apply status_calm in Q1.
  repeat case_match; [intros [= <- <-]|intros Q2%insert_new_block_quiet; etrans; [apply Q1|done]|intros [= <- <-]; apply Q1].
  etrans; [apply Q1|]. apply calm_peers, core_common.
Qed.

(** *** Headers *)

Lemma insert_valid_header_calm (sh : Shared) peer h sh' :
  insert_valid_header sh peer h = Ok sh' -> calm (state sh) (state sh').
Proof.
  unfold insert_valid_header. intros Hs. do 4 (apply bind_Ok in Hs as (? & _ & Hs)).
  apply bind_Ok in Hs as (s & Hbest & Hs). simplify_eq. cbn [state with_state].
  assert (calm (state sh) s) as Hq.
  { destruct (is_better_than _ _); [unfold set_shared_best_header in Hbest; case_decide|]; simplify_eq; by repeat split. }
  etrans; [exact Hq|]. apply calm_peers, core_received.
Qed.

Lemma HeaderAcceptor_calm snap (sh : Shared) now peer h parent r sh' :
  HeaderAcceptor_accept consensus snap sh now peer h parent = Ok (r, sh') -> calm (state sh) (state sh').
Proof.
  unfold HeaderAcceptor_accept, contains_block_status.
  destruct (get_block_status snap sh _) as [st sh1] eqn:Q1. apply status_calm in Q1. case_match.
  { intros (v & _ & Hs)%bind_Ok. simplify_eq. etrans; [exact Q1|]. apply calm_peers, core_received. }
  destruct (get_block_status snap sh1 _) as [st2 sh2] eqn:Q2. apply status_calm in Q2.
  assert (calm (state sh) (state sh2)) as Q12 by (by etrans).
  destruct (BlockStatus_contains st2 BLOCK_INVALID); [intros [= <- <-]; etrans; [exact Q12|by repeat split]|].
  destruct (HeaderVerifier_verify _ _ _ _ _); [|intros [= <- <-]; etrans; [exact Q12|by repeat split]|done].
  destruct (negb _); [intros [= <- <-]; etrans; [exact Q12|by repeat split]|].
  intros (sh3 & Q3%insert_valid_header_calm & Hs)%bind_Ok. simplify_eq. by etrans.
Qed.

Lemma punish_calm (sh : Shared) peer score sh' : punish_peer sh peer score = Ok sh' -> calm (state sh) (state sh').
Proof.
  unfold punish_peer, misbehavior. intros (s & Hs & Heq)%bind_Ok. simplify_eq.
  repeat case_match; inv_ok; by repeat split.
Qed.

Lemma accept_headers_calm snap (sh : Shared) now peer parent hs b sh' :
  accept_headers consensus snap sh now peer parent hs = Ok (b, sh') -> calm (state sh) (state sh').
Proof.
  revert sh parent. induction hs as [|h hs IH]; intros sh parent; cbn [accept_headers]; [by intros [= <- <-]|].
  intros ([r sh1] & Q1%HeaderAcceptor_calm & Hs)%bind_Ok. destruct (vr_is_valid r).
  - apply IH in Hs. by etrans.
  - apply bind_Ok in Hs as (sh2 & Q2 & Hs). simplify_eq. etrans; [exact Q1|].
    case_match; [by eapply punish_calm|by simplify_eq].
Qed.

Lemma send_getheaders_calm snap (sh : Shared) now peer h sh' sent :
  send_getheaders_to_peer consensus snap sh now peer h = Ok (sh', sent) -> calm (state sh) (state sh').
Proof.
  unfold send_getheaders_to_peer. destruct (request_get_refresh _ _) as [t c]. case_match.
  - intros [= <- <-]. by repeat split.
  - intros (l & _ & Hs)%bind_Ok. simplify_eq. by repeat split.
Qed.

Lemma initial_download_calm snap (sh : Shared) now b sh' :
  is_initial_block_download snap sh now = (b, sh') -> calm (state sh) (state sh').
Proof. unfold is_initial_block_download. repeat case_match; intros [= <- <-]; by repeat split. Qed.

Lemma HeadersProcess_calm (sh : Shared) now peer hs status sh' sent :
  HeadersProcess_execute consensus send_ok sh now peer hs = Ok (status, sh', sent) -> calm (state sh) (state sh').
Proof.
  unfold HeadersProcess_execute. case_match.
  { intros (sh1 & Q1%punish_calm & Hs)%bind_Ok. by simplify_eq. }
  destruct hs as [|first hs].
  { intros (p & Hp%expect_Ok & Hs)%bind_Ok. simplify_eq. apply calm_peers. by eapply core_insert. }
  destruct (negb _).
  { intros (sh1 & Q1%punish_calm & Hs)%bind_Ok. by simplify_eq. }
  intros ([b sh1] & Q1%accept_headers_calm & Hs)%bind_Ok. destruct b; [|by simplify_eq].
  unfold headers_accepted in Hs. apply bind_Ok in Hs as ([sh2 sent2] & Q2 & Hs).
  assert (calm (state sh1) (state sh2)) as Q12.
  { destruct (_ =? MAX_HEADERS_LEN); [|by simplify_eq]. apply bind_Ok in Q2 as (start & _ & Q2). by eapply send_getheaders_calm. }
  destruct (is_initial_block_download _ _ _) as [ibd sh3] eqn:Q3. apply initial_download_calm in Q3.
  assert (calm (state sh) (state sh3)) as Q13 by (etrans; [|exact Q3]; by etrans).
  destruct (_ && _); by simplify_eq.
Qed.
End quiet.

(** ** Requests of the peers *)

Section requests.
Context `{NumExt} `{Hasher} {C : Type} `{P : !ChainPort C} `{PS : !ChainPortSpec P} `{RC : RequestCache}.
Context (consensus : Consensus) (send_ok : SyncAction -> bool).
Abbreviation Shared := (SyncShared (C:=C)).
Abbreviation headers sh := (headers_of (get_header_view sh)).
Implicit Types sh : Shared.

Lemma genesis_indexed sh : sync_ok consensus sh ->
  get_block_hash (store sh) 0 = Some (genesis_hash consensus) /\
  get_block_number (store sh) (genesis_hash consensus) = Some 0.
Proof.
  intros Hok. pose proof (so_index _ _ Hok) as Hi. pose proof (tr_linked _ (so_tree _ _ Hok)) as HL.
  pose proof (ln_number _ HL _ _ (so_tip _ _ Hok)) as Ht.
  destruct (proj2 (ix_height _ _ Hi 0 ltac:(lia)) ltac:(lia)) as [g Hg].
  destruct (ix_index _ _ Hi 0 g ltac:(lia) Hg) as (h & Hh & Hn & _).
  pose proof (sync_ok_stored _ _ Hok _ _ Hh) as Hhk.
  pose proof (so_genesis _ _ Hok h ltac:(by eapply known_get) Hn) as Hhg.
  rewrite (ln_hash _ HL _ _ Hhk) in Hhg. subst g. split; [done|]. apply (ix_number _ _ Hi). by split; [lia|].
Qed.

Lemma fork_point_total sh fuel n0 hash :
  sync_ok consensus sh ->
  (forall h, get_block_header (store sh) hash = Some h -> HeaderView_number h <= Z.of_nat fuel) ->
  exists n, fork_point fuel (active_chain sh) sh n0 hash = Ok n /\
    (n = n0 \/ exists x, get_block_number (store sh) x = Some n).
Proof.
  intros Hok. pose proof (tr_linked _ (so_tree _ _ Hok)) as HL. revert hash.
  induction fuel as [|fuel IH]; intros hash Hf; cbn [fork_point]; rewrite (so_synced _ _ Hok);
    (destruct (get_block_header (store sh) hash) as [h|] eqn:Hh; [|by eauto]);
    (destruct (get_block_number (store sh) hash) as [m|] eqn:Hm; [by eauto|]); specialize (Hf h eq_refl).
  all: pose proof (sync_ok_stored _ _ Hok _ _ Hh) as Hk; pose proof (ln_number _ HL _ _ Hk) as Hn.
  all: assert (HeaderView_number h <> 0) as Hne
    by (intros H0n; pose proof (so_genesis _ _ Hok h ltac:(by eapply known_get) H0n) as Hg;
        rewrite (ln_hash _ HL _ _ Hk) in Hg; rewrite Hg, (proj2 (genesis_indexed sh Hok)) in Hm; done).
  - lia.
  - apply IH. intros p Hp. destruct (ln_parent _ HL _ _ Hk) as (q & Hq & Hqn); [lia|].
    rewrite (sync_ok_stored _ _ Hok _ _ Hp) in Hq. injection Hq as <-. lia.
Qed.

Lemma find_known_number snap i l j n :
  find_known snap i l = Some (j, n) ->
  (exists x, get_block_number (snap_store snap) x = Some n) /\
  forall k x, (i + k < j)%nat -> l !! k = Some x -> get_block_number (snap_store snap) x = None.
Proof.
  revert i. induction l as [|x l IH]; intros i; cbn [find_known]; [done|].
  destruct (get_block_number (snap_store snap) x) eqn:Hx.
  - intros [= <- <-]. split; [eauto|lia].
  - intros Hf. destruct (IH _ Hf) as [He Hbefore]. split; [done|]. intros [|k] y Hk; cbn; [by intros [= <-]|].
    apply Hbefore. lia.
Qed.
Lemma find_known_genesis snap i l g n :
  g ∈ l -> get_block_number (snap_store snap) g = Some n -> is_Some (find_known snap i l).
Proof.
  intros Hg Hn. revert i. induction l as [|x l IH]; intros i; [by apply not_elem_of_nil in Hg|].
  cbn [find_known]. apply elem_of_cons in Hg as [<-|Hg]; [by rewrite Hn|].
  destruct (get_block_number (snap_store snap) x); [done|by apply IH].
Qed.

(** Any locator has an answer, well formed or not. *)
Lemma locate_total sh locator :
  sync_ok consensus sh ->
  exists r, locate_latest_common_block consensus (active_chain sh) sh locator = Ok r /\
    forall n, r = Some n -> 0 <= n <= tip_number (active_chain sh).
Proof.
  intros Hok. unfold locate_latest_common_block. destruct (last locator) as [g|] eqn:Hl; [|by exists None].
  case_bool_decide as Hg; cbn [negb]; [|by exists None]. subst g.
  pose proof (so_index _ _ Hok) as Hi.
  assert (forall n x, get_block_number (store sh) x = Some n -> 0 <= n <= tip_number (active_chain sh)) as Hrange.
  { intros n x [Hn Hx]%(ix_number _ _ Hi). split; [done|]. apply (ix_height _ _ Hi); [done|by rewrite Hx]. }
  destruct (find_known_genesis (active_chain sh) 0 locator (genesis_hash consensus) 0) as [[j n] Hf];
    [by apply last_Some_elem_of|rewrite (so_synced _ _ Hok); apply (genesis_indexed sh Hok)|].
  rewrite Hf. step. apply find_known_number in Hf as [[x Hx] Hbefore]. rewrite (so_synced _ _ Hok) in Hx, Hbefore.
  assert (exists r, Ok (E:=Error) (Some n) = Ok r /\ forall m, r = Some m -> 0 <= m <= tip_number (active_chain sh)) as Hlc.
  { eexists. split; [done|]. intros m [= <-]. by eapply Hrange. }
  destruct (_ || _) eqn:Hj; [exact Hlc|]. destruct (locator !! _ ≫= _) as [h|] eqn:Hh; [|exact Hlc].
  apply bind_Some in Hh as (y & Hy & Hh). pose proof (sync_ok_stored _ _ Hok _ _ Hh) as Hk.
  pose proof (tr_linked _ (so_tree _ _ Hok)) as HL. pose proof (ln_number _ HL _ _ Hk) as Hn.
  destruct (fork_point_total sh (Z.to_nat (HeaderView_number h)) n (HeaderView_parent_hash h) Hok) as (m & -> & Hm).
  { intros p Hp. destruct (ln_parent _ HL _ _ Hk) as (q & Hq & Hqn).
    - enough (HeaderView_number h <> 0) by lia. intros H0n.
      pose proof (so_genesis _ _ Hok h ltac:(by eapply known_get) H0n) as Hg. rewrite (ln_hash _ HL _ _ Hk) in Hg.
      apply orb_false_iff in Hj as [Hj%Nat.eqb_neq _]. pose proof (genesis_indexed sh Hok) as [_ Hgi]. rewrite <- Hg, (Hbefore (j - 1)%nat y) in Hgi; [done|lia|done].
    - rewrite (sync_ok_stored _ _ Hok _ _ Hp) in Hq. injection Hq as <-. lia. }
  step. eexists. split; [done|]. intros k [= <-]. destruct Hm as [->|[z Hz]]; by eapply Hrange.
Qed.

(** *** The unknown headers of a peer *)

Lemma unknown_ok K (ps : Peers) peer hash :
  map_Forall (fun _ => peer_ok K) ps -> map_Forall (fun _ => peer_ok K) (insert_unknown_header_hash ps peer hash).
Proof. apply peers_alter. by intros p []. Qed.

Lemma received_ok K (ps : Peers) peer v :
  (K (inner v) : Prop) -> map_Forall (fun _ => peer_ok K) ps -> map_Forall (fun _ => peer_ok K) (new_header_received ps peer v).
Proof. intros Hv. apply peers_alter. intros p. by apply better_known_ok. Qed.

Lemma header_map_known sh hash v :
  sync_ok consensus sh -> header_map (state sh) !! hash = Some v -> known (headers sh) (inner v).
Proof.
  intros Hok Hv. assert (get_header_view sh hash = Some v) as Hg by (unfold get_header_view; by rewrite Hv).
  eapply known_get; [apply Hok|]. unfold headers_of. by rewrite Hg.
Qed.

(** Changes of the peers only. *)
Lemma sync_ok_set_peers sh ps :
  sync_ok consensus sh -> map_Forall (fun _ => peer_ok (known (headers sh))) ps ->
  sync_ok consensus (with_state sh (set_peers (state sh) ps)).
Proof. intros Hok Hps. by apply (sync_ok_peers consensus sh ps). Qed.

Lemma collect_unknown_ok sh peer l :
  sync_ok consensus sh ->
  exists ps, collect_unknown (state sh) peer l = set_peers (state sh) ps /\
    map_Forall (fun _ => peer_ok (known (headers sh))) ps /\ peer_core <$> ps = peer_core <$> peers (state sh).
Proof.
  intros Hok. assert (forall ps0, map_Forall (fun _ => peer_ok (known (headers sh))) ps0 ->
    exists ps, collect_unknown (set_peers (state sh) ps0) peer l = set_peers (state sh) ps /\
      map_Forall (fun _ => peer_ok (known (headers sh))) ps /\ peer_core <$> ps = peer_core <$> ps0) as Hgen.
  { induction l as [|hash l IH]; intros ps0 Hps0; cbn [collect_unknown]; [by exists ps0|].
    cbn [header_map set_peers]. destruct (header_map (state sh) !! hash) as [v|] eqn:Hv.
    - exists (new_header_received ps0 peer v). split_and!; [done| |apply core_received].
      apply received_ok; [by eapply header_map_known|done].
    - destruct (IH (insert_unknown_header_hash ps0 peer hash)) as (ps & Hps & Hok' & Hc); [by apply unknown_ok|].
      exists ps. split_and!; [done|done|]. by rewrite Hc, core_unknown. }
  destruct (Hgen (peers (state sh))) as (ps & Hps & ?); [apply Hok|]. exists ps. split; [|done].
  rewrite <- Hps. by destruct (state sh).
Qed.

Lemma take_unknown_ok K (ps : Peers) peer hash ps' :
  take_unknown_last ps peer = (hash, ps') -> map_Forall (fun _ => peer_ok K) ps ->
  map_Forall (fun _ => peer_ok K) ps' /\ peer_core <$> ps' = peer_core <$> ps.
Proof.
  unfold take_unknown_last. destruct (ps !! peer) as [p|] eqn:Hp; [|by intros [= <- <-]].
  destruct (last _); intros [= <- <-] Hps; [|done]. split; [|by eapply core_insert].
  apply map_Forall_insert_2; [|done]. by destruct (Hps peer p Hp).
Qed.

Lemma update_known_ok sh peer fuel ps0 :
  sync_ok consensus sh -> map_Forall (fun _ => peer_ok (known (headers sh))) ps0 ->
  exists ps, update_known_loop fuel (set_peers (state sh) ps0) peer = set_peers (state sh) ps /\
    map_Forall (fun _ => peer_ok (known (headers sh))) ps /\ peer_core <$> ps = peer_core <$> ps0.
Proof.
  intros Hok. revert ps0. induction fuel as [|fuel IH]; intros ps0 Hps0; cbn [update_known_loop]; [by exists ps0|].
  cbn [peers set_peers]. destruct (take_unknown_last ps0 peer) as [hash ps1] eqn:Ht.
  destruct (take_unknown_ok _ _ _ _ _ Ht Hps0) as [Hps1 Hc1].
  destruct hash as [hash|]; [|by exists ps1]. cbn [header_map set_peers].
  destruct (header_map (state sh) !! hash) as [v|] eqn:Hv.
  - destruct (IH (new_header_received ps1 peer v)) as (ps & Hps & Hok' & Hc).
    { apply received_ok; [by eapply header_map_known|done]. }
    exists ps. split_and!; [done|done|]. by rewrite Hc, core_received.
  - exists (insert_unknown_header_hash ps1 peer hash). split_and!; [done|by apply unknown_ok|].
    by rewrite core_unknown.
Qed.

(** *** The handlers of the requests *)

(** A handler that leaves the headers as they are. *)
Definition answers sh (r : outcome Error (StatusCode * Shared * list SyncAction)) : Prop :=
  exists status s sent, r = Ok (status, with_state sh s, sent) /\ sync_ok consensus (with_state sh s) /\
    header_map s = header_map (state sh) /\ calm (state sh) s.

Lemma GetHeaders_answers sh now peer locator stop :
  sync_ok consensus sh -> answers sh (GetHeadersProcess_execute consensus send_ok sh now peer locator stop).
Proof.
  intros Hok. unfold GetHeadersProcess_execute, answers.
  destruct (MAX_LOCATOR_SIZE <? _). { exists ProtocolMessageIsMalformed, (state sh), []. by destruct sh. }
  destruct (is_initial_block_download _ sh now) as [ibd sh1] eqn:Hi. pose proof (initial_download_calm _ _ _ _ _ Hi) as Hc1.
  apply (initial_download_ok consensus) in Hi as (Hok1 & s1 & -> & Hm1 & _); [|done]. destruct ibd.
  - assert (exists s2, (match get_flag (peers (state (with_state sh s1))) peer with
        | Some flag => if is_outbound flag || is_whitelist flag || is_protect flag
            then on_state (fun s => insert_peer_unknown_header_list s peer locator) (with_state sh s1)
            else with_state sh s1
        | None => with_state sh s1 end) = with_state sh s2 /\ sync_ok consensus (with_state sh s2) /\
        header_map s2 = header_map s1 /\ calm s1 s2) as (s2 & -> & Hok2 & Hm2 & Hc2).
    { assert (exists s2, with_state sh s1 = with_state sh s2 /\ sync_ok consensus (with_state sh s2) /\
        header_map s2 = header_map s1 /\ calm s1 s2) as Hsame by (by exists s1).
      destruct (get_flag _ _) as [f|]; [|exact Hsame]. destruct (_ || _ || _); [|exact Hsame].
      unfold on_state, insert_peer_unknown_header_list. cbn [state with_state].
      destruct (unknown_header_list_is_empty (peers s1) peer); [|exact Hsame].
      destruct (collect_unknown_ok (with_state sh s1) peer locator Hok1) as (ps & Hps & Hpok & Hcore). cbn in Hps, Hcore.
      exists (set_peers s1 ps). rewrite Hps. split_and!; [done| |done|by apply calm_peers].
      by apply (sync_ok_set_peers (with_state sh s1)). }
    eexists _, s2, _. split; [done|]. split_and!; [done|congruence|by etrans].
  - destruct (locate_total (with_state sh s1) locator Hok1) as (r & Hr & Hrange).
    change (active_chain (with_state sh s1)) with (active_chain sh) in *. rewrite Hr. step.
    destruct r as [n|]; [|eexists _, s1, _; by split_and!]. specialize (Hrange n eq_refl).
    pose proof (ln_number _ (tr_linked _ (so_tree _ _ Hok)) _ _ (so_tip _ _ Hok)) as Ht.
    unfold get_locator_response, u64_add, MAX_HEADERS_LEN, tip_number in *. rewrite !fit_in_range by zlia. step.
    rewrite !fit_in_range by zlia. step. eexists _, s1, _. by split_and!.
Qed.
End requests.
