(* ===== verification/SyncSafety.v ===== *)
(** * The synchronizer does not fail: src/sync/src/synchronizer/mod.rs

    The invariant of the whole node, every handler of the sync protocol against
    it, and the runs of the protocol. *)

From S2P Require Import Prelude Capacity NumExt Difficulty Types Errors Epoch Cell Consensus Hashes Store.
From S2P Require Import HeaderVerifier TransactionVerifier ContextualVerifier ChainCell Chain Reorg ChainIndex SortedTxMap.
From S2P Require Import SkipList OrphanBlockPool InflightBlocks SyncState SyncShared ActiveChain Synchronizer.
From S2P Require Import SyncInvariant SyncBlocks SyncNode.

(** The transactions of a view are those of its data, with their hashes. *)
Lemma zip_views (f g : Transaction -> Byte32) txs :
  let l := (fun '((data, hash), witness_hash) => mkTransactionView data hash witness_hash) <$>
    zip (zip txs (f <$> txs)) (g <$> txs) in
  tx_data <$> l = txs /\ tx_hash <$> l = f <$> txs /\ tx_witness_hash <$> l = g <$> txs.
Proof. induction txs as [|tx txs IH]; [done|]. cbn in *. destruct IH as (-> & -> & ->). done. Qed.

Section node.
Context `{NumExt} `{NS : !NumExtSpec H} `{Hasher} {C : Type} `{P : !ChainPort C} `{PS : !ChainPortSpec P}.
Context `{RC : RequestCache}.
Context `{MO : !MapOrder Byte32 (PeerIndex * BlockView)} `{MS : !MapOrderSpec Byte32 (PeerIndex * BlockView) MO}.
Context `{MT : !MapOrder (Z * Byte32) Z} `{MTS : !MapOrderSpec (Z * Byte32) Z MT}.
Context `{MP : !MapOrder PeerIndex PeerState}.
Context (consensus : Consensus) (send_ok : SyncAction -> bool).
Context (Hcount : (0 < median_time_block_count consensus)%nat).

Abbreviation Shared := (SyncShared (C:=C)).
Abbreviation headers sh := (headers_of (get_header_view sh)).
Abbreviation inflight sh := (inflight_blocks (state sh)).
Implicit Types sh : Shared.

(** ** The invariant *)

Record node_ok (time : Z) sh : Prop := {
  no_sync : sync_ok consensus sh;
  no_orphans : orphans_ok sh;
  no_inflight : inflight_ok time (inflight sh);
  no_asked key st : inflight_states (inflight sh) !! key = Some st -> is_Some (headers sh key.2);
  no_started : n_sync_started (state sh) = n_started (peers (state sh));
  no_protected : n_protected (peers (state sh)) <= n_protected_outbound_peers (state sh) <=
    MAX_OUTBOUND_PEERS_TO_PROTECT_FROM_DISCONNECT;
}.

Lemma node_later time now sh : time <= now -> node_ok time sh -> node_ok now sh.
Proof. intros Ht [N1 N2 [N3 N4] N5 N6 N7]. split; [done|done| |done|done|done]. split; [done|by eapply times_later]. Qed.

Lemma quiet_counts s s' f : quiet s s' -> count_peers f (peers s') = count_peers f (peers s).
Proof. intros Q. unfold count_peers. by rewrite (q_core _ _ Q). Qed.

Lemma orphans_grow sh sh' :
  orphans_ok sh -> chain sh' = chain sh -> orphan_block_pool (state sh') = orphan_block_pool (state sh) ->
  (forall hash h, headers sh hash = Some h -> headers sh' hash = Some h) -> orphans_ok sh'.
Proof.
  intros [O1 O2 O3] Hc Hp Hg. split; rewrite Hp; [done| |].
  - intros hash x Hx. destruct (O2 hash x Hx) as [B1 B2]. split; [done|by apply Hg].
  - intros hash x Hx. unfold is_stored, store. rewrite Hc. by apply (O3 hash).
Qed.

(** A step that moves nothing but headers. *)
Lemma node_calm time sh sh' :
  node_ok time sh -> sync_ok consensus sh' -> calm (state sh) (state sh') -> chain sh' = chain sh ->
  (forall hash h, headers sh hash = Some h -> headers sh' hash = Some h) -> node_ok time sh'.
Proof.
  intros [N1 N2 N3 N4 N5 N6] Hok [Q Hpool] Hc Hg. pose proof Q as [Q1 Q2 Q3 Q4].
  split; rewrite ?Q3; [done|by eapply orphans_grow|done| | |].
  - intros key st Hst. destruct (N4 key st Hst) as [h Hh]. exists h. by apply Hg.
  - rewrite Q1, N5. symmetry. by apply quiet_counts.
  - rewrite Q2. unfold n_protected in *. by rewrite (quiet_counts (state sh)).
Qed.

Lemma node_state time sh s :
  node_ok time sh -> sync_ok consensus (with_state sh s) -> calm (state sh) s ->
  header_map s = header_map (state sh) -> node_ok time (with_state sh s).
Proof.
  intros Hn Hok Hc Hm. eapply node_calm; [exact Hn|done|done|done|].
  by rewrite (view_same sh (with_state sh s)).
Qed.

(** ** Messages *)

Lemma node_answers time sh r :
  node_ok time sh -> answers consensus sh r ->
  exists status sh' sent, r = Ok (status, sh', sent) /\ node_ok time sh'.
Proof.
  intros Hn (status & s & sent & -> & Hok & Hm & Hc). exists status, (with_state sh s), sent.
  split; [done|]. by apply node_state.
Qed.

Lemma status_node time sh hash st sh' :
  node_ok time sh -> get_block_status (active_chain sh) sh hash = (st, sh') ->
  node_ok time sh' /\ active_chain sh' = active_chain sh /\ store sh' = store sh /\
  get_header_view sh' = get_header_view sh /\
  (BlockStatus_contains st HEADER_VALID = true -> is_Some (get_header_view sh hash)).
Proof.
  intros Hn Hs. pose proof (status_calm _ _ _ _ _ Hs) as Hc.
  apply (get_block_status_ok consensus) in Hs as (Hok & Hsh & Hv); [|apply Hn].
  assert (chain sh' = chain sh /\ header_map (state sh') = header_map (state sh)) as [Hch Hm]
    by (by destruct Hsh as [->| ->]).
  assert (get_header_view sh' = get_header_view sh) as Hg by (by apply view_same).
  split_and!; [|unfold active_chain; by rewrite Hch|unfold store; by rewrite Hch|done|done].
  eapply node_calm; [exact Hn|done|done|done|by rewrite Hg].
Qed.

Lemma send_blocks_node time paused sh peer hashes :
  node_ok time sh -> exists status sh' sent,
    send_blocks send_ok (active_chain sh) paused sh peer hashes = Ok (status, sh', sent) /\ node_ok time sh'.
Proof.
  revert sh. induction hashes as [|hash hashes IH]; intros sh Hn; cbn [send_blocks].
  { by exists StatusOK, sh, []. }
  unfold contains_block_status. destruct (get_block_status _ sh hash) as [st sh1] eqn:Hs.
  apply (status_node time) in Hs as (Hn1 & Hac & _); [|done]. rewrite <- Hac.
  destruct (negb _); [by apply IH|]. destruct (paused hash); [by exists StatusOK, sh1, []|].
  destruct (port_block (chain sh1) hash) as [b Hb]; [apply Hn1|]. unfold store. rewrite Hb. step.
  destruct b as [b|]; [|by exists StatusOK, sh1, []].
  destruct (send_ok _); [|by eexists _, sh1, _].
  destruct (IH sh1 Hn1) as (status & sh2 & sent & -> & Hn2). step. by eexists _, sh2, _.
Qed.

(** The headers of a message. *)
Record headers_msg sh (peer : PeerIndex) (hs : list HeaderView) : Prop := {
  hm_peer : is_Some (peers (state sh) !! peer);
  hm_typed : Forall header_typed hs;
  hm_honest : honest sh hs;
  hm_work : exists t, work_below sh t /\ t + work hs < 2 ^ 256;
  hm_score : score_ok sh peer;
}.

Lemma HeadersProcess_node time sh now peer hs :
  node_ok time sh -> is_u64 (now + ALLOWED_FUTURE_BLOCKTIME) -> headers_msg sh peer hs ->
  exists status sh' sent, HeadersProcess_execute consensus send_ok sh now peer hs = Ok (status, sh', sent) /\ node_ok time sh'.
Proof.
  intros Hn Hnow [M1 M2 M3 (t & M4 & M5) M6].
  destruct (headers_process_Ok consensus Hcount send_ok sh now peer hs t (no_sync _ _ Hn) M1 Hnow M2 M3 M4 M5 M6)
    as (status & sh' & sent & Hs & Hok & Hc & _ & Hg & _).
  exists status, sh', sent. split; [done|]. eapply node_calm; [exact Hn|done| |done|done].
  by eapply HeadersProcess_calm.
Qed.

(** *** Blocks *)

Lemma into_view_round (b : Block) :
  let v := Block_into_view b in
  BlockView_new_unchecked (BlockView_header v) (BlockView_uncles v) (BlockView_transactions v)
    (block_proposals (block_data v)) = v.
Proof.
  intros v. unfold BlockView_new_unchecked. destruct (zip_views Transaction_calc_tx_hash Transaction_calc_witness_hash
    (block_transactions b)) as (L1 & L2 & L3).
  change (BlockView_transactions v) with ((fun '((data, hash), witness_hash) => mkTransactionView data hash witness_hash) <$>
    zip (zip (block_transactions b) (Transaction_calc_tx_hash <$> block_transactions b))
      (Transaction_calc_witness_hash <$> block_transactions b)).
  rewrite L1, L2, L3. reflexivity.
Qed.

Lemma contains_weaken st a b :
  Z.land a b = b -> BlockStatus_contains st a = true -> BlockStatus_contains st b = true.
Proof.
  unfold BlockStatus_contains. intros Hab Ha. apply Z.eqb_eq in Ha. apply Z.eqb_eq.
  rewrite <- Hab at 1. rewrite Z.land_assoc, Ha. exact Hab.
Qed.

(** The download of some blocks ends. *)
Lemma node_inflight now sh i :
  node_ok now sh -> inflight_ok now i ->
  (forall key st, inflight_states i !! key = Some st -> is_Some (headers sh key.2)) ->
  node_ok now (on_state (fun s => set_inflight s i) sh).
Proof.
  intros [N1 N2 N3 N4 N5 N6] Hi Hsub.
  assert (sync_ok consensus (on_state (fun s => set_inflight s i) sh)) as Hok by (by apply sync_ok_state; try apply N1).
  split; [done| |done|done|done|done]. by eapply orphans_grow.
Qed.

Lemma node_quiet now sh sh' :
  node_ok now sh -> sync_ok consensus sh' -> orphans_ok sh' -> quiet (state sh) (state sh') ->
  (forall hash, headers sh' hash = headers sh hash) -> node_ok now sh'.
Proof.
  intros [N1 N2 N3 N4 N5 N6] Hok Ho Q Hh. pose proof Q as [Q1 Q2 Q3 Q4]. split; rewrite ?Q3; [done|done|done| | |].
  - intros key st Hst. rewrite Hh. by eapply N4.
  - rewrite Q1, N5. symmetry. by apply quiet_counts.
  - rewrite Q2. unfold n_protected in *. by rewrite (quiet_counts (state sh)).
Qed.

Lemma node_status now sh hash st :
  node_ok now sh -> (BlockStatus_contains st HEADER_VALID = true -> is_Some (headers sh hash)) ->
  node_ok now (on_state (fun s => insert_block_status s hash st) sh).
Proof.
  intros Hn Hst. apply node_state; [done| |by repeat split|done].
  apply (sync_ok_status consensus sh hash st); [apply Hn|]. by rewrite view_is_Some.
Qed.

Lemma node_common now sh peer h :
  node_ok now sh -> known (headers sh) h ->
  node_ok now (on_peers (fun ps => set_last_common_header ps peer h) sh).
Proof.
  intros Hn Hk. apply node_state; [done| |apply calm_peers, core_common|done].
  apply (sync_ok_set_peers consensus sh); [apply Hn|]. apply peers_last_common; [done|apply Hn].
Qed.

Lemma new_block_received_node now sh b :
  node_ok now sh -> 0 <= now < 2 ^ 63 ->
  exists r s, new_block_received (E:=Error) (state sh) now b = Ok (r, s) /\ node_ok now (with_state sh s) /\
    get_header_view (with_state sh s) = get_header_view sh.
Proof.
  intros Hn Hnow. unfold new_block_received.
  destruct (remove_by_block_Ok (E:=Error) (inflight sh) now (no_inflight _ _ Hn) Hnow (BlockView_number b, block_hash b))
    as (r & i & -> & Hi & _ & Hr & Hst). step.
  assert (node_ok now (on_state (fun s => set_inflight s i) sh)) as Hn1.
  { apply node_inflight; [done|done|]. intros key st. rewrite Hst, lookup_delete_Some. intros [_ Hk].
    by eapply no_asked. }
  destruct r; (eexists _, _; split; [done|]); (split; [|by apply view_same]); [|done].
  apply (node_status now (on_state (fun s => set_inflight s i) sh)); [done|]. intros _.
  destruct (proj1 Hr eq_refl) as [st Hk]. exact (no_asked _ _ Hn _ _ Hk).
Qed.

(** The hash of a block stands for one header. *)
Definition block_honest sh (b : BlockView) : Prop := forall x,
  headers sh (block_hash b) = Some x -> x = BlockView_header b.

Lemma process_new_block_node now sh peer b :
  node_ok now sh -> block_honest sh b ->
  BlockView_new_unchecked (BlockView_header b) (BlockView_uncles b) (BlockView_transactions b)
    (block_proposals (block_data b)) = b ->
  match process_new_block sh now peer b with
  | Ok (_, sh') => node_ok now sh'
  | Err _ => False
  | Panic => chain_panics now
  end.
Proof.
  intros Hn Hhon Hview. unfold process_new_block. destruct (get_block_status _ sh _) as [st sh1] eqn:Hs.
  apply (status_node now) in Hs as (Hn1 & _ & _ & Hg & Hv); [|done].
  assert (BlockStatus_contains st HEADER_VALID = true -> known (headers sh1) (BlockView_header b)) as Hk.
  { intros Hc. destruct (Hv Hc) as [v Hv']. unfold known, headers_of. rewrite Hg.
    change (header_hash (BlockView_header b)) with (block_hash b). rewrite Hv'. cbn. f_equal. apply Hhon.
    unfold headers_of. by rewrite Hv'. }
  destruct (BlockStatus_contains st BLOCK_STORED) eqn:Hst.
  { apply node_common; [done|]. apply Hk. by eapply contains_weaken; [|exact Hst]. }
  destruct (BlockStatus_contains st HEADER_VALID); [|done]. specialize (Hk eq_refl).
  pose proof (insert_new_block_Ok consensus sh1 now peer b (no_sync _ _ Hn1) (no_orphans _ _ Hn1)) as Hi.
  pose proof (fun r sh' => insert_new_block_quiet sh1 now peer b r sh') as Hq.
  destruct (insert_new_block sh1 now peer b) as [[r sh']| |]; [|by apply Hi|by apply Hi].
  destruct Hi as (Hok & Ho & Hh & _); [by split|]. eapply node_quiet; [exact Hn1|done|done|by eapply Hq|done].
Qed.

Lemma BlockProcess_node now sh peer b :
  node_ok now sh -> 0 <= now < 2 ^ 63 -> block_honest sh (Block_into_view b) ->
  match BlockProcess_execute sh now peer (Block_into_view b) with
  | Ok (_, sh', _) => node_ok now sh'
  | Err _ => False
  | Panic => chain_panics now
  end.
Proof.
  intros Hn Hnow Hhon. unfold BlockProcess_execute. pose proof (into_view_round b) as Hview.
  cbn zeta in Hview. set (v := Block_into_view b) in *. clearbody v.
  destruct (new_block_received_node now sh v Hn Hnow) as (r & s & -> & Hn1 & Hg). step.
  assert (block_honest (with_state sh s) v) as Hhon1 by (unfold block_honest; by rewrite Hg).
  destruct r.
  - pose proof (process_new_block_node now (with_state sh s) peer v Hn1 Hhon1 Hview) as Hp.
    destruct (process_new_block _ _ _ _) as [[res sh2]| |]; step; [|done|done].
    destruct res; [done|]. by apply node_status.
  - destruct (contains_block_status _ _ _ _) as [stored sh2] eqn:Hc. unfold contains_block_status in Hc.
    destruct (get_block_status _ _ _) as [st sh3] eqn:Hs. injection Hc as <- <-.
    apply (status_node now) in Hs as (Hn2 & _ & _ & Hg2 & Hv); [|done].
    destruct (BlockStatus_contains st BLOCK_STORED) eqn:Hst; [|done]. apply node_common; [done|].
    destruct (Hv ltac:(by eapply contains_weaken; [|exact Hst])) as [w Hw].
    unfold known, headers_of. rewrite Hg2. change (header_hash (BlockView_header v)) with (block_hash v). rewrite Hw.
    cbn. f_equal. apply Hhon1. unfold headers_of. by rewrite Hw.
Qed.

(** ** Connections *)

(** The peers change, and the counters with them. *)
Lemma node_peers now sh ps started protected :
  node_ok now sh -> map_Forall (fun _ => peer_ok (known (headers sh))) ps ->
  started = n_started ps -> n_protected ps <= protected <= MAX_OUTBOUND_PEERS_TO_PROTECT_FROM_DISCONNECT ->
  node_ok now (with_state sh (set_started (set_protected (set_peers (state sh) ps) protected) started)).
Proof.
  intros [N1 N2 N3 N4 N5 N6] Hps Hs Hp.
  assert (sync_ok consensus (with_state sh (set_started (set_protected (set_peers (state sh) ps) protected) started)))
    as Hok by (apply sync_ok_state; [done|done|apply N1|apply N1|done]).
  split; [done| |done|done|done|done]. by eapply orphans_grow.
Qed.

(** A peer changes, not what counts of it. *)
Lemma node_put now sh peer p q :
  node_ok now sh -> peers (state sh) !! peer = Some p -> peer_core q = peer_core p ->
  peer_ok (known (headers sh)) q -> node_ok now (on_peers (insert peer q) sh).
Proof.
  intros Hn Hp Hc Hq. apply node_state; [done| |by apply calm_peers; eapply core_insert|done].
  apply (sync_ok_set_peers consensus sh); [apply Hn|]. apply map_Forall_insert_2; [done|apply Hn].
Qed.

Lemma node_peer now sh peer p :
  node_ok now sh -> peers (state sh) !! peer = Some p -> peer_ok (known (headers sh)) p.
Proof. intros Hn Hp. exact (so_peers _ _ (no_sync _ _ Hn) peer p Hp). Qed.

Lemma on_connected_node now sh peer outbound whitelist :
  node_ok now sh -> node_ok now (on_connected sh peer outbound whitelist).
Proof.
  intros Hn. unfold on_connected. set (protect := outbound && _).
  set (flags := mkPeerFlags outbound protect whitelist).
  set (ps := Peers_on_connected (peers (state sh)) peer flags).
  set (n := n_protected_outbound_peers (state sh) + Z.b2z protect).
  assert (node_ok now (with_state sh (set_started (set_protected (set_peers (state sh) ps) n) (n_sync_started (state sh)))))
    as Hgoal.
  { destruct (no_protected _ _ Hn) as [Hp1 Hp2]. pose proof (no_started _ _ Hn) as Hs. unfold n_started, n_protected in *.
    assert (n <= MAX_OUTBOUND_PEERS_TO_PROTECT_FROM_DISCONNECT) as Hmax.
    { subst n protect. destruct outbound; cbn [andb Z.b2z]; [|lia].
      destruct (Z.ltb_spec (n_protected_outbound_peers (state sh)) MAX_OUTBOUND_PEERS_TO_PROTECT_FROM_DISCONNECT);
        cbn [Z.b2z]; lia. }
    subst ps. unfold Peers_on_connected. destruct (peers (state sh) !! peer) as [p|] eqn:Hp; apply node_peers; try done.
    - apply map_Forall_insert_2; [|apply Hn]. by destruct (node_peer _ _ _ _ Hn Hp).
    - unfold n_started. rewrite (count_insert _ _ _ p) by done. cbn. lia.
    - unfold n_protected. rewrite (count_insert _ _ _ p) by done. cbn [peer_core set_flags peer_flags is_protect snd flags].
      subst n. destruct (is_protect _), protect; cbn [Z.b2z] in Hmax |- *; lia.
    - apply map_Forall_insert_2; [|apply Hn]. by split.
    - unfold n_started. rewrite count_new by done. cbn. lia.
    - unfold n_protected. rewrite count_new by done. cbn [peer_core PeerState_new peer_flags is_protect snd flags]. subst n.
      destruct protect; cbn [Z.b2z] in Hmax |- *; lia. }
  subst n. destruct protect; cbn in Hgoal |- *; [exact Hgoal|]. rewrite Z.add_0_r in Hgoal.
  by destruct (state sh).
Qed.

Lemma disconnected_node now sh peer :
  node_ok now sh -> exists sh', disconnected sh peer = Ok sh' /\ node_ok now sh'.
Proof.
  intros Hn. unfold disconnected, SyncState_disconnected.
  pose proof (remove_by_peer_Ok (inflight sh) now (no_inflight _ _ Hn) peer) as Hi.
  pose proof (remove_by_peer_sub (inflight sh) peer) as Hsub.
  destruct (remove_by_peer (inflight sh) peer) as [r i]. destruct Hi as [Hi _]. cbn [snd] in Hsub |- *.
  set (sh1 := on_state (fun s => set_inflight s i) sh).
  assert (node_ok now sh1) as Hn1.
  { apply node_inflight; [done|done|]. intros key st Hk. eapply no_asked; [exact Hn|by apply Hsub]. }
  cbn [peers set_inflight]. set (ps := peers (state sh)).
  assert (forall a b, a = n_started (delete peer ps) -> n_protected (delete peer ps) <= b <=
      MAX_OUTBOUND_PEERS_TO_PROTECT_FROM_DISCONNECT ->
    node_ok now (with_state sh (set_started (set_protected (set_peers (set_inflight (state sh) i) (delete peer ps)) b) a)))
    as Hset.
  { intros a b Ha Hb. apply (node_peers now sh1); [done| |done|done].
    apply map_Forall_delete, (so_peers _ _ (no_sync _ _ Hn1)). }
  destruct (no_protected _ _ Hn) as [Hp1 Hp2]. pose proof (no_started _ _ Hn) as Hs. fold ps in Hp1, Hs.
  destruct (ps !! peer) as [p|] eqn:Hp.
  - unfold n_started, n_protected in *. rewrite (count_delete _ ps peer p Hp) in Hp1. rewrite (count_delete _ ps peer p Hp) in Hs. cbn [peer_core fst snd] in Hp1, Hs.
    pose proof (count_peers_nonneg fst (delete peer ps)). pose proof (count_peers_nonneg (fun c => is_protect c.2) (delete peer ps)).
    unfold count_down. cbn [n_sync_started set_peers set_inflight].
    assert (exists a, (if sync_started p then n ← (if n_sync_started (state sh) =? 0 then Panic else Ok (n_sync_started (state sh) - 1));
        Ok (set_started (set_peers (set_inflight (state sh) i) (delete peer ps)) n)
      else Ok (set_peers (set_inflight (state sh) i) (delete peer ps))) =
      Ok (E:=Error) (set_started (set_peers (set_inflight (state sh) i) (delete peer ps)) a) /\
      a = count_peers fst (delete peer ps)) as (a & -> & Ha).
    { destruct (sync_started p); cbn in Hs.
      - rewrite (proj2 (Z.eqb_neq _ _)) by lia. step. eexists. split; [done|lia].
      - eexists (n_sync_started (state sh)). split; [by destruct (state sh)|lia]. }
    step. cbn [n_protected_outbound_peers set_started set_peers set_inflight].
    destruct (is_protect (peer_flags p)); cbn in Hp1.
    + rewrite (proj2 (Z.eqb_neq _ _)) by lia. step. eexists. split; [done|].
      apply (Hset a (n_protected_outbound_peers (state sh) - 1)); [done|]. unfold n_protected. lia.
    + eexists. split; [done|]. specialize (Hset a (n_protected_outbound_peers (state sh)) Ha ltac:(unfold n_protected; lia)).
      by destruct (state sh).
  - eexists. split; [done|]. specialize (Hset (n_sync_started (state sh)) (n_protected_outbound_peers (state sh))).
    rewrite delete_id in Hset |- * by done. specialize (Hset Hs ltac:(lia)). by destruct (state sh).
Qed.

(** ** Timers *)

(** A time to which the timeouts can be added. *)
Definition time_ok (now : Z) : Prop := 0 <= now < 2 ^ 62.

Lemma suspend_sync_node now sh peer p q :
  node_ok now sh -> time_ok now -> peers (state sh) !! peer = Some p -> peer_core q = peer_core p ->
  peer_ok (known (headers sh)) q -> sync_started q = true ->
  exists s, suspend_sync (E:=Error) (state sh) now peer q = Ok s /\ node_ok now (with_state sh s).
Proof.
  intros Hn Hnow Hp Hc Hq Hs. unfold suspend_sync, PeerState_suspend_sync, u64_add, SUSPEND_SYNC_TIME.
  unfold time_ok in Hnow. rewrite fit_in_range by zlia. step. unfold count_down.
  pose proof (no_started _ _ Hn) as Hst. destruct (no_protected _ _ Hn) as [Hp1 Hp2]. unfold n_started, n_protected in *.
  assert (sync_started p = true) as Hsp by (unfold peer_core in Hc; congruence).
  assert (peer_flags q = peer_flags p) as Hfl by (unfold peer_core in Hc; congruence).
  pose proof (count_delete fst _ _ _ Hp) as Hcd. unfold peer_core in Hcd. cbn in Hcd. rewrite Hsp in Hcd. cbn in Hcd.
  pose proof (count_peers_nonneg fst (delete peer (peers (state sh)))).
  rewrite (proj2 (Z.eqb_neq _ _)) by lia. step. eexists. split; [done|]. set (ps := insert peer _ _).
  enough (node_ok now (with_state sh (set_started (set_protected (set_peers (state sh) ps)
    (n_protected_outbound_peers (state sh))) (n_sync_started (state sh) - 1)))) as Hgoal by (by destruct (state sh)).
  subst ps. apply node_peers; [done| | |].
  - apply map_Forall_insert_2; [|apply Hn]. destruct Hq as [Q1 Q2 Q3 Q4]. by split.
  - unfold n_started. rewrite (count_insert _ _ _ p) by done. unfold peer_core. cbn. rewrite Hsp. cbn. lia.
  - unfold n_protected. rewrite (count_insert _ _ _ p) by done. unfold peer_core. cbn. rewrite Hfl. lia.
Qed.

Lemma InIBD_node now sh peer :
  node_ok now sh -> time_ok now ->
  exists status sh' sent, InIBDProcess_execute send_ok sh now peer = Ok (status, sh', sent) /\ node_ok now sh'.
Proof.
  intros Hn Hnow. unfold InIBDProcess_execute. destruct (peers (state sh) !! peer) as [p|] eqn:Hp; [|by eexists _, sh, _].
  destruct (sync_started p) eqn:Hs; cbn [negb]; [|by eexists _, sh, _].
  destruct (_ && _); [by eexists _, sh, _|].
  destruct (suspend_sync_node now sh peer p p) as (s & -> & Hn'); [done|done|done|done|by eapply node_peer|done|].
  step. by eexists _, (with_state sh s), _.
Qed.

Lemma getheaders_node now sh peer h :
  node_ok now sh -> known (headers sh) h ->
  exists s sent, send_getheaders_to_peer consensus (active_chain sh) sh now peer h = Ok (with_state sh s, sent) /\
    node_ok now (with_state sh s) /\ header_map s = header_map (state sh) /\ peers s = peers (state sh).
Proof.
  intros Hn Hk.
  destruct (send_getheaders_Ok consensus Hcount sh now peer h (no_sync _ _ Hn) Hk) as (s & sent & Hs & Hok & Hm & _ & Hp & _).
  exists s, sent. split_and!; [done| |done|done]. apply node_state; [done|done| |done]. by eapply send_getheaders_calm in Hs.
Qed.

(** *** Starting to synchronise *)

Lemma mark_started_node now sh tip peer :
  node_ok now sh -> time_ok now ->
  exists s, mark_started now tip sh peer = Ok (with_state sh s) /\ node_ok now (with_state sh s) /\
    header_map s = header_map (state sh).
Proof.
  intros Hn Hnow. unfold mark_started.
  assert (exists s, Ok (E:=Error) sh = Ok (with_state sh s) /\ node_ok now (with_state sh s) /\
    header_map s = header_map (state sh)) as Hsame by (exists (state sh); by destruct sh).
  destruct (peers (state sh) !! peer) as [p|] eqn:Hp; [|exact Hsame].
  destruct (sync_started p) eqn:Hs; [exact Hsame|].
  unfold predict_headers_sync_time, u64_add. unfold time_ok in Hnow.
  set (e := Z.min MAX_HEADERS_LEN (saturating_sub now (HeaderView_timestamp tip) / POW_SPACE)).
  assert (0 <= e <= 2000) as He.
  { subst e. unfold MAX_HEADERS_LEN, POW_SPACE.
    assert (0 <= saturating_sub now (HeaderView_timestamp tip) / 10000) by (apply Z.div_pos; zlia). lia. }
  clearbody e. unfold HEADERS_DOWNLOAD_TIMEOUT_BASE, HEADERS_DOWNLOAD_TIMEOUT_PER_HEADER.
  rewrite fit_in_range by zlia. step. rewrite fit_in_range by zlia. step. eexists. split; [done|]. split; [|done].
  pose proof (no_started _ _ Hn) as Hst. destruct (no_protected _ _ Hn) as [Hp1 Hp2]. unfold n_started, n_protected in *.
  set (q := start_sync p _).
  enough (node_ok now (with_state sh (set_started (set_protected (set_peers (state sh) (<[peer := q]> (peers (state sh))))
    (n_protected_outbound_peers (state sh))) (n_sync_started (state sh) + 1)))) as Hgoal by (by destruct (state sh)).
  apply node_peers; [done| | |].
  - apply map_Forall_insert_2; [|apply Hn]. destruct (node_peer _ _ _ _ Hn Hp) as [Q1 Q2 Q3 Q4]. by split.
  - unfold n_started. rewrite (count_insert _ _ _ p) by done. unfold peer_core. cbn. rewrite Hs. cbn. lia.
  - unfold n_protected. rewrite (count_insert _ _ _ p) by done. unfold peer_core. cbn. lia.
Qed.

Lemma start_peer_node now sh tip peer :
  node_ok now sh -> time_ok now -> known (headers sh) tip ->
  exists s sent, start_peer consensus (active_chain sh) now tip sh peer = Ok (with_state sh s, sent) /\
    node_ok now (with_state sh s) /\ header_map s = header_map (state sh).
Proof.
  intros Hn Hnow Hk. unfold start_peer.
  destruct (mark_started_node now sh tip peer Hn Hnow) as (s & -> & Hn1 & Hm1).
  step. destruct (getheaders_node now (with_state sh s) peer tip Hn1) as (s2 & sent & Hs2 & Hn2 & Hm2 & _).
  { unfold known. by rewrite (view_same sh (with_state sh s)). }
  exists s2, sent. split; [exact Hs2|]. split; [done|]. by rewrite Hm2.
Qed.

Lemma start_peers_node now ibd tip ids sh :
  node_ok now sh -> time_ok now -> known (headers sh) tip ->
  exists sh' sent, start_peers consensus (active_chain sh) now ibd tip sh ids = Ok (sh', sent) /\ node_ok now sh'.
Proof.
  intros Hn Hnow. revert sh Hn. induction ids as [|peer ids IH]; intros sh Hn Hk; cbn [start_peers]; [by exists sh, []|].
  destruct (_ && _); [by exists sh, []|].
  destruct (start_peer_node now sh tip peer Hn Hnow Hk) as (s & sent & -> & Hn1 & Hm1). step.
  destruct (IH (with_state sh s) Hn1) as (sh2 & sent2 & Hs2 & Hn2).
  { unfold known. by rewrite (view_same sh (with_state sh s)). }
  change (active_chain (with_state sh s)) with (active_chain sh) in Hs2. rewrite Hs2. step. by eexists _, _.
Qed.

Lemma initial_download_node now sh t b sh' :
  node_ok now sh -> is_initial_block_download (active_chain sh) sh t = (b, sh') ->
  node_ok now sh' /\ active_chain sh' = active_chain sh /\ get_header_view sh' = get_header_view sh.
Proof.
  intros Hn Hi. pose proof (initial_download_calm _ _ _ _ _ Hi) as Hc.
  apply (initial_download_ok consensus) in Hi as (Hok & s & -> & Hm & _); [|apply Hn].
  split_and!; [by apply node_state|done|by apply view_same].
Qed.

Lemma start_sync_headers_node now sh :
  node_ok now sh -> time_ok now ->
  exists sh' sent, start_sync_headers consensus sh now = Ok (sh', sent) /\ node_ok now sh'.
Proof.
  intros Hn Hnow. unfold start_sync_headers. destruct (is_initial_block_download _ sh now) as [ibd sh1] eqn:Hi.
  apply (initial_download_node now) in Hi as (Hn1 & Hac & Hg); [|done]. rewrite <- Hac.
  apply start_peers_node; [done|done|]. case_match; [apply (so_tip consensus), Hn1|apply Hn1].
Qed.

(** *** Eviction *)

Lemma evict_headers_ok K now initial p go q :
  evict_headers now initial p = (go, q) -> peer_ok K p -> peer_ok K q /\ peer_core q = peer_core p.
Proof. unfold evict_headers. intros He [P1 P2 P3 P4]. repeat case_match; simplify_eq; by repeat split. Qed.

Lemma evict_chain_node now sh peer p q :
  node_ok now sh -> time_ok now -> peers (state sh) !! peer = Some p -> peer_core q = peer_core p ->
  peer_ok (known (headers sh)) q ->
  exists s sent out, evict_chain consensus (active_chain sh) now sh peer q = Ok (with_state sh s, sent, out) /\
    node_ok now (with_state sh s).
Proof.
  intros Hn Hnow Hp Hc Hq. unfold evict_chain.
  assert (forall c b, peer_core (set_disconnect (set_chain_sync q c) b) = peer_core p) as Hcore by (intros; exact Hc).
  assert (forall x, peer_core x = peer_core p -> peer_ok (known (headers sh)) x ->
    forall (sent : list SyncAction) (out : bool), exists s sent' out',
      Ok (E:=Error) (on_peers (insert peer x) sh, sent, out) = Ok (with_state sh s, sent', out') /\
      node_ok now (with_state sh s)) as Hput.
  { intros x Hxc Hx sent out. eexists _, sent, out. split; [reflexivity|]. by apply (node_put now sh peer p). }
  pose proof Hq as [Q1 Q2 Q3 Q4]. unfold time_ok in Hnow.
  destruct (knows_at_least q (Some _)).
  { destruct (negb _); apply Hput; try done; by split. }
  destruct ((cs_timeout (chain_sync q) =? 0) || _).
  { unfold u64_add, CHAIN_SYNC_TIMEOUT. rewrite fit_in_range by zlia. step. apply Hput; [done|].
    split; cbn; [done|done| |by eexists]. intros h [= <-]. apply (so_tip consensus), Hn. }
  destruct ((0 <? cs_timeout (chain_sync q)) && _) eqn:Hpast; [|by apply Hput].
  apply andb_true_iff in Hpast as [Hpast%Z.ltb_lt _].
  destruct (sent_getheaders (chain_sync q)).
  - destruct (_ || _); [|apply Hput; [done|by split]].
    destruct (sync_started q) eqn:Hs; [|by apply Hput].
    destruct (suspend_sync_node now sh peer p q) as (s & -> & Hn'); try done. step. by eexists s, _, _.
  - unfold u64_add, EVICTION_HEADERS_RESPONSE_TIME. rewrite fit_in_range by zlia. step.
    destruct (Q4 ltac:(lia)) as [h Hh]. rewrite Hh. step. set (x := set_chain_sync q _).
    assert (node_ok now (on_peers (insert peer x) sh)) as Hn1.
    { apply (node_put now sh peer p); [done|done|done|]. split; cbn; [done|done| |by eexists]. intros h' [= <-]. by apply Q3. }
    destruct (getheaders_node now (on_peers (insert peer x) sh) peer h Hn1) as (s & sent & Hs & Hn2 & _).
    { unfold known. rewrite (view_same sh) by done. by apply Q3. }
    change (active_chain (on_peers (insert peer x) sh)) with (active_chain sh) in Hs. rewrite Hs. step.
    by eexists s, _, _.
Qed.

Lemma evict_peer_node now initial sh peer :
  node_ok now sh -> time_ok now ->
  exists s sent out, evict_peer consensus (active_chain sh) now initial sh peer = Ok (with_state sh s, sent, out) /\
    node_ok now (with_state sh s).
Proof.
  intros Hn Hnow. unfold evict_peer. destruct (peers (state sh) !! peer) as [p|] eqn:Hp.
  2: { exists (state sh), [], false. by destruct sh. }
  destruct (evict_headers now initial p) as [go q] eqn:He.
  destruct (evict_headers_ok _ _ _ _ _ _ He (node_peer _ _ _ _ Hn Hp)) as [Hq Hc].
  destruct (negb go); [|destruct (is_outbound _)].
  - eexists _, _, _. split; [reflexivity|]. by apply (node_put now sh peer p).
  - by apply (evict_chain_node now sh peer p).
  - eexists _, _, _. split; [reflexivity|]. by apply (node_put now sh peer p).
Qed.

Lemma eviction_node now sh :
  node_ok now sh -> time_ok now -> exists sh' sent, eviction consensus sh now = Ok (sh', sent) /\ node_ok now sh'.
Proof.
  intros Hn Hnow. unfold eviction. generalize ((map_iter (peers (state sh))).*1) (is_initial_header_sync (state sh) now).
  intros ids initial.
  assert (forall ids sh1, node_ok now sh1 -> active_chain sh1 = active_chain sh -> exists sh' sent out,
    evict_loop consensus (active_chain sh) now initial sh1 ids = Ok (sh', sent, out) /\ node_ok now sh') as Hloop.
  { intros l. induction l as [|peer l IH]; intros sh1 Hn1 Hac; cbn [evict_loop]; [by exists sh1, [], []|].
    destruct (evict_peer_node now initial sh1 peer Hn1 Hnow) as (s & sent & out & Hs & Hn2). rewrite Hac in Hs.
    rewrite Hs. step. destruct (IH (with_state sh1 s) Hn2 Hac) as (sh' & sent' & ev & -> & Hn3). step.
    by eexists _, _, _. }
  destruct (Hloop ids sh Hn eq_refl) as (sh' & sent & out & -> & Hn'). step. by eexists _, _.
Qed.

(** *** Fetching blocks *)

Lemma insert_node now sh peer h :
  node_ok now sh -> time_ok now -> is_Some (headers sh (header_hash h)) ->
  exists added i, InflightBlocks_insert (E:=Error) (inflight sh) now peer (HeaderView_number h, header_hash h) = Ok (added, i) /\
    node_ok now (on_state (fun s => set_inflight s i) sh).
Proof.
  intros Hn Hnow Hh.
  destruct (insert_Ok (E:=Error) (inflight sh) now (no_inflight _ _ Hn) ltac:(unfold time_ok in Hnow; lia) peer
    (HeaderView_number h, header_hash h)) as (added & i & Hi & Hiok & _ & _ & Ht & Hf).
  exists added, i. split; [done|]. apply node_inflight; [done|done|]. intros key st Hk. destruct added.
  - rewrite Ht in Hk by done. apply lookup_insert_Some in Hk as [[<- _]|[_ Hk]]; [done|by eapply no_asked].
  - rewrite Hf in Hk by done. by eapply no_asked.
Qed.

Lemma fetch_span_node now peer span sh h fetch :
  node_ok now sh -> time_ok now -> known (headers sh) h ->
  exists r sh', fetch_span span (active_chain sh) now peer sh h fetch = Ok (r, sh') /\ node_ok now sh' /\
    active_chain sh' = active_chain sh /\ get_header_view sh' = get_header_view sh.
Proof.
  intros Hn Hnow. revert sh h fetch Hn. induction span as [|span IH]; intros sh h fetch Hn Hk; cbn [fetch_span].
  { by eexists _, sh. }
  destruct (get_block_status _ sh _) as [st sh1] eqn:Hs.
  apply (status_node now) in Hs as (Hn1 & Hac1 & _ & Hg1 & _); [|done].
  destruct (BlockStatus_contains st BLOCK_STORED); [by eexists _, sh1|].
  assert (exists added sh2, (if BlockStatus_contains st BLOCK_RECEIVED then Ok (false, sh1)
    else '(added, i) ← InflightBlocks_insert (inflight sh1) now peer (HeaderView_number h, header_hash h);
      Ok (added, on_state (fun s => set_inflight s i) sh1)) = Ok (E:=Error) (added, sh2) /\ node_ok now sh2 /\
    active_chain sh2 = active_chain sh /\ get_header_view sh2 = get_header_view sh) as (added & sh2 & -> & Hn2 & Hac2 & Hg2).
  { destruct (BlockStatus_contains st BLOCK_RECEIVED); [by eexists _, sh1|].
    destruct (insert_node now sh1 peer h Hn1 Hnow) as (added & i & -> & Hn2).
    { unfold headers_of. rewrite Hg1. unfold known, headers_of in Hk. by rewrite Hk. }
    step. eexists _, _. split; [done|]. split_and!; [done|done|]. by rewrite (view_same sh1). }
  step. rewrite Hg2. destruct (get_header_view sh (HeaderView_parent_hash h)) as [p|] eqn:Hp; [|by eexists _, sh2].
  rewrite <- Hac2. destruct (IH sh2 (inner p) (if added then fetch ++ [h] else fetch) Hn2) as (r & sh3 & -> & Hn3 & Hac3 & Hg3).
  { rewrite Hg2. eapply known_get; [apply (so_tree _ _ (no_sync _ _ Hn))|]. unfold headers_of. by rewrite Hp. }
  exists r, sh3. by rewrite Hac3, Hg3.
Qed.

Lemma node_ancestor now sh h number :
  node_ok now sh -> known (headers sh) h -> 0 <= number <= HeaderView_number h ->
  exists a, active_get_ancestor (active_chain sh) sh (header_hash h) number = Ok (Some a) /\ known (headers sh) a.
Proof.
  intros Hn Hk Hnum. pose proof (no_sync _ _ Hn) as Hok. pose proof (so_tree _ _ Hok) as HT.
  rewrite (active_ancestor_Ok (active_chain sh) sh HT (so_main _ _ Hok) h number Hk Hnum).
  destruct (ancestor_at_total _ (tr_linked _ HT) h number Hk Hnum) as (a & -> & Ha & _). by exists a.
Qed.

Lemma fetch_loop_node now peer b n_fetch last fuel start sh fetch :
  node_ok now sh -> time_ok now -> known (headers sh) b -> 0 <= start -> last <= HeaderView_number b ->
  last - start + 1 <= Z.of_nat fuel ->
  exists r sh', fetch_loop fuel (active_chain sh) now peer (header_hash b) n_fetch start last sh fetch = Ok (r, sh') /\
    node_ok now sh' /\ active_chain sh' = active_chain sh /\ get_header_view sh' = get_header_view sh.
Proof.
  intros Hn Hnow. revert start sh fetch Hn. induction fuel as [|fuel IH]; intros start sh fetch Hn Hb Hs Hl Hf;
    cbn [fetch_loop]; (destruct ((Z.of_nat (length fetch) <? n_fetch) && (start <=? last)) eqn:Hc;
      [apply andb_true_iff in Hc as [Hc1%Z.ltb_lt Hc2%Z.leb_le]|by eexists _, sh]); [lia|].
  set (span := Z.min (last - start + 1) (n_fetch - Z.of_nat (length fetch))).
  assert (1 <= span <= last - start + 1) as Hspan by lia. clearbody span.
  destruct (node_ancestor now sh b (start + span - 1) Hn Hb) as (a & -> & Ha); [lia|]. step.
  destruct (fetch_span_node now peer (Z.to_nat span) sh a fetch Hn Hnow Ha) as (r & sh1 & -> & Hn1 & Hac1 & Hg1). step.
  destruct r as [fetch1|]; [|by eexists _, sh1]. rewrite <- Hac1.
  destruct (IH (start + span) sh1 fetch1 Hn1) as (r & sh2 & -> & Hn2 & Hac2 & Hg2); [by rewrite Hg1|lia|done|lia|].
  exists r, sh2. by rewrite Hac2, Hg2.
Qed.

Lemma fetch_from_node now peer sh best fixed :
  node_ok now sh -> time_ok now -> known (headers sh) (inner best) -> known (headers sh) fixed ->
  exists r sh', fetch_from (active_chain sh) now peer sh best fixed = Ok (r, sh') /\ node_ok now sh'.
Proof.
  intros Hn Hnow Hb Hfix. pose proof (tr_linked _ (so_tree _ _ (no_sync _ _ Hn))) as HL.
  pose proof (ln_number _ HL _ _ Hfix) as Hfn. pose proof (ln_number _ HL _ _ Hb) as Hbn.
  unfold fetch_from, u64_add, BLOCK_DOWNLOAD_WINDOW. rewrite fit_in_range by zlia. step. rewrite fit_in_range by zlia. step.
  set (start := HeaderView_number fixed + 1). set (lastn := Z.min (view_number best) _).
  destruct (fetch_loop_node now peer (inner best) (Z.min (saturating_sub lastn start + 1) (peer_can_fetch_count (inflight sh) peer))
    lastn (Z.to_nat (lastn - start + 1)) start sh [] Hn Hnow Hb) as (r & sh1 & Hr & Hn1 & Hac1 & _);
    [lia|unfold lastn, view_number; lia|lia|].
  unfold view_hash. rewrite Hr. step. destruct r as [fetch|]; [|by eexists _, sh1].
  set (sorted := sort_by_key HeaderView_number fetch).
  assert (exists sh2, match last sorted with
      | Some header => if tip_number (active_chain sh) <? saturating_sub (HeaderView_number header) CHECK_POINT_WINDOW
          then inflight ← mark_slow_block (inflight sh1) now (tip_number (active_chain sh));
            Ok (on_state (fun s => set_inflight s inflight) sh1)
          else Ok sh1
      | None => Ok sh1 end = Ok (E:=Error) sh2 /\ node_ok now sh2) as (sh2 & -> & Hn2).
  { assert (exists sh2, Ok (E:=Error) sh1 = Ok sh2 /\ node_ok now sh2) as Hsame by (by exists sh1).
    destruct (last sorted); [|exact Hsame]. destruct (_ <? saturating_sub _ _); [|exact Hsame].
    pose proof (ln_number _ HL _ _ (so_tip _ _ (no_sync _ _ Hn))) as Ht.
    destruct (mark_slow_block_Ok (E:=Error) (inflight sh1) now (no_inflight _ _ Hn1) ltac:(unfold time_ok in Hnow; lia)
      (tip_number (active_chain sh)) Ht) as (i & Hi & Hiok & _). rewrite Hi. step. eexists. split; [done|].
    apply node_inflight; [done|done|]. rewrite (mark_slow_block_states _ _ _ _ Hi). apply Hn1. }
  step. by eexists _, sh2.
Qed.

Lemma last_common_node now sh lc best :
  node_ok now sh -> known (headers sh) lc -> known (headers sh) best ->
  exists r, last_common_ancestor (active_chain sh) sh lc best = Ok r /\ forall c, r = Some c -> known (headers sh) c.
Proof.
  intros Hn Hl Hb. destruct (decide (HeaderView_number lc <= HeaderView_number best)) as [Hle|Hgt].
  - pose proof (no_sync _ _ Hn) as Hok.
    destruct (last_common_Ok (active_chain sh) sh (so_tree _ _ Hok) (so_main _ _ Hok) consensus (so_genesis _ _ Hok)
      lc best Hl Hb Hle) as (c & -> & Hc & _). eexists. split; [done|]. by intros c' [= <-].
  - exists None. split; [|done]. unfold last_common_ancestor, active_get_ancestor.
    destruct (view_of_header _ _ Hb) as (v & Hv & Hiv). rewrite Hv. unfold get_ancestor, view_number. rewrite Hiv.
    rewrite (proj2 (Z.ltb_lt _ _)) by lia. done.
Qed.

Lemma fetcher_last_common_node now sh peer best :
  node_ok now sh -> known (headers sh) (inner best) ->
  exists r, fetcher_last_common (active_chain sh) sh peer best = Ok r /\ forall c, r = Some c -> known (headers sh) c.
Proof.
  intros Hn Hb. pose proof (no_sync _ _ Hn) as Hok. pose proof (so_tip _ _ Hok) as Htip. unfold fetcher_last_common.
  match goal with |- exists r, match ?m with _ => _ end = _ /\ _ => destruct m as [lc|] eqn:Hlc; [|by exists None] end.
  apply (last_common_node now); [done| |done]. unfold get_last_common_header in Hlc.
  destruct (peers (state sh) !! peer ≫= last_common_header) as [h|] eqn:Hh.
  - apply bind_Some in Hh as (p & Hp & Hh).
    destruct (_ <? _); injection Hlc as <-; [done|]. by apply (po_common _ _ (node_peer _ _ _ _ Hn Hp)).
  - destruct (_ <? _); [|by injection Hlc as <-]. apply bind_Some in Hlc as (hash & _ & Hs).
    eapply known_get; [apply (so_tree _ _ Hok)|]. exact (sync_ok_stored _ _ Hok _ _ Hs).
Qed.

Lemma try_update_node now sh peer :
  node_ok now sh -> node_ok now (on_state (fun s => try_update_best_known_with_unknown_header_list s peer) sh).
Proof.
  intros Hn. unfold on_state, try_update_best_known_with_unknown_header_list. set (fuel := S _).
  destruct (update_known_ok consensus sh peer fuel (peers (state sh)) (no_sync _ _ Hn)) as (ps & Hps & Hpok & Hc);
    [apply Hn|]. replace (set_peers (state sh) (peers (state sh))) with (state sh) in Hps by (by destruct (state sh)).
  rewrite Hps. apply node_state; [done| |by apply calm_peers|done].
  apply (sync_ok_set_peers consensus sh); [apply Hn|done].
Qed.

Lemma BlockFetcher_node now sh peer ibd :
  node_ok now sh -> time_ok now -> exists r sh', BlockFetcher_fetch sh now peer ibd = Ok (r, sh') /\ node_ok now sh'.
Proof.
  intros Hn Hnow. unfold BlockFetcher_fetch. destruct (_ =? 0); [by eexists _, sh|].
  assert (node_ok now (if ibd then on_state (fun s => try_update_best_known_with_unknown_header_list s peer) sh else sh))
    as Hn1 by (destruct ibd; [by apply try_update_node|done]).
  assert (active_chain (if ibd then on_state (fun s => try_update_best_known_with_unknown_header_list s peer) sh else sh) =
    active_chain sh) as Hac by (by destruct ibd).
  set (sh1 := if ibd then _ else sh) in *. clearbody sh1. rewrite <- Hac.
  unfold get_best_known_header. destruct (peers (state sh1) !! peer ≫= best_known_header) as [best|] eqn:Hb; [|by eexists _, sh1].
  apply bind_Some in Hb as (p & Hp & Hb). pose proof (po_best _ _ (node_peer _ _ _ _ Hn1 Hp) _ Hb) as Hk.
  destruct (negb _); [by eexists _, sh1|].
  destruct (fetcher_last_common_node now sh1 peer best Hn1 Hk) as (r & -> & Hr). step.
  destruct r as [fixed|]; [|by eexists _, sh1]. destruct (decide _); [by eexists _, sh1|].
  apply fetch_from_node; [done|done|done|by apply Hr].
Qed.

Lemma run_fetch_node now ids sh :
  node_ok now sh -> time_ok now -> exists sh' sent, run_fetch sh now ids = Ok (sh', sent) /\ node_ok now sh'.
Proof.
  intros Hn Hnow. revert sh Hn. induction ids as [|peer ids IH]; intros sh Hn; cbn [run_fetch]; [by exists sh, []|].
  destruct (BlockFetcher_node now sh peer true Hn Hnow) as (r & sh1 & -> & Hn1). step.
  destruct (IH sh1 Hn1) as (sh2 & sent & -> & Hn2). step. by eexists sh2, _.
Qed.

Lemma find_blocks_node now sh ibd can_fetch :
  node_ok now sh -> time_ok now ->
  exists sh' sent ids, find_blocks_to_fetch sh now ibd can_fetch = Ok (sh', sent, ids) /\ node_ok now sh'.
Proof.
  intros Hn Hnow. unfold find_blocks_to_fetch.
  pose proof (ln_number _ (tr_linked _ (so_tree _ _ (no_sync _ _ Hn))) _ _ (so_tip _ _ (no_sync _ _ Hn))) as Ht.
  destruct (prune_Ok (E:=Error) (inflight sh) now (tip_number (active_chain sh)) (no_inflight _ _ Hn)
    ltac:(unfold time_ok in Hnow; lia) Ht) as (pruned & i & -> & Hi & _ & _ & Hsub). step.
  assert (node_ok now (on_state (fun s => set_inflight s i) sh)) as Hn1.
  { apply node_inflight; [done|done|]. intros key st [Hk _]%Hsub. by eapply no_asked. }
  destruct (ibd && negb can_fetch); by eexists _, _, _.
Qed.

(** ** The protocol *)

Lemma notify_node can_fetch now sh token :
  node_ok now sh -> time_ok now ->
  exists sh' sent ids, notify consensus can_fetch sh now token = Ok (sh', sent, ids) /\ node_ok now sh'.
Proof.
  intros Hn Hnow. unfold notify. destruct (bool_decide _); [by eexists sh, _, _|].
  destruct (token =? SEND_GET_HEADERS_TOKEN).
  { destruct (start_sync_headers_node now sh Hn Hnow) as (sh' & sent & -> & Hn'). step. by eexists sh', _, _. }
  destruct (token =? IBD_BLOCK_FETCH_TOKEN).
  { destruct (is_initial_block_download _ sh now) as [ibd sh1] eqn:Hi.
    apply (initial_download_node now) in Hi as (Hn1 & _); [|done]. destruct ibd; [by apply find_blocks_node|].
    eexists _, _, _. split; [done|].
    assert (node_ok now (on_state (fun s => set_inflight s (set_adjustment (inflight_blocks s) false)) sh1)) as Hn2.
    { apply (node_inflight now sh1); [done| |apply Hn1]. by destruct (no_inflight _ _ Hn1) as [? []]. }
    apply node_state; [done| |apply calm_peers|done].
    - apply (sync_ok_set_peers consensus (on_state _ sh1)); [apply Hn2|]. intros k p. unfold clear_unknown_list.
      rewrite lookup_fmap_Some. intros (q & <- & Hq). by destruct (so_peers _ _ (no_sync _ _ Hn2) k q Hq).
    - unfold clear_unknown_list. rewrite <- map_fmap_compose. done. }
  destruct (token =? NOT_IBD_BLOCK_FETCH_TOKEN).
  { destruct (is_initial_block_download _ sh now) as [ibd sh1] eqn:Hi.
    apply (initial_download_node now) in Hi as (Hn1 & _); [|done]. destruct ibd; [by eexists sh1, _, _|].
    by apply find_blocks_node. }
  destruct (token =? TIMEOUT_EVICTION_TOKEN); [|by eexists sh, _, _].
  destruct (eviction_node now sh Hn Hnow) as (sh' & sent & -> & Hn'). step. by eexists sh', _, _.
Qed.

(** What is assumed of a message: the fields of headers are within their widths,
    the total work stays below 2^256, and no two headers have one hash. *)
Definition message_ok sh (peer : PeerIndex) (message : SyncMessage) : Prop :=
  match message with
  | MsgSendHeaders hs => headers_msg sh peer (Header_into_view <$> hs)
  | MsgSendBlock b => block_honest sh (Block_into_view b)
  | _ => True
  end.

Lemma received_node paused now sh peer message :
  node_ok now sh -> time_ok now -> (forall m, message = Some m -> message_ok sh peer m) ->
  match received consensus send_ok paused sh now peer message with
  | Ok (sh', _) => node_ok now sh'
  | Err _ => False
  | Panic => chain_panics now
  end.
Proof.
  intros Hn Hnow Hm. unfold received. destruct message as [m|]; [|done]. specialize (Hm m eq_refl).
  unfold process. assert (match try_process consensus send_ok paused sh now peer m with
    | Ok (_, sh', _) => node_ok now sh' | Err _ => False | Panic => chain_panics now end) as Hp.
  2: { destruct (try_process _ _ _ _ _ _ _) as [[[status sh'] sent]| |]; step; [|done|done]. by destruct (should_ban status). }
  destruct m as [stop locator|hs|hashes|b| |]; cbn [try_process message_ok] in *.
  - destruct (node_answers now sh _ Hn (GetHeaders_answers consensus send_ok sh now peer locator stop (no_sync _ _ Hn)))
      as (status & sh' & sent & -> & Hn'). done.
  - destruct (HeadersProcess_node now sh now peer (Header_into_view <$> hs) Hn) as (status & sh' & sent & Hs & Hn'); [|exact Hm|by rewrite Hs].
    unfold time_ok in Hnow. unfold ALLOWED_FUTURE_BLOCKTIME. zlia.
  - unfold GetBlocksProcess_execute. destruct (_ <? _); [done|].
    destruct (send_blocks_node now paused sh peer (take (Z.to_nat INIT_BLOCKS_IN_TRANSIT_PER_PEER) hashes) Hn)
      as (status & sh' & sent & -> & Hn'). done.
  - destruct (Block_check_data b); [|done]. apply BlockProcess_node; [done|unfold time_ok in Hnow; lia|done].
  - destruct (InIBD_node now sh peer Hn Hnow) as (status & sh' & sent & -> & Hn'). done.
  - done.
Qed.

(** ** Runs *)

(** What the network and the timers ask of the synchronizer, and the thread that
    fetches blocks. *)
Inductive SyncEvent :=
| EvConnected (peer : PeerIndex) (outbound whitelist : bool)
| EvDisconnected (peer : PeerIndex)
| EvReceived (paused : Byte32 -> bool) (peer : PeerIndex) (message : option SyncMessage)
| EvNotify (can_fetch_block : bool) (token : Z)
| EvFetch (ids : list PeerIndex).

Definition sync_step (now : Z) sh (e : SyncEvent) : outcome Error (Shared * list SyncAction) :=
  match e with
  | EvConnected peer outbound whitelist => Ok (on_connected sh peer outbound whitelist, [])
  | EvDisconnected peer => sh ← disconnected sh peer; Ok (sh, [])
  | EvReceived paused peer message => received consensus send_ok paused sh now peer message
  | EvNotify can_fetch token => '(sh, sent, _) ← notify consensus can_fetch sh now token; Ok (sh, sent)
  | EvFetch ids => run_fetch sh now ids
  end.

Definition event_ok sh (e : SyncEvent) : Prop :=
  match e with EvReceived _ peer (Some message) => message_ok sh peer message | _ => True end.

Lemma sync_step_node now sh e :
  node_ok now sh -> time_ok now -> event_ok sh e ->
  match sync_step now sh e with
  | Ok (sh', _) => node_ok now sh'
  | Err _ => False
  | Panic => chain_panics now
  end.
Proof.
  intros Hn Hnow He. destruct e as [peer outbound whitelist|peer|paused peer m|can_fetch token|ids]; cbn [sync_step].
  - by apply on_connected_node.
  - by destruct (disconnected_node now sh peer Hn) as (sh' & -> & Hn').
  - apply received_node; [done|done|]. by intros m' ->.
  - by destruct (notify_node can_fetch now sh token Hn Hnow) as (sh' & sent & ids & -> & Hn').
  - by destruct (run_fetch_node now ids sh Hn Hnow) as (sh' & sent & -> & Hn').
Qed.

(** A chain service to start from. *)
Record startable (c : C) : Prop := {
  st_inv : port_inv c;
  st_number hash h : get_block_header (port_store c) hash = Some h -> HeaderView_number h < 2 ^ 63;
  st_genesis hash h : get_block_header (port_store c) hash = Some h -> HeaderView_number h = 0 ->
    hash = genesis_hash consensus;
}.

Lemma new_headers c hash :
  startable c -> headers (SyncShared_new c) hash = get_block_header (port_store c) hash.
Proof.
  intros Hc. unfold headers_of, get_header_view, store. cbn. rewrite lookup_empty.
  pose proof (ix_ext _ _ (port_index _ (st_inv _ Hc)) hash) as Hx.
  destruct (get_block_header (port_store c) hash) as [h|]; [|done].
  by destruct (proj1 Hx ltac:(done)) as [x ->].
Qed.

Lemma new_node c : startable c -> node_ok 0 (SyncShared_new c).
Proof.
  intros Hc. pose proof (port_index _ (st_inv _ Hc)) as Hi.
  pose proof (fun hash => new_headers c hash Hc) as Hh. split.
  - split; cbn; [| |apply Hc| | | |].
    + split; [by eapply linked_ext; [exact Hh|apply port_linked; apply Hc]|].
      intros hash v Hv s Hs _. unfold get_header_view in Hv. cbn in Hv. rewrite lookup_empty in Hv.
      apply bind_Some in Hv as (h & _ & Hv). apply bind_Some in Hv as (x & _ & Hv). by injection Hv as <-.
    + intros h Hk Hn. unfold known in Hk. rewrite Hh in Hk. by eapply st_genesis.
    + intros hash v h. by rewrite lookup_empty.
    + intros hash st. by rewrite lookup_empty.
    + unfold known. rewrite Hh. apply Hi.
    + apply map_Forall_empty.
  - split; cbn; [apply orphans_wf_empty| |]; intros hash x; unfold orphan; cbn; by rewrite lookup_empty.
  - apply inflight_ok_default.
  - intros key st. cbn. by rewrite lookup_empty.
  - done.
  - done.
Qed.

(** The states the synchronizer comes to, with the time of the last event. *)
Inductive sync_reached (c : C) : Z -> Shared -> Prop :=
| reached_new : sync_reached c 0 (SyncShared_new c)
| reached_event time sh now e sh' sent :
    sync_reached c time sh -> time <= now -> time_ok now -> event_ok sh e ->
    sync_step now sh e = Ok (sh', sent) -> sync_reached c now sh'.

Lemma sync_reached_node c time sh : startable c -> sync_reached c time sh -> node_ok time sh.
Proof.
  intros Hc. induction 1 as [|time sh now e sh' sent _ IH Hle Hnow He Hs]; [by apply new_node|].
  pose proof (sync_step_node now sh e (node_later _ _ _ Hle IH) Hnow He) as Hstep. by rewrite Hs in Hstep.
Qed.

End node.

(** ** A concrete run

    A node that has the genesis block only meets a peer, asks it for headers, gets
    one, asks for its block, gets a block without a cellbase, and bans the peer. *)

#[local] Existing Instance list_order.
#[local] Existing Instance map_requests.
Definition run_port : ChainPort (@ChainService entry_cache) :=
  chain_port (H:=numext_ref) (H0:=toy_hasher) (H1:=map_cache) (H2:=entry_cache) toy_scripts None toy_consensus (fun _ => []).
#[local] Existing Instance run_port.
Definition run_port_spec : ChainPortSpec run_port := chain_port_spec toy_scripts None toy_consensus (fun _ => []).
#[local] Existing Instance run_port_spec.

Definition run_sync_block : Block := Block_reset_header (H:=toy_hasher)
  (mkBlock (mkHeader (mkRawHeader 0 0x1d080000 20000 1 (EpochFraction_new 0 1 1000) [0] [] [] [] []) 0) [] [] []).
Definition run_sync_header : Header := block_header run_sync_block.
Definition run_sync_step : Z -> SyncShared -> SyncEvent -> outcome Error (SyncShared * list SyncAction) :=
  sync_step (H:=numext_ref) (H0:=toy_hasher) toy_consensus (fun _ => true).
Definition run_sync_after (sh : SyncShared) (te : Z * SyncEvent) : SyncShared :=
  match run_sync_step te.1 sh te.2 with Ok (sh', _) => sh' | _ => sh end.

Definition run_hello : list (Z * SyncEvent) :=
  [(0, EvConnected 1 true false); (1000, EvNotify true SEND_GET_HEADERS_TOKEN)].
Definition run_headers : Z * SyncEvent :=
  (10000, EvReceived (fun _ => false) 1 (Some (MsgSendHeaders [run_sync_header]))).
Definition run_fetch_one : Z * SyncEvent := (11000, EvFetch [1]).
Definition run_bad_block : SyncEvent := EvReceived (fun _ => false) 1 (Some (MsgSendBlock run_sync_block)).

Definition run_greeted : SyncShared := foldl run_sync_after (SyncShared_new run_service) run_hello.
Definition run_informed : SyncShared := run_sync_after run_greeted run_headers.
Definition run_fetching : SyncShared := run_sync_after run_informed run_fetch_one.

Lemma run_startable : startable toy_consensus run_service.
Proof.
  assert (col_header (port_store run_service) = {[ [0] := BlockView_header run_block0 ]}) as Hheader by (by vm_compute).
  split; unfold get_block_header; rewrite ?Hheader.
  - exists [run_block0]. exact run_inv.
  - intros hash h [_ <-]%lookup_singleton_Some. by vm_compute.
  - intros hash h [<- _]%lookup_singleton_Some _. by vm_compute.
Qed.

Local Abbreviation run_sync_reached := (sync_reached (H:=numext_ref) (H0:=toy_hasher) toy_consensus (fun _ => true) run_service).

Lemma run_sync_reaches time sh now e :
  run_sync_reached time sh -> time <= now -> time_ok now ->
  event_ok (H:=numext_ref) (H0:=toy_hasher) sh e ->
  match run_sync_step now sh e with Ok _ => True | _ => False end -> run_sync_reached now (run_sync_after sh (now, e)).
Proof.
  intros Hr Hle Hnow He Hs. unfold run_sync_after. cbn [fst snd].
  destruct (run_sync_step now sh e) as [[sh' sent]| |] eqn:Hstep; [|done|done].
  by eapply reached_event; [exact Hr|done|done|done|exact Hstep].
Qed.

Lemma run_greeted_view hash v : get_header_view run_greeted hash = Some v -> view_total_difficulty v = 0x20000000.
Proof.
  assert (header_map (state run_greeted) = ∅) as Hm by (by vm_compute).
  assert (col_ext (store run_greeted) = {[ [0] := mkBlockExt 0 0x20000000 0 (Some true) [] ]}) as Hext by (by vm_compute).
  unfold get_header_view, get_block_ext. rewrite Hm, Hext, lookup_empty. intros (h & _ & Hv)%bind_Some.
  apply bind_Some in Hv as (x & [_ <-]%lookup_singleton_Some & [= <-]). done.
Qed.

Lemma run_headers_msg :
  headers_msg (H:=numext_ref) run_greeted 1 (Header_into_view (H:=toy_hasher) <$> [run_sync_header]).
Proof.
  split.
  - vm_compute. by eexists.
  - repeat constructor; by vm_compute.
  - intros h x ->%list_elem_of_singleton [Hx|[->%list_elem_of_singleton _]]; [|done]. by vm_compute in Hx.
  - exists 0x20000000. split; [|by vm_compute]. intros hash v ->%run_greeted_view. lia.
  - intros score. assert (misbehavior_scores (state run_greeted) = ∅) as -> by (by vm_compute). by rewrite lookup_empty.
Qed.

Lemma run_fetching_reached : run_sync_reached 11000 run_fetching.
Proof.
  unfold run_fetching, run_informed, run_fetch_one, run_headers.
  apply (run_sync_reaches 10000); [|done|done|done|vm_compute; exact I].
  apply (run_sync_reaches 1000); [|done|done|exact run_headers_msg|vm_compute; exact I].
  unfold run_greeted, run_hello. cbn [foldl].
  apply (run_sync_reaches 0); [|done|done|done|vm_compute; exact I].
  apply (run_sync_reaches 0); [|done|done|done|vm_compute; exact I]. apply reached_new.
Qed.

