(* ===== verification/SyncProperties.v ===== *)
(** * What synchronisation achieves

    Theorems on the states the synchronizer comes to: the skip links, the answer
    to a locator, the insertion of a block. *)

From S2P Require Import Prelude Capacity NumExt Difficulty Types Errors Epoch Cell Consensus Hashes Store.
From S2P Require Import HeaderVerifier TransactionVerifier ContextualVerifier ChainCell Chain Reorg ChainIndex SortedTxMap.
From S2P Require Import SkipList OrphanBlockPool InflightBlocks SyncState SyncShared ActiveChain Synchronizer.
From S2P Require Import SyncInvariant SyncBlocks SyncNode SyncSafety.

Section properties.
Context `{NumExt} `{NS : !NumExtSpec H} `{Hasher} {C : Type} `{P : !ChainPort C} `{PS : !ChainPortSpec P}.
Context `{RC : RequestCache}.
Context `{MO : !MapOrder Byte32 (PeerIndex * BlockView)} `{MS : !MapOrderSpec Byte32 (PeerIndex * BlockView) MO}.
Context `{MT : !MapOrder (Z * Byte32) Z} `{MTS : !MapOrderSpec (Z * Byte32) Z MT}.
Context `{MP : !MapOrder PeerIndex PeerState}.
Context (consensus : Consensus) (send_ok : SyncAction -> bool).
Context (Hcount : (0 < median_time_block_count consensus)%nat).

Abbreviation Shared := (SyncShared (C:=C)).
Abbreviation headers sh := (headers_of (get_header_view sh)).
Abbreviation pool sh := (orphan_block_pool (state sh)).
Implicit Types sh : Shared.

Lemma reached_sync c time sh : startable consensus c -> sync_reached consensus send_ok c time sh -> sync_ok consensus sh.
Proof. intros Hc Hr. eapply no_sync, sync_reached_node; done. Qed.

(** C17: The skip links, and the short cut over the main chain, lead to the ancestor
    that the walk from parent to parent comes to, in every state of the
    synchronizer and for every header it knows; nothing panics. *)
Theorem ancestor_is_linear c time sh h number :
  startable consensus c -> sync_reached consensus send_ok c time sh ->
  known (headers sh) h -> 0 <= number <= HeaderView_number h ->
  exists a, active_get_ancestor (active_chain sh) sh (header_hash h) number = Ok (Some a) /\
    up (headers sh) (Z.to_nat (HeaderView_number h - number)) h = Some a /\ HeaderView_number a = number.
Proof.
  intros Hc Hr Hk Hn. pose proof (reached_sync _ _ _ Hc Hr) as Hok.
  rewrite (active_ancestor_Ok _ _ (so_tree _ _ Hok) (so_main _ _ Hok)) by done.
  destruct (ancestor_at_total _ (tr_linked _ (so_tree _ _ Hok)) h number Hk Hn) as (a & Ha & _ & Hna).
  exists a. by rewrite Ha.
Qed.


(** C7: What a new block does in any state of the synchronizer, when its header is
    known.  With its parent stored it is verified: if it is accepted it is
    stored, with every orphan that descends from it taken out of the pool, each
    to be stored, marked invalid or left for its parent was refused, and every
    other orphan stays; if it is refused it is marked invalid and the orphans
    stay.  Without its parent it joins the orphans.  In no case a known header
    changes. *)
Theorem new_block_spec c time sh now peer b :
  startable consensus c -> sync_reached consensus send_ok c time sh -> block_known sh b ->
  match insert_new_block sh now peer b with
  | Ok (r, sh') =>
      (forall hash, headers sh' hash = headers sh hash) /\
      if is_parent_stored sh b then
        match r with
        | inl _ => is_stored sh' (block_hash b) /\
            forall hash x, orphan (pool sh) hash = Some x ->
              descends (pool sh) (block_hash b) hash /\ orphan (pool sh') hash = None /\ settled sh' x \/
              ~ descends (pool sh) (block_hash b) hash /\ orphan (pool sh') hash = Some x
        | inr _ => block_status_map (state sh') !! block_hash b = Some BLOCK_INVALID /\ pool sh' = pool sh
        end
      else r = inl false /\ orphan (pool sh') (block_hash b) = Some (peer, b)
  | Err _ => False
  | Panic => chain_panics now
  end.
Proof.
  intros Hc Hr Hb. pose proof (sync_reached_node _ _ Hcount _ _ _ Hc Hr) as Hn.
  pose proof (insert_new_block_Ok consensus sh now peer b (no_sync _ _ _ Hn) (no_orphans _ _ _ Hn) Hb) as Hi.
  destruct (insert_new_block sh now peer b) as [[r sh']| |]; [|done|done]. by destruct Hi as (_ & _ & ? & ?).
Qed.
End properties.

(** ** On the concrete run *)

#[local] Existing Instance list_order.
#[local] Existing Instance map_requests.
#[local] Existing Instance run_port.
#[local] Existing Instance run_port_spec.

Local Abbreviation run_reaches_sync := (sync_reached (H:=numext_ref) (H0:=toy_hasher) toy_consensus (fun _ => true)).

Lemma run_count : (0 < median_time_block_count toy_consensus)%nat.
Proof. vm_compute. lia. Qed.

Lemma ancestor_is_linear_witness :
  let h := inner (shared_best_header (state run_fetching)) in
  HeaderView_number h = 1 /\
  exists a, active_get_ancestor (active_chain run_fetching) run_fetching (header_hash h) 0 = Ok (Some a) /\
    up (headers_of (get_header_view run_fetching)) 1 h = Some a /\ HeaderView_number a = 0.
Proof.
  intros h. assert (HeaderView_number h = 1) as Hn by (by vm_compute). split; [done|].
  destruct (ancestor_is_linear (H:=numext_ref) (NS:=numext_ref_spec) (H0:=toy_hasher) (MS:=list_order_spec)
    (MTS:=list_order_spec) toy_consensus (fun _ => true) run_count run_service 11000 run_fetching h 0
    run_startable run_fetching_reached) as (a & A1 & A2 & A3).
  - vm_compute. reflexivity.
  - rewrite Hn. lia.
  - exists a. rewrite Hn in A2. change (Z.to_nat (1 - 0)) with 1%nat in A2. exact (conj A1 (conj A2 A3)).
Defined.

Lemma new_block_spec_witness :
  let b := Block_into_view (H:=toy_hasher) run_sync_block in
  exists r sh, insert_new_block run_fetching 12000 1 b = Ok (r, sh) /\
    block_status_map (state sh) !! block_hash b = Some BLOCK_INVALID.
Proof.
  intros b. assert (block_known run_fetching b) as Hb by (split; vm_compute; reflexivity).
  pose proof (new_block_spec (H:=numext_ref) (NS:=numext_ref_spec) (H0:=toy_hasher) (MS:=list_order_spec)
    (MTS:=list_order_spec) toy_consensus (fun _ => true) run_count run_service 11000 run_fetching 12000 1 b
    run_startable run_fetching_reached Hb) as Hs.
  assert (is_parent_stored run_fetching b = true) as Hp by (by vm_compute).
  assert (match insert_new_block run_fetching 12000 1 b with Ok (inr _, _) => true | _ => false end = true) as Hr
    by (by vm_compute).
  destruct (insert_new_block run_fetching 12000 1 b) as [[[r|e] sh]| |]; [done| |done|done].
  rewrite Hp in Hs. exists (inr e), sh. destruct Hs as (_ & Hs & _). exact (conj eq_refl Hs).
Defined.

Lemma startable_by s :
  port_inv s -> map_Forall (fun hash h => HeaderView_number h < 2 ^ 63 /\ (HeaderView_number h = 0 -> hash = [0]))
    (col_header (db s)) -> startable toy_consensus s.
Proof. intros Hs Hall. split; [done|intros hash h Hh; by apply (Hall hash h Hh)..]. Qed.

Lemma run_after_startable : startable toy_consensus run_after.
Proof.
  apply startable_by.
  - destruct (reached_inv _ _ _ _ _ _ _ run_reaches run_inv) as (p & _ & Hp). exists p. exact Hp.
  - apply (bool_decide_unpack _). vm_compute. exact I.
Qed.

Lemma index_avoids s stop :
  map_Forall (fun _ hash => hash <> stop) (col_index s) -> forall n, get_block_hash s n <> Some stop.
Proof. intros Hall n Hn. by apply (Hall n _ Hn). Qed.

